(** * InterviewIQ research pipeline: a shallow embedding of the server's
      research orchestration, with the properties of the design document
      checked against it.

    Sources embedded.
    - src/server/youtube.js, lines 1-386: researchGuest, fetchTranscripts,
      analyzeVideoWithGemini, analyzeVideosWithGemini.  (The file goes on
      with an earlier revision of the same functions, lines 388-680, which
      takes no [isPro] argument; research.js calls the functions with
      [isPro], so the first revision is the one embedded.)
    - src/server/research.js, lines 1-533: deepResearch and its helpers
      (webResearch and fetchWikipedia with the requests they issue: module
      [Web]); lines 535-671: generateQuestions (required by the routes as
      './gemini').
    - src/server/auth.js: getApiKeys; and, for the accounts kept in the
      local file (the branches taken when [isMongo()] is false), every
      function of the file: module [FileMode].
    - src/unnamed/part_001 (the Express routes): getUserKeys and the
      handlers of POST /api/research-guest and POST
      /api/generate-questions; the account, profile and settings routes:
      module [Routes].
    - src/unnamed/part_000 (the client), lines 287-331: the reader of the
      event stream in researchGuest; lines 551-576: what loadSettingsPage
      shows.

    Conventions of the embedding.
    - A JavaScript string is a [string]: a sequence of code units, here the
      code units below 256 (ASCII and Latin-1), one [ascii] each.  Literal
      texts of the source that are only passed on (the Hindi query words,
      a dash in an error text) are written as they stand.
    - An [await]ed external call (YouTube Data API, transcript library,
      Gemini, Wikipedia) is a field of the record [World]: the reply of the
      outside world to that request.  A call the code repeats with the same
      arguments carries the ordinal of the repetition, so that the world may
      answer each repetition differently.
    - Every function of the pipeline runs in the monad [M]: it produces the
      ordered trace of its effects (progress events handed to [onProgress],
      requests issued, [setTimeout] delays awaited) and either returns a
      value or throws a JavaScript [Error].  [console.log] is not modelled,
      and [onProgress] is a callback that does not throw.
    - The prompts sent to the model are not spelled out: a request names the
      function that builds the prompt and the values it is built from. *)

From Stdlib Require Import Ascii String ZArith Lia Sorted.
From stdpp Require Import gmap strings list pretty.

Open Scope string_scope.
Open Scope list_scope.
Open Scope nat_scope.

(* ===================================================================== *)
(** * JavaScript string primitives *)
(* ===================================================================== *)

Module JsString.

(** Code units with a different lower-case form, below 256: A-Z, and the
    Latin-1 capitals U+00C0-U+00DE except the multiplication sign U+00D7. *)
Definition is_upper (c : ascii) : bool :=
  let n := nat_of_ascii c in
  (Nat.leb 65 n && Nat.leb n 90)
  || (Nat.leb 192 n && Nat.leb n 222 && negb (Nat.eqb n 215)).

Definition lower_char (c : ascii) : ascii :=
  if is_upper c then ascii_of_nat (nat_of_ascii c + 32) else c.

(** [String.prototype.toLowerCase] *)
Fixpoint toLowerCase (s : string) : string :=
  match s with
  | EmptyString => EmptyString
  | String c r => String (lower_char c) (toLowerCase r)
  end.

(** [s.startsWith(p)] *)
Fixpoint startsWith (s p : string) {struct p} : bool :=
  match p with
  | EmptyString => true
  | String a p' =>
      match s with
      | EmptyString => false
      | String b s' => if Ascii.eqb a b then startsWith s' p' else false
      end
  end.

(** [s.includes(sub)] *)
Fixpoint includes (s sub : string) {struct s} : bool :=
  startsWith s sub
  || match s with
     | EmptyString => false
     | String _ s' => includes s' sub
     end.

(** [s.replace(/pat/g, rep)] for a literal, non-empty pattern: matches are
    found left to right and do not overlap.  [skip] counts the code units
    of the current match still to be dropped. *)
Fixpoint replace_go (pat rep : string) (skip : nat) (s : string) : string :=
  match s with
  | EmptyString => EmptyString
  | String c s' =>
      match skip with
      | S k => replace_go pat rep k s'
      | O =>
          if startsWith s pat
          then rep +:+ replace_go pat rep (String.length pat - 1) s'
          else String c (replace_go pat rep 0 s')
      end
  end.

Definition replaceAll (pat rep s : string) : string := replace_go pat rep 0 s.

(** The class [\s] of a JavaScript regular expression, below 256:
    TAB, LF, VT, FF, CR, space and the no-break space U+00A0. *)
Definition is_space (c : ascii) : bool :=
  let n := nat_of_ascii c in
  (Nat.leb 9 n && Nat.leb n 13) || Nat.eqb n 32 || Nat.eqb n 160.

(** [s.replace(/\s+/g, ' ')] *)
Fixpoint collapse_ws_go (in_ws : bool) (s : string) : string :=
  match s with
  | EmptyString => EmptyString
  | String c s' =>
      if is_space c
      then (if in_ws then collapse_ws_go true s'
            else String " " (collapse_ws_go true s'))
      else String c (collapse_ws_go false s')
  end.

Definition collapse_ws (s : string) : string := collapse_ws_go false s.

Fixpoint trimStart (s : string) : string :=
  match s with
  | EmptyString => EmptyString
  | String c s' => if is_space c then trimStart s' else s
  end.

Fixpoint trimEnd (s : string) : string :=
  match s with
  | EmptyString => EmptyString
  | String c s' =>
      match trimEnd s' with
      | EmptyString => if is_space c then EmptyString else String c EmptyString
      | r => String c r
      end
  end.

(** [s.trim()] *)
Definition trim (s : string) : string := trimEnd (trimStart s).

(** [s.split(/\s+/)]: the pieces between maximal runs of white space; a
    run at either end of [s] leaves an empty piece there, and the empty
    string splits into one empty piece.  The head of the result is the
    piece being read. *)
Fixpoint split_ws_go (prev_ws : bool) (s : string) : list string :=
  match s with
  | EmptyString => [EmptyString]
  | String c s' =>
      if is_space c
      then (if prev_ws then split_ws_go true s'
            else EmptyString :: split_ws_go true s')
      else match split_ws_go false s' with
           | t :: ts => String c t :: ts
           | [] => [String c EmptyString]
           end
  end.

Definition split_ws (s : string) : list string := split_ws_go false s.

(** [s.substring(0, n)] *)
Definition substring0 (n : nat) (s : string) : string := String.substring 0 n s.

(** [s.slice(n)] for [0 <= n] *)
Fixpoint slice_from (n : nat) (s : string) : string :=
  match n, s with
  | O, _ => s
  | S k, EmptyString => EmptyString
  | S k, String _ s' => slice_from k s'
  end.

(** [s.endsWith(suf)] *)
Definition endsWith (s suf : string) : bool :=
  Nat.leb (String.length suf) (String.length s)
  && String.eqb (slice_from (String.length s - String.length suf) s) suf.

(** [xs.join(sep)] *)
Fixpoint join (sep : string) (xs : list string) : string :=
  match xs with
  | [] => EmptyString
  | [x] => x
  | x :: rest => x +:+ sep +:+ join sep rest
  end.

(** A string is truthy when it is not empty. *)
Definition nonempty (s : string) : bool := negb (String.eqb s "").

(** [a || b] on strings *)
Definition or_else (a b : string) : string := if nonempty a then a else b.

End JsString.
Import JsString.


(* ===================================================================== *)
(** * JavaScript values and objects *)
(* ===================================================================== *)

(** The values stored in the objects the server passes around. *)
Inductive jsval :=
| JUndefined
| JNull
| JBool (b : bool)
| JNum (z : Z)
| JStr (s : string).

(** [!!v] *)
Definition truthy (v : jsval) : bool :=
  match v with
  | JUndefined | JNull => false
  | JBool b => b
  | JNum z => negb (Z.eqb z 0)
  | JStr s => nonempty s
  end.

(** [a || b] *)
Definition js_or (a b : jsval) : jsval := if truthy a then a else b.

(** A plain object: a finite map from property names to values. *)
Abbreviation jsobject := (gmap string jsval).

(** [o.k], [undefined] when the property is absent. *)
Definition get (o : jsobject) (k : string) : jsval := default JUndefined (o !! k).

(* ===================================================================== *)
(** * Data model *)
(* ===================================================================== *)

(** One element of [response.data.items] of the YouTube search endpoint. *)
Record yt_item := {
  item_videoId : string;              (* item.id.videoId *)
  item_title : string;                (* item.snippet.title *)
  item_description : string;          (* item.snippet.description *)
  item_channelTitle : string;         (* item.snippet.channelTitle *)
  item_publishedAt : Z;               (* item.snippet.publishedAt *)
  item_thumb_high : option string;    (* item.snippet.thumbnails?.high?.url *)
  item_thumb_default : option string  (* item.snippet.thumbnails?.default?.url *)
}.

(** The object pushed on [allVideos] (youtube.js, researchGuest).
    [publishedAt] stands for the instant [new Date(v.publishedAt)] that the
    sort compares, in milliseconds. *)
Record video := {
  videoId : string;
  title : string;
  description : string;
  channelTitle : string;
  publishedAt : Z;
  thumbnail : option string
}.

(** One segment returned by [YoutubeTranscript.fetchTranscript]. *)
Record segment := { seg_text : string; seg_lang : option string }.

(** An analysed video: the object pushed on [results] by fetchTranscripts
    (no [source] field) and the one returned by analyzeVideoWithGemini
    ([source: 'gemini-video']). *)
Record content := {
  c_videoId : string;
  c_title : string;
  c_channelTitle : string;
  transcript : string;
  lang : string;
  source : option string
}.

Record web_profile := {
  profile : string;
  web_source : string;
  sources : list (string * string)
}.

(** The object returned by researchGuest. *)
Record search_result := {
  sr_guestName : string;
  sr_totalInterviewsFound : nat;
  sr_interviews : list video
}.

(** The object returned by fetchTranscripts. *)
Record fetch_result := {
  fr_transcripts : list content;
  failedVideos : list video
}.

(** The object returned by deepResearch. *)
Record report := {
  guestName : string;
  originalQuery : string;
  correctedName : option string;
  totalInterviewsFound : nat;
  transcriptsAnalyzed : nat;
  interviews : list video;
  topicsSummary : string;
  videoAnalysis : string;
  webProfile : option web_profile
}.

(** ** Progress events *)

Inductive step :=
| step_start | step_name_check | step_youtube | step_transcripts
| step_gemini_video | step_analyze_videos | step_web_search | step_compile
| step_complete.

Inductive status := Active | Done | Error.

#[global] Instance step_eq_dec : EqDecision step.
Proof. solve_decision. Defined.

(** The [message] of a progress event: one constructor per template string
    of the source, carrying the values interpolated in it. *)
Inductive message :=
| MsgStarting (name : string)            (* Starting deep research on ${guestName}... *)
| MsgVerifying                           (* Verifying guest name... *)
| MsgCorrected (name : string)           (* Corrected to: ${correctedName} *)
| MsgConfirmed (name : string)           (* Confirmed: ${correctedName} *)
| MsgUsing (name : string)               (* Using: ${guestName} *)
| MsgSearching (name : string)           (* Searching YouTube for ${searchName} ... *)
| MsgFound (n : nat)                     (* Found ${n} relevant YouTube videos *)
| MsgSearchFailed (err : string)         (* YouTube search failed: ${err.message} *)
| MsgReadingAll (n : nat)                (* Reading transcripts from all ${n} videos ... *)
| MsgScanned (succeeded scanned total : nat)
                                         (* Read ${succeeded} transcripts (${i + 1}/${n} videos scanned)... *)
| MsgRead (n : nat) (langDisplay : list string) (failed : nat)
                                         (* Read ${n} transcripts${langStr} · ${m} videos need AI analysis *)
| MsgTranscriptsFailed                   (* Transcript fetching failed, AI will analyze videos directly *)
| MsgWatchingAll (n : nat) (isPro : bool)
                                         (* AI watching ${n} videos without transcripts (max 15 in Free mode)... *)
| MsgWatchingOne (i n skipped : nat)     (* AI watching video ${i} of ${n} (${skipped} skipped)... *)
| MsgWatchingBatch (i j n : nat)         (* AI watching videos ${i}–${j} of ${n} (Pro mode)... *)
| MsgQuotaFree (analyzed n : nat)        (* Gemini API quota exhausted. ${analyzed} of ${n} videos analyzed. ... *)
| MsgQuotaPro (i analyzed : nat)         (* Gemini API quota exhausted after ${i} videos. ${analyzed} analyzed. ... *)
| MsgWatched (n : nat)                   (* AI analyzed ${n} videos directly (no transcripts needed) *)
| MsgWatchFailed                         (* Some videos could not be analyzed *)
| MsgDeepReading (n : nat)               (* AI deep-reading ${n} videos pin-to-pin... *)
| MsgDeepAnalyzed (n t g : nat)          (* Deep-analyzed ${n} videos (${t} transcripts + ${g} AI-watched) *)
| MsgRateLimit (seconds : N) (next : nat) (* Rate limit hit, retrying in ${s}s... (attempt ${next}/3) *)
| MsgDeepFailed                          (* Deep analysis failed, trying metadata... *)
| MsgMetadata (n : nat)                  (* AI analyzing ${n} video titles & patterns... *)
| MsgPatterns (n : nat)                  (* Analyzed patterns across ${n} videos *)
| MsgAnalysisIssue                       (* Video analysis encountered an issue *)
| MsgWebSearching                        (* Searching articles, blogs, news, Wikipedia, social media... *)
| MsgWebRead (sourceCount : nat) (wiki : bool)
                                         (* Read ${sourceCount} web sources + Wikipedia *)
| MsgCompiling                           (* Compiling comprehensive intelligence report... *)
| MsgReady                               (* Intelligence report ready *)
| MsgComplete.                           (* Research complete! *)

Record event := { ev_step : step; ev_status : status; ev_message : message }.

(** ** Requests to the outside world *)

(** The input of generateQuestions. *)
Record questions_input := {
  interviewerName : string;
  interviewerStyle : string;
  channelDescription : string;
  q_guestName : string;
  guestContext : string;
  pastInterviewsSummary : string;
  questionCount : nat;
  geminiApiKey : jsval
}.

(** A [model.generateContent(prompt)] call, named by the function that
    builds the prompt and the values the prompt is built from. *)
Inductive gen_request :=
| CorrectName (name : string)
| WatchVideo (v : video)
| DeepAnalyze (name : string) (allContent : list content) (context : string)
              (attempt : nat)
| AnalyzeMetadata (name : string) (vs : list video) (context : string)
| WriteQuestions (modelName : string) (attempt : nat) (input : questions_input).

Inductive request :=
| YtSearchList (ordinal : nat) (q : string) (maxResults : nat)
| FetchTranscript (id : string) (tryLang : option string)
| GenerateContent (r : gen_request)
| WebResearch (name : string)
| FetchWikipedia (name : string).

Record js_error := { err_message : string }.

Inductive effect :=
| Progress (e : event)      (* onProgress(e) *)
| Call (r : request)        (* an external call is issued *)
| Sleep (ms : N).           (* await new Promise(r => setTimeout(r, ms)) *)

(** ** Replies of the outside world *)

Inductive yt_reply :=
| YtItems (items : option (list yt_item))   (* response.data.items, or none *)
| YtError (msg : string).                   (* the call rejects with err.message *)

Inductive transcript_reply :=
| Segments (segs : list segment)
| TranscriptError (msg : string).

Inductive gen_reply :=
| GenText (text : string)    (* result.response.text() *)
| GenError (msg : string).   (* the call rejects, or the 30 s guard fires *)

(** The state of a promise handed to [Promise.allSettled]. *)
Inductive settled (A : Type) :=
| Fulfilled (a : A)
| Rejected (e : js_error).
Arguments Fulfilled {A} a.
Arguments Rejected {A} e.

Record World := {
  env_YOUTUBE_API_KEY : string;       (* process.env.YOUTUBE_API_KEY *)
  env_GEMINI_API_KEY : string;        (* process.env.GEMINI_API_KEY *)
  search_list : nat -> string -> nat -> yt_reply;
  fetchTranscript : string -> option string -> transcript_reply;
  generateContent : gen_request -> gen_reply;
  webResearch : string -> jsval -> settled (option web_profile);
  fetchWikipedia : string -> settled (option string)
}.

(* ===================================================================== *)
(** * The effect monad *)
(* ===================================================================== *)

Inductive outcome (A : Type) :=
| Returned (a : A)
| Thrown (e : js_error).
Arguments Returned {A} a.
Arguments Thrown {A} e.

Definition M (A : Type) : Type := list effect * outcome A.

Definition ret {A} (a : A) : M A := ([], Returned a).

Definition throw {A} (msg : string) : M A := ([], Thrown {| err_message := msg |}).

Definition bind {A B} (m : M A) (k : A -> M B) : M B :=
  match m with
  | (t, Returned a) => let '(t', r) := k a in (t ++ t', r)
  | (t, Thrown e) => (t, Thrown e)
  end.

(** [try { m } catch (err) { h err }] *)
Definition try_catch {A} (m : M A) (h : js_error -> M A) : M A :=
  match m with
  | (t, Returned a) => (t, Returned a)
  | (t, Thrown e) => let '(t', r) := h e in (t ++ t', r)
  end.

Definition perform (e : effect) : M unit := ([e], Returned tt).

Definition onProgress (s : step) (st : status) (m : message) : M unit :=
  perform (Progress {| ev_step := s; ev_status := st; ev_message := m |}).

Definition call (r : request) : M unit := perform (Call r).

Definition sleep (ms : N) : M unit := perform (Sleep ms).

Definition trace {A} (m : M A) : list effect := fst m.
Definition result {A} (m : M A) : outcome A := snd m.

Notation "'let*' x := m 'in' k" := (bind m (fun x => k))
  (at level 10, x binder, m at level 100, k at level 200).
Notation "m ;;; k" := (bind m (fun _ => k))
  (at level 100, k at level 200, right associativity).

(** Projections of a trace. *)
Definition requests (t : list effect) : list request :=
  omap (fun e => match e with Call r => Some r | _ => None end) t.

Definition events (t : list effect) : list event :=
  omap (fun e => match e with Progress ev => Some ev | _ => None end) t.

Definition sleeps (t : list effect) : list N :=
  omap (fun e => match e with Sleep ms => Some ms | _ => None end) t.

(** [Promise.all(xs.map(f))]: the calls are issued in the order of [xs];
    the promise rejects when one of them does. *)
Fixpoint mapM {A B} (f : A -> M B) (xs : list A) : M (list B) :=
  match xs with
  | [] => ret []
  | x :: rest =>
      let* y := f x in
      let* ys := mapM f rest in
      ret (y :: ys)
  end.

(* ===================================================================== *)
(** * src/server/youtube.js, lines 1-386 *)
(* ===================================================================== *)

(** The double quote, as a one-character string. *)
Definition dq : string := String (ascii_of_nat 34) EmptyString.

(** The five entity replacements applied to API text, in the order of the
    source: researchGuest's [decodeHtml] and the chain of [replace] calls
    of fetchTranscripts. *)
Definition decodeHtml (str : string) : string :=
  replaceAll "&gt;" ">"
    (replaceAll "&lt;" "<"
       (replaceAll "&quot;" dq
          (replaceAll "&amp;" "&"
             (replaceAll "&#39;" "'" str)))).

Definition QUOTA_EXHAUSTED : string :=
  "QUOTA_EXHAUSTED: YouTube API daily quota exhausted. Resets at midnight Pacific Time (12:30 PM IST). Try again later or add a different API key in Settings.".

(** The local state of researchGuest's query loop. *)
Record search_state := {
  allVideos : list video;
  seenIds : gset string;
  quotaErrors : nat
}.

Section Youtube.

Variable w : World.

Definition createYoutubeClient (customKey : jsval) : M unit :=
  let key := js_or customKey (JStr (env_YOUTUBE_API_KEY w)) in
  if truthy key then ret tt
  else throw "YouTube API Key is missing. Please configure it in Settings.".

Definition createGeminiClient (customKey : jsval) : M unit :=
  let key := js_or customKey (JStr (env_GEMINI_API_KEY w)) in
  if truthy key then ret tt
  else throw "Gemini API Key is missing. Please configure it in Settings.".

(** [await yt.search.list({ q, maxResults, ... })]; the result is
    [response.data.items]. *)
Definition yt_search (ordinal : nat) (q : string) (maxResults : nat)
  : M (option (list yt_item)) :=
  call (YtSearchList ordinal q maxResults) ;;;
  match search_list w ordinal q maxResults with
  | YtItems items => ret items
  | YtError msg => throw msg
  end.

(** [await YoutubeTranscript.fetchTranscript(videoId, { lang })]; a null
    result is the empty list of segments. *)
Definition fetch_segments (id : string) (tryLang : option string)
  : M (list segment) :=
  call (FetchTranscript id tryLang) ;;;
  match fetchTranscript w id tryLang with
  | Segments segs => ret segs
  | TranscriptError msg => throw msg
  end.

(** [(await model.generateContent(prompt)).response.text()] *)
Definition generate (r : gen_request) : M string :=
  call (GenerateContent r) ;;;
  match generateContent w r with
  | GenText text => ret text
  | GenError msg => throw msg
  end.

(** ** researchGuest *)

Definition baseQueries (guestName : string) : list string :=
  [ dq +:+ guestName +:+ dq +:+ " interview";
    dq +:+ guestName +:+ dq +:+ " podcast";
    dq +:+ guestName +:+ dq +:+ " conversation";
    dq +:+ guestName +:+ dq +:+ " talk show";
    guestName +:+ " interview full video";
    guestName +:+ " podcast episode";
    dq +:+ guestName +:+ dq +:+ " इंटरव्यू";
    dq +:+ guestName +:+ dq +:+ " पॉडकास्ट" ].

Definition proExtraQueries (guestName : string) : list string :=
  [ dq +:+ guestName +:+ dq +:+ " full episode";
    dq +:+ guestName +:+ dq +:+ " keynote speech";
    dq +:+ guestName +:+ dq +:+ " panel discussion";
    dq +:+ guestName +:+ dq +:+ " QnA";
    dq +:+ guestName +:+ dq +:+ " बातचीत" ].

(** [high?.url || default?.url] *)
Definition thumbnail_of (it : yt_item) : option string :=
  match item_thumb_high it with
  | Some u => if nonempty u then Some u else item_thumb_default it
  | None => item_thumb_default it
  end.

Definition video_of_item (it : yt_item) : video :=
  {| videoId := item_videoId it;
     title := item_title it;
     description := item_description it;
     channelTitle := item_channelTitle it;
     publishedAt := item_publishedAt it;
     thumbnail := thumbnail_of it |}.

(** The inner loop [for (const item of response.data.items)]. *)
Fixpoint add_items (items : list yt_item) (st : search_state) : search_state :=
  match items with
  | [] => st
  | item :: rest =>
      add_items rest
        (if decide (item_videoId item ∈ seenIds st) then st
         else {| allVideos := allVideos st ++ [video_of_item item];
                 seenIds := {[ item_videoId item ]} ∪ seenIds st;
                 quotaErrors := quotaErrors st |})
  end.

Definition is_quota_message (msg : string) : bool :=
  includes msg "quota" || includes msg "Quota" || includes msg "exceeded".

(** [allVideos.length >= maxVideoCap], where no cap stands for Infinity. *)
Definition reached (maxVideoCap : option nat) (n : nat) : bool :=
  match maxVideoCap with
  | Some cap => Nat.leb cap n
  | None => false
  end.

(** The loop [for (const query of queries)]; [ordinal] is the position
    of the query in [queries]. *)
Fixpoint query_loop (maxResults : nat) (maxVideoCap : option nat)
    (maxQuotaErrors : nat) (ordinal : nat) (queries : list string)
    (st : search_state) : M search_state :=
  match queries with
  | [] => ret st
  | query :: rest =>
      if reached maxVideoCap (length (allVideos st)) then ret st
      else if Nat.leb maxQuotaErrors (quotaErrors st) then ret st
      else
        let* st' :=
          try_catch
            (let* items := yt_search ordinal query maxResults in
             match items with
             | Some items => ret (add_items items st)
             | None => ret st
             end)
            (fun err =>
               let msg := err_message err in
               if is_quota_message msg
               then ret {| allVideos := allVideos st;
                           seenIds := seenIds st;
                           quotaErrors := S (quotaErrors st) |}
               else ret st) in
        query_loop maxResults maxVideoCap maxQuotaErrors (S ordinal) rest st'
  end.

(** [guestName.toLowerCase().split(/\s+/).filter(p => p.length > 2)] *)
Definition nameParts (guestName : string) : list string :=
  List.filter (fun p => Nat.ltb 2 (String.length p))
              (split_ws (toLowerCase guestName)).

(** [nameParts[0] || ''] *)
Definition firstName (guestName : string) : string :=
  default "" (head (nameParts guestName)).

(** [nameParts[nameParts.length - 1] || ''] *)
Definition lastName (guestName : string) : string :=
  default "" (last (nameParts guestName)).

(** The predicate of [allVideos.filter(v => ...)]. *)
Definition relevant (guestName : string) (v : video) : bool :=
  let fullName := toLowerCase guestName in
  let firstName := firstName guestName in
  let lastName := lastName guestName in
  let title := toLowerCase (decodeHtml (title v)) in
  let desc := toLowerCase (decodeHtml (description v)) in
  let channel := toLowerCase (decodeHtml (channelTitle v)) in
  let all := title +:+ " " +:+ desc +:+ " " +:+ channel in
  if includes all fullName then true
  else if nonempty lastName && includes title lastName then true
  else if nonempty firstName && nonempty lastName
          && includes all firstName && includes all lastName then true
  else if includes channel lastName || includes channel firstName then true
  else false.

(** [relevant.sort((a, b) => new Date(b.publishedAt) - new Date(a.publishedAt))]:
    most recent first; the sort is stable, so videos of the same instant
    keep their order. *)
Fixpoint insert_by_date (v : video) (l : list video) : list video :=
  match l with
  | [] => [v]
  | x :: rest =>
      if Z.ltb (publishedAt v) (publishedAt x)
      then x :: insert_by_date v rest
      else v :: l
  end.

Definition sort_recent_first (l : list video) : list video :=
  foldr insert_by_date [] l.

Definition researchGuest (guestName : string) (youtubeApiKey : jsval)
    (isPro : bool)
  : M search_result :=
  createYoutubeClient youtubeApiKey ;;;
  let queries :=
    if isPro then baseQueries guestName ++ proExtraQueries guestName
    else baseQueries guestName in
  let maxResults := if isPro then 50 else 20 in
  let maxVideoCap := if isPro then None else Some 100 in
  let maxQuotaErrors := if isPro then length queries else 3 in
  let* st :=
    query_loop maxResults maxVideoCap maxQuotaErrors 0 queries
      {| allVideos := []; seenIds := ∅; quotaErrors := 0 |} in
  if Nat.ltb 0 (quotaErrors st) && Nat.eqb (length (allVideos st)) 0
  then throw QUOTA_EXHAUSTED
  else
    let relevant :=
      sort_recent_first (List.filter (relevant guestName) (allVideos st)) in
    ret {| sr_guestName := guestName;
           sr_totalInterviewsFound := length relevant;
           sr_interviews := relevant |}.

(** ** fetchTranscripts *)

Definition langs : list string :=
  ["en"; "hi"; "es"; "pt"; "fr"; "de"; "ja"; "ko"; "ar"; "ru"; "zh"].

(** The loop [for (const tryLang of langs)] of the [catch] branch: a
    fetch that resolves overwrites [segments]; a non-empty one also sets
    [lang] and leaves the loop; a fetch that throws changes nothing. *)
Fixpoint try_langs (id : string) (ls : list string)
    (segments : list segment) (lang : string) : M (list segment * string) :=
  match ls with
  | [] => ret (segments, lang)
  | tryLang :: rest =>
      let* fetched :=
        try_catch
          (let* segs := fetch_segments id (Some tryLang) in ret (Some segs))
          (fun _ => ret None) in
      match fetched with
      | Some segs =>
          if Nat.ltb 0 (length segs) then ret (segs, tryLang)
          else try_langs id rest segs lang
      | None => try_langs id rest segments lang
      end
  end.

(** [segments[0].lang || 'auto'] *)
Definition detected_lang (segs : list segment) : string :=
  match segs with
  | seg :: _ => or_else (default "" (seg_lang seg)) "auto"
  | [] => "unknown"
  end.

(** The [try]/[catch] at the head of the loop body: the segments and the
    language of one video. *)
Definition fetch_one (video : video) : M (list segment * string) :=
  try_catch
    (let* segs := fetch_segments (videoId video) None in
     ret (segs, detected_lang segs))
    (fun _ => try_langs (videoId video) langs [] "unknown").

Definition fullText (segments : list segment) : string :=
  trim (collapse_ws (decodeHtml (join " " (map seg_text segments)))).

(** The loop [for (let i = 0; i < videos.length; i++)]; [n] is
    [videos.length] and [rest] the videos from index [i] on. *)
Fixpoint fetch_loop (n i : nat) (rest : list video)
    (results : list content) (failed : list video) (succeeded : nat)
  : M fetch_result :=
  match rest with
  | [] => ret {| fr_transcripts := results; failedVideos := failed |}
  | video :: rest' =>
      let* '(segments, lang) := fetch_one video in
      let '(results, failed, succeeded) :=
        if Nat.ltb 0 (length segments) then
          let fullText := fullText segments in
          if Nat.ltb 100 (String.length fullText)
          then (results ++ [ {| c_videoId := videoId video;
                                c_title := title video;
                                c_channelTitle := channelTitle video;
                                transcript := substring0 (15 * 1000) fullText;
                                lang := lang;
                                source := None |} ],
                failed, S succeeded)
          else (results, failed ++ [video], succeeded)
        else (results, failed ++ [video], succeeded) in
      onProgress step_transcripts Active (MsgScanned succeeded (i + 1) n) ;;;
      (if Nat.ltb i (n - 1) then sleep 100%N else ret tt) ;;;
      fetch_loop n (S i) rest' results failed succeeded
  end.

Definition fetchTranscripts (videos : list video) : M fetch_result :=
  fetch_loop (length videos) 0 videos [] [] 0.

(** ** analyzeVideoWithGemini *)

Definition analyzeVideoWithGemini (video : video) (geminiApiKey : jsval)
  : M (option content) :=
  createGeminiClient geminiApiKey ;;;
  try_catch
    (let* analysis := generate (WatchVideo video) in
     if Nat.ltb 100 (String.length analysis)
     then ret (Some {| c_videoId := videoId video;
                       c_title := title video;
                       c_channelTitle := channelTitle video;
                       transcript := analysis;
                       lang := "gemini-analyzed";
                       source := Some "gemini-video" |})
     else ret None)
    (fun _ => ret None).

(** ** analyzeVideosWithGemini *)

(** Free mode: [for (let i = 0; i < videosToAnalyze.length; i++)]; [n] is
    [videosToAnalyze.length] and [rest] the videos from index [i] on. *)
Fixpoint free_loop (maxConsecutiveFailures n skipped : nat)
    (geminiApiKey : jsval) (i : nat) (rest : list video)
    (results : list content) (consecutiveFailures : nat)
  : M (list content) :=
  match rest with
  | [] => ret results
  | video :: rest' =>
      if Nat.leb maxConsecutiveFailures consecutiveFailures then
        onProgress step_gemini_video Error (MsgQuotaFree (length results) n) ;;;
        ret results
      else
        onProgress step_gemini_video Active (MsgWatchingOne (i + 1) n skipped) ;;;
        let* r := analyzeVideoWithGemini video geminiApiKey in
        let '(results, consecutiveFailures) :=
          match r with
          | Some c => (results ++ [c], 0)
          | None => (results, S consecutiveFailures)
          end in
        (if Nat.ltb i (n - 1) then sleep 1500%N else ret tt) ;;;
        free_loop maxConsecutiveFailures n skipped geminiApiKey (S i) rest'
          results consecutiveFailures
  end.

Definition batchSize : nat := 3.

(** Pro mode: [for (let i = 0; i < videosToAnalyze.length; i += batchSize)];
    [rest] is the videos from index [i] on, [take batchSize rest] the
    batch [videosToAnalyze.slice(i, i + batchSize)], and the loop goes on
    with the videos after the batch. *)
Fixpoint pro_loop (maxConsecutiveFailures n : nat) (geminiApiKey : jsval)
    (i : nat) (rest : list video) (results : list content)
    (consecutiveFailures : nat) : M (list content) :=
  match rest with
  | [] => ret results
  | _ :: tail =>
      if Nat.leb maxConsecutiveFailures consecutiveFailures then
        onProgress step_gemini_video Error (MsgQuotaPro i (length results)) ;;;
        ret results
      else
        let batch := take batchSize rest in
        onProgress step_gemini_video Active
          (MsgWatchingBatch (i + 1) (Nat.min (i + batchSize) n) n) ;;;
        let* batchResults :=
          mapM (fun video => analyzeVideoWithGemini video geminiApiKey) batch in
        let results := results ++ omap id batchResults in
        let batchFailed := length (List.filter (fun r => negb (bool_decide (is_Some r))) batchResults) in
        let consecutiveFailures :=
          if Nat.eqb batchFailed (length batch)
          then consecutiveFailures + batchFailed
          else 0 in
        (if Nat.ltb (i + batchSize) n then sleep 1000%N else ret tt) ;;;
        match tail with
        | _ :: _ :: rest' =>
            pro_loop maxConsecutiveFailures n geminiApiKey (i + batchSize)
              rest' results consecutiveFailures
        | _ => ret results
        end
  end.

Definition analyzeVideosWithGemini (videos : list video)
    (geminiApiKey : jsval) (isPro : bool) : M (list content) :=
  let MAX_GEMINI_VIDEOS := if isPro then length videos else 15 in
  let videosToAnalyze := take MAX_GEMINI_VIDEOS videos in
  let skipped := length videos - length videosToAnalyze in
  let maxConsecutiveFailures := if isPro then 5 else 3 in
  if isPro
  then pro_loop maxConsecutiveFailures (length videosToAnalyze) geminiApiKey
         0 videosToAnalyze [] 0
  else free_loop maxConsecutiveFailures (length videosToAnalyze) skipped
         geminiApiKey 0 videosToAnalyze [] 0.

End Youtube.

(* ===================================================================== *)
(** * src/server/research.js, lines 1-533: deepResearch *)
(* ===================================================================== *)

(** The three functions research.js imports from './youtube'. *)
Record YoutubeModule := {
  youtubeSearch : string -> jsval -> bool -> M search_result;
  imported_fetchTranscripts : list video -> M fetch_result;
  imported_analyzeVideosWithGemini : list video -> jsval -> bool -> M (list content)
}.

(** The module as server/youtube.js exports it. *)
Definition youtube_js (w : World) : YoutubeModule :=
  {| youtubeSearch := researchGuest w;
     imported_fetchTranscripts := fetchTranscripts w;
     imported_analyzeVideosWithGemini := analyzeVideosWithGemini w |}.

(** The line feed, as a one-character string. *)
Definition nl : string := String (ascii_of_nat 10) EmptyString.

(** The local variables of deepResearch that the report is computed from,
    next to the report itself. *)
Record run := {
  run_ytResult : search_result;
  run_transcripts : list content;
  run_failedVideos : list video;
  run_geminiAnalyzed : list content;
  run_report : report
}.

Definition langNames : list (string * string) :=
  [ ("en", "English"); ("hi", "Hindi"); ("es", "Spanish"); ("fr", "French");
    ("de", "German"); ("ja", "Japanese"); ("ko", "Korean");
    ("pt", "Portuguese"); ("ar", "Arabic"); ("ru", "Russian");
    ("zh", "Chinese") ].

(** [[...new Set(xs)]]: the first occurrence of each element, in order. *)
Fixpoint unique (xs : list string) (seen : gset string) : list string :=
  match xs with
  | [] => []
  | x :: rest =>
      if decide (x ∈ seen) then unique rest seen
      else x :: unique rest ({[ x ]} ∪ seen)
  end.

(** [langs.map(l => langNames[l] || l)] over the distinct languages of the
    transcripts other than 'unknown' and 'auto'. *)
Definition langDisplay (transcripts : list content) : list string :=
  let langs :=
    unique
      (List.filter
         (fun l => nonempty l && negb (String.eqb l "unknown")
                   && negb (String.eqb l "auto"))
         (map lang transcripts)) ∅ in
  map (fun l => or_else (default "" (snd <$> List.find (fun p => String.eqb (fst p) l) langNames)) l)
      langs.

Definition rate_limit_shaped (msg : string) : bool :=
  includes msg "429" || includes msg "quota" || includes msg "rate".

Section Research.

Variable w : World.
Variable Y : YoutubeModule.

(** [new GoogleGenerativeAI(customKey || process.env.GEMINI_API_KEY)]
    never throws; the functions below only issue their request. *)

Definition correctGuestName (name : string) (geminiKey : jsval) : M string :=
  let* text := generate w (CorrectName name) in
  let corrected := trim text in
  if Nat.ltb 60 (String.length corrected) || includes corrected nl
  then ret name
  else ret corrected.

Definition deepAnalyzeTranscripts (guestName : string)
    (allContent : list content) (context : string) (geminiKey : jsval)
    (attempt : nat) : M string :=
  generate w (DeepAnalyze guestName allContent context attempt).

Definition analyzeVideoMetadata (guestName : string)
    (interviews : list video) (context : string) (geminiKey : jsval)
  : M string :=
  generate w (AnalyzeMetadata guestName interviews context).

(** Step 0: the corrected name. *)
Definition name_check_stage (guestName : string) (geminiKey : jsval)
  : M string :=
  onProgress step_name_check Active MsgVerifying ;;;
  try_catch
    (let* correctedName := correctGuestName guestName geminiKey in
     (if negb (String.eqb (toLowerCase correctedName) (toLowerCase guestName))
      then onProgress step_name_check Done (MsgCorrected correctedName)
      else onProgress step_name_check Done (MsgConfirmed correctedName)) ;;;
     ret correctedName)
    (fun _ =>
       onProgress step_name_check Done (MsgUsing guestName) ;;;
       ret guestName).

(** Step 1: [ytResult]. *)
Definition search_stage (searchName : string) (youtubeKey : jsval)
    (isPro : bool) : M search_result :=
  onProgress step_youtube Active (MsgSearching searchName) ;;;
  try_catch
    (let* ytResult := youtubeSearch Y searchName youtubeKey isPro in
     onProgress step_youtube Done (MsgFound (sr_totalInterviewsFound ytResult)) ;;;
     ret ytResult)
    (fun err =>
       onProgress step_youtube Error (MsgSearchFailed (err_message err)) ;;;
       ret {| sr_guestName := ""; sr_totalInterviewsFound := 0;
              sr_interviews := [] |}).

(** Step 2: [transcripts] and [failedVideos]. *)
Definition transcript_stage (ytResult : search_result)
  : M (list content * list video) :=
  if Nat.ltb 0 (length (sr_interviews ytResult)) then
    onProgress step_transcripts Active
      (MsgReadingAll (length (sr_interviews ytResult))) ;;;
    try_catch
      (let* result := imported_fetchTranscripts Y (sr_interviews ytResult) in
       let transcripts := fr_transcripts result in
       let failedVideos := failedVideos result in
       onProgress step_transcripts Done
         (MsgRead (length transcripts) (langDisplay transcripts)
                  (length failedVideos)) ;;;
       ret (transcripts, failedVideos))
      (fun _ =>
         onProgress step_transcripts Error MsgTranscriptsFailed ;;;
         ret ([], sr_interviews ytResult))
  else ret ([], []).

(** Step 2b: [geminiAnalyzed]. *)
Definition model_watch_stage (failedVideos : list video)
    (geminiKey : jsval) (isPro : bool) : M (list content) :=
  if Nat.ltb 0 (length failedVideos) then
    onProgress step_gemini_video Active
      (MsgWatchingAll (length failedVideos) isPro) ;;;
    try_catch
      (let* geminiAnalyzed :=
         imported_analyzeVideosWithGemini Y failedVideos geminiKey isPro in
       onProgress step_gemini_video Done (MsgWatched (length geminiAnalyzed)) ;;;
       ret geminiAnalyzed)
      (fun _ =>
         onProgress step_gemini_video Error MsgWatchFailed ;;;
         ret [])
  else ret [].

(** The loop [for (let attempt = 1; attempt <= 3; attempt++)] of step 3,
    over the attempts still to make.  An attempt that returns ends the
    loop with its text; one that throws waits when the error is
    rate-limit-shaped and it is not the third, and the loop goes on. *)
Fixpoint analysis_attempts (searchName : string) (allAnalyzedContent : list content)
    (context : string) (geminiKey : jsval) (nTranscripts nGemini : nat)
    (attempts : list nat) (videoAnalysis : string) : M string :=
  match attempts with
  | [] => ret videoAnalysis
  | attempt :: rest =>
      let* returned :=
        try_catch
          (let* text :=
             deepAnalyzeTranscripts searchName allAnalyzedContent context
               geminiKey attempt in
           onProgress step_analyze_videos Done
             (MsgDeepAnalyzed (length allAnalyzedContent) nTranscripts nGemini) ;;;
           ret (Some text))
          (fun err =>
             (if Nat.ltb attempt 3 && rate_limit_shaped (err_message err) then
                let delay := (N.of_nat attempt * 5000)%N in
                onProgress step_analyze_videos Active
                  (MsgRateLimit (delay / 1000)%N (attempt + 1)) ;;;
                sleep delay
              else if Nat.eqb attempt 3 then
                onProgress step_analyze_videos Error MsgDeepFailed
              else ret tt) ;;;
             ret None) in
      match returned with
      | Some text => ret text
      | None =>
          analysis_attempts searchName allAnalyzedContent context geminiKey
            nTranscripts nGemini rest videoAnalysis
      end
  end.

(** Step 3: [videoAnalysis] after the deep analysis. *)
Definition deep_analysis_stage (searchName : string)
    (transcripts geminiAnalyzed : list content) (context : string)
    (geminiKey : jsval) : M string :=
  let allAnalyzedContent := transcripts ++ geminiAnalyzed in
  if Nat.ltb 0 (length allAnalyzedContent) then
    onProgress step_analyze_videos Active
      (MsgDeepReading (length allAnalyzedContent)) ;;;
    analysis_attempts searchName allAnalyzedContent context geminiKey
      (length transcripts) (length geminiAnalyzed) [1; 2; 3] ""
  else ret "".

(** The fallback of step 3: [videoAnalysis] after the metadata analysis. *)
Definition metadata_fallback (searchName : string) (ytResult : search_result)
    (context : string) (geminiKey : jsval) (videoAnalysis : string)
  : M string :=
  if negb (nonempty videoAnalysis) && Nat.ltb 0 (length (sr_interviews ytResult))
  then
    onProgress step_analyze_videos Active
      (MsgMetadata (length (sr_interviews ytResult))) ;;;
    try_catch
      (let* text :=
         analyzeVideoMetadata searchName (sr_interviews ytResult) context
           geminiKey in
       onProgress step_analyze_videos Done
         (MsgPatterns (length (sr_interviews ytResult))) ;;;
       ret text)
      (fun _ =>
         onProgress step_analyze_videos Error MsgAnalysisIssue ;;;
         ret videoAnalysis)
  else ret videoAnalysis.

(** Step 4: [web] and [wiki], from [Promise.allSettled].  The stage calls
    webResearch and fetchWikipedia once each; the trace records the two
    calls, and the world gives what each resolves to.  The requests
    the two functions issue themselves are those of module [Web], and
    [with_web] is the world in which the calls run these functions. *)
Definition web_stage (searchName : string) (geminiKey : jsval)
  : M (option web_profile * option string) :=
  onProgress step_web_search Active MsgWebSearching ;;;
  call (WebResearch searchName) ;;;
  call (FetchWikipedia searchName) ;;;
  let web :=
    match webResearch w searchName geminiKey with
    | Fulfilled value => value
    | Rejected _ => None
    end in
  let wiki :=
    match fetchWikipedia w searchName with
    | Fulfilled (Some text) => if nonempty text then Some text else None
    | _ => None
    end in
  let sourceCount := default 0 (length <$> (sources <$> web)) in
  onProgress step_web_search Done (MsgWebRead sourceCount (bool_decide (is_Some wiki))) ;;;
  ret (web, wiki).

(** Step 5: [combinedSummary]. *)
Definition combinedSummary (videoAnalysis : string) (wiki : option string)
    (web : option web_profile) : string :=
  (if nonempty videoAnalysis
   then nl +:+ "=== VIDEO INTERVIEW ANALYSIS ===" +:+ nl +:+ videoAnalysis +:+ nl
   else "")
  +:+ match wiki with
      | Some text => nl +:+ "=== WIKIPEDIA ===" +:+ nl +:+ text +:+ nl
      | None => ""
      end
  +:+ match web with
      | Some p =>
          if nonempty (profile p)
          then nl +:+ "=== WEB INTELLIGENCE ===" +:+ nl +:+ profile p +:+ nl
          else ""
      | None => ""
      end.

(** deepResearch, from the three values it reads off [userKeys]. *)
Definition deepResearch_with (guestName context : string)
    (geminiKey youtubeKey : jsval) (isPro : bool) : M run :=
  onProgress step_start Active (MsgStarting guestName) ;;;
  let* correctedName := name_check_stage guestName geminiKey in
  let searchName := correctedName in
  let* ytResult := search_stage searchName youtubeKey isPro in
  let* '(transcripts, failedVideos) := transcript_stage ytResult in
  let* geminiAnalyzed := model_watch_stage failedVideos geminiKey isPro in
  let* videoAnalysis :=
    deep_analysis_stage searchName transcripts geminiAnalyzed context geminiKey in
  let* videoAnalysis :=
    metadata_fallback searchName ytResult context geminiKey videoAnalysis in
  let* '(web, wiki) := web_stage searchName geminiKey in
  onProgress step_compile Active MsgCompiling ;;;
  let combinedSummary := combinedSummary videoAnalysis wiki web in
  onProgress step_compile Done MsgReady ;;;
  onProgress step_complete Done MsgComplete ;;;
  let totalAnalyzed := length transcripts + length geminiAnalyzed in
  ret {| run_ytResult := ytResult;
         run_transcripts := transcripts;
         run_failedVideos := failedVideos;
         run_geminiAnalyzed := geminiAnalyzed;
         run_report :=
           {| guestName := searchName;
              originalQuery := guestName;
              correctedName :=
                if String.eqb searchName guestName then None else Some searchName;
              totalInterviewsFound := sr_totalInterviewsFound ytResult;
              transcriptsAnalyzed := totalAnalyzed;
              interviews := sr_interviews ytResult;
              topicsSummary := combinedSummary;
              videoAnalysis := videoAnalysis;
              webProfile := web |} |}.

(** [const isPro = !!userKeys.hasCustomKey] *)
Definition isPro_of (userKeys : jsobject) : bool :=
  truthy (get userKeys "hasCustomKey").

Definition deepResearch_run (guestName context : string)
    (userKeys : jsobject) : M run :=
  let geminiKey := js_or (get userKeys "geminiApiKey") (JStr "") in
  let youtubeKey := js_or (get userKeys "youtubeApiKey") (JStr "") in
  let isPro := isPro_of userKeys in
  deepResearch_with guestName context geminiKey youtubeKey isPro.

Definition deepResearch (guestName context : string) (userKeys : jsobject)
  : M report :=
  let* r := deepResearch_run guestName context userKeys in
  ret (run_report r).

End Research.

(* ===================================================================== *)
(** * src/server/research.js, lines 535-671: generateQuestions *)
(* ===================================================================== *)

Definition MODELS : list string :=
  ["gemini-2.5-flash"; "gemini-2.0-flash"; "gemini-2.0-flash-lite"].

(** The three back quotes of a Markdown fence. *)
Definition fence : string := "```".

(** The text handed to [JSON.parse]: trimmed, without a leading
    [```json] or [```] and without a trailing [```], trimmed again. *)
Definition strip_fences (responseText : string) : string :=
  let cleaned := trim responseText in
  let cleaned :=
    if startsWith cleaned (fence +:+ "json") then slice_from 7 cleaned
    else if startsWith cleaned fence then slice_from 3 cleaned
    else cleaned in
  let cleaned :=
    if endsWith cleaned fence
    then substring0 (String.length cleaned - 3) cleaned
    else cleaned in
  trim cleaned.

(** [err.message?.includes('429') || err.message?.includes('quota')] *)
Definition rate_limited (msg : string) : bool :=
  includes msg "429" || includes msg "quota".

Definition all_models_failed (lastMessage : string) : string :=
  "All models failed. Last error: " +:+ or_else lastMessage "Unknown error"
  +:+ ". Gemini API quota may be exhausted — resets in ~1 minute for RPM limits, or at midnight PT for daily limits. You can add your own API key in Settings.".

Section Gemini.

(** The values of [JSON.parse], which either returns one or throws a
    SyntaxError with a message. *)
Context {JSON : Type}.
Variable JSON_parse : string -> JSON + string.
Variable w : World.

(** The object generateQuestions resolves to: [{ success: true, data }]
    or [{ success: false, error }]. *)
Inductive questions_result :=
| Success (data : JSON)
| Failure (error : string).

(** The body of the [try] block: one request to [modelName], parsed. *)
Definition ask_model (modelName : string) (attempt : nat)
    (input : questions_input) : M JSON :=
  let* responseText := generate w (WriteQuestions modelName attempt input) in
  match JSON_parse (strip_fences responseText) with
  | inl parsed => ret parsed
  | inr msg => throw msg
  end.

(** The loop [for (let attempt = 0; attempt < 2; attempt++)], over the
    attempts still to make: [inl] is the [return] of the function from
    inside the loop, [inr] the value of [lastError] when the loop ends. *)
Fixpoint try_model (modelName : string) (input : questions_input)
    (attempts : list nat) (lastError : option js_error)
  : M (JSON + option js_error) :=
  match attempts with
  | [] => ret (inr lastError)
  | attempt :: rest =>
      let* r :=
        try_catch
          (let* parsed := ask_model modelName attempt input in
           ret (inl parsed))
          (fun err =>
             (if rate_limited (err_message err)
              then sleep 20000%N
              else ret tt) ;;;
             ret (inr err)) in
      match r with
      | inl parsed => ret (inl parsed)
      | inr err => try_model modelName input rest (Some err)
      end
  end.

(** The loop [for (const modelName of MODELS)]. *)
Fixpoint try_models (models : list string) (input : questions_input)
    (lastError : option js_error) : M questions_result :=
  match models with
  | [] =>
      ret (Failure
             (all_models_failed (default "" (err_message <$> lastError))))
  | modelName :: rest =>
      let* r := try_model modelName input [0; 1] lastError in
      match r with
      | inl parsed => ret (Success parsed)
      | inr lastError => try_models rest input lastError
      end
  end.

Definition generateQuestions (input : questions_input) : M questions_result :=
  let key := js_or (geminiApiKey input) (JStr (env_GEMINI_API_KEY w)) in
  if negb (truthy key)
  then throw "Gemini API Key is missing. Please configure it in Settings."
  else try_models MODELS input None.

End Gemini.

Arguments Success {JSON} data.
Arguments Failure {JSON} error.

(* ===================================================================== *)
(** * src/server/auth.js: the stored API keys *)
(* ===================================================================== *)

(** The fields of a stored user that getApiKeys reads; a key that was never
    saved is absent. *)
Record user := {
  user_id : string;
  user_youtubeApiKey : option string;
  user_geminiApiKey : option string
}.

Record Store := {
  isMongo : bool;                        (* mongoose.connection.readyState === 1 *)
  ObjectId_isValid : string -> bool;     (* mongoose.Types.ObjectId.isValid *)
  findById : string -> option user;      (* User.findById *)
  loadUsers : list (string * user)       (* users.json: the entries of the object *)
}.

(** The object literal both branches of getApiKeys return. *)
Definition keys_of (u : user) : jsobject :=
  {[ "youtubeApiKey" := JStr (default "" (user_youtubeApiKey u));
     "geminiApiKey" := JStr (default "" (user_geminiApiKey u)) ]}.

(** getApiKeys: [None] is [null]. *)
Definition getApiKeys (db : Store) (userId : string) : option jsobject :=
  if isMongo db then
    if negb (ObjectId_isValid db userId) then None
    else keys_of <$> findById db userId
  else
    keys_of <$> List.find (fun u => String.eqb (user_id u) userId)
                          (map snd (loadUsers db)).

(* ===================================================================== *)
(** * src/unnamed/part_001: POST /api/research-guest *)
(* ===================================================================== *)

(** [(await auth.getApiKeys(userId)) || {}] *)
Definition getUserKeys (db : Store) (userId : string) : jsobject :=
  default ∅ (getApiKeys db userId).

(** What the handler writes on the response. *)
Inductive frame :=
| ProgressFrame (e : event)       (* { type: 'progress', ...data } *)
| ResultFrame (r : report)        (* { type: 'result', data: research } *)
| ErrorFrame (msg : string).      (* { type: 'error', message: err.message } *)

Inductive response :=
| BadRequest (error : string)     (* res.status(400).json({ error }) *)
| EventStream (frames : list frame).

(** The handler, once authMiddleware has set [req.userId]; [guestName] and
    [context] are the two fields read off [req.body], an absent one being
    the empty string. *)
Definition research_guest_route (db : Store) (w : World) (userId : string)
    (guestName context : string) : response :=
  if negb (nonempty guestName) then BadRequest "Guest name is required"
  else
    let userKeys := getUserKeys db userId in
    let research := deepResearch w (youtube_js w) guestName context userKeys in
    EventStream
      (map ProgressFrame (events (trace research))
       ++ [ match result research with
            | Returned r => ResultFrame r
            | Thrown err => ErrorFrame (err_message err)
            end ]).

(* ===================================================================== *)
(** * Vocabulary of the properties *)
(* ===================================================================== *)

(** The text the relevance filter compares: entity-decoded, lower-cased. *)
Definition normalised (s : string) : string := toLowerCase (decodeHtml s).

(** [title + ' ' + desc + ' ' + channel] of the relevance filter. *)
Definition searchable (v : video) : string :=
  normalised (title v) +:+ " " +:+ normalised (description v) +:+ " "
  +:+ normalised (channelTitle v).

(** A video record with the given texts. *)
Definition a_video (id ttl desc channel : string) (date : Z) : video :=
  {| videoId := id; title := ttl; description := desc;
     channelTitle := channel; publishedAt := date; thumbnail := None |}.

Definition video_jojo : video := a_video "v1" "Kitchen stories" "" "JoJo TV" 0.

Definition video_book : video :=
  a_video "v2" "Jane Doe on her new book" "" "Book Talk" 0.

Definition video_pasta : video := a_video "v3" "Cooking pasta" "" "FoodTV" 0.

(** ** The relevance filter in the words of the design document

    "A video is kept if the full subject name appears anywhere in
    title+description+channel, or if the last name-token appears in the
    title, or both first and last tokens appear anywhere, or the channel
    name itself contains either token", a name-token being a word of the
    subject name. *)
Definition spec_nameTokens (guestName : string) : list string :=
  List.filter nonempty (split_ws (toLowerCase guestName)).

Definition spec_keeps (guestName : string) (v : video) : bool :=
  let first := default "" (head (spec_nameTokens guestName)) in
  let last := default "" (last (spec_nameTokens guestName)) in
  includes (searchable v) (toLowerCase guestName)
  || includes (normalised (title v)) last
  || (includes (searchable v) first && includes (searchable v) last)
  || includes (normalised (channelTitle v)) first
  || includes (normalised (channelTitle v)) last.

(** A computation that returns: it does not throw. *)
Definition returns {A} (m : M A) : Prop := ∃ a, result m = Returned a.

(** The identifiers of a list of videos and of a list of analysed videos. *)
Definition video_ids (vs : list video) : list string := videoId <$> vs.
Definition content_ids (cs : list content) : list string := c_videoId <$> cs.

(** The state of the query loop before the first query. *)
Definition no_videos : search_state :=
  {| allVideos := []; seenIds := ∅; quotaErrors := 0 |}.

(** The invariant of researchGuest's query loop: the identifiers collected
    so far are pairwise distinct and all recorded in [seenIds]. *)
Definition dedup_inv (st : search_state) : Prop :=
  NoDup (video_ids (allVideos st))
  ∧ ∀ id, id ∈ video_ids (allVideos st) → id ∈ seenIds st.

(** The value of [ytResult] when the search threw. *)
Definition no_result : search_result :=
  {| sr_guestName := ""; sr_totalInterviewsFound := 0; sr_interviews := [] |}.

(** A progress event. *)
Definition progress (s : step) (st : status) (m : message) : effect :=
  Progress {| ev_step := s; ev_status := st; ev_message := m |}.

(** The YouTube key a run of deepResearch ends up using is configured. *)
Definition youtube_key_configured (w : World) (userKeys : jsobject) : Prop :=
  truthy (js_or (js_or (get userKeys "youtubeApiKey") (JStr ""))
                (JStr (env_YOUTUBE_API_KEY w))) = true.

(** Every search request is answered with a quota error. *)
Definition quota_exhausted_world (w : World) : Prop :=
  ∀ ordinal q maxResults,
    ∃ msg, search_list w ordinal q maxResults = YtError msg
           ∧ is_quota_message msg = true.

(** [t] occurs in [l] as a block of consecutive effects. *)
Definition infix_of (t l : list effect) : Prop :=
  ∃ before after, l = before ++ t ++ after.

(** ** Concrete worlds and inputs *)

Definition an_item (id ttl channel : string) (date : Z) : yt_item :=
  {| item_videoId := id; item_title := ttl; item_description := "";
     item_channelTitle := channel; item_publishedAt := date;
     item_thumb_high := None; item_thumb_default := None |}.

(** A world without any service: every request fails. *)
Definition world_down : World :=
  {| env_YOUTUBE_API_KEY := "server-youtube-key";
     env_GEMINI_API_KEY := "server-gemini-key";
     search_list := fun _ _ _ => YtError "service unavailable";
     fetchTranscript := fun _ _ => TranscriptError "Transcript is disabled";
     generateContent := fun _ => GenError "service unavailable";
     webResearch := fun _ _ => Fulfilled None;
     fetchWikipedia := fun _ => Fulfilled None |}.

(** The search quota is exhausted: every query is refused. *)
Definition world_quota : World :=
  {| env_YOUTUBE_API_KEY := env_YOUTUBE_API_KEY world_down;
     env_GEMINI_API_KEY := env_GEMINI_API_KEY world_down;
     search_list := fun _ _ _ => YtError "The request cannot be completed because you have exceeded your quota.";
     fetchTranscript := fetchTranscript world_down;
     generateContent := generateContent world_down;
     webResearch := webResearch world_down;
     fetchWikipedia := fetchWikipedia world_down |}.

(** Every query finds the same two videos of Jane Doe; nothing else works. *)
Definition world_two_videos : World :=
  {| env_YOUTUBE_API_KEY := env_YOUTUBE_API_KEY world_down;
     env_GEMINI_API_KEY := env_GEMINI_API_KEY world_down;
     search_list := fun _ _ _ =>
       YtItems (Some [ an_item "a1" "Jane Doe interview" "Talks" 20;
                       an_item "b2" "Jane Doe podcast" "Pods" 10 ]);
     fetchTranscript := fetchTranscript world_down;
     generateContent := generateContent world_down;
     webResearch := webResearch world_down;
     fetchWikipedia := fetchWikipedia world_down |}.

(** Every service answers: the search finds two videos of Jane Doe, the
    first has a transcript, the model watches the second. *)
Definition world_up : World :=
  {| env_YOUTUBE_API_KEY := env_YOUTUBE_API_KEY world_down;
     env_GEMINI_API_KEY := env_GEMINI_API_KEY world_down;
     search_list := search_list world_two_videos;
     fetchTranscript := fun id tryLang =>
       match tryLang with
       | None =>
           if String.eqb id "a1"
           then Segments
                  [ {| seg_text := "Welcome to the show. Today my guest is Jane Doe, who spent ten years writing";
                       seg_lang := Some "en" |};
                    {| seg_text := "a book about rivers &amp; the people who live along them.";
                       seg_lang := Some "en" |} ]
           else TranscriptError "Transcript is disabled"
       | Some _ => TranscriptError "Transcript is disabled"
       end;
     generateContent := fun r =>
       match r with
       | CorrectName name => GenText name
       | WatchVideo _ =>
           GenText "Summary: Jane Doe talks about her new book, the years of research behind it and what she would ask herself."
       | DeepAnalyze _ _ _ _ => GenText "Jane Doe returns to rivers in every interview."
       | _ => GenError "service unavailable"
       end;
     webResearch := fun _ _ => Fulfilled None;
     fetchWikipedia := fun _ => Fulfilled None |}.

(** The steps of the progress events of a trace, without repetition of a
    step that is reported several times in a row. *)
Fixpoint steps_of (evs : list event) : list step :=
  match evs with
  | [] => []
  | ev :: rest =>
      match steps_of rest with
      | s :: ss =>
          if bool_decide (ev_step ev = s) then s :: ss
          else ev_step ev :: s :: ss
      | [] => [ev_step ev]
      end
  end.

(** The youtube module with a transcript fetcher that throws. *)
Definition youtube_crashing_fetch (w : World) : YoutubeModule :=
  {| youtubeSearch := researchGuest w;
     imported_fetchTranscripts := fun _ => throw "transcript library crashed";
     imported_analyzeVideosWithGemini := analyzeVideosWithGemini w |}.

(** Provenance of an analysed video: a transcript that was read, or an
    analysis by the model that watched the video. *)
Definition is_transcript (c : content) : Prop := source c = None.
Definition is_model_watched (c : content) : Prop := source c = Some "gemini-video".

(** What a loop over [rest] may add to [results]: analyses by the model of
    videos of [rest], in order, each of one video only. *)
Definition adds_from (rest : list video) (results rs : list content) : Prop :=
  ∃ extra, rs = results ++ extra
           ∧ content_ids extra `sublist_of` video_ids rest
           ∧ Forall is_model_watched extra.

(** The deep analysis fails once with an error that is not a rate limit,
    then succeeds. *)
Definition world_flaky_analysis : World :=
  {| env_YOUTUBE_API_KEY := env_YOUTUBE_API_KEY world_down;
     env_GEMINI_API_KEY := env_GEMINI_API_KEY world_down;
     search_list := search_list world_down;
     fetchTranscript := fetchTranscript world_down;
     generateContent := fun r =>
       match r with
       | DeepAnalyze _ _ _ 1 => GenError "500 Internal Server Error"
       | DeepAnalyze _ _ _ _ => GenText "Jane Doe speaks about her book."
       | _ => GenError "service unavailable"
       end;
     webResearch := webResearch world_down;
     fetchWikipedia := fetchWikipedia world_down |}.

Definition a_transcript : content :=
  {| c_videoId := "a1"; c_title := "Jane Doe interview";
     c_channelTitle := "Talks"; transcript := "Welcome to the show.";
     lang := "en"; source := None |}.

(** The request of the [attempt]-th call of deepAnalyzeTranscripts. *)
Definition deep_request (searchName : string) (allContent : list content)
    (context : string) (attempt : nat) : request :=
  GenerateContent (DeepAnalyze searchName allContent context attempt).

(** The number of attempts the retry loop of the deep analysis makes, for
    the replies to attempts 1 and 2: it stops at the first reply that is
    not an error, and after the third attempt. *)
Definition attempts_made (reply1 reply2 : gen_reply) : nat :=
  match reply1, reply2 with
  | GenText _, _ => 1
  | GenError _, GenText _ => 2
  | GenError _, GenError _ => 3
  end.

(** The delays the loop awaits: [attempt * 5000] after a failed attempt 1
    or 2 whose error is rate-limit-shaped. *)
Definition backoff_delays (reply1 reply2 : gen_reply) : list N :=
  match reply1 with
  | GenText _ => []
  | GenError msg1 =>
      (if rate_limit_shaped msg1 then [5000%N] else [])
      ++ match reply2 with
         | GenText _ => []
         | GenError msg2 =>
             if rate_limit_shaped msg2 then [10000%N] else []
         end
  end.

(** The text of the first attempt that returns, the empty string when all
    three throw. *)
Definition deep_text (reply1 reply2 reply3 : gen_reply) : string :=
  match reply1, reply2, reply3 with
  | GenText text, _, _ => text
  | GenError _, GenText text, _ => text
  | GenError _, GenError _, GenText text => text
  | GenError _, GenError _, GenError _ => ""
  end.

(** The value of [videoAnalysis] after the deep analysis of [allContent]:
    nothing is asked when there is no content. *)
Definition deep_outcome (w : World) (searchName : string)
    (allContent : list content) (context : string) : string :=
  match allContent with
  | [] => ""
  | _ :: _ =>
      deep_text (generateContent w (DeepAnalyze searchName allContent context 1))
                (generateContent w (DeepAnalyze searchName allContent context 2))
                (generateContent w (DeepAnalyze searchName allContent context 3))
  end.

(** The fallback runs: the deep analysis left nothing and there are videos. *)
Definition fallback_runs (deep : string) (interviews : list video) : bool :=
  negb (nonempty deep) && Nat.ltb 0 (length interviews).

(** The text of a reply, the empty string for an error. *)
Definition reply_text (reply : gen_reply) : string :=
  match reply with
  | GenText text => text
  | GenError _ => ""
  end.

(** ** Vocabulary of the model-watch stage *)

(** The request analyzeVideoWithGemini issues for a video. *)
Definition watch_request (v : video) : request := GenerateContent (WatchVideo v).

(** What analyzeVideoWithGemini returns for a video once the Gemini client
    exists: the analysis when the model answers with more than 100
    characters, [null] otherwise. *)
Definition watched (w : World) (v : video) : option content :=
  match generateContent w (WatchVideo v) with
  | GenText analysis =>
      if Nat.ltb 100 (String.length analysis)
      then Some {| c_videoId := videoId v; c_title := title v;
                   c_channelTitle := channelTitle v; transcript := analysis;
                   lang := "gemini-analyzed"; source := Some "gemini-video" |}
      else None
  | GenError _ => None
  end.

(** The analysis of the video fails. *)
Definition watch_fails (w : World) (v : video) : Prop := watched w v = None.

(** The effect is the error-status event of the circuit breaker. *)
Definition breaker_event (e : effect) : bool :=
  match e with
  | Progress {| ev_step := step_gemini_video; ev_status := Error;
                ev_message := MsgQuotaFree _ _ |} => true
  | Progress {| ev_step := step_gemini_video; ev_status := Error;
                ev_message := MsgQuotaPro _ _ |} => true
  | _ => false
  end.

(** The videos of [vs] at positions [from], ..., [from + count - 1] exist
    and their analysis fails. *)
Definition fail_run (w : World) (vs : list video) (from count : nat) : Prop :=
  ∀ j, from ≤ j < from + count → ∃ v, vs !! j = Some v ∧ watch_fails w v.

(** The videos of [vs] before position [k] exist and are analysed. *)
Definition all_watched_before (w : World) (vs : list video) (k : nat) : Prop :=
  ∀ j, j < k → ∃ v, vs !! j = Some v ∧ ¬ watch_fails w v.

(** An event of the Free-mode loop over [n] videos, [skipped] being left
    out: it announces a video, with the skip count, or is the breaker's. *)
Definition free_loop_event (n skipped : nat) (ev : event) : Prop :=
  ev_step ev = step_gemini_video
  ∧ ((∃ i, ev_status ev = Active ∧ ev_message ev = MsgWatchingOne i n skipped)
     ∨ (∃ analyzed, ev_status ev = Error
                    ∧ ev_message ev = MsgQuotaFree analyzed n)).

(** The search request was refused with a quota error. *)
Definition quota_refused (w : World) (r : request) : bool :=
  match r with
  | YtSearchList ordinal q maxResults =>
      match search_list w ordinal q maxResults with
      | YtError msg => is_quota_message msg
      | YtItems _ => false
      end
  | _ => false
  end.

(** Videos for the examples, named by their position. *)
Definition nth_video (i : nat) : video :=
  a_video (String (ascii_of_nat (97 + i)) "") "Jane Doe interview" "" "Talks" 0.

Definition first_videos (n : nat) : list video := nth_video <$> seq 0 n.

(** An analysis of more than 100 characters. *)
Definition long_analysis : string :=
  "Summary: Jane Doe talks about her new book, the years of research behind it and what she would ask herself.".

(** The model analyses the first video only; every other request fails. *)
Definition world_first_watched : World :=
  {| env_YOUTUBE_API_KEY := env_YOUTUBE_API_KEY world_down;
     env_GEMINI_API_KEY := env_GEMINI_API_KEY world_down;
     search_list := search_list world_down;
     fetchTranscript := fetchTranscript world_down;
     generateContent := fun r =>
       match r with
       | WatchVideo v =>
           if String.eqb (videoId v) "a" then GenText long_analysis
           else GenError "429 quota exceeded"
       | _ => GenError "service unavailable"
       end;
     webResearch := webResearch world_down;
     fetchWikipedia := fetchWikipedia world_down |}.

(** ** Vocabulary of the question generator *)

(** The tries the generator may make, in order: each model twice. *)
Definition tries_of (models : list string) : list (string * nat) :=
  m ← models; [(m, 0); (m, 1)].

Definition schedule : list (string * nat) := tries_of MODELS.

(** The outcome of one try: the parsed value, or the message of the error
    that the request or [JSON.parse] threw. *)
Definition try_outcome {JSON : Type} (JSON_parse : string -> JSON + string)
    (w : World) (input : questions_input) (t : string * nat) : JSON + string :=
  match generateContent w (WriteQuestions t.1 t.2 input) with
  | GenText responseText => JSON_parse (strip_fences responseText)
  | GenError msg => inr msg
  end.

Definition question_request (input : questions_input) (t : string * nat)
  : request :=
  GenerateContent (WriteQuestions t.1 t.2 input).

(** The effects of a try that failed with [msg]: the request, then the
    20 s cooldown when the error is a rate limit. *)
Definition failed_try (input : questions_input) (t : string * nat)
    (msg : string) : list effect :=
  Call (question_request input t)
  :: (if rate_limited msg then [Sleep 20000%N] else []).


(** The Gemini key generateQuestions ends up using is configured. *)
Definition gemini_key_configured (w : World) (key : jsval) : Prop :=
  truthy (js_or key (JStr (env_GEMINI_API_KEY w))) = true.

(** A parser for the examples: the text itself when it opens a JSON
    object, a syntax error otherwise. *)
Definition toy_parse (text : string) : string + string :=
  if startsWith text "{" then inl text else inr "Unexpected token".

Definition some_input : questions_input :=
  {| interviewerName := "Sam"; interviewerStyle := ""; channelDescription := "";
     q_guestName := "Jane Doe"; guestContext := ""; pastInterviewsSummary := "";
     questionCount := 15; geminiApiKey := JStr "" |}.

(** The first model is rate limited twice, the second answers in a fence. *)
Definition world_second_model : World :=
  {| env_YOUTUBE_API_KEY := env_YOUTUBE_API_KEY world_down;
     env_GEMINI_API_KEY := env_GEMINI_API_KEY world_down;
     search_list := search_list world_down;
     fetchTranscript := fetchTranscript world_down;
     generateContent := fun r =>
       match r with
       | WriteQuestions "gemini-2.5-flash" _ _ =>
           GenError "429 Too Many Requests"
       | WriteQuestions _ _ _ => GenText (fence +:+ "json {} " +:+ fence)
       | _ => GenError "service unavailable"
       end;
     webResearch := webResearch world_down;
     fetchWikipedia := fetchWikipedia world_down |}.

(** ** Stored users for the examples *)

Definition user_with_keys : user :=
  {| user_id := "u1";
     user_youtubeApiKey := Some "my-own-youtube-key";
     user_geminiApiKey := Some "my-own-gemini-key" |}.

Definition store_with_keys : Store :=
  {| isMongo := false;
     ObjectId_isValid := fun _ => false;
     findById := fun _ => None;
     loadUsers := [("jane@example.org", user_with_keys)] |}.

(** ** Vocabulary of the transcript stage *)

(** What the body of fetchTranscripts' loop keeps of one video: the
    object it pushes on [results], or nothing when the video goes to
    [failed] (no segment, or a text of at most 100 characters). *)
Definition transcript_of (w : World) (v : video) : option content :=
  match result (fetch_one w v) with
  | Returned (segments, lang) =>
      if Nat.ltb 0 (length segments)
         && Nat.ltb 100 (String.length (fullText segments))
      then Some {| c_videoId := videoId v;
                   c_title := title v;
                   c_channelTitle := channelTitle v;
                   transcript := substring0 (15 * 1000) (fullText segments);
                   lang := lang;
                   source := None |}
      else None
  | Thrown _ => None
  end.

(** The video has no usable transcript. *)
Definition without_transcript (w : World) (v : video) : bool :=
  negb (bool_decide (is_Some (transcript_of w v))).

(** The progress event fetchTranscripts emits after video number [i + 1]
    of [n], [succeeded] transcripts being read so far. *)
Definition scanned (succeeded i n : nat) : event :=
  {| ev_step := step_transcripts; ev_status := Active;
     ev_message := MsgScanned succeeded (i + 1) n |}.

(** The requests fetchTranscripts issues for one video. *)
Definition fetch_requests (w : World) (v : video) : list request :=
  requests (trace (fetch_one w v)).

(** The request for the transcript of [id] in language [l] resolves with
    at least one segment. *)
Definition gives_segments (w : World) (id l : string) : bool :=
  match fetchTranscript w id (Some l) with
  | Segments segs => Nat.ltb 0 (length segs)
  | TranscriptError _ => false
  end.

(** The elements of [ls] up to and including the first one that satisfies
    [p]; all of [ls] when none does. *)
Fixpoint up_to_first {A : Type} (p : A -> bool) (ls : list A) : list A :=
  match ls with
  | [] => []
  | l :: rest => l :: (if p l then [] else up_to_first p rest)
  end.

(** ** Vocabulary of the search *)

(** The items of the reply to a search request: none when the request is
    refused or the reply has no [items]. *)
Definition reply_items (w : World) (r : request) : list yt_item :=
  match r with
  | YtSearchList ordinal q maxResults =>
      match search_list w ordinal q maxResults with
      | YtItems (Some items) => items
      | _ => []
      end
  | _ => []
  end.

(** All the items of the replies to [reqs], in the order of the requests. *)
Definition found_items (w : World) (reqs : list request) : list yt_item :=
  reqs ≫= reply_items w.

(** [allVideos] when the items of [reqs] have gone through the
    deduplicating loop of researchGuest. *)
Definition raw_videos (w : World) (reqs : list request) : list video :=
  allVideos (add_items (found_items w reqs) no_videos).



Definition MISSING_YOUTUBE_KEY : string :=
  "YouTube API Key is missing. Please configure it in Settings.".

Definition MISSING_GEMINI_KEY : string :=
  "Gemini API Key is missing. Please configure it in Settings.".

(** ** Vocabulary of the orchestrator *)

(** The name deepResearch goes on with after the name check: the trimmed
    reply of the model when it is a single line of at most 60 characters,
    the name as typed otherwise and when the request fails. *)
Definition corrected_name (w : World) (name : string) : string :=
  match generateContent w (CorrectName name) with
  | GenText text =>
      if Nat.ltb 60 (String.length (trim text)) || includes (trim text) nl
      then name
      else trim text
  | GenError _ => name
  end.

(** The message of the event that closes the name check. *)
Definition name_check_message (w : World) (name : string) : message :=
  match generateContent w (CorrectName name) with
  | GenText _ =>
      if negb (String.eqb (toLowerCase (corrected_name w name))
                          (toLowerCase name))
      then MsgCorrected (corrected_name w name)
      else MsgConfirmed (corrected_name w name)
  | GenError _ => MsgUsing name
  end.

(** The status of the last event of step [s], if there is one. *)
Definition last_status (s : step) (evs : list event) : option status :=
  ev_status <$> last (filter (λ e, ev_step e = s) evs).

(** The events of one stage: all of step [s], the last one not active. *)
Definition stage_events (s : step) (evs : list event) : Prop :=
  Forall (λ e, ev_step e = s) evs
  ∧ match last evs with
    | Some e => ev_status e ≠ Active
    | None => True
    end.

(** The kinds of requests. *)
Definition is_search (r : request) : bool :=
  match r with YtSearchList _ _ _ => true | _ => false end.

Definition is_transcript_fetch (r : request) : bool :=
  match r with FetchTranscript _ _ => true | _ => false end.

Definition is_watch (r : request) : bool :=
  match r with GenerateContent (WatchVideo _) => true | _ => false end.

Definition is_deep_analysis (r : request) : bool :=
  match r with GenerateContent (DeepAnalyze _ _ _ _) => true | _ => false end.

Definition is_metadata_analysis (r : request) : bool :=
  match r with GenerateContent (AnalyzeMetadata _ _ _) => true | _ => false end.

(** A world where every service answers but no YouTube key is set. *)
Definition world_no_youtube_key : World :=
  {| env_YOUTUBE_API_KEY := "";
     env_GEMINI_API_KEY := env_GEMINI_API_KEY world_up;
     search_list := search_list world_up;
     fetchTranscript := fetchTranscript world_up;
     generateContent := generateContent world_up;
     webResearch := webResearch world_up;
     fetchWikipedia := fetchWikipedia world_up |}.

(** A world without a Gemini key, where the model refuses every request
    and no video has a transcript. *)
Definition world_no_gemini_key : World :=
  {| env_YOUTUBE_API_KEY := env_YOUTUBE_API_KEY world_up;
     env_GEMINI_API_KEY := "";
     search_list := search_list world_up;
     fetchTranscript := fetchTranscript world_down;
     generateContent := fun _ => GenError "API key not valid. Please pass a valid API key.";
     webResearch := webResearch world_up;
     fetchWikipedia := fetchWikipedia world_up |}.

(** The events of a run of deepResearch, stage by stage. *)
Record event_blocks := {
  name_events : list event;
  search_events : list event;
  transcript_events : list event;
  watch_events : list event;
  analysis_events : list event;
  web_events : list event
}.

(** [steps] without its first element when that is [s]. *)
Definition drop_head (s : step) (steps : list step) : list step :=
  match steps with
  | s' :: rest => if bool_decide (s = s') then rest else steps
  | [] => []
  end.

(* ===================================================================== *)
(** * src/unnamed/part_001 and part_000: the event stream on the wire *)
(* ===================================================================== *)

(** What the research route writes for one frame (part_001, lines 127-137):
    [res.write(`data: ${JSON.stringify(...)}\n\n`)], [json] being the text
    [JSON.stringify] returns. *)
Definition sse_frame (json : string) : string :=
  "data: " +:+ json +:+ nl +:+ nl.

(** The text of the response body: the frames one after the other. *)
Definition sse_body (jsons : list string) : string :=
  foldr (λ json rest, sse_frame json +:+ rest) "" jsons.

(** One more code unit at the front of the piece being read. *)
Definition push_front (c : ascii) (pieces : list string) : list string :=
  match pieces with
  | t :: ts => String c t :: ts
  | [] => [String c EmptyString]
  end.

(** [s.split(sep)] for a literal, non-empty separator: the pieces between
    the occurrences of [sep], found left to right without overlap; there
    is always at least one piece.  [skip] counts the code units of the
    current occurrence still to be dropped. *)
Fixpoint split_go (sep : string) (skip : nat) (s : string) : list string :=
  match s with
  | EmptyString => [EmptyString]
  | String c s' =>
      match skip with
      | S k => split_go sep k s'
      | O =>
          if startsWith s sep
          then EmptyString :: split_go sep (String.length sep - 1) s'
          else push_front c (split_go sep 0 s')
      end
  end.

Definition str_split (sep s : string) : list string := split_go sep 0 s.

(** The reader of the response in the client's researchGuest (part_000,
    lines 287-331). *)

(** The inner loops over one complete part: the lines of the part that
    start with 'data: ', cut after this prefix.  These are the texts
    handed to [JSON.parse], in order. *)
Definition data_lines (part : string) : list string :=
  omap (λ line, if startsWith line "data: " then Some (slice_from 6 line)
                else None)
       (str_split nl part).

(** One round of the [while (true)] loop, for a chunk that was read:
    [buffer += decoder.decode(value, { stream: true })], the split at the
    blank lines, [buffer = parts.pop()], and the texts of the other
    parts. *)
Definition read_chunk (buffer chunk : string) : list string * string :=
  let parts := str_split (nl +:+ nl) (buffer +:+ chunk) in
  (removelast parts ≫= data_lines, List.last parts "").

(** The loop over the chunks the reader returns before [done]: the texts
    handed to [JSON.parse], and the buffer left at the end. *)
Fixpoint read_stream (chunks : list string) (buffer : string)
  : list string * string :=
  match chunks with
  | [] => ([], buffer)
  | chunk :: rest =>
      let '(texts, buffer) := read_chunk buffer chunk in
      let '(more, final) := read_stream rest buffer in
      (texts ++ more, final)
  end.

(** The decoded chunks put together. *)
Definition joined (chunks : list string) : string :=
  foldr String.append "" chunks.

(* ===================================================================== *)
(** * src/server/auth.js: the accounts in the local file *)
(* ===================================================================== *)

#[global] Instance jsval_eq_dec : EqDecision jsval.
Proof. solve_decision. Defined.

(** [a === b] on the values of [jsval]. *)
Definition strict_eq (a b : jsval) : bool := bool_decide (a = b).

(** The branch of auth.js taken when [isMongo()] is false: the accounts
    are the properties of the object kept in users.json, one per e-mail
    address. *)
Module FileMode.

(** The libraries and the clock, as the calls of one request see them. *)
Record Host := {
  bcrypt_hash : jsval -> outcome string;
      (* await bcrypt.hash(password, 10) *)
  bcrypt_compare : jsval -> jsval -> outcome bool;
      (* await bcrypt.compare(password, user.passwordHash) *)
  randomUUID : string;                 (* crypto.randomUUID() *)
  now_iso : string;                    (* new Date().toISOString() *)
  jwt_sign : jsval -> string;
      (* jwt.sign({ userId }, JWT_SECRET, { expiresIn: '30d' }) *)
  jwt_verify : string -> option jsobject
      (* jwt.verify(token, JWT_SECRET); none when it throws *)
}.

(** What [loadUsers()] returns: the properties of the parsed object in the
    order of enumeration, each value a user object; the empty list when
    the file is missing or cannot be parsed.  A key is an e-mail address:
    it is never an array index nor a name inherited from
    Object.prototype, so [users[k]] is the own property and a new key
    goes last. *)
Definition users_json : Type := list (string * jsobject).

(** [users[k]] *)
Definition lookup_user (users : users_json) (k : string) : option jsobject :=
  snd <$> List.find (fun kv => String.eqb (fst kv) k) users.

(** [users[k] = u] *)
Fixpoint assign (users : users_json) (k : string) (u : jsobject)
  : users_json :=
  match users with
  | [] => [(k, u)]
  | (k', u') :: rest =>
      if String.eqb k' k then (k', u) :: rest
      else (k', u') :: assign rest k u
  end.

(** What [JSON.stringify] keeps of an object: a property whose value is
    [undefined] is left out. *)
Definition to_json (o : jsobject) : jsobject :=
  filter (fun kv => snd kv <> JUndefined) o.

(** [saveUsers(users)]: the content of the file afterwards, as the next
    [loadUsers()] reads it. *)
Definition saveUsers (users : users_json) : users_json :=
  (fun kv => (fst kv, to_json (snd kv))) <$> users.

(** [generateToken(userId)] *)
Definition generateToken (h : Host) (userId : jsval) : string :=
  jwt_sign h userId.

(** [verifyToken(token)]: [None] is [null]. *)
Definition verifyToken (h : Host) (token : string) : option jsobject :=
  jwt_verify h token.

Definition TypeError (msg : string) : js_error := {| err_message := msg |}.

(** [v.toString()] *)
Definition toString (v : jsval) : outcome string :=
  match v with
  | JUndefined =>
      Thrown (TypeError
        "Cannot read properties of undefined (reading 'toString')")
  | JNull =>
      Thrown (TypeError "Cannot read properties of null (reading 'toString')")
  | JBool b => Returned (if b then "true" else "false")
  | JNum z => Returned (pretty z)
  | JStr s => Returned s
  end.

(** sanitizeUser.  A user object of the file has no method: a truthy
    [toObject] property cannot be called. *)
Definition sanitizeUser (user : jsobject) : outcome jsobject :=
  if truthy (get user "toObject")
  then Thrown (TypeError "user.toObject is not a function")
  else
    let u := user in
    let safe :=
      delete "_id" (delete "__v" (delete "geminiApiKey"
        (delete "youtubeApiKey" (delete "passwordHash" u)))) in
    if truthy (get u "id") then Returned (<["id" := get u "id"]> safe)
    else match toString (get u "_id") with
         | Returned s => Returned (<["id" := JStr s]> safe)
         | Thrown e => Thrown e
         end.

(** [v.toLowerCase().trim()], [expr] being the text of [v] in the source. *)
Definition lower_trim (expr : string) (v : jsval) : outcome string :=
  match v with
  | JStr s => Returned (trim (toLowerCase s))
  | JUndefined =>
      Thrown (TypeError
        "Cannot read properties of undefined (reading 'toLowerCase')")
  | JNull =>
      Thrown (TypeError
        "Cannot read properties of null (reading 'toLowerCase')")
  | _ => Thrown (TypeError (expr +:+ ".toLowerCase is not a function"))
  end.

(** The results [{ success: false, error }] and
    [{ success: true, token, user }]. *)
Inductive auth_result :=
| AuthError (error : string)
| AuthOk (token : string) (user : jsobject).

(** [password.length < 6] *)
Definition too_short (password : jsval) : outcome bool :=
  match password with
  | JStr s => Returned (String.length s <? 6)
  | JUndefined =>
      Thrown (TypeError
        "Cannot read properties of undefined (reading 'length')")
  | JNull =>
      Thrown (TypeError "Cannot read properties of null (reading 'length')")
  | _ => Returned false
  end.

(** register: the users file afterwards and the result. *)
Definition register (h : Host) (users : users_json)
    (email password name : jsval) : users_json * outcome auth_result :=
  match lower_trim "email" email with
  | Thrown e => (users, Thrown e)
  | Returned emailLower =>
  match too_short password with
  | Thrown e => (users, Thrown e)
  | Returned true =>
      (users, Returned (AuthError "Password must be at least 6 characters"))
  | Returned false =>
  match bcrypt_hash h password with
  | Thrown e => (users, Thrown e)
  | Returned passwordHash =>
      if bool_decide (is_Some (lookup_user users emailLower))
      then (users,
            Returned (AuthError "An account with this email already exists"))
      else
        let userId := randomUUID h in
        let user : jsobject :=
          {[ "id" := JStr userId;
             "email" := JStr emailLower;
             "name" := js_or name (JStr "");
             "passwordHash" := JStr passwordHash;
             "createdAt" := JStr (now_iso h) ]} in
        let users := assign users emailLower user in
        let token := generateToken h (JStr userId) in
        (saveUsers users,
         match sanitizeUser user with
         | Returned safe => Returned (AuthOk token safe)
         | Thrown e => Thrown e
         end)
  end end end.

(** login: it writes nothing. *)
Definition login (h : Host) (users : users_json) (email password : jsval)
  : outcome auth_result :=
  match lower_trim "email" email with
  | Thrown e => Thrown e
  | Returned emailLower =>
      match lookup_user users emailLower with
      | None => Returned (AuthError "No account found with this email")
      | Some user =>
          match bcrypt_compare h password (get user "passwordHash") with
          | Thrown e => Thrown e
          | Returned false => Returned (AuthError "Incorrect password")
          | Returned true =>
              let token := generateToken h (get user "id") in
              match sanitizeUser user with
              | Returned safe => Returned (AuthOk token safe)
              | Thrown e => Thrown e
              end
          end
      end
  end.

(** googleLogin.  It has no failure result: when it returns, it returns
    [{ success: true, token, user }]. *)
Definition googleLogin (h : Host) (users : users_json) (googleData : jsobject)
  : users_json * outcome (string * jsobject) :=
  match lower_trim "googleData.email" (get googleData "email") with
  | Thrown e => (users, Thrown e)
  | Returned emailLower =>
      match lookup_user users emailLower with
      | Some user =>
          let update :=
            negb (truthy (get user "picture"))
            && truthy (get googleData "picture") in
          let user :=
            if update then <["picture" := get googleData "picture"]> user
            else user in
          let token := generateToken h (get user "id") in
          (if update then saveUsers (assign users emailLower user) else users,
           match sanitizeUser user with
           | Returned safe => Returned (token, safe)
           | Thrown e => Thrown e
           end)
      | None =>
          let userId := randomUUID h in
          let user : jsobject :=
            {[ "id" := JStr userId;
               "email" := JStr emailLower;
               "name" := js_or (get googleData "name") (JStr "");
               "googleId" := get googleData "googleId";
               "picture" := js_or (get googleData "picture") (JStr "");
               "passwordHash" := JStr "";
               "createdAt" := JStr (now_iso h) ]} in
          let token := generateToken h (JStr userId) in
          (saveUsers (assign users emailLower user),
           match sanitizeUser user with
           | Returned safe => Returned (token, safe)
           | Thrown e => Thrown e
           end)
      end
  end.

(** [Object.values(users).find(u => u.id === userId)] *)
Definition find_user (users : users_json) (userId : jsval) : option jsobject :=
  List.find (fun u => strict_eq (get u "id") userId) (snd <$> users).

(** [Object.keys(users).find(k => users[k].id === userId)] *)
Definition find_email (users : users_json) (userId : jsval) : option string :=
  fst <$> List.find (fun kv => strict_eq (get (snd kv) "id") userId) users.

(** getProfile: [None] is [null]. *)
Definition getProfile (users : users_json) (userId : jsval)
  : outcome (option jsobject) :=
  match find_user users userId with
  | Some user =>
      match sanitizeUser user with
      | Returned safe => Returned (Some safe)
      | Thrown e => Thrown e
      end
  | None => Returned None
  end.

Definition allowed : list string :=
  ["name"; "channelDescription"; "interviewerStyle"; "profileComplete"].

(** [if (from[key] !== undefined) user[key] = from[key]] *)
Definition set_if_defined (key : string) (v : jsval) (user : jsobject)
  : jsobject :=
  if strict_eq v JUndefined then user else <[key := v]> user.

(** updateProfile *)
Definition updateProfile (users : users_json) (userId : jsval)
    (updates : jsobject) : users_json * outcome (option jsobject) :=
  match find_email users userId with
  | None => (users, Returned None)
  | Some email =>
      (* if (!email) return null; *)
      if nonempty email then
        let user :=
          foldl (fun user key => set_if_defined key (get updates key) user)
                (default ∅ (lookup_user users email)) allowed in
        (saveUsers (assign users email user),
         match sanitizeUser user with
         | Returned safe => Returned (Some safe)
         | Thrown e => Thrown e
         end)
      else (users, Returned None)
  end.

(** updateApiKeys: [true] is [{ success: true }], [false] is [null]. *)
Definition updateApiKeys (users : users_json) (userId : jsval)
    (keys : jsobject) : users_json * bool :=
  match find_email users userId with
  | None => (users, false)
  | Some email =>
      (* if (!email) return null; *)
      if nonempty email then
        let user := default ∅ (lookup_user users email) in
        let user :=
          set_if_defined "youtubeApiKey" (get keys "youtubeApiKey") user in
        let user :=
          set_if_defined "geminiApiKey" (get keys "geminiApiKey") user in
        (saveUsers (assign users email user), true)
      else (users, false)
  end.

(** getApiKeys: [None] is [null]. *)
Definition getApiKeys (users : users_json) (userId : jsval)
  : option jsobject :=
  (fun user : jsobject =>
     ({[ "youtubeApiKey" := js_or (get user "youtubeApiKey") (JStr "");
         "geminiApiKey" := js_or (get user "geminiApiKey") (JStr "") ]}
      : jsobject))
  <$> find_user users userId.

(** [users[email][k]] as the next request reads it; [undefined] when
    there is no such account or no such property. *)
Definition stored (users : users_json) (email k : string) : jsval :=
  get (default ∅ (lookup_user users email)) k.

(** The object holds none of the three secrets of an account. *)
Definition no_secret (user : jsobject) : Prop :=
  user !! "passwordHash" = None
  ∧ user !! "youtubeApiKey" = None
  ∧ user !! "geminiApiKey" = None.

(** What a handler does with the response. *)
Inductive reply :=
| ErrorReply (status : nat) (error : string)
      (* res.status(status).json({ error }) *)
| AuthReply (status : nat) (token : string) (user : jsobject)
      (* res.status(status).json({ success: true, token, user }) *)
| ProfileReply (user : jsobject)       (* res.json({ success: true, user }) *)
| KeysReply (keys : jsobject)          (* res.json({ success: true, keys }) *)
| SavedReply
      (* res.json({ success: true, message: 'API keys saved' }) *)
| NoReply (e : js_error).
      (* the handler rejects: nothing is written *)

(** The user object of a reply, if it has one. *)
Definition reply_user (r : reply) : option jsobject :=
  match r with
  | AuthReply _ _ user | ProfileReply user => Some user
  | _ => None
  end.

(** authMiddleware: the reply it writes, or the [req.userId] it sets before
    [next()].  [authorization] is [req.headers.authorization]. *)
Definition authMiddleware (h : Host) (authorization : option string)
  : reply + jsval :=
  match authorization with
  | None => inl (ErrorReply 401 "Not authenticated")
  | Some authHeader =>
      if negb (nonempty authHeader) || negb (startsWith authHeader "Bearer ")
      then inl (ErrorReply 401 "Not authenticated")
      else
        match str_split " " authHeader !! 1 with
        | None => inl (ErrorReply 401 "Invalid or expired token")
        | Some token =>
            match verifyToken h token with
            | None => inl (ErrorReply 401 "Invalid or expired token")
            | Some decoded => inr (get decoded "userId")
            end
        end
  end.

(** A protected route: the middleware, then the handler. *)
Definition protected {A} (h : Host) (authorization : option string)
    (unchanged : A) (handler : jsval -> A * reply) : A * reply :=
  match authMiddleware h authorization with
  | inl r => (unchanged, r)
  | inr userId => handler userId
  end.

End FileMode.

(* ===================================================================== *)
(** * src/unnamed/part_001: the account, profile and settings routes *)
(* ===================================================================== *)

Module Routes.
Import FileMode.

(** POST /api/auth/register *)
Definition post_register (h : Host) (users : users_json) (body : jsobject)
  : users_json * reply :=
  match register h users (get body "email") (get body "password")
                 (get body "name") with
  | (users, Returned (AuthError error)) => (users, ErrorReply 400 error)
  | (users, Returned (AuthOk token user)) => (users, AuthReply 201 token user)
  | (users, Thrown _) => (users, ErrorReply 500 "Server error")
  end.

(** POST /api/auth/login *)
Definition post_login (h : Host) (users : users_json) (body : jsobject)
  : reply :=
  match login h users (get body "email") (get body "password") with
  | Returned (AuthError error) => ErrorReply 401 error
  | Returned (AuthOk token user) => AuthReply 200 token user
  | Thrown _ => ErrorReply 500 "Server error"
  end.

(** POST /api/auth/google: [auth.googleLogin(req.body)] *)
Definition post_google (h : Host) (users : users_json) (body : jsobject)
  : users_json * reply :=
  match googleLogin h users body with
  | (users, Returned (token, user)) => (users, AuthReply 200 token user)
  | (users, Thrown _) => (users, ErrorReply 500 "Server error")
  end.

(** GET /api/profile *)
Definition get_profile (h : Host) (users : users_json)
    (authorization : option string) : reply :=
  snd (protected h authorization tt (fun userId =>
    (tt, match getProfile users userId with
         | Returned None => ErrorReply 404 "Profile not found"
         | Returned (Some profile) => ProfileReply profile
         | Thrown e => NoReply e
         end))).

(** PUT /api/profile *)
Definition put_profile (h : Host) (users : users_json)
    (authorization : option string) (body : jsobject) : users_json * reply :=
  protected h authorization users (fun userId =>
    match updateProfile users userId body with
    | (users, Returned None) => (users, ErrorReply 404 "Profile not found")
    | (users, Returned (Some updated)) => (users, ProfileReply updated)
    | (users, Thrown e) => (users, NoReply e)
    end).

(** ['•'.repeat(n)]; the bullet is written as it stands. *)
Fixpoint bullets (n : nat) : string :=
  match n with
  | O => ""
  | S k => "•" +:+ bullets k
  end.

(** [key ? (key.length <= 4 ? '•'.repeat(key.length)
          : '•'.repeat(key.length - 4) + key.slice(-4)) : ''],
    [expr] being the text of [key] in the source. *)
Definition masked (expr : string) (key : jsval) : outcome jsval :=
  if negb (truthy key) then Returned (JStr "")
  else match key with
       | JStr s =>
           if String.length s <=? 4
           then Returned (JStr (bullets (String.length s)))
           else Returned (JStr (bullets (String.length s - 4)
                                +:+ slice_from (String.length s - 4) s))
       | _ => Thrown (TypeError (expr +:+ ".slice is not a function"))
       end.

(** GET /api/settings/keys *)
Definition get_settings_keys (h : Host) (users : users_json)
    (authorization : option string) : reply :=
  snd (protected h authorization tt (fun userId =>
    (tt, match FileMode.getApiKeys users userId with
         | None => ErrorReply 404 "User not found"
         | Some keys =>
             match masked "keys.youtubeApiKey" (get keys "youtubeApiKey"),
                   masked "keys.geminiApiKey" (get keys "geminiApiKey") with
             | Returned y, Returned g =>
                 KeysReply
                   {[ "youtubeApiKey" := y;
                      "geminiApiKey" := g;
                      "hasYoutubeKey" :=
                        JBool (truthy (get keys "youtubeApiKey"));
                      "hasGeminiKey" :=
                        JBool (truthy (get keys "geminiApiKey")) ]}
             | Thrown e, _ => NoReply e
             | _, Thrown e => NoReply e
             end
         end))).

(** PUT /api/settings/keys *)
Definition put_settings_keys (h : Host) (users : users_json)
    (authorization : option string) (body : jsobject) : users_json * reply :=
  protected h authorization users (fun userId =>
    let keys : jsobject :=
      {[ "youtubeApiKey" := get body "youtubeApiKey";
         "geminiApiKey" := get body "geminiApiKey" ]} in
    match updateApiKeys users userId keys with
    | (users, false) => (users, ErrorReply 404 "User not found")
    | (users, true) => (users, SavedReply)
    end).

End Routes.

(* ===================================================================== *)
(** * src/unnamed/part_000: the settings page *)
(* ===================================================================== *)

(** What loadSettingsPage shows for the [keys] of the reply: the value put
    in the key field, and whether the "Key saved" status and the Pro
    banner are shown. *)
Record settings_view := {
  api_input : jsval;     (* apiInput.value = keys.hasApiKey ? keys.apiKey : '' *)
  key_saved : bool       (* updateKeyStatus('apiKeyStatus', keys.hasApiKey) *)
}.

Definition loadSettingsPage (keys : jsobject) : settings_view :=
  {| api_input :=
       if truthy (get keys "hasApiKey") then get keys "apiKey" else JStr "";
     key_saved := truthy (get keys "hasApiKey") |}.

(** ** A host and a store for the examples *)

(** A host whose hash is the password behind a prefix. *)
Definition host_example : FileMode.Host :=
  {| FileMode.bcrypt_hash := fun p =>
       match p with
       | JStr s => Returned ("$2a$10$" +:+ s)
       | _ => Thrown (FileMode.TypeError "Illegal arguments")
       end;
     FileMode.bcrypt_compare := fun p hash =>
       match p, hash with
       | JStr s, JStr x => Returned (String.eqb x ("$2a$10$" +:+ s))
       | _, _ => Thrown (FileMode.TypeError "Illegal arguments")
       end;
     FileMode.randomUUID := "3b241101-e2bb-4255-8caf-4136c566a962";
     FileMode.now_iso := "2025-01-01T00:00:00.000Z";
     FileMode.jwt_sign := fun userId =>
       match userId with
       | JStr s => "jwt." +:+ s
       | _ => "jwt"
       end;
     FileMode.jwt_verify := fun token =>
       if startsWith token "jwt."
       then Some {[ "userId" := JStr (slice_from 4 token) ]}
       else None |}.

(** A users file with one account, which has a YouTube key saved. *)
Definition jane : jsobject :=
  {[ "id" := JStr "u1";
     "email" := JStr "jane@example.org";
     "name" := JStr "Jane";
     "passwordHash" := JStr "$2a$10$s3cret!";
     "youtubeApiKey" := JStr "AIzaSyA-1234567";
     "createdAt" := JStr "2025-01-01T00:00:00.000Z" ]}.

Definition users_example : FileMode.users_json := [("jane@example.org", jane)].

(* ===================================================================== *)
(** * Vocabulary for the replies of the question generator *)
(* ===================================================================== *)

(** A run of white space, possibly empty. *)
Fixpoint blank (s : string) : bool :=
  match s with
  | EmptyString => true
  | String c s' => is_space c && blank s'
  end.

(* ===================================================================== *)
(** * src/unnamed/part_001: POST /api/generate-questions *)
(* ===================================================================== *)

(** What the handler writes on the response. *)
Inductive questions_reply (JSON : Type) :=
| QuestionsJson (result : @questions_result JSON)   (* res.json(result) *)
| QuestionsError (error : string).
      (* res.status(500).json({ error: err.message }) *)
Arguments QuestionsJson {JSON} result.
Arguments QuestionsError {JSON} error.

(** [guestName.toUpperCase()] in the template of the user prompt
    (research.js, line 607): a TypeError unless [guestName] is a string.
    The prompt being kept abstract, the value is the string itself. *)
Definition toUpperCase_receiver (guestName : jsval) : M string :=
  match guestName with
  | JStr s => ret s
  | JUndefined =>
      throw "Cannot read properties of undefined (reading 'toUpperCase')"
  | JNull => throw "Cannot read properties of null (reading 'toUpperCase')"
  | JBool _ | JNum _ => throw "guestName.toUpperCase is not a function"
  end.

(** generateQuestions on the object the handler builds, [guestName] being
    the value of [req.body.guestName] whatever it is (absent, null, a
    boolean, a number or a string); the other fields are those of [input],
    whose [q_guestName] is not read.  The key is tested first; then the
    prompts are built, which calls [guestName.toUpperCase()] outside every
    [try]; only then are the models tried. *)
Definition generateQuestions_of_body {JSON : Type}
    (JSON_parse : string -> JSON + string) (w : World)
    (guestName : jsval) (input : questions_input) : M questions_result :=
  let key := js_or (geminiApiKey input) (JStr (env_GEMINI_API_KEY w)) in
  if negb (truthy key)
  then throw "Gemini API Key is missing. Please configure it in Settings."
  else
    let* name := toUpperCase_receiver guestName in
    try_models JSON_parse w MODELS
      {| interviewerName := interviewerName input;
         interviewerStyle := interviewerStyle input;
         channelDescription := channelDescription input;
         q_guestName := name;
         guestContext := guestContext input;
         pastInterviewsSummary := pastInterviewsSummary input;
         questionCount := questionCount input;
         geminiApiKey := geminiApiKey input |}
      None.

(** The handler, once authMiddleware has set [req.userId]: the effects of
    the call and the reply.  [guestName] is [req.body.guestName]; [input]
    holds the other fields read off [req.body], for a body in which they
    are strings and the count is a number, as the page sends them; its key
    is replaced by [userKeys.geminiApiKey].  What generateQuestions throws
    is caught and answered with status 500. *)
Definition generate_questions_route {JSON : Type}
    (JSON_parse : string -> JSON + string) (db : Store) (w : World)
    (userId : string) (guestName : jsval) (input : questions_input)
  : list effect * questions_reply JSON :=
  let userKeys := getUserKeys db userId in
  let run :=
    generateQuestions_of_body JSON_parse w guestName
      {| interviewerName := interviewerName input;
         interviewerStyle := interviewerStyle input;
         channelDescription := channelDescription input;
         q_guestName := q_guestName input;
         guestContext := guestContext input;
         pastInterviewsSummary := pastInterviewsSummary input;
         questionCount := questionCount input;
         geminiApiKey := get userKeys "geminiApiKey" |} in
  (trace run,
   match result run with
   | Returned r => QuestionsJson r
   | Thrown err => QuestionsError (err_message err)
   end).

(* ===================================================================== *)
(** * Vocabulary for the pace of the requests *)
(* ===================================================================== *)

(** The requests and the waits of a trace, in the order they happen. *)
Definition timeline (t : list effect) : list (request + N) :=
  omap (fun e => match e with
                 | Call r => Some (inl r)
                 | Sleep ms => Some (inr ms)
                 | Progress _ => None
                 end) t.

(** A timeline keeps the pace [(burst, delay)]: no more than [burst]
    requests follow one another without a wait, and every wait lasts
    [delay] ms and comes right after a request.  [run] counts the
    requests since the last wait. *)
Fixpoint paced (burst : nat) (delay : N) (run : nat)
    (t : list (request + N)) : bool :=
  match t with
  | [] => true
  | inl _ :: t' => (run <? burst) && paced burst delay (S run) t'
  | inr ms :: t' => (0 <? run) && N.eqb ms delay && paced burst delay 0 t'
  end.

(* ===================================================================== *)
(** * The users file as the server writes it *)
(* ===================================================================== *)

(** The identifiers of the accounts, in the order of the file. *)
Definition ids_of (users : FileMode.users_json) : list jsval :=
  (fun kv => get (snd kv) "id") <$> users.

(** An account as register and googleLogin create it: its [email] is its
    key, its [id] is truthy, and it has no [toObject] property. *)
Definition account_ok (kv : string * jsobject) : Prop :=
  get (snd kv) "email" = JStr (fst kv)
  ∧ truthy (get (snd kv) "id") = true
  ∧ get (snd kv) "toObject" = JUndefined.

(** A users file in good order: no key twice, no identifier twice, every
    account as above. *)
Definition well_formed (users : FileMode.users_json) : Prop :=
  NoDup users.*1 ∧ NoDup (ids_of users) ∧ Forall account_ok users.

(** The calls of auth.js that write the file. *)
Inductive write_call :=
| Register (email password name : jsval)
| GoogleLogin (googleData : jsobject)
| UpdateProfile (userId : jsval) (updates : jsobject)
| UpdateApiKeys (userId : jsval) (keys : jsobject).

(** The file after a call. *)
Definition file_after (h : FileMode.Host) (users : FileMode.users_json)
    (c : write_call) : FileMode.users_json :=
  match c with
  | Register email password name =>
      fst (FileMode.register h users email password name)
  | GoogleLogin googleData => fst (FileMode.googleLogin h users googleData)
  | UpdateProfile userId updates =>
      fst (FileMode.updateProfile users userId updates)
  | UpdateApiKeys userId keys =>
      fst (FileMode.updateApiKeys users userId keys)
  end.

(** The reply reports a failure: an error status, or no reply at all. *)
Definition is_failure (r : FileMode.reply) : bool :=
  match r with
  | FileMode.ErrorReply _ _ | FileMode.NoReply _ => true
  | _ => false
  end.

(* ===================================================================== *)
(** * src/server/research.js, lines 384-531: webResearch and fetchWikipedia *)
(* ===================================================================== *)

(** The two functions deepResearch runs in its web stage, with the
    requests each of them issues.  Both catch what their requests throw
    and resolve to [null] then, here [None]. *)
Module Web.

(** The addresses fetchWikipedia asks for.  The encoding of the name
    ([encodeURIComponent], with white space turned into [_] for the
    summary) belongs to the constructor. *)
Inductive wiki_url :=
| SummaryUrl (name : string)
    (* https://en.wikipedia.org/api/rest_v1/page/summary/<name> *)
| SearchUrl (name : string)
    (* https://en.wikipedia.org/w/api.php?action=query&list=search&srsearch=<name>... *)
| FullUrl (title : string).
    (* https://en.wikipedia.org/w/api.php?action=query&titles=<title>&prop=extracts... *)

(** The requests of the two functions. *)
Inductive web_request :=
| GroundedSearch (guestName : string)
    (* generateContent(prompt), gemini-2.5-flash with the googleSearch tool *)
| KnowledgeFallback (guestName : string)
    (* generateContent(prompt), gemini-2.0-flash *)
| HttpsGet (url : wiki_url).

(** [chunk.web?.uri] and [chunk.web.title] of a grounding chunk, the empty
    string standing for an absent value. *)
Record chunk := { chunk_uri : string; chunk_title : string }.

(** The grounded call: the text of the reply and its grounding chunks, or
    a failure (the call rejects or [response.text()] throws). *)
Inductive grounded_reply :=
| GroundedText (text : string) (groundingChunks : list chunk)
| GroundedError (msg : string).

(** [httpsGet(url)]: resolves with [{ status, data }] or rejects. *)
Inductive http_reply :=
| HttpResponse (status : nat) (data : string)
| HttpError (msg : string).

(** The fields fetchWikipedia reads off the parsed summary, the empty
    string standing for an absent value. *)
Record summary := {
  summary_title : string;
  summary_description : string;
  summary_extract : string;
  summary_type : string
}.

(** The services and the parser, as the calls of one run see them. *)
Record Net := {
  grounded : string -> jsval -> grounded_reply;
  knowledge : string -> jsval -> gen_reply;
  hostname : string -> option string;
      (* new URL(uri).hostname; [None] when the constructor throws *)
  https_get : wiki_url -> http_reply;
  search_title : string -> option (option string);
      (* JSON.parse(data).query?.search?.[0]?.title; the outer [None]
         when this throws, the inner one when the title is falsy *)
  summary_of : string -> option summary;
      (* JSON.parse(data), read as a summary; [None] when this throws *)
  page_extract : string -> option string
      (* Object.values(JSON.parse(data).query?.pages || {})[0]?.extract || '';
         [None] when this throws *)
}.

Section Functions.

Variable net : Net.

(** The loop over [grounding.groundingChunks], inside its own [try]: when
    [new URL] throws, the sources pushed so far are kept. *)
Fixpoint collect_sources (chunks : list chunk)
    (sources : list (string * string)) : list (string * string) :=
  match chunks with
  | [] => sources
  | c :: rest =>
      if nonempty (chunk_uri c) then
        if nonempty (chunk_title c)
        then collect_sources rest (sources ++ [(chunk_title c, chunk_uri c)])
        else match hostname net (chunk_uri c) with
             | Some host =>
                 collect_sources rest (sources ++ [(host, chunk_uri c)])
             | None => sources
             end
      else collect_sources rest sources
  end.

(** webResearch: the requests it issues and the value it resolves to. *)
Definition webResearch (guestName : string) (geminiKey : jsval)
  : list web_request * option web_profile :=
  match grounded net guestName geminiKey with
  | GroundedText text chunks =>
      ([GroundedSearch guestName],
       Some {| profile := text;
               web_source := "gemini-google-search";
               sources := collect_sources chunks [] |})
  | GroundedError _ =>
      ([GroundedSearch guestName; KnowledgeFallback guestName],
       match knowledge net guestName geminiKey with
       | GenText text =>
           Some {| profile := text;
                   web_source := "gemini-knowledge";
                   sources := [] |}
       | GenError _ => None
       end)
  end.

(** A computation inside the [try] of fetchWikipedia: the requests issued
    and the value, [None] once something has thrown or [null] has been
    returned; either way fetchWikipedia resolves to [null]. *)
Definition W (A : Type) : Type := list web_request * option A.

Definition pure {A} (a : A) : W A := ([], Some a).

Definition stop {A} : W A := ([], None).

Definition and_then {A B} (m : W A) (k : A -> W B) : W B :=
  match m with
  | (reqs, Some a) => let '(reqs', b) := k a in (reqs ++ reqs', b)
  | (reqs, None) => (reqs, None)
  end.

(** [await httpsGet(url)] *)
Definition httpsGet (url : wiki_url) : W (nat * string) :=
  ([HttpsGet url],
   match https_get net url with
   | HttpResponse status data => Some (status, data)
   | HttpError _ => None
   end).

(** A parsed value, or the throw of [JSON.parse]. *)
Definition parsed {A} (v : option A) : W A := ([], v).

(** fetchWikipedia: the requests it issues and the value it resolves to. *)
Definition fetchWikipedia (guestName : string) : W string :=
  and_then (httpsGet (SummaryUrl guestName)) (fun resp =>
  and_then
    (if Nat.eqb (fst resp) 404 then
       and_then (httpsGet (SearchUrl guestName)) (fun searchResp =>
       and_then (parsed (search_title net (snd searchResp))) (fun found =>
       match found with
       | Some title => httpsGet (SummaryUrl title)
       | None => pure resp
       end))
     else pure resp) (fun resp =>
  if negb (Nat.eqb (fst resp) 200) then stop
  else
    and_then (parsed (summary_of net (snd resp))) (fun summary =>
    if negb (nonempty (summary_extract summary))
       || String.eqb (summary_type summary) "disambiguation"
    then stop
    else
      and_then (httpsGet (FullUrl (summary_title summary))) (fun fullResp =>
      and_then (parsed (page_extract net (snd fullResp))) (fun pageContent =>
      pure ("WIKIPEDIA: " +:+ summary_title summary +:+ nl
            +:+ summary_description summary +:+ nl +:+ nl
            +:+ "SUMMARY: " +:+ summary_extract summary +:+ nl +:+ nl
            +:+ (if Nat.ltb 500 (String.length pageContent)
                 then "FULL ARTICLE:" +:+ nl
                      +:+ substring0 (15 * 1000) pageContent
                 else ""))))))).

End Functions.

Definition is_model_request (r : web_request) : bool :=
  match r with
  | GroundedSearch _ | KnowledgeFallback _ => true
  | HttpsGet _ => false
  end.

Definition is_https_request (r : web_request) : bool :=
  match r with
  | HttpsGet _ => true
  | _ => false
  end.

End Web.

(** The world in which the two calls of the web stage are the functions
    above, run on the services of [net]; the other services are those of
    [w]. *)
Definition with_web (net : Web.Net) (w : World) : World :=
  {| env_YOUTUBE_API_KEY := env_YOUTUBE_API_KEY w;
     env_GEMINI_API_KEY := env_GEMINI_API_KEY w;
     search_list := search_list w;
     fetchTranscript := fetchTranscript w;
     generateContent := generateContent w;
     webResearch := fun guestName geminiKey =>
       Fulfilled (snd (Web.webResearch net guestName geminiKey));
     fetchWikipedia := fun guestName =>
       Fulfilled (snd (Web.fetchWikipedia net guestName)) |}.

(** Services for the examples: the grounded call fails and the fallback
    answers; the summary of the name is not found, the search finds the
    title, and the summary and the article of the title are returned. *)
Definition net_example : Web.Net :=
  {| Web.grounded := fun _ _ => Web.GroundedError "503 Service Unavailable";
     Web.knowledge := fun name _ => GenText ("BACKGROUND: " +:+ name);
     Web.hostname := fun _ => None;
     Web.https_get := fun url =>
       match url with
       | Web.SummaryUrl "Jane Doe" => Web.HttpResponse 404 ""
       | Web.SummaryUrl _ => Web.HttpResponse 200 "summary"
       | Web.SearchUrl _ => Web.HttpResponse 200 "search"
       | Web.FullUrl _ => Web.HttpResponse 200 "full"
       end;
     Web.search_title := fun _ => Some (Some "Jane Doe (author)");
     Web.summary_of := fun _ =>
       Some {| Web.summary_title := "Jane Doe (author)";
               Web.summary_description := "Author";
               Web.summary_extract := "Jane Doe is an author.";
               Web.summary_type := "standard" |};
     Web.page_extract := fun _ => Some "Jane Doe is an author." |}.

(* ===================================================================== *)
(** * Facts about the string primitives *)
(* ===================================================================== *)

Section StringFacts.

Lemma append_nil (b : string) : "" +:+ b = b.
Proof. reflexivity. Qed.

Lemma append_cons (c : ascii) (a b : string) :
  String c a +:+ b = String c (a +:+ b).
Proof. reflexivity. Qed.

Lemma append_assoc (a b c : string) : (a +:+ b) +:+ c = a +:+ (b +:+ c).
Proof.
  induction a as [|x a IH]; [reflexivity|].
  by rewrite !append_cons, IH.
Qed.

Lemma append_empty_r (a : string) : a +:+ "" = a.
Proof.
  induction a as [|x a IH]; [reflexivity|]. by rewrite append_cons, IH.
Qed.

Lemma startsWith_spec (s p : string) :
  startsWith s p = true ↔ ∃ post, s = p +:+ post.
Proof.
  revert s. induction p as [|a p IH]; intros s; simpl.
  - split; [intros _; by exists s | done].
  - destruct s as [|b s].
    + split; [done | intros [post H]; discriminate].
    + destruct (Ascii.eqb_spec a b) as [->|Hne].
      * rewrite IH. split; intros [post H]; exists post.
        -- by rewrite append_cons, H.
        -- rewrite append_cons in H. congruence.
      * split; [done | intros [post H]].
        rewrite append_cons in H. congruence.
Qed.

Lemma includes_spec (s sub : string) :
  includes s sub = true ↔ ∃ pre post, s = pre +:+ sub +:+ post.
Proof.
  induction s as [|c s IH]; simpl.
  - rewrite orb_false_r, startsWith_spec. split.
    + intros [post H]. by exists "", post.
    + intros [pre [post H]]. destruct pre; [by exists post | discriminate].
  - rewrite orb_true_iff, startsWith_spec, IH. split.
    + intros [[post H] | [pre [post H]]].
      * by exists "", post.
      * exists (String c pre), post. by rewrite append_cons, H.
    + intros [pre [post H]]. destruct pre as [|x pre].
      * left. by exists post.
      * right. exists pre, post. rewrite append_cons in H. congruence.
Qed.

Lemma includes_empty (s : string) : includes s "" = true.
Proof. destruct s; reflexivity. Qed.

Lemma includes_refl (s : string) : includes s s = true.
Proof. apply includes_spec. exists "", "". by rewrite append_empty_r. Qed.

Lemma includes_trans (a b c : string) :
  includes a b = true → includes b c = true → includes a c = true.
Proof.
  rewrite !includes_spec. intros [p1 [q1 ->]] [p2 [q2 ->]].
  exists (p1 +:+ p2), (q2 +:+ q1). by rewrite !append_assoc.
Qed.

Lemma includes_app_l (a b x : string) :
  includes a x = true → includes (a +:+ b) x = true.
Proof.
  rewrite !includes_spec. intros [p [q ->]].
  exists p, (q +:+ b). by rewrite !append_assoc.
Qed.

Lemma includes_app_r (a b x : string) :
  includes b x = true → includes (a +:+ b) x = true.
Proof.
  rewrite !includes_spec. intros [p [q ->]].
  exists (a +:+ p), q. by rewrite !append_assoc.
Qed.

(** The piece being read is a prefix of the text. *)
Lemma split_ws_go_head (s t : string) (ts : list string) :
  split_ws_go false s = t :: ts → startsWith s t = true.
Proof.
  revert t ts. induction s as [|c s IH]; intros t ts; simpl.
  - by intros [= <- <-].
  - destruct (is_space c).
    + by intros [= <- <-].
    + destruct (split_ws_go false s) as [|t0 ts0] eqn:E.
      * intros [= <- <-]. simpl. by rewrite Ascii.eqb_refl.
      * intros [= <- <-]. simpl. rewrite Ascii.eqb_refl. by eapply IH.
Qed.

(** Every piece of [s.split(/\s+/)] occurs in [s]. *)
Lemma split_ws_go_includes (s : string) (b : bool) (t : string) :
  t ∈ split_ws_go b s → includes s t = true.
Proof.
  revert b t. induction s as [|c s IH]; intros b t; simpl.
  - intros ->%list_elem_of_singleton. reflexivity.
  - destruct (is_space c).
    + destruct b.
      * intros H. rewrite (IH _ _ H). apply orb_true_r.
      * intros [->|H]%elem_of_cons.
        -- reflexivity.
        -- rewrite (IH _ _ H). apply orb_true_r.
    + destruct (split_ws_go false s) as [|t0 ts0] eqn:E.
      * intros ->%list_elem_of_singleton. simpl. by rewrite Ascii.eqb_refl.
      * intros [->|H]%elem_of_cons.
        -- simpl. rewrite Ascii.eqb_refl.
           by rewrite (split_ws_go_head _ _ _ E).
        -- rewrite (IH false t); [apply orb_true_r|].
           rewrite E. by apply elem_of_cons; right.
Qed.

Lemma toLowerCase_app (a b : string) :
  toLowerCase (a +:+ b) = toLowerCase a +:+ toLowerCase b.
Proof.
  induction a as [|x a IH]; [reflexivity|].
  rewrite append_cons. simpl. by rewrite append_cons, IH.
Qed.

Lemma includes_toLowerCase (s t : string) :
  includes s t = true → includes (toLowerCase s) (toLowerCase t) = true.
Proof.
  rewrite !includes_spec. intros [p [q ->]].
  exists (toLowerCase p), (toLowerCase q). by rewrite !toLowerCase_app.
Qed.

(** A text without an ampersand holds no entity. *)
Lemma replace_go_no_amp (p rep s : string) :
  includes s "&" = false → replace_go (String "&" p) rep 0 s = s.
Proof.
  induction s as [|c s IH]; [reflexivity|].
  cbn -[Ascii.eqb]. destruct (Ascii.eqb "&" c); cbn -[Ascii.eqb];
    [discriminate|].
  intros H. by rewrite IH.
Qed.

Lemma decodeHtml_no_amp (s : string) :
  includes s "&" = false → decodeHtml s = s.
Proof.
  intros H. unfold decodeHtml, replaceAll.
  by rewrite !(replace_go_no_amp _ _ _ H).
Qed.

End StringFacts.

(* ===================================================================== *)
(** * Facts about the effect monad *)
(* ===================================================================== *)

Section MonadFacts.

Context {A B : Type}.

Lemma result_bind (m : M A) (k : A → M B) :
  result (bind m k) =
    match result m with
    | Returned a => result (k a)
    | Thrown e => Thrown e
    end.
Proof. destruct m as [t [a|e]]; simpl; [by destruct (k a) | done]. Qed.

Lemma trace_bind (m : M A) (k : A → M B) :
  trace (bind m k) =
    trace m ++ match result m with
               | Returned a => trace (k a)
               | Thrown _ => []
               end.
Proof.
  destruct m as [t [a|e]]; simpl; [by destruct (k a) | by rewrite app_nil_r].
Qed.

Lemma result_try_catch (m : M A) (h : js_error → M A) :
  result (try_catch m h) =
    match result m with
    | Returned a => Returned a
    | Thrown e => result (h e)
    end.
Proof. destruct m as [t [a|e]]; simpl; [done | by destruct (h e)]. Qed.

Lemma trace_try_catch (m : M A) (h : js_error → M A) :
  trace (try_catch m h) =
    trace m ++ match result m with
               | Returned _ => []
               | Thrown e => trace (h e)
               end.
Proof.
  destruct m as [t [a|e]]; simpl; [by rewrite app_nil_r | by destruct (h e)].
Qed.

Lemma returns_bind (m : M A) (k : A → M B) :
  returns m → (∀ a, returns (k a)) → returns (bind m k).
Proof.
  intros [a Ha] Hk. unfold returns. rewrite result_bind, Ha. apply Hk.
Qed.

Lemma returns_try_catch (m : M A) (h : js_error → M A) :
  (∀ e, returns (h e)) → returns (try_catch m h).
Proof.
  intros Hh. unfold returns. rewrite result_try_catch.
  destruct (result m) as [a|e]; [by exists a | apply Hh].
Qed.

Lemma bind_returned (m : M A) (k : A → M B) (b : B) :
  result (bind m k) = Returned b ↔
  ∃ a, result m = Returned a ∧ result (k a) = Returned b.
Proof.
  rewrite result_bind. destruct (result m) as [a|e].
  - split; [by exists a | by intros [a' [[= <-] H]]].
  - split; [done | by intros [a' [? _]]].
Qed.

End MonadFacts.

Lemma returns_ret {A} (a : A) : returns (ret a).
Proof. by exists a. Qed.

Lemma returns_perform (e : effect) : returns (perform e).
Proof. by exists tt. Qed.

Lemma returns_onProgress (s : step) (st : status) (m : message) :
  returns (onProgress s st m).
Proof. by exists tt. Qed.

Lemma infix_of_refl (t : list effect) : infix_of t t.
Proof. exists [], []. by rewrite app_nil_r. Qed.

Lemma infix_of_app_r (a t l : list effect) : infix_of t l → infix_of t (a ++ l).
Proof.
  intros [before [after ->]]. exists (a ++ before), after.
  by rewrite <- !app_assoc.
Qed.

Lemma infix_of_app_l (b t l : list effect) : infix_of t l → infix_of t (l ++ b).
Proof.
  intros [before [after ->]]. exists before, (after ++ b).
  by rewrite <- !app_assoc.
Qed.

Lemma requests_app (t1 t2 : list effect) :
  requests (t1 ++ t2) = requests t1 ++ requests t2.
Proof. apply omap_app. Qed.

Lemma events_app (t1 t2 : list effect) :
  events (t1 ++ t2) = events t1 ++ events t2.
Proof. apply omap_app. Qed.

Lemma sleeps_app (t1 t2 : list effect) :
  sleeps (t1 ++ t2) = sleeps t1 ++ sleeps t2.
Proof. apply omap_app. Qed.

Create HintDb returns.
#[local] Hint Resolve returns_ret returns_perform returns_onProgress : returns.

(** Rewriting a run into its trace and its result. *)
Ltac run_simpl :=
  repeat first
    [ rewrite result_bind | rewrite trace_bind
    | rewrite result_try_catch | rewrite trace_try_catch ];
  cbn [result trace ret throw perform onProgress call sleep fst snd
       err_message].

(* ===================================================================== *)
(** * The relevance filter *)
(* ===================================================================== *)

Section Relevance.

Lemma nameParts_subset (guestName p : string) :
  p ∈ nameParts guestName →
  nonempty p = true ∧ includes (toLowerCase guestName) p = true.
Proof.
  unfold nameParts. rewrite list_elem_of_In, filter_In.
  intros [Hin Hlen]. split.
  - destruct p; [discriminate | reflexivity].
  - eapply split_ws_go_includes. by apply list_elem_of_In.
Qed.

Lemma firstName_in (guestName : string) :
  nameParts guestName ≠ [] → firstName guestName ∈ nameParts guestName.
Proof.
  unfold firstName. destruct (nameParts guestName); [done|].
  intros _. simpl. apply elem_of_cons. by left.
Qed.

Lemma lastName_in (guestName : string) :
  nameParts guestName ≠ [] → lastName guestName ∈ nameParts guestName.
Proof.
  unfold lastName. intros H.
  destruct (last (nameParts guestName)) as [x|] eqn:E.
  - simpl. apply list_elem_of_lookup. rewrite last_lookup in E. eauto.
  - apply last_None in E. done.
Qed.

Lemma relevant_unfold (guestName : string) (v : video) :
  relevant guestName v =
    includes (searchable v) (toLowerCase guestName)
    || (nonempty (lastName guestName)
        && includes (normalised (title v)) (lastName guestName))
    || (nonempty (firstName guestName) && nonempty (lastName guestName)
        && includes (searchable v) (firstName guestName)
        && includes (searchable v) (lastName guestName))
    || (includes (normalised (channelTitle v)) (lastName guestName)
        || includes (normalised (channelTitle v)) (firstName guestName)).
Proof.
  unfold relevant, searchable, normalised.
  repeat match goal with |- context [if ?b then _ else _] => destruct b end;
    reflexivity.
Qed.

Lemma title_in_searchable (v : video) (x : string) :
  includes (normalised (title v)) x = true → includes (searchable v) x = true.
Proof. intros H. unfold searchable. by apply includes_app_l. Qed.

Lemma channel_in_searchable (v : video) (x : string) :
  includes (normalised (channelTitle v)) x = true →
  includes (searchable v) x = true.
Proof.
  intros H. unfold searchable.
  by do 4 apply includes_app_r.
Qed.

(** C5 as the document words it fails: a word of at most two characters
    is not a name-token of the filter.  For the subject "Jo Smith" the
    only token is "smith", and a video whose channel is "JoJo TV" is
    dropped although its channel name contains the word "jo". *)
Lemma relevant_differs_from_spec_on_short_words :
  spec_keeps "Jo Smith" video_jojo = true
  ∧ relevant "Jo Smith" video_jojo = false.
Proof. split; vm_compute; reflexivity. Qed.

(** C5, amended.  The name-tokens of the filter are the white-space
    separated words of the lower-cased subject name that are longer than
    two characters; when there is at least one, a video is kept exactly
    when the full name occurs in title+description+channel, or the last
    token occurs in the title, or the first and the last token both occur
    somewhere, or the channel name contains one of the two; a video with
    the full name in its title is kept, and a video in which neither the
    first nor the last token occurs is dropped.  All texts are compared
    entity-decoded and lower-cased. *)
Theorem relevance_filter_characterised (guestName : string) (v : video) :
  nameParts guestName ≠ [] →
  (relevant guestName v = true ↔
     includes (searchable v) (toLowerCase guestName) = true
     ∨ includes (normalised (title v)) (lastName guestName) = true
     ∨ (includes (searchable v) (firstName guestName) = true
        ∧ includes (searchable v) (lastName guestName) = true)
     ∨ includes (normalised (channelTitle v)) (firstName guestName) = true
     ∨ includes (normalised (channelTitle v)) (lastName guestName) = true)
  ∧ (includes (normalised (title v)) (toLowerCase guestName) = true →
     relevant guestName v = true)
  ∧ (includes (searchable v) (firstName guestName) = false →
     includes (searchable v) (lastName guestName) = false →
     relevant guestName v = false).
Proof.
  intros Hparts.
  destruct (nameParts_subset _ _ (firstName_in _ Hparts)) as [Hf Hfsub].
  destruct (nameParts_subset _ _ (lastName_in _ Hparts)) as [Hl Hlsub].
  rewrite relevant_unfold, Hf, Hl. simpl.
  split; [|split].
  - rewrite !orb_true_iff, andb_true_iff. tauto.
  - intros H. by rewrite (title_in_searchable _ _ H).
  - intros Hnf Hnl. rewrite Hnf. simpl.
    destruct (includes (searchable v) (toLowerCase guestName)) eqn:Hfull.
    { by rewrite (includes_trans _ _ _ Hfull Hfsub) in Hnf. }
    destruct (includes (normalised (title v)) (lastName guestName)) eqn:Ht.
    { by rewrite (title_in_searchable _ _ Ht) in Hnl. }
    destruct (includes (normalised (channelTitle v)) (lastName guestName)) eqn:Hc1.
    { by rewrite (channel_in_searchable _ _ Hc1) in Hnl. }
    destruct (includes (normalised (channelTitle v)) (firstName guestName)) eqn:Hc2.
    { by rewrite (channel_in_searchable _ _ Hc2) in Hnf. }
    reflexivity.
Qed.

Lemma relevance_filter_characterised_witness :
  nameParts "Jane Doe" ≠ [] ∧ relevant "Jane Doe" video_book = true.
Proof.
  assert (H : nameParts "Jane Doe" ≠ []) by (vm_compute; discriminate).
  split; [exact H|].
  apply (proj1 (proj2 (relevance_filter_characterised "Jane Doe" video_book H))).
  vm_compute. reflexivity.
Defined.

(** The same on the raw title: a title without an ampersand that contains
    the subject name as typed is kept, whatever the name. *)
Lemma full_name_in_raw_title_kept (guestName : string) (v : video) :
  includes (title v) "&" = false →
  includes (title v) guestName = true →
  relevant guestName v = true.
Proof.
  intros Hamp Hin. rewrite relevant_unfold.
  assert (includes (normalised (title v)) (toLowerCase guestName) = true) as H.
  { unfold normalised. rewrite (decodeHtml_no_amp _ Hamp).
    by apply includes_toLowerCase. }
  by rewrite (title_in_searchable _ _ H).
Qed.

(** X24.  Without a token longer than two characters both tokens are the empty
    string, which every channel name contains: the filter keeps every
    video.  (The two tests above it guard against the empty token; the
    channel test does not.) *)
Lemma short_name_keeps_everything (guestName : string) (v : video) :
  nameParts guestName = [] → relevant guestName v = true.
Proof.
  intros H. rewrite relevant_unfold. unfold lastName, firstName. rewrite H.
  simpl. rewrite !includes_empty. by rewrite !orb_true_r.
Qed.

Example short_name_keeps_unrelated_video :
  relevant "Jo Li" video_pasta = true.
Proof. vm_compute. reflexivity. Qed.

End Relevance.

(* ===================================================================== *)
(** * The search stage: deduplication *)
(* ===================================================================== *)

Section Deduplication.

Variable w : World.

Lemma dedup_inv_no_videos : dedup_inv no_videos.
Proof. split; [constructor | intros id H; by apply elem_of_nil in H]. Qed.

Lemma add_items_inv (items : list yt_item) (st : search_state) :
  dedup_inv st → dedup_inv (add_items items st).
Proof.
  revert st. induction items as [|item rest IH]; intros st Hinv; [done|].
  simpl. apply IH. case_decide as Hseen; [done|].
  destruct Hinv as [Hnd Hsub]. unfold dedup_inv, video_ids in *. simpl.
  rewrite fmap_app. simpl. split.
  - apply NoDup_app. split; [done|]. split; [|apply NoDup_singleton].
    intros id Hid ->%list_elem_of_singleton. apply Hseen. by apply Hsub.
  - intros id [Hid | ->%list_elem_of_singleton]%elem_of_app.
    + apply elem_of_union_r. by apply Hsub.
    + apply elem_of_union_l. by apply elem_of_singleton.
Qed.

Lemma add_items_quotaErrors (items : list yt_item) (st : search_state) :
  quotaErrors (add_items items st) = quotaErrors st.
Proof.
  revert st. induction items as [|item rest IH]; intros st; [done|].
  simpl. rewrite IH. by case_decide.
Qed.

(** The query loop never throws, and keeps the invariant. *)
Lemma query_loop_inv (maxResults : nat) (maxVideoCap : option nat)
    (maxQuotaErrors ordinal : nat) (queries : list string)
    (st : search_state) :
  dedup_inv st →
  ∃ st', result (query_loop w maxResults maxVideoCap maxQuotaErrors ordinal
                   queries st) = Returned st'
         ∧ dedup_inv st'.
Proof.
  revert ordinal st. induction queries as [|query rest IH];
    intros ordinal st Hinv; simpl.
  - by exists st.
  - destruct (reached _ _); [by exists st|].
    destruct (Nat.leb _ _); [by exists st|].
    rewrite result_bind, result_try_catch. unfold yt_search.
    run_simpl. destruct (search_list w ordinal query maxResults) as [[items|]|msg];
      run_simpl.
    + apply IH. by apply add_items_inv.
    + by apply IH.
    + destruct (is_quota_message msg); run_simpl; by apply IH.
Qed.

Lemma filter_ids_sublist (P : video → bool) (vs : list video) :
  video_ids (List.filter P vs) `sublist_of` video_ids vs.
Proof.
  induction vs as [|v vs IH]; simpl; [done|].
  destruct (P v); simpl; [by apply sublist_skip | by apply sublist_cons].
Qed.

Lemma insert_by_date_perm (v : video) (l : list video) :
  insert_by_date v l ≡ₚ v :: l.
Proof.
  induction l as [|x l IH]; simpl; [done|].
  destruct (Z.ltb _ _); [|done]. rewrite IH. apply Permutation_swap.
Qed.

Lemma sort_recent_first_perm (l : list video) : sort_recent_first l ≡ₚ l.
Proof.
  induction l as [|x l IH]; simpl; [done|].
  rewrite insert_by_date_perm. by rewrite IH.
Qed.

Lemma researchGuest_result (guestName : string) (key : jsval) (isPro : bool)
    (r : search_result) :
  result (researchGuest w guestName key isPro) = Returned r →
  NoDup (video_ids (sr_interviews r))
  ∧ sr_totalInterviewsFound r = length (sr_interviews r).
Proof.
  unfold researchGuest. rewrite result_bind.
  destruct (result (createYoutubeClient w key)); [|done].
  rewrite result_bind.
  match goal with |- context [query_loop w ?a ?b ?c ?d ?e ?f] =>
    destruct (query_loop_inv a b c d e f dedup_inv_no_videos)
      as [st [-> [Hnd _]]] end.
  destruct (_ && _); [done|]. intros [= <-]. simpl. split; [|done].
  pose proof (filter_ids_sublist (relevant guestName) (allVideos st)) as Hsub.
  unfold video_ids in *. rewrite sort_recent_first_perm.
  eapply sublist_NoDup; eauto.
Qed.

End Deduplication.

(* ===================================================================== *)
(** * The orchestrator: every stage is guarded *)
(* ===================================================================== *)

Section Orchestrator.

Variable w : World.
Variable Y : YoutubeModule.

Lemma name_check_stage_returns (guestName : string) (geminiKey : jsval) :
  returns (name_check_stage w guestName geminiKey).
Proof.
  unfold name_check_stage. apply returns_bind; [auto with returns|].
  intros _. apply returns_try_catch. intros e.
  apply returns_bind; auto with returns.
Qed.

Lemma search_stage_returns (searchName : string) (key : jsval) (isPro : bool) :
  returns (search_stage Y searchName key isPro).
Proof.
  unfold search_stage. apply returns_bind; [auto with returns|].
  intros _. apply returns_try_catch. intros e.
  apply returns_bind; auto with returns.
Qed.

Lemma transcript_stage_returns (ytResult : search_result) :
  returns (transcript_stage Y ytResult).
Proof.
  unfold transcript_stage. destruct (Nat.ltb _ _); [|auto with returns].
  apply returns_bind; [auto with returns|].
  intros _. apply returns_try_catch. intros e.
  apply returns_bind; auto with returns.
Qed.

Lemma model_watch_stage_returns (failed : list video) (key : jsval)
    (isPro : bool) :
  returns (model_watch_stage Y failed key isPro).
Proof.
  unfold model_watch_stage. destruct (Nat.ltb _ _); [|auto with returns].
  apply returns_bind; [auto with returns|].
  intros _. apply returns_try_catch. intros e.
  apply returns_bind; auto with returns.
Qed.

Lemma analysis_attempts_returns (searchName : string) (cs : list content)
    (context : string) (key : jsval) (nt ng : nat) (attempts : list nat)
    (va : string) :
  returns (analysis_attempts w searchName cs context key nt ng attempts va).
Proof.
  induction attempts as [|attempt rest IH]; simpl; [auto with returns|].
  apply returns_bind.
  - apply returns_try_catch. intros e. apply returns_bind; [|auto with returns].
    destruct (_ && _).
    + by eexists.
    + destruct (Nat.eqb _ _); by eexists.
  - intros [text|]; auto with returns.
Qed.

Lemma deep_analysis_stage_returns (searchName : string)
    (transcripts geminiAnalyzed : list content) (context : string)
    (key : jsval) :
  returns (deep_analysis_stage w searchName transcripts geminiAnalyzed
             context key).
Proof.
  unfold deep_analysis_stage. destruct (Nat.ltb _ _); [|auto with returns].
  apply returns_bind; [auto with returns|]. intros _.
  apply analysis_attempts_returns.
Qed.

Lemma metadata_fallback_returns (searchName : string)
    (ytResult : search_result) (context : string) (key : jsval)
    (va : string) :
  returns (metadata_fallback w searchName ytResult context key va).
Proof.
  unfold metadata_fallback. destruct (_ && _); [|auto with returns].
  apply returns_bind; [auto with returns|].
  intros _. apply returns_try_catch. intros e.
  apply returns_bind; auto with returns.
Qed.

Lemma web_stage_returns (searchName : string) (key : jsval) :
  returns (web_stage w searchName key).
Proof.
  unfold web_stage.
  repeat (apply returns_bind; [by eexists|]; intros _).
  auto with returns.
Qed.

(** One run of deepResearch, stage by stage: it always returns, with the
    report built from the values of the stages, and its trace is the
    traces of the stages in order between the first and the last events. *)
Lemma deepResearch_with_stages (guestName context : string)
    (geminiKey youtubeKey : jsval) (isPro : bool) :
  ∃ searchName ytResult transcripts failed geminiAnalyzed deep videoAnalysis
    web wiki,
    result (name_check_stage w guestName geminiKey) = Returned searchName
    ∧ result (search_stage Y searchName youtubeKey isPro) = Returned ytResult
    ∧ result (transcript_stage Y ytResult) = Returned (transcripts, failed)
    ∧ result (model_watch_stage Y failed geminiKey isPro)
      = Returned geminiAnalyzed
    ∧ result (deep_analysis_stage w searchName transcripts geminiAnalyzed
                context geminiKey) = Returned deep
    ∧ result (metadata_fallback w searchName ytResult context geminiKey deep)
      = Returned videoAnalysis
    ∧ result (web_stage w searchName geminiKey) = Returned (web, wiki)
    ∧ result (deepResearch_with w Y guestName context geminiKey youtubeKey isPro)
      = Returned
          {| run_ytResult := ytResult;
             run_transcripts := transcripts;
             run_failedVideos := failed;
             run_geminiAnalyzed := geminiAnalyzed;
             run_report :=
               {| guestName := searchName;
                  originalQuery := guestName;
                  correctedName :=
                    if String.eqb searchName guestName then None
                    else Some searchName;
                  totalInterviewsFound := sr_totalInterviewsFound ytResult;
                  transcriptsAnalyzed :=
                    length transcripts + length geminiAnalyzed;
                  interviews := sr_interviews ytResult;
                  topicsSummary := combinedSummary videoAnalysis wiki web;
                  videoAnalysis := videoAnalysis;
                  webProfile := web |} |}
    ∧ trace (deepResearch_with w Y guestName context geminiKey youtubeKey isPro)
      = [Progress {| ev_step := step_start; ev_status := Active;
                     ev_message := MsgStarting guestName |}]
        ++ trace (name_check_stage w guestName geminiKey)
        ++ trace (search_stage Y searchName youtubeKey isPro)
        ++ trace (transcript_stage Y ytResult)
        ++ trace (model_watch_stage Y failed geminiKey isPro)
        ++ trace (deep_analysis_stage w searchName transcripts geminiAnalyzed
                    context geminiKey)
        ++ trace (metadata_fallback w searchName ytResult context geminiKey deep)
        ++ trace (web_stage w searchName geminiKey)
        ++ [Progress {| ev_step := step_compile; ev_status := Active;
                        ev_message := MsgCompiling |};
            Progress {| ev_step := step_compile; ev_status := Done;
                        ev_message := MsgReady |};
            Progress {| ev_step := step_complete; ev_status := Done;
                        ev_message := MsgComplete |}].
Proof.
  destruct (name_check_stage_returns guestName geminiKey) as [searchName H1].
  destruct (search_stage_returns searchName youtubeKey isPro) as [ytResult H2].
  destruct (transcript_stage_returns ytResult) as [[transcripts failed] H3].
  destruct (model_watch_stage_returns failed geminiKey isPro)
    as [geminiAnalyzed H4].
  destruct (deep_analysis_stage_returns searchName transcripts geminiAnalyzed
              context geminiKey) as [deep H5].
  destruct (metadata_fallback_returns searchName ytResult context geminiKey deep)
    as [videoAnalysis H6].
  destruct (web_stage_returns searchName geminiKey) as [[web wiki] H7].
  exists searchName, ytResult, transcripts, failed, geminiAnalyzed, deep,
    videoAnalysis, web, wiki.
  repeat (split; [assumption|]).
  unfold deepResearch_with. split.
  - run_simpl. rewrite H1. run_simpl. rewrite H2. run_simpl. rewrite H3.
    run_simpl. rewrite H4. run_simpl. rewrite H5. run_simpl. rewrite H6.
    run_simpl. rewrite H7. by run_simpl.
  - run_simpl. rewrite H1. run_simpl. rewrite H2. run_simpl. rewrite H3.
    run_simpl. rewrite H4. run_simpl. rewrite H5. run_simpl. rewrite H6.
    run_simpl. rewrite H7. run_simpl. reflexivity.
Qed.

Lemma deepResearch_returns (guestName context : string) (userKeys : jsobject) :
  ∃ r, result (deepResearch_run w Y guestName context userKeys) = Returned r
       ∧ result (deepResearch w Y guestName context userKeys)
         = Returned (run_report r)
       ∧ trace (deepResearch w Y guestName context userKeys)
         = trace (deepResearch_run w Y guestName context userKeys).
Proof.
  unfold deepResearch, deepResearch_run.
  destruct (deepResearch_with_stages guestName context
              (js_or (get userKeys "geminiApiKey") (JStr ""))
              (js_or (get userKeys "youtubeApiKey") (JStr ""))
              (isPro_of userKeys))
    as (sn & yt & tr & fv & ga & d & va & web & wiki & _ & _ & _ & _ & _ & _ & _ & Hr & _).
  eexists. split; [exact Hr|]. run_simpl. rewrite Hr. run_simpl.
  split; [reflexivity | by rewrite app_nil_r].
Qed.

End Orchestrator.

(* ===================================================================== *)
(** * C7: video identifiers are unique *)
(* ===================================================================== *)

Section UniqueIds.

Variable w : World.

Lemma search_stage_value (Y : YoutubeModule) (searchName : string)
    (key : jsval) (isPro : bool) (ytResult : search_result) :
  result (search_stage Y searchName key isPro) = Returned ytResult →
  result (youtubeSearch Y searchName key isPro) = Returned ytResult
  ∨ (∃ e, result (youtubeSearch Y searchName key isPro) = Thrown e
          ∧ ytResult = no_result).
Proof.
  unfold search_stage. run_simpl.
  destruct (result (youtubeSearch Y searchName key isPro)) as [r|e];
    run_simpl; intros [= <-]; [by left | right; by exists e].
Qed.

Lemma search_stage_unique (searchName : string) (key : jsval) (isPro : bool)
    (ytResult : search_result) :
  result (search_stage (youtube_js w) searchName key isPro) = Returned ytResult →
  NoDup (video_ids (sr_interviews ytResult))
  ∧ sr_totalInterviewsFound ytResult = length (sr_interviews ytResult).
Proof.
  intros [H | [e [_ ->]]]%search_stage_value.
  - by apply (researchGuest_result w) in H.
  - split; [constructor | done].
Qed.

(** C7.  Whatever the replies to the queries, and whether or not a query
    is issued twice, the accumulated list holds no video identifier
    twice; and the video list of every report holds none twice. *)
Theorem video_ids_unique :
  (∀ maxResults maxVideoCap maxQuotaErrors ordinal queries,
     ∃ st, result (query_loop w maxResults maxVideoCap maxQuotaErrors ordinal
                     queries no_videos) = Returned st
           ∧ NoDup (video_ids (allVideos st)))
  ∧ (∀ guestName context userKeys,
       ∃ rep, result (deepResearch w (youtube_js w) guestName context userKeys)
              = Returned rep
              ∧ NoDup (video_ids (interviews rep))).
Proof.
  split.
  - intros mr cap mq ordinal queries.
    destruct (query_loop_inv w mr cap mq ordinal queries no_videos
                dedup_inv_no_videos) as [st [Hst [Hnd _]]].
    by exists st.
  - intros guestName context userKeys.
    destruct (deepResearch_returns w (youtube_js w) guestName context userKeys)
      as [r [Hrun [Hrep _]]].
    exists (run_report r). split; [done|].
    unfold deepResearch_run in Hrun.
    destruct (deepResearch_with_stages w (youtube_js w) guestName context
                (js_or (get userKeys "geminiApiKey") (JStr ""))
                (js_or (get userKeys "youtubeApiKey") (JStr ""))
                (isPro_of userKeys))
      as (sn & yt & tr & fv & ga & d & va & web & wiki
          & _ & Hyt & _ & _ & _ & _ & _ & Hr & _).
    rewrite Hr in Hrun. injection Hrun as <-. simpl.
    by apply search_stage_unique in Hyt as [Hnd _].
Qed.

End UniqueIds.

(* ===================================================================== *)
(** * C1: quota exhaustion of the search *)
(* ===================================================================== *)

Section QuotaExhaustion.

Variable w : World.
Hypothesis Hquota : quota_exhausted_world w.

Lemma query_loop_all_quota (maxResults : nat) (maxVideoCap : option nat)
    (maxQuotaErrors ordinal : nat) (queries : list string)
    (st : search_state) :
  allVideos st = [] →
  reached maxVideoCap 0 = false →
  ∃ st', result (query_loop w maxResults maxVideoCap maxQuotaErrors ordinal
                   queries st) = Returned st'
         ∧ allVideos st' = []
         ∧ quotaErrors st ≤ quotaErrors st'
         ∧ (queries ≠ [] → quotaErrors st < maxQuotaErrors →
            quotaErrors st < quotaErrors st').
Proof.
  intros Hempty Hcap. revert ordinal st Hempty.
  induction queries as [|query rest IH]; intros ordinal [av seen qe] Hempty;
    simpl in Hempty; subst av;
    cbn [query_loop allVideos seenIds quotaErrors length].
  - eexists. repeat split; first [done | lia | intros; congruence].
  - rewrite Hcap.
    destruct (Nat.leb_spec maxQuotaErrors qe) as [Hle|Hlt].
    + eexists. repeat split; first [done | lia].
    + unfold yt_search. run_simpl.
      destruct (Hquota ordinal query maxResults) as [msg [-> Hmsg]].
      run_simpl. rewrite Hmsg. run_simpl.
      destruct (IH (S ordinal)
                  {| allVideos := []; seenIds := seen;
                     quotaErrors := S qe |} eq_refl)
        as [st' [Hr [He [Hq _]]]].
      exists st'. simpl in Hq. repeat split; first [done | lia].
Qed.

Lemma researchGuest_quota_exhausted (guestName : string) (key : jsval)
    (isPro : bool) :
  truthy (js_or key (JStr (env_YOUTUBE_API_KEY w))) = true →
  result (researchGuest w guestName key isPro)
  = Thrown {| err_message := QUOTA_EXHAUSTED |}.
Proof.
  intros Hkey. unfold researchGuest, createYoutubeClient.
  rewrite Hkey. run_simpl.
  match goal with |- context [query_loop w ?a ?b ?c ?d ?e ?f] =>
    destruct (query_loop_all_quota a b c d e f) as [st [-> [He [_ Hq]]]]
  end; [done | by destruct isPro |].
  rewrite He. simpl.
  assert (0 < quotaErrors st) as Hpos.
  { apply Hq; destruct isPro; simpl; first [discriminate | lia]. }
  destruct (Nat.ltb_spec 0 (quotaErrors st)); [done | lia].
Qed.

(** C1 on the code.  When every search request is answered with a quota
    error, researchGuest throws the QUOTA_EXHAUSTED error; deepResearch
    catches it, reports it in an error-status progress event of the
    search step, and goes on: the run returns a report, with no video. *)
Theorem quota_exhaustion_does_not_end_the_run
    (guestName context : string) (userKeys : jsobject) :
  youtube_key_configured w userKeys →
  (∀ name,
     result (researchGuest w name
               (js_or (get userKeys "youtubeApiKey") (JStr ""))
               (isPro_of userKeys))
     = Thrown {| err_message := QUOTA_EXHAUSTED |})
  ∧ ∃ rep,
      result (deepResearch w (youtube_js w) guestName context userKeys)
      = Returned rep
      ∧ totalInterviewsFound rep = 0
      ∧ interviews rep = []
      ∧ transcriptsAnalyzed rep = 0
      ∧ progress step_youtube Error (MsgSearchFailed QUOTA_EXHAUSTED)
        ∈ trace (deepResearch w (youtube_js w) guestName context userKeys).
Proof.
  intros Hkey. split.
  { intros name. by apply researchGuest_quota_exhausted. }
  destruct (deepResearch_returns w (youtube_js w) guestName context userKeys)
    as [r [Hrun [Hrep Htr]]].
  exists (run_report r). split; [done|]. rewrite Htr.
  unfold deepResearch_run in *.
  destruct (deepResearch_with_stages w (youtube_js w) guestName context
              (js_or (get userKeys "geminiApiKey") (JStr ""))
              (js_or (get userKeys "youtubeApiKey") (JStr ""))
              (isPro_of userKeys))
    as (sn & yt & tr & fv & ga & d & va & web & wiki
        & _ & Hyt & Htrs & Hga & _ & _ & _ & Hr & Ht).
  rewrite Hr in Hrun. injection Hrun as <-. simpl.
  assert (trace (search_stage (youtube_js w) sn
                   (js_or (get userKeys "youtubeApiKey") (JStr ""))
                   (isPro_of userKeys))
          = [progress step_youtube Active (MsgSearching sn)]
            ++ trace (researchGuest w sn
                        (js_or (get userKeys "youtubeApiKey") (JStr ""))
                        (isPro_of userKeys))
            ++ [progress step_youtube Error (MsgSearchFailed QUOTA_EXHAUSTED)])
    as Hst.
  { unfold search_stage. run_simpl. simpl youtubeSearch.
    rewrite (researchGuest_quota_exhausted sn _ _ Hkey). run_simpl.
    by rewrite !app_nil_r. }
  assert (yt = no_result) as ->.
  { revert Hyt. unfold search_stage. run_simpl. simpl youtubeSearch.
    rewrite (researchGuest_quota_exhausted sn _ _ Hkey). run_simpl.
    by intros [= <-]. }
  revert Htrs. unfold transcript_stage. simpl. intros [= <- <-].
  revert Hga. unfold model_watch_stage. simpl. intros [= <-].
  repeat split; try done.
  rewrite Ht, Hst. rewrite !elem_of_app.
  right. right. left. right. right. by apply list_elem_of_singleton.
Qed.

End QuotaExhaustion.

Lemma quota_exhaustion_does_not_end_the_run_witness :
  quota_exhausted_world world_quota
  ∧ youtube_key_configured world_quota ∅
  ∧ ∃ rep,
      result (deepResearch world_quota (youtube_js world_quota) "Jane Doe" "" ∅)
      = Returned rep
      ∧ totalInterviewsFound rep = 0.
Proof.
  assert (quota_exhausted_world world_quota) as Hq.
  { intros ordinal q maxResults. eexists. split; reflexivity. }
  assert (youtube_key_configured world_quota ∅) as Hk by reflexivity.
  split; [exact Hq|]. split; [exact Hk|].
  destruct (quota_exhaustion_does_not_end_the_run world_quota Hq "Jane Doe" "" ∅ Hk)
    as [_ [rep [Hrep [Htotal _]]]].
  by exists rep.
Defined.

(** The research route never ends in an error frame: whatever the world
    answers, the last frame it writes carries a report. *)
Lemma route_ends_with_result (db : Store) (w : World) (userId : string)
    (guestName context : string) :
  nonempty guestName = true →
  ∃ frames rep,
    research_guest_route db w userId guestName context
    = EventStream (frames ++ [ResultFrame rep]).
Proof.
  intros Hname. unfold research_guest_route. rewrite Hname. simpl.
  destruct (deepResearch_returns w (youtube_js w) guestName context
              (getUserKeys db userId)) as [r [_ [-> _]]].
  by eexists _, _.
Qed.

(* ===================================================================== *)
(** * C10: a transcript stage that throws *)
(* ===================================================================== *)

Section TranscriptCrash.

Variable w : World.
Variable Y : YoutubeModule.

(** C10.  When fetchTranscripts itself throws on the videos found, the
    run goes on: an error-status event of the transcripts step is
    emitted, no transcript is kept, every video found is classified as
    without transcript and handed to analyzeVideosWithGemini, whose
    effects are part of the run, and a report is returned. *)
Theorem transcript_crash_is_survived (guestName context : string)
    (geminiKey youtubeKey : jsval) (isPro : bool)
    (searchName : string) (ytResult : search_result) (e : js_error) :
  result (name_check_stage w guestName geminiKey) = Returned searchName →
  result (search_stage Y searchName youtubeKey isPro) = Returned ytResult →
  sr_interviews ytResult ≠ [] →
  result (imported_fetchTranscripts Y (sr_interviews ytResult)) = Thrown e →
  ∃ r,
    result (deepResearch_with w Y guestName context geminiKey youtubeKey isPro)
    = Returned r
    ∧ run_ytResult r = ytResult
    ∧ run_transcripts r = []
    ∧ run_failedVideos r = sr_interviews ytResult
    ∧ interviews (run_report r) = sr_interviews ytResult
    ∧ progress step_transcripts Error MsgTranscriptsFailed
      ∈ trace (deepResearch_with w Y guestName context geminiKey youtubeKey isPro)
    ∧ infix_of
        (trace (imported_analyzeVideosWithGemini Y (sr_interviews ytResult)
                  geminiKey isPro))
        (trace (deepResearch_with w Y guestName context geminiKey youtubeKey isPro))
    ∧ run_geminiAnalyzed r
      = match result (imported_analyzeVideosWithGemini Y
                        (sr_interviews ytResult) geminiKey isPro) with
        | Returned analyzed => analyzed
        | Thrown _ => []
        end.
Proof.
  intros Hname Hsearch Hfound Hcrash.
  destruct (deepResearch_with_stages w Y guestName context geminiKey
              youtubeKey isPro)
    as (sn & yt & tr & fv & ga & d & va & web & wiki
        & H1 & H2 & H3 & H4 & _ & _ & _ & Hr & Ht).
  rewrite Hname in H1. injection H1 as <-.
  rewrite Hsearch in H2. injection H2 as <-.
  assert ((0 <? length (sr_interviews ytResult)) = true) as Hlen.
  { destruct (sr_interviews ytResult); [done | reflexivity]. }
  assert (result (transcript_stage Y ytResult)
          = Returned ([], sr_interviews ytResult)
          ∧ progress step_transcripts Error MsgTranscriptsFailed
            ∈ trace (transcript_stage Y ytResult)) as [Hts Hev].
  { unfold transcript_stage. rewrite Hlen. run_simpl. rewrite Hcrash.
    run_simpl. split; [reflexivity|].
    rewrite !elem_of_app. right. right. left.
    by apply list_elem_of_singleton. }
  rewrite Hts in H3. injection H3 as <- <-.
  assert (trace (model_watch_stage Y (sr_interviews ytResult) geminiKey isPro)
          = [progress step_gemini_video Active
               (MsgWatchingAll (length (sr_interviews ytResult)) isPro)]
            ++ trace (imported_analyzeVideosWithGemini Y
                        (sr_interviews ytResult) geminiKey isPro)
            ++ [match result (imported_analyzeVideosWithGemini Y
                                (sr_interviews ytResult) geminiKey isPro) with
                | Returned analyzed =>
                    progress step_gemini_video Done (MsgWatched (length analyzed))
                | Thrown _ => progress step_gemini_video Error MsgWatchFailed
                end]
          ∧ ga = match result (imported_analyzeVideosWithGemini Y
                                 (sr_interviews ytResult) geminiKey isPro) with
                 | Returned analyzed => analyzed
                 | Thrown _ => []
                 end) as [Hmw Hga].
  { revert H4. unfold model_watch_stage. rewrite Hlen. run_simpl.
    destruct (result (imported_analyzeVideosWithGemini Y _ geminiKey isPro));
      run_simpl; intros [= <-]; by rewrite !app_nil_r. }
  eexists. split; [exact Hr|].
  cbn [run_ytResult run_transcripts run_failedVideos run_geminiAnalyzed
       run_report interviews].
  do 4 (split; [reflexivity|]). split; [|split; [|exact Hga]].
  - rewrite Ht, !elem_of_app. do 3 right. by left.
  - rewrite Ht, Hmw.
    do 4 apply infix_of_app_r. apply infix_of_app_l.
    apply infix_of_app_r, infix_of_app_l, infix_of_refl.
Qed.

End TranscriptCrash.

Lemma transcript_crash_is_survived_witness :
  ∃ r,
    result (deepResearch_with world_two_videos
              (youtube_crashing_fetch world_two_videos) "Jane Doe" ""
              (JStr "") (JStr "") false)
    = Returned r
    ∧ run_transcripts r = []
    ∧ length (run_failedVideos r) = 2.
Proof.
  destruct (transcript_crash_is_survived world_two_videos
              (youtube_crashing_fetch world_two_videos) "Jane Doe" ""
              (JStr "") (JStr "") false "Jane Doe"
              {| sr_guestName := "Jane Doe"; sr_totalInterviewsFound := 2;
                 sr_interviews :=
                   [ a_video "a1" "Jane Doe interview" "" "Talks" 20;
                     a_video "b2" "Jane Doe podcast" "" "Pods" 10 ] |}
              {| err_message := "transcript library crashed" |})
    as [r [Hr [_ [Htr [Hfv _]]]]].
  - vm_compute. reflexivity.
  - vm_compute. reflexivity.
  - discriminate.
  - vm_compute. reflexivity.
  - exists r. split; [exact Hr|]. split; [exact Htr|]. by rewrite Hfv.
Defined.

(* ===================================================================== *)
(** * C2: what the report counts *)
(* ===================================================================== *)

Section Counting.

Variable w : World.

Lemma try_langs_returns (id : string) (ls : list string)
    (segments : list segment) (lang : string) :
  returns (try_langs w id ls segments lang).
Proof.
  revert segments lang. induction ls as [|tryLang rest IH];
    intros segments lang; cbn [try_langs]; [auto with returns|].
  apply returns_bind.
  - apply returns_try_catch. auto with returns.
  - intros [segs|]; [|apply IH].
    destruct (Nat.ltb _ _); [auto with returns | apply IH].
Qed.

Lemma fetch_one_returns (video : video) : returns (fetch_one w video).
Proof.
  unfold fetch_one. apply returns_try_catch. intros _. apply try_langs_returns.
Qed.

(** fetchTranscripts never throws; every video ends up either among the
    transcripts or among the failed videos, and in one of them only. *)
Lemma fetch_loop_partition (n i : nat) (rest : list video)
    (results : list content) (failed : list video) (succeeded : nat) :
  Forall is_transcript results →
  ∃ fr, result (fetch_loop w n i rest results failed succeeded) = Returned fr
        ∧ content_ids (fr_transcripts fr) ++ video_ids (failedVideos fr)
          ≡ₚ content_ids results ++ video_ids failed ++ video_ids rest
        ∧ Forall is_transcript (fr_transcripts fr).
Proof.
  revert i results failed succeeded.
  induction rest as [|video rest IH]; intros i results failed succeeded Hsrc;
    cbn [fetch_loop].
  - eexists. split; [reflexivity|]. split; [|done].
    unfold video_ids. simpl. by rewrite app_nil_r.
  - destruct (fetch_one_returns video) as [[segments lang] Hone].
    rewrite result_bind, Hone.
    assert (∀ results' failed' succeeded',
              Forall is_transcript results' →
              content_ids results' ++ video_ids failed' ++ video_ids rest
              ≡ₚ content_ids results ++ video_ids failed
                 ++ video_ids (video :: rest) →
              ∃ fr,
                result
                  (onProgress step_transcripts Active
                     (MsgScanned succeeded' (i + 1) n) ;;;
                   (if i <? n - 1 then sleep 100%N else ret tt) ;;;
                   fetch_loop w n (S i) rest results' failed' succeeded')
                = Returned fr
                ∧ content_ids (fr_transcripts fr) ++ video_ids (failedVideos fr)
                  ≡ₚ content_ids results ++ video_ids failed
                     ++ video_ids (video :: rest)
                ∧ Forall is_transcript (fr_transcripts fr)) as Hstep.
    { intros results' failed' succeeded' Hsrc' Hperm.
      destruct (IH (S i) results' failed' succeeded' Hsrc')
        as [fr [Hfr [Hp Hs]]].
      exists fr. split; [|split; [by rewrite Hp | done]].
      run_simpl. destruct (i <? n - 1); by run_simpl. }
    assert (content_ids results ++ video_ids (failed ++ [video])
              ++ video_ids rest
            ≡ₚ content_ids results ++ video_ids failed
               ++ video_ids (video :: rest)) as Hfail.
    { unfold video_ids. rewrite fmap_app, <- app_assoc. done. }
    destruct (0 <? length segments); [|by apply Hstep].
    destruct (100 <? String.length (fullText segments)); [|by apply Hstep].
    apply Hstep.
    + apply Forall_app. split; [done|]. by apply Forall_singleton.
    + unfold content_ids, video_ids. rewrite fmap_app, <- app_assoc.
      apply Permutation_app_head. simpl. apply Permutation_middle.
Qed.

Lemma fetchTranscripts_partition (videos : list video) :
  ∃ fr, result (fetchTranscripts w videos) = Returned fr
        ∧ content_ids (fr_transcripts fr) ++ video_ids (failedVideos fr)
          ≡ₚ video_ids videos
        ∧ Forall is_transcript (fr_transcripts fr).
Proof.
  unfold fetchTranscripts.
  destruct (fetch_loop_partition (length videos) 0 videos [] [] 0)
    as [fr [H1 [H2 H3]]]; [constructor|].
  by exists fr.
Qed.

Lemma analyzeVideoWithGemini_value (video : video) (key : jsval) (c : content) :
  result (analyzeVideoWithGemini w video key) = Returned (Some c) →
  c_videoId c = videoId video ∧ is_model_watched c.
Proof.
  unfold analyzeVideoWithGemini, createGeminiClient, generate.
  destruct (truthy _); run_simpl; [|done].
  destruct (generateContent w (WatchVideo video)) as [text|msg]; run_simpl;
    [|done].
  destruct (100 <? String.length text); run_simpl; [|done].
  by intros [= <-].
Qed.

Lemma adds_from_nothing (rest : list video) (results : list content) :
  adds_from rest results results.
Proof.
  exists []. rewrite app_nil_r. split; [done|].
  split; [apply sublist_nil_l | constructor].
Qed.

Lemma free_loop_adds (maxConsecutiveFailures n skipped : nat) (key : jsval)
    (i : nat) (rest : list video) (results : list content)
    (consecutiveFailures : nat) (rs : list content) :
  result (free_loop w maxConsecutiveFailures n skipped key i rest results
            consecutiveFailures) = Returned rs →
  adds_from rest results rs.
Proof.
  revert i results consecutiveFailures.
  induction rest as [|video rest IH]; intros i results cf; cbn [free_loop].
  - intros [= <-]. apply adds_from_nothing.
  - destruct (maxConsecutiveFailures <=? cf).
    { run_simpl. intros [= <-]. apply adds_from_nothing. }
    run_simpl.
    destruct (result (analyzeVideoWithGemini w video key)) as [[c|]|e] eqn:Hv;
      [| |done].
    + apply analyzeVideoWithGemini_value in Hv as [Hid Hsrc].
      run_simpl. destruct (i <? n - 1); run_simpl; intros Hr;
        apply IH in Hr as (extra & -> & Hsub & Hall);
        (exists (c :: extra); split; [by rewrite <- app_assoc|];
         split; [|by constructor];
         unfold content_ids, video_ids; simpl; rewrite Hid;
         by apply sublist_skip).
    + run_simpl. destruct (i <? n - 1); run_simpl; intros Hr;
        apply IH in Hr as (extra & -> & Hsub & Hall);
        (exists extra; split; [done|]; split; [|done];
         unfold video_ids; simpl; by apply sublist_cons).
Qed.

Lemma mapM_analyze_value (key : jsval) (batch : list video)
    (batchResults : list (option content)) :
  result (mapM (λ video, analyzeVideoWithGemini w video key) batch)
  = Returned batchResults →
  content_ids (omap id batchResults) `sublist_of` video_ids batch
  ∧ Forall is_model_watched (omap id batchResults).
Proof.
  revert batchResults. induction batch as [|video batch IH];
    intros batchResults; cbn [mapM].
  - intros [= <-]. split; [done | constructor].
  - run_simpl.
    destruct (result (analyzeVideoWithGemini w video key)) as [r|e] eqn:Hv;
      [|done].
    run_simpl.
    destruct (result (mapM _ batch)) as [rs|e] eqn:Hm; [|done].
    run_simpl. intros [= <-]. destruct (IH rs eq_refl) as [Hsub Hall].
    destruct r as [c|]; simpl.
    + apply analyzeVideoWithGemini_value in Hv as [Hid Hsrc].
      split; [|by constructor].
      unfold content_ids, video_ids. simpl. rewrite Hid. by apply sublist_skip.
    + split; [|done]. unfold video_ids. simpl. by apply sublist_cons.
Qed.

Lemma adds_from_app (batch rest : list video) (results mid rs : list content) :
  adds_from batch results mid → adds_from rest mid rs →
  adds_from (batch ++ rest) results rs.
Proof.
  intros (e1 & -> & Hs1 & Ha1) (e2 & -> & Hs2 & Ha2).
  exists (e1 ++ e2). split; [by rewrite app_assoc|].
  split; [|by apply Forall_app].
  unfold content_ids, video_ids in *. rewrite !fmap_app.
  by apply sublist_app.
Qed.

Lemma pro_loop_adds (maxConsecutiveFailures n : nat) (key : jsval)
    (bound : nat) :
  ∀ (i : nat) (rest : list video) (results : list content)
    (consecutiveFailures : nat) (rs : list content),
    length rest ≤ bound →
    result (pro_loop w maxConsecutiveFailures n key i rest results
              consecutiveFailures) = Returned rs →
    adds_from rest results rs.
Proof.
  induction bound as [|bound IH]; intros i rest results cf rs Hlen.
  { destruct rest; [|simpl in Hlen; lia].
    intros [= <-]. apply adds_from_nothing. }
  destruct rest as [|v1 tail]; cbn [pro_loop].
  { intros [= <-]. apply adds_from_nothing. }
  destruct (maxConsecutiveFailures <=? cf).
  { run_simpl. intros [= <-]. apply adds_from_nothing. }
  run_simpl.
  destruct (result (mapM _ (take batchSize (v1 :: tail)))) as [brs|e] eqn:Hm;
    [|done].
  apply mapM_analyze_value in Hm as [Hsub Hall].
  assert (adds_from (take batchSize (v1 :: tail)) results
            (results ++ omap id brs)) as Hbatch.
  { by exists (omap id brs). }
  run_simpl.
  destruct tail as [|v2 [|v3 rest']].
  - destruct (i + batchSize <? n); run_simpl; by intros [= <-].
  - destruct (i + batchSize <? n); run_simpl; by intros [= <-].
  - destruct (i + batchSize <? n); run_simpl; intros Hr;
      apply IH in Hr; [| simpl in Hlen; lia | | simpl in Hlen; lia];
      by apply (adds_from_app [v1; v2; v3] rest' _ _ _ Hbatch).
Qed.

Lemma analyzeVideosWithGemini_value (videos : list video) (key : jsval)
    (isPro : bool) (rs : list content) :
  result (analyzeVideosWithGemini w videos key isPro) = Returned rs →
  content_ids rs `sublist_of` video_ids videos
  ∧ Forall is_model_watched rs.
Proof.
  unfold analyzeVideosWithGemini. intros Hr.
  assert (∃ k, adds_from (take k videos) [] rs) as [k (extra & -> & Hsub & Hall)].
  { destruct isPro.
    - eexists. eapply pro_loop_adds; [|exact Hr]. done.
    - eexists. eapply free_loop_adds. exact Hr. }
  simpl. split; [|done].
  etrans; [exact Hsub|]. unfold video_ids. apply fmap_sublist, sublist_take.
Qed.

Lemma transcript_stage_value (ytResult : search_result)
    (transcripts : list content) (failed : list video) :
  result (transcript_stage (youtube_js w) ytResult)
  = Returned (transcripts, failed) →
  content_ids transcripts ++ video_ids failed
  ≡ₚ video_ids (sr_interviews ytResult)
  ∧ Forall is_transcript transcripts.
Proof.
  unfold transcript_stage.
  destruct (sr_interviews ytResult) as [|v vs] eqn:Hvs; cbn [length Nat.ltb Nat.leb].
  - intros [= <- <-]. split; [done | constructor].
  - destruct (fetchTranscripts_partition (v :: vs)) as [fr [Hfr [Hperm Hsrc]]].
    run_simpl. cbn [imported_fetchTranscripts youtube_js].
    rewrite Hfr. run_simpl. by intros [= <- <-].
Qed.

Lemma model_watch_stage_value (failed : list video) (key : jsval)
    (isPro : bool) (geminiAnalyzed : list content) :
  result (model_watch_stage (youtube_js w) failed key isPro)
  = Returned geminiAnalyzed →
  content_ids geminiAnalyzed `sublist_of` video_ids failed
  ∧ Forall is_model_watched geminiAnalyzed.
Proof.
  unfold model_watch_stage. destruct (0 <? length failed).
  - run_simpl. cbn [imported_analyzeVideosWithGemini youtube_js].
    destruct (result (analyzeVideosWithGemini w failed key isPro))
      as [rs|e] eqn:Hrs; run_simpl; intros [= <-].
    + by apply analyzeVideosWithGemini_value in Hrs.
    + split; [apply sublist_nil_l | constructor].
  - intros [= <-]. split; [apply sublist_nil_l | constructor].
Qed.

(** C2.  Every run returns a report whose [transcriptsAnalyzed] is the
    number of accepted transcripts plus the number of analyses by the
    model; the former come from fetchTranscripts (no [source]), the
    latter from analyzeVideoWithGemini ([source: 'gemini-video']); no
    video identifier occurs in both, nor twice in one; all of them are
    videos of the report; and the count never exceeds
    [totalInterviewsFound]. *)
Theorem analysed_count_is_sound (guestName context : string)
    (userKeys : jsobject) :
  ∃ r,
    result (deepResearch_run w (youtube_js w) guestName context userKeys)
    = Returned r
    ∧ result (deepResearch w (youtube_js w) guestName context userKeys)
      = Returned (run_report r)
    ∧ transcriptsAnalyzed (run_report r)
      = length (run_transcripts r) + length (run_geminiAnalyzed r)
    ∧ Forall is_transcript (run_transcripts r)
    ∧ Forall is_model_watched (run_geminiAnalyzed r)
    ∧ (∀ id, id ∈ content_ids (run_transcripts r) →
             id ∉ content_ids (run_geminiAnalyzed r))
    ∧ NoDup (content_ids (run_transcripts r ++ run_geminiAnalyzed r))
    ∧ content_ids (run_transcripts r ++ run_geminiAnalyzed r)
      ⊆+ video_ids (interviews (run_report r))
    ∧ transcriptsAnalyzed (run_report r)
      ≤ totalInterviewsFound (run_report r).
Proof.
  destruct (deepResearch_returns w (youtube_js w) guestName context userKeys)
    as [r [Hrun [Hrep _]]].
  exists r. split; [done|]. split; [done|].
  unfold deepResearch_run in Hrun.
  destruct (deepResearch_with_stages w (youtube_js w) guestName context
              (js_or (get userKeys "geminiApiKey") (JStr ""))
              (js_or (get userKeys "youtubeApiKey") (JStr ""))
              (isPro_of userKeys))
    as (sn & yt & tr & fv & ga & d & va & web & wiki
        & _ & Hyt & Htr & Hga & _ & _ & _ & Hr & _).
  rewrite Hr in Hrun. injection Hrun as <-.
  cbn [run_report run_transcripts run_geminiAnalyzed transcriptsAnalyzed
       totalInterviewsFound interviews].
  apply search_stage_unique in Hyt as [Hnd Htotal].
  apply transcript_stage_value in Htr as [Hperm Htsrc].
  apply model_watch_stage_value in Hga as [Hsub Hgsrc].
  assert (content_ids tr ++ content_ids ga
          `sublist_of` content_ids tr ++ video_ids fv) as Hboth.
  { by apply sublist_app. }
  assert (NoDup (content_ids tr ++ content_ids ga)) as Hnd2.
  { eapply sublist_NoDup; [|exact Hboth]. by rewrite Hperm. }
  split; [done|]. split; [done|]. split; [done|].
  split; [|split; [|split]].
  - apply NoDup_app in Hnd2 as (_ & Hdisj & _). exact Hdisj.
  - unfold content_ids in *. by rewrite fmap_app.
  - unfold content_ids in *. rewrite fmap_app, <- Hperm.
    by apply sublist_submseteq.
  - rewrite Htotal.
    apply sublist_length in Hboth. apply Permutation_length in Hperm.
    unfold content_ids, video_ids in *.
    rewrite !length_app, !length_fmap in *. lia.
Qed.

End Counting.

(* ===================================================================== *)
(** * C9: the research route runs in Free mode *)
(* ===================================================================== *)

Section RouteMode.

Lemma keys_of_hasCustomKey (u : user) : get (keys_of u) "hasCustomKey" = JUndefined.
Proof.
  unfold get, keys_of.
  rewrite lookup_insert_ne by done. by rewrite lookup_singleton_ne.
Qed.

Lemma getUserKeys_hasCustomKey (db : Store) (userId : string) :
  get (getUserKeys db userId) "hasCustomKey" = JUndefined.
Proof.
  unfold getUserKeys. destruct (getApiKeys db userId) as [keys|] eqn:Hkeys.
  - unfold getApiKeys in Hkeys. simpl.
    destruct (isMongo db).
    + destruct (negb _); [done|].
      destruct (findById db userId) as [u|]; [|done].
      injection Hkeys as <-. apply keys_of_hasCustomKey.
    + destruct (List.find _ _) as [u|]; [|done].
      injection Hkeys as <-. apply keys_of_hasCustomKey.
  - reflexivity.
Qed.

(** C9.  Whatever is stored for the user, the object of keys the route
    hands to deepResearch has no [hasCustomKey] property, so [isPro] is
    false: the run is the Free-mode run, and so is what the route
    streams. *)
Theorem research_route_is_free_mode (db : Store) (w : World) (Y : YoutubeModule)
    (userId guestName context : string) :
  get (getUserKeys db userId) "hasCustomKey" = JUndefined
  ∧ isPro_of (getUserKeys db userId) = false
  ∧ deepResearch_run w Y guestName context (getUserKeys db userId)
    = deepResearch_with w Y guestName context
        (js_or (get (getUserKeys db userId) "geminiApiKey") (JStr ""))
        (js_or (get (getUserKeys db userId) "youtubeApiKey") (JStr ""))
        false
  ∧ research_guest_route db w userId guestName context
    = if negb (nonempty guestName) then BadRequest "Guest name is required"
      else
        let research :=
          let* r :=
            deepResearch_with w (youtube_js w) guestName context
              (js_or (get (getUserKeys db userId) "geminiApiKey") (JStr ""))
              (js_or (get (getUserKeys db userId) "youtubeApiKey") (JStr ""))
              false in
          ret (run_report r) in
        EventStream
          (map ProgressFrame (events (trace research))
           ++ [ match result research with
                | Returned r => ResultFrame r
                | Thrown err => ErrorFrame (err_message err)
                end ]).
Proof.
  pose proof (getUserKeys_hasCustomKey db userId) as Hget.
  assert (isPro_of (getUserKeys db userId) = false) as Hpro.
  { unfold isPro_of. by rewrite Hget. }
  split; [done|]. split; [done|]. split.
  - unfold deepResearch_run. by rewrite Hpro.
  - unfold research_guest_route, deepResearch, deepResearch_run.
    by rewrite Hpro.
Qed.

(** A user who stored both keys still gets the Free-mode search: three
    quota errors end it. *)
Example stored_keys_do_not_unlock_pro :
  get (getUserKeys store_with_keys "u1") "youtubeApiKey"
  = JStr "my-own-youtube-key"
  ∧ length (requests (trace (deepResearch world_quota (youtube_js world_quota)
                               "Jane Doe" ""
                               (getUserKeys store_with_keys "u1")))) = 6.
Proof. split; vm_compute; reflexivity. Qed.

End RouteMode.

(* ===================================================================== *)
(** * C4: the deep analysis, its retries and its fallback *)
(* ===================================================================== *)

Section CorpusSynthesis.

Variable w : World.

(** C4 as stated fails: an error that is not rate-limit-shaped is retried
    too, at once.  Here the first attempt fails with a server error and a
    second attempt is made, without delay. *)
Lemma deep_analysis_retries_other_errors :
  generateContent world_flaky_analysis
    (DeepAnalyze "Jane Doe" [a_transcript] "" 1)
  = GenError "500 Internal Server Error"
  ∧ rate_limit_shaped "500 Internal Server Error" = false
  ∧ requests (trace (deep_analysis_stage world_flaky_analysis "Jane Doe"
                       [a_transcript] [] "" (JStr "")))
    = [ deep_request "Jane Doe" [a_transcript] "" 1;
        deep_request "Jane Doe" [a_transcript] "" 2 ]
  ∧ sleeps (trace (deep_analysis_stage world_flaky_analysis "Jane Doe"
                     [a_transcript] [] "" (JStr ""))) = [].
Proof. repeat split; vm_compute; reflexivity. Qed.

Lemma analysis_attempts_run (searchName : string) (cs : list content)
    (context : string) (key : jsval) (nt ng : nat) :
  let reply attempt := generateContent w (DeepAnalyze searchName cs context attempt) in
  requests (trace (analysis_attempts w searchName cs context key nt ng [1; 2; 3] ""))
  = deep_request searchName cs context
      <$> seq 1 (attempts_made (reply 1) (reply 2))
  ∧ sleeps (trace (analysis_attempts w searchName cs context key nt ng [1; 2; 3] ""))
    = backoff_delays (reply 1) (reply 2)
  ∧ result (analysis_attempts w searchName cs context key nt ng [1; 2; 3] "")
    = Returned (deep_text (reply 1) (reply 2) (reply 3)).
Proof.
  intros reply. subst reply.
  unfold analysis_attempts, deepAnalyzeTranscripts, generate,
    attempts_made, backoff_delays, deep_text.
  destruct (generateContent w (DeepAnalyze searchName cs context 1)) as [t1|m1].
  { repeat split. }
  destruct (generateContent w (DeepAnalyze searchName cs context 2)) as [t2|m2].
  { destruct (rate_limit_shaped m1) eqn:H1;
      repeat split; cbn; rewrite ?H1; reflexivity. }
  destruct (generateContent w (DeepAnalyze searchName cs context 3)) as [t3|m3];
    destruct (rate_limit_shaped m1) eqn:H1;
    destruct (rate_limit_shaped m2) eqn:H2;
    repeat split; cbn; rewrite ?H1, ?H2; cbn; rewrite ?H2; reflexivity.
Qed.

Lemma deep_analysis_stage_run (searchName : string)
    (transcripts geminiAnalyzed : list content) (context : string)
    (key : jsval) :
  let allContent := transcripts ++ geminiAnalyzed in
  let reply attempt :=
    generateContent w (DeepAnalyze searchName allContent context attempt) in
  result (deep_analysis_stage w searchName transcripts geminiAnalyzed context key)
  = Returned (deep_outcome w searchName allContent context)
  ∧ (allContent ≠ [] →
     requests (trace (deep_analysis_stage w searchName transcripts
                        geminiAnalyzed context key))
     = deep_request searchName allContent context
         <$> seq 1 (attempts_made (reply 1) (reply 2))
     ∧ sleeps (trace (deep_analysis_stage w searchName transcripts
                        geminiAnalyzed context key))
       = backoff_delays (reply 1) (reply 2)).
Proof.
  intros allContent reply. unfold deep_analysis_stage, deep_outcome.
  fold allContent.
  destruct (analysis_attempts_run searchName allContent context key
              (length transcripts) (length geminiAnalyzed))
    as [Hreq [Hsl Hres]].
  destruct allContent as [|c cs] eqn:Hcs; cbn [length Nat.ltb Nat.leb].
  - split; [reflexivity | done].
  - run_simpl. split; [exact Hres|]. intros _.
    rewrite requests_app, sleeps_app. split; [exact Hreq | exact Hsl].
Qed.

Lemma metadata_fallback_run (searchName : string) (ytResult : search_result)
    (context : string) (key : jsval) (deep : string) :
  let request := AnalyzeMetadata searchName (sr_interviews ytResult) context in
  requests (trace (metadata_fallback w searchName ytResult context key deep))
  = (if fallback_runs deep (sr_interviews ytResult)
     then [GenerateContent request] else [])
  ∧ result (metadata_fallback w searchName ytResult context key deep)
    = Returned (if fallback_runs deep (sr_interviews ytResult)
                then reply_text (generateContent w request) else deep).
Proof.
  intros request. unfold metadata_fallback, fallback_runs, analyzeVideoMetadata,
    generate.
  destruct (nonempty deep) eqn:Hd; [done|].
  destruct (0 <? length (sr_interviews ytResult)); [|done].
  cbn [negb andb]. fold request.
  destruct (generateContent w request) as [text|msg]; [done|].
  cbn. split; [reflexivity|].
  destruct deep; [reflexivity | discriminate].
Qed.

(** C4, amended.  The deep analysis is attempted up to three times: the
    loop ends at the first attempt that returns, and after a failed first
    or second attempt the next one is made whatever the error; the loop
    waits before it, [attempt] times 5 seconds, only when the error is
    rate-limit-shaped (its message contains 429, quota or rate).  The
    metadata analysis is called exactly when the deep analysis left an
    empty text and there are videos.  The report's [videoAnalysis] is not
    empty if and only if the deep analysis returned a non-empty text, or
    there are videos and the metadata analysis returned a non-empty
    text. *)
Theorem deep_analysis_retry_and_fallback (Y : YoutubeModule)
    (subject context : string) (geminiKey youtubeKey : jsval)
    (isPro : bool) :
  (∀ searchName transcripts geminiAnalyzed,
     let allContent := transcripts ++ geminiAnalyzed in
     let reply attempt :=
       generateContent w (DeepAnalyze searchName allContent context attempt) in
     allContent ≠ [] →
     requests (trace (deep_analysis_stage w searchName transcripts
                        geminiAnalyzed context geminiKey))
     = deep_request searchName allContent context
         <$> seq 1 (attempts_made (reply 1) (reply 2))
     ∧ sleeps (trace (deep_analysis_stage w searchName transcripts
                        geminiAnalyzed context geminiKey))
       = backoff_delays (reply 1) (reply 2))
  ∧ (∀ searchName ytResult deep,
       requests (trace (metadata_fallback w searchName ytResult context
                          geminiKey deep))
       = if fallback_runs deep (sr_interviews ytResult)
         then [GenerateContent
                 (AnalyzeMetadata searchName (sr_interviews ytResult) context)]
         else [])
  ∧ ∃ r,
      result (deepResearch_with w Y subject context geminiKey youtubeKey isPro)
      = Returned r
      ∧ let rep := run_report r in
        let deep :=
          deep_outcome w (guestName rep)
            (run_transcripts r ++ run_geminiAnalyzed r) context in
        let metadata :=
          reply_text
            (generateContent w
               (AnalyzeMetadata (guestName rep) (interviews rep) context)) in
        videoAnalysis rep
        = (if fallback_runs deep (interviews rep) then metadata else deep)
        ∧ (nonempty (videoAnalysis rep) = true ↔
           nonempty deep = true
           ∨ (interviews rep ≠ [] ∧ nonempty metadata = true)).
Proof.
  split; [|split].
  - intros searchName transcripts geminiAnalyzed allContent reply Hne.
    by apply deep_analysis_stage_run.
  - intros searchName ytResult deep. apply metadata_fallback_run.
  - destruct (deepResearch_with_stages w Y subject context geminiKey
                youtubeKey isPro)
      as (sn & yt & tr & fv & ga & d & va & web & wiki
          & _ & _ & _ & _ & Hd & Hva & _ & Hr & _).
    eexists. split; [exact Hr|].
    cbn [run_report run_transcripts run_geminiAnalyzed videoAnalysis
         interviews guestName].
    destruct (deep_analysis_stage_run sn tr ga context geminiKey) as [Hd' _].
    rewrite Hd' in Hd. injection Hd as <-.
    destruct (metadata_fallback_run sn yt context geminiKey
                (deep_outcome w sn (tr ++ ga) context)) as [_ Hva'].
    rewrite Hva' in Hva. injection Hva as <-.
    split; [reflexivity|].
    unfold fallback_runs.
    destruct (nonempty (deep_outcome w sn (tr ++ ga) context)) eqn:Hne;
      cbn [negb andb].
    + rewrite Hne. split; [by left | done].
    + destruct (sr_interviews yt) as [|v vs]; cbn [length Nat.ltb Nat.leb].
      * rewrite Hne. split; [done | by intros [? | [? _]]].
      * split; [intros H; by right | by intros [? | [_ ?]]].
Qed.

End CorpusSynthesis.

Lemma deep_analysis_retry_and_fallback_witness :
  requests (trace (deep_analysis_stage world_flaky_analysis "Jane Doe"
                     [a_transcript] [] "" (JStr "")))
  = [ deep_request "Jane Doe" [a_transcript] "" 1;
      deep_request "Jane Doe" [a_transcript] "" 2 ].
Proof.
  destruct (deep_analysis_retry_and_fallback world_flaky_analysis
              (youtube_js world_flaky_analysis) "Jane Doe" "" (JStr "")
              (JStr "") false) as [Hretry _].
  destruct (Hretry "Jane Doe" [a_transcript] []) as [Hreq _]; [discriminate|].
  exact Hreq.
Defined.

(* ===================================================================== *)
(** * C8: the question generator *)
(* ===================================================================== *)

Section QuestionGenerator.

Context {JSON : Type}.
Variable JSON_parse : string → JSON + string.
Variable w : World.
Variable input : questions_input.

Abbreviation outcome_of := (try_outcome JSON_parse w input).
Abbreviation fails_with :=
  (λ t msg, try_outcome JSON_parse w input t = inr msg).

(** One pass through the body of the inner loop. *)
Lemma one_try_run (modelName : string) (attempt : nat) :
  try_catch
    (let* parsed := ask_model JSON_parse w modelName attempt input in
     ret (inl parsed))
    (λ err,
       (if rate_limited (err_message err) then sleep 20000%N else ret tt) ;;;
       ret (inr err))
  = match outcome_of (modelName, attempt) with
    | inl parsed =>
        ([Call (question_request input (modelName, attempt))],
         Returned (inl parsed))
    | inr msg =>
        (failed_try input (modelName, attempt) msg,
         Returned (inr {| err_message := msg |}))
    end.
Proof.
  unfold ask_model, generate, try_outcome, failed_try, question_request.
  cbn [fst snd].
  destruct (generateContent w (WriteQuestions modelName attempt input))
    as [text|msg].
  - cbn. destruct (JSON_parse (strip_fences text)) as [parsed|msg]; cbn;
      [reflexivity|].
    by destruct (rate_limited msg).
  - cbn. by destruct (rate_limited msg).
Qed.

Lemma try_models_unfold (modelName : string) (rest : list string)
    (lastError : option js_error) :
  try_models JSON_parse w (modelName :: rest) input lastError
  = match outcome_of (modelName, 0) with
    | inl parsed =>
        ([Call (question_request input (modelName, 0))],
         Returned (Success parsed))
    | inr msg0 =>
        match outcome_of (modelName, 1) with
        | inl parsed =>
            (failed_try input (modelName, 0) msg0
             ++ [Call (question_request input (modelName, 1))],
             Returned (Success parsed))
        | inr msg1 =>
            let '(t, r) :=
              try_models JSON_parse w rest input
                (Some {| err_message := msg1 |}) in
            (failed_try input (modelName, 0) msg0
             ++ failed_try input (modelName, 1) msg1 ++ t, r)
        end
    end.
Proof.
  cbn [try_models try_model]. rewrite !one_try_run.
  destruct (outcome_of (modelName, 0)) as [p0|msg0]; [reflexivity|].
  cbn -[failed_try].
  destruct (outcome_of (modelName, 1)) as [p1|msg1]; cbn -[failed_try].
  - by rewrite !app_nil_r.
  - destruct (try_models _ _ _ _ _) as [t r]. by rewrite <- !app_assoc.
Qed.

Lemma try_models_returns (models : list string) (lastError : option js_error) :
  returns (try_models JSON_parse w models input lastError).
Proof.
  revert lastError. induction models as [|m rest IH]; intros lastError.
  - by eexists.
  - rewrite try_models_unfold.
    destruct (outcome_of (m, 0)) as [p0|msg0]; [by eexists|].
    destruct (outcome_of (m, 1)) as [p1|msg1]; [by eexists|].
    destruct (IH (Some {| err_message := msg1 |})) as [r Hr].
    destruct (try_models _ _ _ _ _) as [t r']. by exists r.
Qed.




End QuestionGenerator.

Example schedule_value :
  schedule = [ ("gemini-2.5-flash", 0); ("gemini-2.5-flash", 1);
               ("gemini-2.0-flash", 0); ("gemini-2.0-flash", 1);
               ("gemini-2.0-flash-lite", 0); ("gemini-2.0-flash-lite", 1) ].
Proof. reflexivity. Qed.


Example all_models_fail :
  result (generateQuestions toy_parse world_down some_input)
  = Returned (Failure (all_models_failed "service unavailable"))
  ∧ length (requests (trace (generateQuestions toy_parse world_down some_input)))
    = 6.
Proof. split; vm_compute; reflexivity. Qed.

(* ===================================================================== *)
(** * The model-watch stage: requests and events *)
(* ===================================================================== *)

Section ModelWatch.

Variable w : World.

Lemma analyzeVideoWithGemini_run (video : video) (key : jsval) :
  analyzeVideoWithGemini w video key
  = if truthy (js_or key (JStr (env_GEMINI_API_KEY w)))
    then ([Call (watch_request video)], Returned (watched w video))
    else ([], Thrown {| err_message :=
                "Gemini API Key is missing. Please configure it in Settings." |}).
Proof.
  unfold analyzeVideoWithGemini, createGeminiClient, generate, watched,
    watch_request.
  destruct (truthy _); [|reflexivity].
  destruct (generateContent w (WatchVideo video)) as [text|msg];
    [|reflexivity].
  cbn -[Nat.ltb]. by destruct (100 <? String.length text).
Qed.

Lemma mapM_analyze_run (key : jsval) (batch : list video) :
  gemini_key_configured w key →
  mapM (λ video, analyzeVideoWithGemini w video key) batch
  = (Call <$> (watch_request <$> batch), Returned (watched w <$> batch)).
Proof.
  intros Hkey. unfold gemini_key_configured in Hkey.
  induction batch as [|v batch IH]; [reflexivity|].
  cbn [mapM]. rewrite analyzeVideoWithGemini_run, Hkey, IH.
  unfold bind, ret. cbn [app fmap list_fmap]. by rewrite app_nil_r.
Qed.

(** The requests of the Free-mode loop are those of a prefix of the
    videos it is given, one per video. *)
Lemma free_loop_requests (maxConsecutiveFailures n skipped : nat)
    (key : jsval) (i : nat) (rest : list video) (results : list content)
    (cf : nat) :
  ∃ k, requests (trace (free_loop w maxConsecutiveFailures n skipped key i
                          rest results cf))
       = watch_request <$> take k rest.
Proof.
  revert i results cf. induction rest as [|v rest IH]; intros i results cf;
    cbn [free_loop].
  - by exists 0.
  - destruct (maxConsecutiveFailures <=? cf); [by exists 0|].
    run_simpl. rewrite analyzeVideoWithGemini_run.
    destruct (truthy _); [|by exists 0].
    cbn [trace result fst snd].
    destruct (watched w v) as [c|].
    + destruct (IH (S i) (results ++ [c]) 0) as [k Hk]. exists (S k).
      destruct (i <? n - 1); run_simpl;
        rewrite !requests_app, Hk; reflexivity.
    + destruct (IH (S i) results (S cf)) as [k Hk]. exists (S k).
      destruct (i <? n - 1); run_simpl;
        rewrite !requests_app, Hk; reflexivity.
Qed.

Lemma free_loop_events (maxConsecutiveFailures n skipped : nat)
    (key : jsval) (i : nat) (rest : list video) (results : list content)
    (cf : nat) :
  Forall (free_loop_event n skipped)
    (events (trace (free_loop w maxConsecutiveFailures n skipped key i rest
                      results cf))).
Proof.
  revert i results cf. induction rest as [|v rest IH]; intros i results cf;
    cbn [free_loop].
  - constructor.
  - destruct (maxConsecutiveFailures <=? cf).
    { run_simpl. apply Forall_singleton. split; [done|]. right. by eexists. }
    run_simpl. rewrite analyzeVideoWithGemini_run.
    assert (free_loop_event n skipped
              {| ev_step := step_gemini_video; ev_status := Active;
                 ev_message := MsgWatchingOne (i + 1) n skipped |}) as Hev.
    { split; [done|]. left. by eexists. }
    destruct (truthy _); cbn [trace result fst snd].
    2:{ by apply Forall_singleton. }
    destruct (watched w v) as [c|];
      destruct (i <? n - 1); run_simpl;
      rewrite ?events_app; cbn [events omap app];
      apply Forall_cons; (split; [exact Hev|]); apply IH.
Qed.

(** ** The circuit breaker, Free mode *)

Variable key : jsval.
Hypothesis Hkey : gemini_key_configured w key.

Lemma fail_run_tail (v : video) (vs : list video) (from count : nat) :
  fail_run w (v :: vs) (S from) count → fail_run w vs from count.
Proof.
  intros H j Hj. destruct (H (S j)) as [x [Hx Hf]]; [lia|]. by exists x.
Qed.

Lemma fail_run_head (v : video) (vs : list video) (count : nat) :
  fail_run w (v :: vs) 0 (S count) →
  watch_fails w v ∧ fail_run w vs 0 count.
Proof.
  intros H. split.
  - destruct (H 0) as [x [[= <-] Hf]]; [lia | done].
  - intros j Hj. destruct (H (S j)) as [x [Hx Hf]]; [lia|]. by exists x.
Qed.

Lemma fail_run_nonempty (vs : list video) (from count : nat) :
  fail_run w vs from (S count) → from < length vs.
Proof.
  intros H. destruct (H from) as [x [Hx _]]; [lia|].
  by apply lookup_lt_Some in Hx.
Qed.

(** In the run of failures: [d] more failures reach the threshold. *)
Lemma free_loop_in_fail_run (mcf n skipped : nat) (d : nat) :
  ∀ (rest : list video) (i : nat) (results : list content) (cf : nat),
    mcf ≤ cf + d →
    fail_run w rest 0 d →
    ∃ m, m ≤ d
         ∧ requests (trace (free_loop w mcf n skipped key i rest results cf))
           = watch_request <$> take m rest
         ∧ (d < length rest →
            existsb breaker_event
              (trace (free_loop w mcf n skipped key i rest results cf)) = true).
Proof.
  induction d as [|d IH]; intros rest i results cf Hcf Hfail.
  - exists 0. split; [done|].
    destruct rest as [|v rest]; cbn [free_loop]; [split; [done | simpl; lia]|].
    destruct (Nat.leb_spec mcf cf); [|lia]. by run_simpl.
  - destruct rest as [|v rest].
    { exists 0. split; [lia|]. split; [done | simpl; lia]. }
    apply fail_run_head in Hfail as [Hv Hfail]. cbn [free_loop].
    destruct (Nat.leb_spec mcf cf).
    { exists 0. split; [lia|]. by run_simpl. }
    run_simpl. rewrite analyzeVideoWithGemini_run, Hkey.
    cbn [trace result fst snd]. rewrite Hv.
    destruct (IH rest (S i) results (S cf)) as (m & Hm & Hreq & Hev);
      [lia | done |].
    exists (S m). split; [lia|].
    destruct (i <? n - 1); run_simpl;
      rewrite !requests_app, Hreq;
      (split; [reflexivity|]); intros Hlen;
      rewrite !existsb_app, Hev; [by rewrite !orb_true_r | simpl in Hlen; lia
                                 | by rewrite !orb_true_r | simpl in Hlen; lia].
Qed.

(** Before the run of failures, which starts [k] videos further on. *)
Lemma free_loop_before_fail_run (mcf n skipped : nat) (k : nat) :
  ∀ (rest : list video) (i : nat) (results : list content) (cf : nat),
    fail_run w rest k mcf →
    ∃ m, m ≤ k + mcf
         ∧ requests (trace (free_loop w mcf n skipped key i rest results cf))
           = watch_request <$> take m rest
         ∧ (k + mcf < length rest →
            existsb breaker_event
              (trace (free_loop w mcf n skipped key i rest results cf)) = true).
Proof.
  induction k as [|k IH]; intros rest i results cf Hfail.
  - apply free_loop_in_fail_run; [lia | done].
  - destruct rest as [|v rest].
    { exists 0. split; [lia|]. split; [done | simpl; lia]. }
    apply fail_run_tail in Hfail. cbn [free_loop].
    destruct (Nat.leb_spec mcf cf).
    { exists 0. split; [lia|]. by run_simpl. }
    run_simpl. rewrite analyzeVideoWithGemini_run, Hkey.
    cbn [trace result fst snd].
    destruct (watched w v) as [c|].
    + destruct (IH rest (S i) (results ++ [c]) 0 Hfail) as (m & Hm & Hreq & Hev).
      exists (S m). split; [lia|].
      destruct (i <? n - 1); run_simpl;
        rewrite !requests_app, Hreq;
        (split; [reflexivity|]); intros Hlen;
        rewrite !existsb_app, Hev;
        [by rewrite !orb_true_r | simpl in Hlen; lia
        | by rewrite !orb_true_r | simpl in Hlen; lia].
    + destruct (IH rest (S i) results (S cf) Hfail) as (m & Hm & Hreq & Hev).
      exists (S m). split; [lia|].
      destruct (i <? n - 1); run_simpl;
        rewrite !requests_app, Hreq;
        (split; [reflexivity|]); intros Hlen;
        rewrite !existsb_app, Hev;
        [by rewrite !orb_true_r | simpl in Hlen; lia
        | by rewrite !orb_true_r | simpl in Hlen; lia].
Qed.

(** When the failures are the first ones, every video up to the last of
    them is asked for. *)
Lemma free_loop_exact_in_fail_run (mcf n skipped : nat) (d : nat) :
  ∀ (rest : list video) (i : nat) (results : list content) (cf : nat),
    cf + d = mcf →
    fail_run w rest 0 d →
    requests (trace (free_loop w mcf n skipped key i rest results cf))
    = watch_request <$> take d rest.
Proof.
  induction d as [|d IH]; intros rest i results cf Hcf Hfail.
  - destruct rest as [|v rest]; cbn [free_loop]; [done|].
    destruct (Nat.leb_spec mcf cf); [|lia]. by run_simpl.
  - destruct rest as [|v rest].
    { pose proof (fail_run_nonempty _ _ _ Hfail). simpl in *. lia. }
    apply fail_run_head in Hfail as [Hv Hfail]. cbn [free_loop].
    destruct (Nat.leb_spec mcf cf); [lia|].
    run_simpl. rewrite analyzeVideoWithGemini_run, Hkey.
    cbn [trace result fst snd]. rewrite Hv.
    destruct (i <? n - 1); run_simpl;
      rewrite !requests_app, (IH rest (S i) results (S cf)); try done; lia.
Qed.

Lemma free_loop_exact (mcf n skipped : nat) (k : nat) :
  ∀ (rest : list video) (i : nat) (results : list content),
    0 < mcf →
    all_watched_before w rest k →
    fail_run w rest k mcf →
    requests (trace (free_loop w mcf n skipped key i rest results 0))
    = watch_request <$> take (k + mcf) rest.
Proof.
  induction k as [|k IH]; intros rest i results Hmcf Hok Hfail.
  - by apply free_loop_exact_in_fail_run.
  - destruct rest as [|v rest].
    { destruct (Hfail (S k)) as [x [Hx _]]; [lia|]. done. }
    destruct (Hok 0) as [x [[= <-] Hx]]; [lia|].
    assert (all_watched_before w rest k) as Hok'.
    { intros j Hj. destruct (Hok (S j)) as [y [Hy ?]]; [lia|]. by exists y. }
    apply fail_run_tail in Hfail. cbn [free_loop].
    destruct (Nat.leb_spec mcf 0); [lia|].
    run_simpl. rewrite analyzeVideoWithGemini_run, Hkey.
    cbn [trace result fst snd]. unfold watch_fails in Hx.
    destruct (watched w v) as [c|]; [|done].
    destruct (i <? n - 1); run_simpl;
      rewrite !requests_app, (IH rest (S i) (results ++ [c])); done.
Qed.

(** ** The circuit breaker, Pro mode *)

(** One full batch, when the breaker does not fire: its three requests
    are issued, and the loop goes on with the videos after the batch;
    the counter grows by three when the three analyses fail. *)
Lemma pro_loop_step (mcf n i : nat) (v1 v2 v3 : video) (rest : list video)
    (results : list content) (cf : nat) :
  cf < mcf →
  ∃ results' cf',
    (watch_fails w v1 → watch_fails w v2 → watch_fails w v3 → cf' = cf + 3)
    ∧ requests (trace (pro_loop w mcf n key i (v1 :: v2 :: v3 :: rest)
                         results cf))
      = (watch_request <$> [v1; v2; v3])
        ++ requests (trace (pro_loop w mcf n key (i + batchSize) rest
                              results' cf'))
    ∧ (existsb breaker_event
         (trace (pro_loop w mcf n key (i + batchSize) rest results' cf')) = true →
       existsb breaker_event
         (trace (pro_loop w mcf n key i (v1 :: v2 :: v3 :: rest) results cf))
       = true).
Proof.
  intros Hcf. cbn [pro_loop].
  destruct (Nat.leb_spec mcf cf); [lia|].
  unfold batchSize. cbn [firstn]. run_simpl.
  rewrite mapM_analyze_run by done.
  cbn [trace result fst snd].
  eexists _, _. split; [|split].
  2:{ destruct (i + 3 <? n); run_simpl; rewrite !requests_app; reflexivity. }
  - unfold watch_fails. intros H1 H2 H3. cbn [fmap list_fmap].
    rewrite H1, H2, H3. reflexivity.
  - intros Hev. destruct (i + 3 <? n); run_simpl;
      rewrite !existsb_app, Hev; by rewrite !orb_true_r.
Qed.

Lemma pro_loop_breaker_fires (mcf n i : nat) (v : video) (rest : list video)
    (results : list content) (cf : nat) :
  mcf ≤ cf →
  trace (pro_loop w mcf n key i (v :: rest) results cf)
  = [progress step_gemini_video Error (MsgQuotaPro i (length results))].
Proof.
  intros Hcf. cbn [pro_loop]. destruct (Nat.leb_spec mcf cf); [|lia].
  by run_simpl.
Qed.

Lemma fail_run_three (vs : list video) (count : nat) :
  fail_run w vs 0 (S (S (S count))) →
  ∃ v1 v2 v3 rest,
    vs = v1 :: v2 :: v3 :: rest
    ∧ watch_fails w v1 ∧ watch_fails w v2 ∧ watch_fails w v3
    ∧ fail_run w rest 0 count.
Proof.
  intros H.
  destruct vs as [|v1 vs]; [by destruct (H 0) as [? [? _]]; [lia|]|].
  apply fail_run_head in H as [H1 H].
  destruct vs as [|v2 vs]; [by destruct (H 0) as [? [? _]]; [lia|]|].
  apply fail_run_head in H as [H2 H].
  destruct vs as [|v3 vs]; [by destruct (H 0) as [? [? _]]; [lia|]|].
  apply fail_run_head in H as [H3 H].
  by exists v1, v2, v3, vs.
Qed.

(** In the run of failed batches: [d] more of them reach the threshold. *)
Lemma pro_loop_in_fail_run (mcf n : nat) (d : nat) :
  ∀ (rest : list video) (i : nat) (results : list content) (cf : nat),
    mcf ≤ cf + 3 * d →
    fail_run w rest 0 (3 * d) →
    ∃ m, m ≤ 3 * d
         ∧ requests (trace (pro_loop w mcf n key i rest results cf))
           = watch_request <$> take m rest
         ∧ (3 * d < length rest →
            existsb breaker_event
              (trace (pro_loop w mcf n key i rest results cf)) = true).
Proof.
  induction d as [|d IH]; intros rest i results cf Hcf Hfail.
  - exists 0. split; [done|].
    destruct rest as [|v rest]; [split; [done | simpl; lia]|].
    rewrite pro_loop_breaker_fires by lia. done.
  - replace (3 * S d) with (S (S (S (3 * d)))) in * by lia.
    apply fail_run_three in Hfail
      as (v1 & v2 & v3 & rest' & -> & H1 & H2 & H3 & Hfail).
    destruct (Nat.leb_spec mcf cf).
    { exists 0. split; [lia|]. rewrite pro_loop_breaker_fires by lia. done. }
    destruct (pro_loop_step mcf n i v1 v2 v3 rest' results cf)
      as (results' & cf' & Hcf' & Hreq & Hev); [lia|].
    rewrite (Hcf' H1 H2 H3) in *.
    destruct (IH rest' (i + batchSize) results' (cf + 3))
      as (m & Hm & Hreq' & Hev'); [lia | done |].
    exists (3 + m). split; [lia|]. split.
    + rewrite Hreq, Hreq'. reflexivity.
    + intros Hlen. apply Hev, Hev'. simpl in Hlen. lia.
Qed.

(** Before the two failed batches, which start [j] batches further on. *)
Lemma pro_loop_before_fail_run (mcf n : nat) (j : nat) :
  ∀ (rest : list video) (i : nat) (results : list content) (cf : nat),
    mcf ≤ 6 →
    fail_run w rest (3 * j) 6 →
    ∃ m, m ≤ 3 * j + 6
         ∧ requests (trace (pro_loop w mcf n key i rest results cf))
           = watch_request <$> take m rest
         ∧ (3 * j + 6 < length rest →
            existsb breaker_event
              (trace (pro_loop w mcf n key i rest results cf)) = true).
Proof.
  induction j as [|j IH]; intros rest i results cf Hmcf Hfail.
  - apply (pro_loop_in_fail_run mcf n 2); [lia | done].
  - replace (3 * S j) with (S (S (S (3 * j)))) in * by lia.
    pose proof (fail_run_nonempty _ _ _ Hfail) as Hlen.
    destruct rest as [|v1 [|v2 [|v3 rest']]]; simpl in Hlen; try lia.
    do 3 apply fail_run_tail in Hfail.
    destruct (Nat.leb_spec mcf cf).
    { exists 0. split; [lia|]. rewrite pro_loop_breaker_fires by lia. done. }
    destruct (pro_loop_step mcf n i v1 v2 v3 rest' results cf)
      as (results' & cf' & _ & Hreq & Hev); [lia|].
    destruct (IH rest' (i + batchSize) results' cf' Hmcf Hfail)
      as (m & Hm & Hreq' & Hev').
    exists (3 + m). split; [lia|]. split.
    + rewrite Hreq, Hreq'. reflexivity.
    + intros Hlen'. apply Hev, Hev'. simpl in Hlen'. lia.
Qed.

(** Either the breaker fires, or every video is asked for. *)
Lemma pro_loop_all_or_breaker (mcf n : nat) (bound : nat) :
  ∀ (rest : list video) (i : nat) (results : list content) (cf : nat),
    length rest ≤ bound →
    existsb breaker_event (trace (pro_loop w mcf n key i rest results cf))
    = true
    ∨ requests (trace (pro_loop w mcf n key i rest results cf))
      = watch_request <$> rest.
Proof.
  induction bound as [|bound IH]; intros rest i results cf Hlen.
  { destruct rest; [by right | simpl in Hlen; lia]. }
  destruct rest as [|v1 rest]; [by right|].
  destruct (Nat.leb_spec mcf cf).
  { left. rewrite pro_loop_breaker_fires by lia. done. }
  destruct rest as [|v2 [|v3 rest]].
  - right. cbn [pro_loop]. destruct (Nat.leb_spec mcf cf); [lia|].
    unfold batchSize. cbn [firstn]. run_simpl.
    rewrite mapM_analyze_run by done.
    cbn [trace result fst snd].
    destruct (i + 3 <? n); run_simpl; by rewrite !requests_app.
  - right. cbn [pro_loop]. destruct (Nat.leb_spec mcf cf); [lia|].
    unfold batchSize. cbn [firstn]. run_simpl.
    rewrite mapM_analyze_run by done.
    cbn [trace result fst snd].
    destruct (i + 3 <? n); run_simpl; by rewrite !requests_app.
  - destruct (pro_loop_step mcf n i v1 v2 v3 rest results cf)
      as (results' & cf' & _ & Hreq & Hev); [lia|].
    destruct (IH rest (i + batchSize) results' cf') as [Hb | Hall];
      [simpl in Hlen; lia | left; by apply Hev |].
    right. rewrite Hreq, Hall. reflexivity.
Qed.

Lemma free_loop_all_or_breaker (mcf n skipped : nat) :
  ∀ (rest : list video) (i : nat) (results : list content) (cf : nat),
    existsb breaker_event
      (trace (free_loop w mcf n skipped key i rest results cf)) = true
    ∨ requests (trace (free_loop w mcf n skipped key i rest results cf))
      = watch_request <$> rest.
Proof.
  induction rest as [|v rest IH]; intros i results cf; [by right|].
  cbn [free_loop]. destruct (Nat.leb_spec mcf cf). { left. by run_simpl. }
  run_simpl. rewrite analyzeVideoWithGemini_run, Hkey.
  cbn [trace result fst snd].
  destruct (watched w v) as [c|].
  - destruct (IH (S i) (results ++ [c]) 0) as [Hb | Hall].
    + left. destruct (i <? n - 1); run_simpl;
        rewrite !existsb_app, Hb; by rewrite !orb_true_r.
    + right. destruct (i <? n - 1); run_simpl;
        rewrite !requests_app, Hall; reflexivity.
  - destruct (IH (S i) results (S cf)) as [Hb | Hall].
    + left. destruct (i <? n - 1); run_simpl;
        rewrite !existsb_app, Hb; by rewrite !orb_true_r.
    + right. destruct (i <? n - 1); run_simpl;
        rewrite !requests_app, Hall; reflexivity.
Qed.

End ModelWatch.

(* ===================================================================== *)
(** * The search loop: quota errors *)
(* ===================================================================== *)

Section SearchPolicy.

Variable w : World.

(** One query, when the loop does not stop before it: its request is
    issued, and the count of quota errors grows by one exactly when the
    request is refused with a quota error. *)
Lemma query_step (maxResults ordinal : nat) (query : string)
    (st : search_state) :
  ∃ st',
    try_catch
      (let* items := yt_search w ordinal query maxResults in
       match items with
       | Some items => ret (add_items items st)
       | None => ret st
       end)
      (λ err,
         if is_quota_message (err_message err)
         then ret {| allVideos := allVideos st; seenIds := seenIds st;
                     quotaErrors := S (quotaErrors st) |}
         else ret st)
    = ([Call (YtSearchList ordinal query maxResults)], Returned st')
    ∧ quotaErrors st'
      = quotaErrors st
        + (if quota_refused w (YtSearchList ordinal query maxResults)
           then 1 else 0).
Proof.
  unfold yt_search, quota_refused.
  destruct (search_list w ordinal query maxResults) as [[items|]|msg].
  - eexists. split; [reflexivity|]. rewrite add_items_quotaErrors. lia.
  - eexists. split; [reflexivity|]. lia.
  - cbn. destruct (is_quota_message msg);
      (eexists; split; [reflexivity|]); simpl; lia.
Qed.

Lemma query_loop_quota_count (maxResults : nat) (maxVideoCap : option nat)
    (maxQuotaErrors : nat) (queries : list string) :
  ∀ (ordinal : nat) (st : search_state),
    quotaErrors st ≤ maxQuotaErrors →
    quotaErrors st
    + length (List.filter (quota_refused w)
                (requests (trace (query_loop w maxResults maxVideoCap
                                    maxQuotaErrors ordinal queries st))))
    ≤ maxQuotaErrors.
Proof.
  induction queries as [|query rest IH]; intros ordinal st Hle;
    cbn [query_loop].
  - simpl. lia.
  - destruct (reached _ _); [simpl; lia|].
    destruct (Nat.leb_spec maxQuotaErrors (quotaErrors st)); [simpl; lia|].
    destruct (query_step maxResults ordinal query st) as [st' [-> Hq]].
    run_simpl. rewrite requests_app.
    change (requests [Call (YtSearchList ordinal query maxResults)])
      with [YtSearchList ordinal query maxResults].
    cbn [app List.filter].
    destruct (quota_refused w (YtSearchList ordinal query maxResults));
      cbn [length];
      (assert (quotaErrors st' ≤ maxQuotaErrors) as Hle' by lia);
      specialize (IH (S ordinal) st' Hle'); lia.
Qed.

(** Once the threshold is reached, no query is issued. *)
Lemma query_loop_stops (maxResults : nat) (maxVideoCap : option nat)
    (maxQuotaErrors ordinal : nat) (queries : list string)
    (st : search_state) :
  maxQuotaErrors ≤ quotaErrors st →
  query_loop w maxResults maxVideoCap maxQuotaErrors ordinal queries st
  = ([], Returned st).
Proof.
  intros Hle. destruct queries as [|query rest]; cbn [query_loop]; [done|].
  destruct (reached _ _); [done|].
  by destruct (Nat.leb_spec maxQuotaErrors (quotaErrors st)); [|lia].
Qed.

(** Without a cap on the videos and with a threshold that the remaining
    queries cannot reach, every query is issued. *)
Lemma query_loop_all_issued (maxResults maxQuotaErrors : nat)
    (queries : list string) :
  ∀ (ordinal : nat) (st : search_state),
    quotaErrors st + length queries ≤ maxQuotaErrors →
    requests (trace (query_loop w maxResults None maxQuotaErrors ordinal
                       queries st))
    = imap (λ i q, YtSearchList (ordinal + i) q maxResults) queries.
Proof.
  induction queries as [|query rest IH]; intros ordinal st Hle;
    cbn [query_loop]; [done|].
  cbn [reached]. simpl in Hle.
  destruct (Nat.leb_spec maxQuotaErrors (quotaErrors st)); [lia|].
  destruct (query_step maxResults ordinal query st) as [st' [-> Hq]].
  run_simpl. rewrite requests_app.
  change (requests [Call (YtSearchList ordinal query maxResults)])
    with [YtSearchList ordinal query maxResults].
  cbn [app imap]. rewrite Nat.add_0_r. f_equal.
  rewrite IH by (destruct (quota_refused w _); lia).
  apply imap_ext. intros i q _. simpl. f_equal. lia.
Qed.

Lemma researchGuest_free_quota (guestName : string) (key : jsval) :
  length (List.filter (quota_refused w)
            (requests (trace (researchGuest w guestName key false)))) ≤ 3.
Proof.
  unfold researchGuest, createYoutubeClient.
  destruct (truthy _); [|simpl; lia].
  run_simpl.
  pose proof (query_loop_quota_count 20 (Some 100) 3 (baseQueries guestName)
                0 no_videos) as Hcount.
  unfold no_videos in Hcount. simpl quotaErrors in Hcount.
  destruct (result (query_loop _ _ _ _ _ _ _)) as [st|e];
    [destruct (_ && _)|]; run_simpl;
    rewrite ?requests_app, ?app_nil_r; simpl in *; lia.
Qed.

Lemma researchGuest_pro_all_queries (guestName : string) (key : jsval) :
  truthy (js_or key (JStr (env_YOUTUBE_API_KEY w))) = true →
  requests (trace (researchGuest w guestName key true))
  = imap (λ i q, YtSearchList i q 50)
      (baseQueries guestName ++ proExtraQueries guestName).
Proof.
  intros Hkey. unfold researchGuest, createYoutubeClient. rewrite Hkey.
  run_simpl.
  pose proof (query_loop_all_issued 50
                (length (baseQueries guestName ++ proExtraQueries guestName))
                (baseQueries guestName ++ proExtraQueries guestName)
                0 no_videos) as Hall.
  unfold no_videos in Hall.
  destruct (result (query_loop _ _ _ _ _ _ _)) as [st|e];
    [destruct (_ && _)|]; run_simpl;
    rewrite ?requests_app, ?app_nil_r; rewrite Hall; simpl; try lia;
    by rewrite ?app_nil_r.
Qed.

End SearchPolicy.

(* ===================================================================== *)
(** * C3: the circuit breaker of the model-watch stage *)
(* ===================================================================== *)

Section CircuitBreaker.

(** C3 as stated fails in Pro mode, where the counter only counts batches
    that failed entirely.  Nine videos: the first is analysed, the other
    eight analyses fail.  The analyses at positions 1 to 5 fail one after
    the other, but the first batch counts for nothing because its first
    video was analysed; after the second batch the counter is 3, and the
    third batch (positions 6 to 8) is issued all the same.  No
    error-status event is emitted. *)
Lemma pro_breaker_counts_whole_batches :
  fail_run world_first_watched (first_videos 9) 1 5
  ∧ requests (trace (analyzeVideosWithGemini world_first_watched
                       (first_videos 9) (JStr "") true))
    = watch_request <$> first_videos 9
  ∧ existsb breaker_event
      (trace (analyzeVideosWithGemini world_first_watched (first_videos 9)
                (JStr "") true)) = false.
Proof.
  split; [|split; vm_compute; reflexivity].
  intros j Hj. destruct j as [|[|[|[|[|[|j]]]]]]; try lia;
    (eexists; split; [reflexivity|]; reflexivity).
Qed.

(** In Free mode the breaker is silent at the end of the list: three
    videos, the three analyses fail, and the loop ends without the
    error-status event, there being no video left to stop before. *)
Lemma breaker_is_silent_at_the_end :
  fail_run world_down (take 15 (first_videos 3)) 0 3
  ∧ requests (trace (analyzeVideosWithGemini world_down (first_videos 3)
                       (JStr "") false))
    = watch_request <$> first_videos 3
  ∧ existsb breaker_event
      (trace (analyzeVideosWithGemini world_down (first_videos 3)
                (JStr "") false)) = false.
Proof.
  split; [|split; vm_compute; reflexivity].
  intros j Hj. destruct j as [|[|[|j]]]; [| | |lia];
    (eexists; split; [reflexivity|]; reflexivity).
Qed.

Variable w : World.

(** C3, amended.  Free mode: the breaker is tested before each call;
    when the analyses of the videos at positions k, k+1 and k+2 of the
    capped list fail, no call is issued for a video at position k+3 or
    later, the calls issued are exactly those for the positions up to
    k+2 when the earlier analyses all succeeded, and the error-status
    event is emitted when the list has a video at position k+3.  Pro
    mode: calls are issued in batches of three and only a batch whose
    three analyses fail counts; when the two batches starting at
    position 3j fail entirely, no call is issued for a video at position
    3j+6 or later, and the error-status event is emitted when there is
    such a video. *)
Theorem circuit_breaker (videos : list video) (key : jsval) :
  gemini_key_configured w key →
  (∀ k,
     fail_run w (take 15 videos) k 3 →
     (∃ m, m ≤ k + 3
           ∧ requests (trace (analyzeVideosWithGemini w videos key false))
             = watch_request <$> take m (take 15 videos))
     ∧ (k + 3 < length (take 15 videos) →
        existsb breaker_event
          (trace (analyzeVideosWithGemini w videos key false)) = true)
     ∧ (all_watched_before w (take 15 videos) k →
        requests (trace (analyzeVideosWithGemini w videos key false))
        = watch_request <$> take (k + 3) (take 15 videos)))
  ∧ (∀ j,
       fail_run w videos (3 * j) 6 →
       (∃ m, m ≤ 3 * j + 6
             ∧ requests (trace (analyzeVideosWithGemini w videos key true))
               = watch_request <$> take m videos)
       ∧ (3 * j + 6 < length videos →
          existsb breaker_event
            (trace (analyzeVideosWithGemini w videos key true)) = true)).
Proof.
  intros Hkey. split.
  - intros k Hfail. unfold analyzeVideosWithGemini.
    destruct (free_loop_before_fail_run w key Hkey 3
                (length (take 15 videos))
                (length videos - length (take 15 videos)) k
                (take 15 videos) 0 [] 0 Hfail) as (m & Hm & Hreq & Hev).
    split; [by exists m|]. split; [exact Hev|].
    intros Hok. apply free_loop_exact; [done | lia | done | done].
  - intros j Hfail. unfold analyzeVideosWithGemini.
    rewrite firstn_all.
    destruct (pro_loop_before_fail_run w key Hkey 5 (length videos) j
                videos 0 [] 0) as (m & Hm & Hreq & Hev); [lia | done |].
    split; [by exists m | exact Hev].
Qed.

End CircuitBreaker.

Lemma circuit_breaker_witness :
  gemini_key_configured world_first_watched (JStr "")
  ∧ fail_run world_first_watched (take 15 (first_videos 5)) 1 3
  ∧ requests (trace (analyzeVideosWithGemini world_first_watched
                       (first_videos 5) (JStr "") false))
    = watch_request <$> first_videos 4
  ∧ existsb breaker_event
      (trace (analyzeVideosWithGemini world_first_watched (first_videos 5)
                (JStr "") false)) = true.
Proof.
  assert (gemini_key_configured world_first_watched (JStr "")) as Hkey
    by reflexivity.
  assert (fail_run world_first_watched (take 15 (first_videos 5)) 1 3) as Hfail.
  { intros j Hj. destruct j as [|[|[|[|j]]]]; try lia;
      (eexists; split; [reflexivity|]; reflexivity). }
  assert (all_watched_before world_first_watched (take 15 (first_videos 5)) 1)
    as Hok.
  { intros j Hj. destruct j as [|j]; [|lia].
    eexists; split; [reflexivity|]. discriminate. }
  destruct (circuit_breaker world_first_watched (first_videos 5) (JStr "") Hkey)
    as [Hfree _].
  destruct (Hfree 1 Hfail) as (_ & Hev & Hexact).
  split; [exact Hkey|]. split; [exact Hfail|].
  split; [exact (Hexact Hok) | apply Hev; simpl; lia].
Defined.

(* ===================================================================== *)
(** * A complete run *)
(* ===================================================================== *)

(** Subject "Jane Doe", Free mode, two videos found, one with a transcript
    and one watched by the model: both are counted, the deep analysis is
    kept, and the steps are reported in the order of the stages. *)
Example jane_doe_run :
  let run := deepResearch world_up (youtube_js world_up) "Jane Doe" "" ∅ in
  (∃ rep,
     result run = Returned rep
     ∧ totalInterviewsFound rep = 2
     ∧ transcriptsAnalyzed rep = 2
     ∧ videoAnalysis rep = "Jane Doe returns to rivers in every interview."
     ∧ video_ids (interviews rep) = ["a1"; "b2"])
  ∧ steps_of (events (trace run))
    = [ step_start; step_name_check; step_youtube; step_transcripts;
        step_gemini_video; step_analyze_videos; step_web_search; step_compile;
        step_complete ].
Proof.
  split; [eexists; split; [vm_compute; reflexivity|]|];
    repeat split; vm_compute; reflexivity.
Qed.

(* ===================================================================== *)
(** * fetchTranscripts, video by video *)
(* ===================================================================== *)

Section TranscriptFetch.

Variable w : World.

Lemma length_substring0 (n : nat) (s : string) :
  String.length (substring0 n s) = Nat.min n (String.length s).
Proof.
  unfold substring0. revert n. induction s as [|c s IH]; intros [|n]; simpl;
    try done.
  by rewrite IH.
Qed.

Lemma try_langs_trace (id : string) (ls : list string)
    (segments : list segment) (lang : string) :
  events (trace (try_langs w id ls segments lang)) = []
  ∧ sleeps (trace (try_langs w id ls segments lang)) = []
  ∧ ∃ k, k ≤ length ls
         ∧ requests (trace (try_langs w id ls segments lang))
           = (λ l, FetchTranscript id (Some l)) <$> take k ls.
Proof.
  revert segments lang. induction ls as [|tryLang rest IH];
    intros segments lang; cbn [try_langs].
  - repeat split; try done. exists 0. by split.
  - unfold fetch_segments. run_simpl.
    destruct (fetchTranscript w id (Some tryLang)) as [segs|msg]; run_simpl.
    + destruct (0 <? length segs); run_simpl.
      * repeat split; try done. exists 1. split; [simpl; lia | done].
      * destruct (IH segs lang) as (He & Hs & k & Hk & Hr).
        rewrite events_app, sleeps_app, requests_app, He, Hs, Hr.
        repeat split; try done. exists (S k). split; [simpl; lia | done].
    + destruct (IH segments lang) as (He & Hs & k & Hk & Hr).
      rewrite events_app, sleeps_app, requests_app, He, Hs, Hr.
      repeat split; try done. exists (S k). split; [simpl; lia | done].
Qed.

Lemma try_langs_requests (id : string) (ls : list string)
    (segments : list segment) (lang : string) :
  requests (trace (try_langs w id ls segments lang))
  = (λ l, FetchTranscript id (Some l)) <$> up_to_first (gives_segments w id) ls.
Proof.
  revert segments lang. induction ls as [|tryLang rest IH];
    intros segments lang; cbn [try_langs up_to_first]; [done|].
  unfold fetch_segments, gives_segments at 1. run_simpl.
  destruct (fetchTranscript w id (Some tryLang)) as [segs|msg]; run_simpl.
  - destruct (0 <? length segs); run_simpl; [done|].
    by rewrite requests_app, IH.
  - by rewrite requests_app, IH.
Qed.

Lemma up_to_first_spec {A : Type} (p : A → bool) (ls : list A) :
  ls ≠ [] →
  ∃ k, 1 ≤ k ≤ length ls
       ∧ up_to_first p ls = take k ls
       ∧ Forall (λ l, p l = false) (take (k - 1) ls)
       ∧ (k < length ls → ∃ l, ls !! (k - 1) = Some l ∧ p l = true).
Proof.
  induction ls as [|l rest IH]; [done|]. intros _. cbn [up_to_first].
  destruct (p l) eqn:Hl.
  - exists 1. cbn. repeat split; try lia; [constructor|].
    intros _. by exists l.
  - destruct rest as [|l' rest'].
    + exists 1. cbn. repeat split; try lia. constructor.
    + destruct IH as (k & Hk & Ht & Hall & Hlast); [done|].
      exists (S k). cbn [length] in *. split; [lia|]. split.
      { cbn [take]. by rewrite Ht. }
      split.
      { replace (S k - 1) with (S (k - 1)) by lia. cbn [take].
        by constructor. }
      intros Hlt. destruct Hlast as (x & Hx & Hpx); [lia|].
      exists x. split; [|done].
      replace (S k - 1) with (S (k - 1)) by lia. exact Hx.
Qed.

(** The requests for one video: the default transcript and, only when
    that request throws, the languages in their order up to and including
    the first one that gives segments. *)
Lemma fetch_requests_exact (v : video) :
  fetch_requests w v
  = FetchTranscript (videoId v) None
    :: match fetchTranscript w (videoId v) None with
       | Segments _ => []
       | TranscriptError _ =>
           (λ l, FetchTranscript (videoId v) (Some l))
             <$> up_to_first (gives_segments w (videoId v)) langs
       end.
Proof.
  unfold fetch_requests, fetch_one, fetch_segments. run_simpl.
  destruct (fetchTranscript w (videoId v) None) as [segs|msg]; run_simpl;
    [done|].
  by rewrite requests_app, try_langs_requests.
Qed.

Lemma fetch_one_trace (v : video) :
  events (trace (fetch_one w v)) = []
  ∧ sleeps (trace (fetch_one w v)) = []
  ∧ ∃ k, k ≤ length langs
         ∧ fetch_requests w v
           = FetchTranscript (videoId v) None
             :: ((λ l, FetchTranscript (videoId v) (Some l)) <$> take k langs)
         ∧ (∀ segs, fetchTranscript w (videoId v) None = Segments segs → k = 0).
Proof.
  unfold fetch_requests, fetch_one, fetch_segments. run_simpl.
  destruct (fetchTranscript w (videoId v) None) as [segs|msg]; run_simpl.
  - repeat split; try done. exists 0. repeat split; first [lia | done].
  - destruct (try_langs_trace (videoId v) langs [] "unknown")
      as (He & Hs & k & Hk & Hr).
    rewrite events_app, sleeps_app, requests_app, He, Hs, Hr.
    repeat split; try done. exists k. repeat split; first [done | intros; done].
Qed.

(** The loop of fetchTranscripts, from the state it is in before video
    number [i + 1]: it never throws, and judges each remaining video on
    its own. *)
Lemma fetch_loop_run (n : nat) (rest : list video) :
  ∀ (i : nat) (results : list content) (failed : list video),
    i + length rest = n →
    result (fetch_loop w n i rest results failed (length results))
    = Returned {| fr_transcripts := results ++ omap (transcript_of w) rest;
                  failedVideos :=
                    failed ++ List.filter (without_transcript w) rest |}
    ∧ requests (trace (fetch_loop w n i rest results failed (length results)))
      = rest ≫= fetch_requests w
    ∧ events (trace (fetch_loop w n i rest results failed (length results)))
      = imap (λ j _, scanned (length results
                              + length (omap (transcript_of w) (take (S j) rest)))
                             (i + j) n) rest
    ∧ sleeps (trace (fetch_loop w n i rest results failed (length results)))
      = replicate (length rest - 1) 100%N.
Proof.
  induction rest as [|v rest IH]; intros i results failed Hn;
    cbn [fetch_loop].
  - simpl. by rewrite !app_nil_r.
  - destruct (fetch_one_trace v) as (He & Hs & _).
    assert (∀ results' failed',
              (results', failed')
              = match transcript_of w v with
                | Some c => (results ++ [c], failed)
                | None => (results, failed ++ [v])
                end →
              let m := (onProgress step_transcripts Active
                          (MsgScanned (length results') (i + 1) n) ;;;
                        (if i <? n - 1 then sleep 100%N else ret tt) ;;;
                        fetch_loop w n (S i) rest results' failed'
                          (length results')) in
              result m
              = Returned
                  {| fr_transcripts :=
                       results ++ omap (transcript_of w) (v :: rest);
                     failedVideos :=
                       failed ++ List.filter (without_transcript w) (v :: rest) |}
              ∧ requests (trace m) = rest ≫= fetch_requests w
              ∧ events (trace m)
                = imap (λ j _, scanned (length results
                                        + length (omap (transcript_of w)
                                                    (take (S j) (v :: rest))))
                                       (i + j) n) (v :: rest)
              ∧ sleeps (trace m) = replicate (length rest) 100%N) as Hstep.
    { intros results' failed' Hst m. subst m.
      simpl in Hn.
      destruct (IH (S i) results' failed' ltac:(lia)) as (Hr & Hq & Hev & Hsl).
      assert (length results'
              = length results + length (omap (transcript_of w) [v])) as Hlen.
      { simpl. destruct (transcript_of w v); injection Hst as -> ->;
          [rewrite length_app|]; simpl; lia. }
      assert (results' ++ omap (transcript_of w) rest
              = results ++ omap (transcript_of w) (v :: rest)
              ∧ failed' ++ List.filter (without_transcript w) rest
                = failed ++ List.filter (without_transcript w) (v :: rest))
        as [Hres Hfail].
      { destruct (transcript_of w v) as [c|] eqn:Htr; injection Hst as -> ->;
          simpl; unfold without_transcript at 2; rewrite Htr; simpl;
          by rewrite <- ?app_assoc. }
      assert (result (if i <? n - 1 then sleep 100%N else ret tt) = Returned tt)
        as Hrs by by destruct (i <? n - 1).
      run_simpl. rewrite Hrs. split; [|split; [|split]].
      - by rewrite Hr, Hres, Hfail.
      - rewrite !requests_app, Hq. by destruct (i <? n - 1).
      - rewrite !events_app.
        assert (events (trace (if i <? n - 1 then sleep 100%N else ret tt)) = [])
          as -> by by destruct (i <? n - 1).
        rewrite Hev, imap_cons.
        change (events [Progress ?e]) with [e]. cbn [app].
        fold (scanned (length results') i n).
        assert (∀ l, length (omap (transcript_of w) (v :: l))
                     = length (omap (transcript_of w) [v])
                       + length (omap (transcript_of w) l)) as Hcons.
        { intros l. change (v :: l) with ([v] ++ l).
          by rewrite omap_app, length_app. }
        f_equal.
        + cbn [take]. rewrite Hlen. f_equal. lia.
        + apply imap_ext. intros j x _. unfold compose.
          change (take (S (S j)) (v :: rest)) with (v :: take (S j) rest).
          rewrite Hcons, Hlen. f_equal; lia.
      - rewrite !sleeps_app. rewrite Hsl.
        change (sleeps [Progress ?e]) with (@nil N). cbn [app].
        clear -Hn. destruct rest as [|v2 rest]; cbn [length] in *.
        + replace (i <? n - 1) with false; [done|].
          symmetry. apply Nat.ltb_ge. lia.
        + replace (i <? n - 1) with true.
          * simpl. by rewrite Nat.sub_0_r.
          * symmetry. apply Nat.ltb_lt. lia. }
    unfold transcript_of in Hstep.
    destruct (fetch_one_returns w v) as [[segments lang] Hone].
    rewrite Hone in Hstep.
    rewrite result_bind, !trace_bind, Hone.
    rewrite !requests_app, !events_app, !sleeps_app, He, Hs.
    fold (fetch_requests w v). cbn [mbind list_bind app].
    assert (length (v :: rest) - 1 = length rest) as Hlast
      by (simpl; lia).
    rewrite Hlast.
    destruct (0 <? length segments); cbn [andb] in Hstep;
      [destruct (100 <? String.length (fullText segments))|];
      specialize (Hstep _ _ eq_refl); cbn zeta in Hstep;
      rewrite ?length_app in Hstep; cbn [length] in Hstep;
      replace (length results + 1) with (S (length results)) in Hstep by lia;
      destruct Hstep as (H1 & H2 & H3 & H4);
      by rewrite H1, H2, H3, H4.
Qed.

Lemma fetchTranscripts_run (videos : list video) :
  result (fetchTranscripts w videos)
  = Returned {| fr_transcripts := omap (transcript_of w) videos;
                failedVideos := List.filter (without_transcript w) videos |}
  ∧ requests (trace (fetchTranscripts w videos)) = videos ≫= fetch_requests w
  ∧ events (trace (fetchTranscripts w videos))
    = imap (λ j _, scanned (length (omap (transcript_of w) (take (S j) videos)))
                           j (length videos)) videos
  ∧ sleeps (trace (fetchTranscripts w videos))
    = replicate (length videos - 1) 100%N.
Proof.
  unfold fetchTranscripts.
  pose proof (fetch_loop_run (length videos) videos 0 [] [] eq_refl) as H.
  cbn [length app Nat.add] in H. exact H.
Qed.

Lemma transcript_of_Some (v : video) (c : content) :
  transcript_of w v = Some c →
  c_videoId c = videoId v ∧ c_title c = title v
  ∧ c_channelTitle c = channelTitle v ∧ source c = None
  ∧ 100 < String.length (transcript c) ≤ 15 * 1000.
Proof.
  unfold transcript_of.
  destruct (result (fetch_one w v)) as [[segments lang]|e]; [|done].
  destruct (0 <? length segments); [|done]. cbn [andb].
  destruct (Nat.ltb_spec 100 (String.length (fullText segments))) as [Hlt|];
    [|done].
  intros [= <-]. cbn [c_videoId c_title c_channelTitle source transcript].
  repeat split; try done; rewrite length_substring0; lia.
Qed.

(** X1.  fetchTranscripts never throws.  It judges each video on its own, in
    the order of the list: a video whose transcript text is longer than
    100 characters gives a transcript object with the video's identifier,
    title and channel, no [source] and a text cut at 15000 characters;
    every other video is returned among the failed ones.  So each video
    is in exactly one of the two lists and both keep the order of the
    input. *)
Theorem fetchTranscripts_video_by_video (videos : list video) :
  result (fetchTranscripts w videos)
  = Returned {| fr_transcripts := omap (transcript_of w) videos;
                failedVideos := List.filter (without_transcript w) videos |}
  ∧ content_ids (omap (transcript_of w) videos) `sublist_of` video_ids videos
  ∧ List.filter (without_transcript w) videos `sublist_of` videos
  ∧ length (omap (transcript_of w) videos)
    + length (List.filter (without_transcript w) videos) = length videos
  ∧ Forall (λ c, source c = None
                 ∧ 100 < String.length (transcript c) ≤ 15 * 1000
                 ∧ ∃ v, v ∈ videos ∧ c_videoId c = videoId v
                        ∧ c_title c = title v
                        ∧ c_channelTitle c = channelTitle v)
      (omap (transcript_of w) videos).
Proof.
  split.
  { by destruct (fetchTranscripts_run videos) as [-> _]. }
  split; [|split; [|split]].
  - unfold content_ids, video_ids.
    induction videos as [|v vs IH]; [done|]. simpl.
    destruct (transcript_of w v) as [c|] eqn:Hc; simpl.
    + apply transcript_of_Some in Hc as (-> & _). by apply sublist_skip.
    + by apply sublist_cons.
  - induction videos as [|v vs IH]; [done|]. simpl.
    destruct (without_transcript w v);
      [by apply sublist_skip | by apply sublist_cons].
  - induction videos as [|v vs IH]; [done|]. simpl.
    unfold without_transcript at 1.
    destruct (transcript_of w v) as [c|]; simpl;
      change (list_omap video content (transcript_of w) vs)
        with (omap (transcript_of w) vs); lia.
  - apply Forall_forall. intros c [v [Hv Hc]]%list_elem_of_omap.
    apply transcript_of_Some in Hc as (H1 & H2 & H3 & H4 & H5).
    repeat split; try done; try lia. by exists v.
Qed.

Lemma fetch_requests_shape (v : video) :
  ∃ k, k ≤ 11
       ∧ fetch_requests w v
         = FetchTranscript (videoId v) None
           :: ((λ l, FetchTranscript (videoId v) (Some l)) <$> take k langs)
       ∧ (∀ segs, fetchTranscript w (videoId v) None = Segments segs → k = 0).
Proof.
  destruct (fetch_one_trace v) as (_ & _ & k & Hk & Hr & Hd).
  exists k. by repeat split.
Qed.

Lemma fetch_requests_count (videos : list video) :
  length (videos ≫= fetch_requests w) ≤ 12 * length videos.
Proof.
  induction videos as [|v vs IH]; [simpl; lia|].
  rewrite bind_cons, length_app. destruct (fetch_requests_shape v)
    as (k & Hk & -> & _).
  cbn [length]. rewrite length_fmap, length_take. lia.
Qed.

(** X2.  The effects of fetchTranscripts.  For each video, in order, it asks
    for the default transcript and, only when that request throws, for the
    languages of [langs] in turn, up to and including the first one whose
    request gives at least one segment (all eleven when none does):
    the languages asked are the first k of [langs], with k between 1 and
    11, none of the first k - 1 gives segments, and when k is less than
    11 the k-th does.  That makes between 1 and 12 requests per video.
    After each video it emits one progress event, numbered 1 to n, with
    the number of transcripts read so far; and it waits 100 ms between two
    videos, not after the last. *)
Theorem fetchTranscripts_effects (videos : list video) :
  let t := trace (fetchTranscripts w videos) in
  requests t = videos ≫= fetch_requests w
  ∧ (∀ v, fetch_requests w v
          = FetchTranscript (videoId v) None
            :: match fetchTranscript w (videoId v) None with
               | Segments _ => []
               | TranscriptError _ =>
                   (λ l, FetchTranscript (videoId v) (Some l))
                     <$> up_to_first (gives_segments w (videoId v)) langs
               end)
  ∧ (∀ id, ∃ k, 1 ≤ k ≤ 11
                ∧ up_to_first (gives_segments w id) langs = take k langs
                ∧ Forall (λ l, gives_segments w id l = false)
                    (take (k - 1) langs)
                ∧ (k < 11 → ∃ l, langs !! (k - 1) = Some l
                                 ∧ gives_segments w id l = true))
  ∧ length (requests t) ≤ 12 * length videos
  ∧ events t
    = imap (λ j _, scanned (length (omap (transcript_of w) (take (S j) videos)))
                           j (length videos)) videos
  ∧ sleeps t = replicate (length videos - 1) 100%N.
Proof.
  intros t. subst t.
  destruct (fetchTranscripts_run videos) as (_ & Hq & He & Hs).
  split; [exact Hq|]. split; [exact fetch_requests_exact|].
  split; [intros id; by apply (up_to_first_spec _ langs)|].
  split; [|by split].
  rewrite Hq. apply fetch_requests_count.
Qed.

End TranscriptFetch.

(* ===================================================================== *)
(** * researchGuest: what it throws and what it returns *)
(* ===================================================================== *)

Section SearchOutcome.

Variable w : World.

Lemma add_items_app (a b : list yt_item) (st : search_state) :
  add_items (a ++ b) st = add_items b (add_items a st).
Proof. revert st. induction a as [|x a IH]; intros st; [done|]. apply IH. Qed.

(** The loop over the items only appends videos made of these items. *)
Lemma add_items_from (items : list yt_item) (st : search_state) :
  ∃ new, allVideos (add_items items st) = allVideos st ++ new
         ∧ Forall (λ v, ∃ item, item ∈ items ∧ v = video_of_item item) new.
Proof.
  revert st. induction items as [|x items IH]; intros st; cbn [add_items].
  - exists []. by rewrite app_nil_r.
  - destruct (decide (item_videoId x ∈ seenIds st)).
    + destruct (IH st) as (new & -> & Hall). exists new. split; [done|].
      eapply Forall_impl; [exact Hall|]. intros v (item & Hin & ->).
      exists item. split; [by right | done].
    + match goal with |- context [add_items items ?s] =>
        destruct (IH s) as (new & -> & Hall)
      end.
      cbn [allVideos]. exists (video_of_item x :: new).
      split; [by rewrite <- app_assoc|].
      constructor; [exists x; split; [by left | done]|].
      eapply Forall_impl; [exact Hall|]. intros v (item & Hin & ->).
      exists item. split; [by right | done].
Qed.

Lemma add_items_nil (items : list yt_item) :
  allVideos (add_items items no_videos) = [] ↔ items = [].
Proof.
  split; [|by intros ->].
  destruct items as [|x items]; [done|]. cbn [add_items].
  destruct (decide (item_videoId x ∈ seenIds no_videos)) as [Hin|_].
  { unfold no_videos in Hin. simpl in Hin. set_solver. }
  match goal with |- context [add_items items ?s] =>
    destruct (add_items_from items s) as (new & -> & _)
  end.
  simpl. done.
Qed.

(** The state of the query loop after the requests [reqs]. *)
Lemma query_loop_run (maxResults : nat) (maxVideoCap : option nat)
    (maxQuotaErrors : nat) (queries : list string) :
  ∀ (ordinal : nat) (st : search_state),
    ∃ reqs,
      trace (query_loop w maxResults maxVideoCap maxQuotaErrors ordinal
               queries st) = Call <$> reqs
      ∧ result (query_loop w maxResults maxVideoCap maxQuotaErrors ordinal
                  queries st)
        = Returned
            {| allVideos := allVideos (add_items (found_items w reqs) st);
               seenIds := seenIds (add_items (found_items w reqs) st);
               quotaErrors :=
                 quotaErrors st + length (List.filter (quota_refused w) reqs) |}.
Proof.
  induction queries as [|query rest IH]; intros ordinal [av seen qe];
    cbn [query_loop allVideos seenIds quotaErrors].
  - exists []. split; [done|]. simpl. by rewrite Nat.add_0_r.
  - destruct (reached _ _).
    { exists []. split; [done|]. simpl. by rewrite Nat.add_0_r. }
    destruct (maxQuotaErrors <=? qe).
    { exists []. split; [done|]. simpl. by rewrite Nat.add_0_r. }
    set (req := YtSearchList ordinal query maxResults).
    set (st := {| allVideos := av; seenIds := seen; quotaErrors := qe |}).
    assert (∃ st',
              try_catch
                (let* items := yt_search w ordinal query maxResults in
                 match items with
                 | Some items => ret (add_items items st)
                 | None => ret st
                 end)
                (λ err,
                   if is_quota_message (err_message err)
                   then ret {| allVideos := av; seenIds := seen;
                               quotaErrors := S qe |}
                   else ret st)
              = ([Call req], Returned st')
              ∧ allVideos st' = allVideos (add_items (reply_items w req) st)
              ∧ seenIds st' = seenIds (add_items (reply_items w req) st)
              ∧ quotaErrors st'
                = qe + length (List.filter (quota_refused w) [req]))
      as (st' & -> & Hav & Hseen & Hqe).
    { unfold yt_search, req, reply_items. cbn [List.filter quota_refused].
      destruct (search_list w ordinal query maxResults) as [[items|]|msg].
      - eexists. split; [reflexivity|].
        rewrite add_items_quotaErrors. simpl. repeat split; lia.
      - eexists. split; [reflexivity|]. simpl. repeat split; lia.
      - cbn. destruct (is_quota_message msg);
          (eexists; split; [reflexivity|]); simpl; repeat split; lia. }
    destruct (IH (S ordinal) st') as (reqs & Ht & Hr).
    exists (req :: reqs). split.
    + run_simpl. by rewrite Ht.
    + run_simpl. rewrite Hr. f_equal.
      unfold found_items. rewrite bind_cons, add_items_app.
      fold (found_items w reqs).
      assert (∀ items a b,
                allVideos a = allVideos b → seenIds a = seenIds b →
                allVideos (add_items items a) = allVideos (add_items items b)
                ∧ seenIds (add_items items a) = seenIds (add_items items b))
        as Hext.
      { clear. induction items as [|x items IH]; intros a b Ha Hs; [done|].
        cbn [add_items]. rewrite Hs.
        destruct (decide (item_videoId x ∈ seenIds b)); apply IH; simpl;
          by rewrite ?Ha, ?Hs. }
      destruct (Hext (found_items w reqs) _ _ Hav Hseen) as [-> ->].
      f_equal. rewrite Hqe. cbn [List.filter].
      destruct (quota_refused w req); simpl; lia.
Qed.

Lemma requests_calls (reqs : list request) : requests (Call <$> reqs) = reqs.
Proof. induction reqs as [|r reqs IH]; [done|]. simpl. by f_equal. Qed.

Lemma events_calls (reqs : list request) : events (Call <$> reqs) = [].
Proof. by induction reqs. Qed.

Lemma sleeps_calls (reqs : list request) : sleeps (Call <$> reqs) = [].
Proof. by induction reqs. Qed.

(** One run of researchGuest with a key: its trace is the search requests
    it issued, and its outcome is decided by their replies. *)
Lemma researchGuest_run (guestName : string) (key : jsval) (isPro : bool) :
  truthy (js_or key (JStr (env_YOUTUBE_API_KEY w))) = true →
  ∃ reqs,
    trace (researchGuest w guestName key isPro) = Call <$> reqs
    ∧ result (researchGuest w guestName key isPro)
      = if (0 <? length (List.filter (quota_refused w) reqs))
           && (length (raw_videos w reqs) =? 0)
        then Thrown {| err_message := QUOTA_EXHAUSTED |}
        else
          Returned
            {| sr_guestName := guestName;
               sr_totalInterviewsFound :=
                 length (sort_recent_first
                           (List.filter (relevant guestName) (raw_videos w reqs)));
               sr_interviews :=
                 sort_recent_first
                   (List.filter (relevant guestName) (raw_videos w reqs)) |}.
Proof.
  intros Hkey. unfold researchGuest, createYoutubeClient. rewrite Hkey.
  match goal with |- context [query_loop w ?a ?b ?c ?d ?e ?f] =>
    destruct (query_loop_run a b c e d f) as (reqs & Ht & Hr)
  end.
  exists reqs. unfold raw_videos. fold no_videos in Ht, Hr |- *.
  split.
  - run_simpl. rewrite Ht, Hr. cbn [quotaErrors allVideos no_videos Nat.add].
    destruct (_ && _); run_simpl; by rewrite app_nil_r.
  - run_simpl. rewrite Hr. cbn [quotaErrors allVideos no_videos Nat.add].
    by destruct (_ && _).
Qed.

(** X3.  researchGuest throws in two cases only.  Without any key it throws
    the missing-key error before a request is made.  With a key it throws
    QUOTA_EXHAUSTED exactly when one of the queries it issued was refused
    with a quota error and none of them returned an item; whatever else
    the queries answer (other errors, replies without items), it returns.
    It emits no progress event and never waits. *)
Theorem researchGuest_fails_only_on_key_or_quota (guestName : string)
    (key : jsval) (isPro : bool) :
  let run := researchGuest w guestName key isPro in
  let reqs := requests (trace run) in
  events (trace run) = [] ∧ sleeps (trace run) = []
  ∧ if truthy (js_or key (JStr (env_YOUTUBE_API_KEY w)))
    then (result run = Thrown {| err_message := QUOTA_EXHAUSTED |}
          ↔ (∃ r, r ∈ reqs ∧ quota_refused w r = true)
            ∧ found_items w reqs = [])
         ∧ (result run = Thrown {| err_message := QUOTA_EXHAUSTED |}
            ∨ returns run)
    else run = ([], Thrown {| err_message := MISSING_YOUTUBE_KEY |}).
Proof.
  intros run reqs. subst run reqs.
  destruct (truthy (js_or key (JStr (env_YOUTUBE_API_KEY w)))) eqn:Hkey.
  - destruct (researchGuest_run guestName key isPro Hkey) as (reqs & Ht & Hr).
    unfold returns.
    rewrite Ht, Hr, requests_calls, events_calls, sleeps_calls.
    split; [done|]. split; [done|].
    assert ((0 <? length (List.filter (quota_refused w) reqs)) = true
            ↔ ∃ r, r ∈ reqs ∧ quota_refused w r = true) as Hq.
    { rewrite Nat.ltb_lt. split.
      - intros Hlen. destruct (List.filter _ reqs) as [|r l] eqn:Hf;
          [simpl in Hlen; lia|].
        assert (In r (List.filter (quota_refused w) reqs)) as Hin
          by (rewrite Hf; by left).
        apply filter_In in Hin as [Hin Hr']. exists r.
        by rewrite list_elem_of_In.
      - intros (r & Hin & Hr').
        assert (In r (List.filter (quota_refused w) reqs)) as Hin'.
        { apply filter_In. by rewrite <- list_elem_of_In. }
        destruct (List.filter _ reqs); [done | simpl; lia]. }
    assert ((length (raw_videos w reqs) =? 0) = true ↔ found_items w reqs = [])
      as Hv.
    { rewrite Nat.eqb_eq, length_zero_iff_nil. apply add_items_nil. }
    destruct (0 <? length (List.filter (quota_refused w) reqs)) eqn:Hq';
      destruct (length (raw_videos w reqs) =? 0) eqn:Hv'; cbn [andb];
      (split; [split|]);
      first [ by left | right; by eexists | done
            | intros _; split; [by apply Hq | by apply Hv]
            | intros [He1 He2]; apply Hq in He1; apply Hv in He2; done ].
  - unfold researchGuest, createYoutubeClient. rewrite Hkey. done.
Qed.






End SearchOutcome.


(* ===================================================================== *)
(** * The stages of deepResearch with the module of youtube.js *)
(* ===================================================================== *)

Section Stages.

Variable w : World.

Lemma query_loop_requests (maxResults : nat) (maxVideoCap : option nat)
    (maxQuotaErrors : nat) (queries : list string) :
  ∀ (ordinal : nat) (st : search_state),
    ∃ k, requests (trace (query_loop w maxResults maxVideoCap maxQuotaErrors
                            ordinal queries st))
         = imap (λ i q, YtSearchList (ordinal + i) q maxResults)
             (take k queries).
Proof.
  induction queries as [|query rest IH]; intros ordinal st; cbn [query_loop].
  - by exists 0.
  - destruct (reached _ _); [by exists 0|].
    destruct (maxQuotaErrors <=? quotaErrors st); [by exists 0|].
    destruct (query_step w maxResults ordinal query st) as [st' [-> _]].
    destruct (IH (S ordinal) st') as [k Hk].
    exists (S k). run_simpl. rewrite requests_app, Hk.
    change (requests [Call ?r]) with [r]. cbn [app take imap].
    rewrite Nat.add_0_r. f_equal.
    apply imap_ext. intros i q _. simpl. f_equal. lia.
Qed.

(** The requests of researchGuest: the queries of its mode, in order,
    up to the one the loop stops at. *)
Lemma researchGuest_requests (guestName : string) (key : jsval) (isPro : bool) :
  ∃ k, requests (trace (researchGuest w guestName key isPro))
       = imap (λ i q, YtSearchList i q (if isPro then 50 else 20))
           (take k (if isPro
                    then baseQueries guestName ++ proExtraQueries guestName
                    else baseQueries guestName)).
Proof.
  unfold researchGuest, createYoutubeClient.
  destruct (truthy _); [|by exists 0].
  match goal with |- context [query_loop w ?a ?b ?c ?d ?e ?f] =>
    destruct (query_loop_requests a b c e d f) as [k Hk];
    destruct (query_loop_run w a b c e d f) as (reqs & _ & Hr)
  end.
  exists k. run_simpl. rewrite Hr. rewrite !requests_app, Hk.
  destruct isPro; destruct (_ && _); run_simpl; by rewrite ?app_nil_r.
Qed.

Lemma name_check_stage_run (guestName : string) (geminiKey : jsval) :
  name_check_stage w guestName geminiKey
  = ([ progress step_name_check Active MsgVerifying;
       Call (GenerateContent (CorrectName guestName));
       progress step_name_check Done (name_check_message w guestName) ],
     Returned (corrected_name w guestName)).
Proof.
  unfold name_check_stage, correctGuestName, generate, name_check_message,
    corrected_name.
  destruct (generateContent w (CorrectName guestName)) as [text|msg]; [|done].
  cbn. destruct (_ || _); cbn.
  - by rewrite String.eqb_refl.
  - by destruct (negb _).
Qed.

Lemma search_stage_run (searchName : string) (key : jsval) (isPro : bool) :
  let search := researchGuest w searchName key isPro in
  trace (search_stage (youtube_js w) searchName key isPro)
  = [progress step_youtube Active (MsgSearching searchName)]
    ++ trace search
    ++ [match result search with
        | Returned ytResult =>
            progress step_youtube Done
              (MsgFound (sr_totalInterviewsFound ytResult))
        | Thrown err =>
            progress step_youtube Error (MsgSearchFailed (err_message err))
        end]
  ∧ result (search_stage (youtube_js w) searchName key isPro)
    = Returned match result search with
               | Returned ytResult => ytResult
               | Thrown _ => no_result
               end.
Proof.
  intros search. subst search. unfold search_stage. run_simpl.
  cbn [youtubeSearch youtube_js].
  destruct (result (researchGuest w searchName key isPro)); run_simpl;
    by rewrite ?app_nil_r.
Qed.

Lemma transcript_stage_run (ytResult : search_result) :
  let videos := sr_interviews ytResult in
  let transcripts := omap (transcript_of w) videos in
  let failed := List.filter (without_transcript w) videos in
  transcript_stage (youtube_js w) ytResult
  = match videos with
    | [] => ([], Returned ([], []))
    | _ :: _ =>
        ([progress step_transcripts Active (MsgReadingAll (length videos))]
         ++ trace (fetchTranscripts w videos)
         ++ [progress step_transcripts Done
               (MsgRead (length transcripts) (langDisplay transcripts)
                        (length failed))],
         Returned (transcripts, failed))
    end.
Proof.
  intros videos transcripts failed. subst videos transcripts failed.
  unfold transcript_stage.
  destruct (sr_interviews ytResult) as [|v vs] eqn:Hvs; [done|].
  cbn [length Nat.ltb Nat.leb].
  destruct (fetchTranscripts_run w (v :: vs)) as (Hr & _).
  apply injective_projections.
  - unfold trace. run_simpl. cbn [imported_fetchTranscripts youtube_js].
    fold (trace (fetchTranscripts w (v :: vs))).
    change (fst ?m) with (trace m). run_simpl.
    cbn [imported_fetchTranscripts youtube_js]. rewrite Hr. run_simpl.
    by rewrite app_nil_r.
  - change (snd ?m) with (result m). run_simpl.
    cbn [imported_fetchTranscripts youtube_js]. rewrite Hr. by run_simpl.
Qed.

Lemma model_watch_stage_run (failed : list video) (key : jsval) (isPro : bool) :
  let watch := analyzeVideosWithGemini w failed key isPro in
  model_watch_stage (youtube_js w) failed key isPro
  = match failed with
    | [] => ([], Returned [])
    | _ :: _ =>
        ([progress step_gemini_video Active
            (MsgWatchingAll (length failed) isPro)]
         ++ trace watch
         ++ [match result watch with
             | Returned geminiAnalyzed =>
                 progress step_gemini_video Done
                   (MsgWatched (length geminiAnalyzed))
             | Thrown _ => progress step_gemini_video Error MsgWatchFailed
             end],
         Returned match result watch with
                  | Returned geminiAnalyzed => geminiAnalyzed
                  | Thrown _ => []
                  end)
    end.
Proof.
  intros watch. subst watch. unfold model_watch_stage.
  destruct failed as [|v vs]; [done|]. cbn [length Nat.ltb Nat.leb].
  apply injective_projections.
  - change (fst ?m) with (trace m). run_simpl.
    cbn [imported_analyzeVideosWithGemini youtube_js].
    destruct (result (analyzeVideosWithGemini w (v :: vs) key isPro));
      run_simpl; by rewrite ?app_nil_r.
  - change (snd ?m) with (result m). run_simpl.
    cbn [imported_analyzeVideosWithGemini youtube_js].
    by destruct (result (analyzeVideosWithGemini w (v :: vs) key isPro)).
Qed.

Lemma pro_loop_trace (mcf n : nat) (key : jsval) (bound : nat) :
  gemini_key_configured w key →
  ∀ (i : nat) (rest : list video) (results : list content) (cf : nat),
    length rest ≤ bound →
    returns (pro_loop w mcf n key i rest results cf)
    ∧ Forall (λ e, ev_step e = step_gemini_video)
        (events (trace (pro_loop w mcf n key i rest results cf)))
    ∧ ∃ k, requests (trace (pro_loop w mcf n key i rest results cf))
           = watch_request <$> take k rest.
Proof.
  intros Hkey.
  induction bound as [|bound IH]; intros i rest results cf Hlen.
  { destruct rest; [|simpl in Hlen; lia].
    split; [by eexists|]. split; [constructor | by exists 0]. }
  destruct rest as [|v1 tail]; cbn [pro_loop].
  { split; [by eexists|]. split; [constructor | by exists 0]. }
  destruct (mcf <=? cf).
  { run_simpl. split; [by eexists|].
    split; [by repeat constructor | by exists 0]. }
  unfold returns. run_simpl.
  rewrite (mapM_analyze_run w key _ Hkey). run_simpl. run_simpl.
  rewrite !events_app, !requests_app, events_calls, requests_calls.
  change (events [Progress ?e]) with [e].
  change (requests [Progress ?e]) with (@nil request).
  cbn [app].
  assert (events (trace (if i + batchSize <? n then sleep 1000%N else ret tt))
          = [] ∧ requests (trace (if i + batchSize <? n then sleep 1000%N
                                  else ret tt)) = []
          ∧ result (if i + batchSize <? n then sleep 1000%N else ret tt)
            = Returned tt) as (-> & -> & ->).
  { by destruct (i + batchSize <? n). }
  cbn [app]. unfold batchSize. cbn [take].
  destruct tail as [|v2 [|v3 rest']].
  - split; [by eexists|]. split; [by repeat constructor|].
    exists 1. reflexivity.
  - split; [by eexists|]. split; [by repeat constructor|].
    exists 2. reflexivity.
  - match goal with |- context [pro_loop w mcf n key ?i' rest' ?rs ?cf'] =>
      destruct (IH i' rest' rs cf') as (Hret & Hev & k' & Hk')
    end; [simpl in Hlen; lia|].
    split; [exact Hret|]. split; [by constructor|].
    exists (3 + k'). rewrite Hk'. reflexivity.
Qed.

Lemma free_loop_returns (mcf n skipped : nat) (key : jsval) :
  gemini_key_configured w key →
  ∀ (rest : list video) (i : nat) (results : list content) (cf : nat),
    returns (free_loop w mcf n skipped key i rest results cf).
Proof.
  intros Hkey. induction rest as [|v rest IH]; intros i results cf;
    cbn [free_loop]; [by eexists|].
  destruct (mcf <=? cf).
  { apply returns_bind; [by eexists | intros _; by eexists]. }
  apply returns_bind; [by eexists|]. intros _.
  rewrite (analyzeVideoWithGemini_run w v key), Hkey.
  apply returns_bind; [by eexists|]. intros [c|];
    (apply returns_bind; [destruct (i <? n - 1); by eexists|]);
    intros _; apply IH.
Qed.

(** analyzeVideosWithGemini with a key: it returns, its events are all of
    the model-watch step and its requests ask for a prefix of the list. *)
Lemma analyzeVideosWithGemini_trace (videos : list video) (key : jsval)
    (isPro : bool) :
  gemini_key_configured w key →
  returns (analyzeVideosWithGemini w videos key isPro)
  ∧ Forall (λ e, ev_step e = step_gemini_video)
      (events (trace (analyzeVideosWithGemini w videos key isPro)))
  ∧ ∃ k, (isPro = false → k ≤ 15)
         ∧ requests (trace (analyzeVideosWithGemini w videos key isPro))
           = watch_request <$> take k videos.
Proof.
  intros Hkey. unfold analyzeVideosWithGemini. destruct isPro.
  - rewrite firstn_all.
    destruct (pro_loop_trace 5 (length videos) key (length videos) Hkey 0
                videos [] 0 (le_n _)) as (Hret & Hev & k & Hk).
    split; [done|]. split; [done|]. exists k. by split.
  - split; [by apply free_loop_returns|]. split.
    + eapply Forall_impl; [apply free_loop_events|]. by intros e [He _].
    + match goal with |- context [free_loop w ?a ?b ?c ?d ?e ?f ?g ?h] =>
        destruct (free_loop_requests w a b c d e f g h) as [k Hk]
      end.
      exists (k `min` 15). split; [lia|]. by rewrite Hk, take_take.
Qed.

(** analyzeVideosWithGemini without any key: on an empty list it returns
    the empty list; otherwise it announces the first video or batch and
    throws the missing-key error, without a request. *)
Lemma analyzeVideosWithGemini_without_key (videos : list video) (key : jsval)
    (isPro : bool) :
  truthy (js_or key (JStr (env_GEMINI_API_KEY w))) = false →
  requests (trace (analyzeVideosWithGemini w videos key isPro)) = []
  ∧ sleeps (trace (analyzeVideosWithGemini w videos key isPro)) = []
  ∧ Forall (λ e, ev_step e = step_gemini_video ∧ ev_status e = Active)
      (events (trace (analyzeVideosWithGemini w videos key isPro)))
  ∧ result (analyzeVideosWithGemini w videos key isPro)
    = match videos with
      | [] => Returned []
      | _ :: _ => Thrown {| err_message := MISSING_GEMINI_KEY |}
      end.
Proof.
  intros Hkey. unfold analyzeVideosWithGemini.
  destruct videos as [|v vs]; [by destruct isPro|].
  destruct isPro.
  - rewrite firstn_all. cbn [pro_loop Nat.leb]. unfold batchSize.
    cbn [take mapM]. run_simpl.
    rewrite (analyzeVideoWithGemini_run w v key), Hkey. run_simpl.
    repeat split; by repeat constructor.
  - cbn [take free_loop Nat.leb]. run_simpl.
    rewrite (analyzeVideoWithGemini_run w v key), Hkey. run_simpl.
    repeat split; by repeat constructor.
Qed.

Lemma analysis_attempts_events (searchName : string) (cs : list content)
    (context : string) (key : jsval) (nt ng : nat) :
  let evs :=
    events (trace (analysis_attempts w searchName cs context key nt ng
                     [1; 2; 3] "")) in
  Forall (λ e, ev_step e = step_analyze_videos) evs
  ∧ ∃ e, last evs = Some e ∧ ev_status e ≠ Active.
Proof.
  intros evs. subst evs.
  unfold analysis_attempts, deepAnalyzeTranscripts, generate.
  destruct (generateContent w (DeepAnalyze searchName cs context 1)) as [t1|m1].
  { split; [by repeat constructor|]. by eexists. }
  destruct (generateContent w (DeepAnalyze searchName cs context 2)) as [t2|m2].
  { destruct (rate_limit_shaped m1) eqn:H1; cbn; rewrite ?H1; cbn;
      (split; [by repeat constructor|]); by eexists. }
  destruct (generateContent w (DeepAnalyze searchName cs context 3)) as [t3|m3];
    destruct (rate_limit_shaped m1) eqn:H1;
    destruct (rate_limit_shaped m2) eqn:H2;
    cbn; rewrite ?H1, ?H2; cbn; rewrite ?H2; cbn;
    (split; [by repeat constructor|]); by eexists.
Qed.

Lemma stage_events_nil (s : step) : stage_events s [].
Proof. by split. Qed.

Lemma deep_analysis_stage_events (searchName : string)
    (transcripts geminiAnalyzed : list content) (context : string)
    (key : jsval) :
  let evs := events (trace (deep_analysis_stage w searchName transcripts
                              geminiAnalyzed context key)) in
  stage_events step_analyze_videos evs
  ∧ (evs = [] ↔ transcripts ++ geminiAnalyzed = []).
Proof.
  intros evs. subst evs. unfold deep_analysis_stage.
  destruct (transcripts ++ geminiAnalyzed) as [|c cs] eqn:Hcs;
    cbn [length Nat.ltb Nat.leb].
  - split; [apply stage_events_nil | done].
  - destruct (analysis_attempts_events searchName (c :: cs) context key
                (length transcripts) (length geminiAnalyzed))
      as (Hall & e & Hlast & He).
    run_simpl. rewrite events_app. change (events [Progress ?e]) with [e].
    split; [|done]. split.
    + constructor; [done | exact Hall].
    + cbn [app]. rewrite last_cons, Hlast. done.
Qed.

Lemma metadata_fallback_events (searchName : string) (ytResult : search_result)
    (context : string) (key : jsval) (deep : string) :
  let evs := events (trace (metadata_fallback w searchName ytResult context
                              key deep)) in
  stage_events step_analyze_videos evs
  ∧ (evs = [] ↔ fallback_runs deep (sr_interviews ytResult) = false).
Proof.
  intros evs. subst evs. unfold metadata_fallback, fallback_runs,
    analyzeVideoMetadata, generate.
  destruct (negb (nonempty deep) && (0 <? length (sr_interviews ytResult)));
    [|split; [apply stage_events_nil | done]].
  destruct (generateContent w _) as [text|msg]; cbn;
    (split; [split; [by repeat constructor | done] | done]).
Qed.

Lemma web_stage_run (searchName : string) (key : jsval) :
  ∃ web wiki,
    web_stage w searchName key
    = ([ progress step_web_search Active MsgWebSearching;
         Call (WebResearch searchName);
         Call (FetchWikipedia searchName);
         progress step_web_search Done
           (MsgWebRead (default 0 (length <$> (sources <$> web)))
                       (bool_decide (is_Some wiki))) ],
       Returned (web, wiki)).
Proof. unfold web_stage. by eexists _, _. Qed.

Lemma transcript_stage_result (ytResult : search_result) :
  result (transcript_stage (youtube_js w) ytResult)
  = Returned (omap (transcript_of w) (sr_interviews ytResult),
              List.filter (without_transcript w) (sr_interviews ytResult)).
Proof.
  rewrite transcript_stage_run. by destruct (sr_interviews ytResult).
Qed.

Lemma model_watch_stage_result (failed : list video) (key : jsval)
    (isPro : bool) :
  result (model_watch_stage (youtube_js w) failed key isPro)
  = Returned match result (analyzeVideosWithGemini w failed key isPro) with
             | Returned geminiAnalyzed => geminiAnalyzed
             | Thrown _ => []
             end.
Proof.
  rewrite model_watch_stage_run. destruct failed; [|done]. by destruct isPro.
Qed.

(** One run of deepResearch with the module of youtube.js, by its
    stages. *)
Lemma deepResearch_real_stages (subject context : string)
    (geminiKey youtubeKey : jsval) (isPro : bool) :
  let searchName := corrected_name w subject in
  let search := researchGuest w searchName youtubeKey isPro in
  let ytResult :=
    match result search with
    | Returned ytResult => ytResult
    | Thrown _ => no_result
    end in
  let videos := sr_interviews ytResult in
  let transcripts := omap (transcript_of w) videos in
  let failed := List.filter (without_transcript w) videos in
  let watch := analyzeVideosWithGemini w failed geminiKey isPro in
  let geminiAnalyzed :=
    match result watch with
    | Returned geminiAnalyzed => geminiAnalyzed
    | Thrown _ => []
    end in
  ∃ r deep,
    result (deepResearch_with w (youtube_js w) subject context geminiKey
              youtubeKey isPro) = Returned r
    ∧ run_ytResult r = ytResult
    ∧ run_transcripts r = transcripts
    ∧ run_failedVideos r = failed
    ∧ run_geminiAnalyzed r = geminiAnalyzed
    ∧ guestName (run_report r) = searchName
    ∧ interviews (run_report r) = videos
    ∧ result (deep_analysis_stage w searchName transcripts geminiAnalyzed
                context geminiKey) = Returned deep
    ∧ trace (deepResearch_with w (youtube_js w) subject context geminiKey
               youtubeKey isPro)
      = [progress step_start Active (MsgStarting subject)]
        ++ trace (name_check_stage w subject geminiKey)
        ++ trace (search_stage (youtube_js w) searchName youtubeKey isPro)
        ++ trace (transcript_stage (youtube_js w) ytResult)
        ++ trace (model_watch_stage (youtube_js w) failed geminiKey isPro)
        ++ trace (deep_analysis_stage w searchName transcripts geminiAnalyzed
                    context geminiKey)
        ++ trace (metadata_fallback w searchName ytResult context geminiKey deep)
        ++ trace (web_stage w searchName geminiKey)
        ++ [progress step_compile Active MsgCompiling;
            progress step_compile Done MsgReady;
            progress step_complete Done MsgComplete].
Proof.
  intros searchName search ytResult videos transcripts failed watch
    geminiAnalyzed.
  destruct (deepResearch_with_stages w (youtube_js w) subject context
              geminiKey youtubeKey isPro)
    as (sn & yt & tr & fv & ga & d & va & web & wiki
        & Hsn & Hyt & Htr & Hga & Hd & _ & _ & Hr & Ht).
  rewrite name_check_stage_run in Hsn. injection Hsn as <-.
  destruct (search_stage_run searchName youtubeKey isPro) as [_ Hyt'].
  fold searchName in Hyt. rewrite Hyt' in Hyt. injection Hyt as <-.
  fold search ytResult in Htr, Ht |- *.
  rewrite transcript_stage_result in Htr. fold videos in Htr.
  injection Htr as <- <-.
  rewrite model_watch_stage_result in Hga. injection Hga as <-.
  eexists _, d. split; [exact Hr|]. by repeat split.
Qed.

End Stages.

(* ===================================================================== *)
(** * The progress protocol of deepResearch *)
(* ===================================================================== *)

Section Protocol.

Variable w : World.

Lemma last_status_app (s : step) (a b : list event) :
  last_status s (a ++ b)
  = match last_status s b with
    | Some st => Some st
    | None => last_status s a
    end.
Proof.
  unfold last_status. rewrite filter_app, last_app.
  by destruct (last (filter _ b)).
Qed.

Lemma filter_same_step (s : step) (evs : list event) :
  Forall (λ e, ev_step e = s) evs →
  filter (λ e, ev_step e = s) evs = evs.
Proof.
  induction 1 as [|e evs He _ IH]; [done|].
  by rewrite filter_cons_True, IH.
Qed.

Lemma filter_other_step (s s' : step) (evs : list event) :
  s ≠ s' → Forall (λ e, ev_step e = s') evs →
  filter (λ e, ev_step e = s) evs = [].
Proof.
  intros Hne. induction 1 as [|e evs He _ IH]; [done|].
  rewrite filter_cons_False; [done | congruence].
Qed.

Lemma last_status_stage (s s' : step) (evs : list event) :
  stage_events s' evs →
  last_status s evs = None
  ∨ (s = s' ∧ ∃ e, last evs = Some e ∧ last_status s evs = Some (ev_status e)
                   ∧ ev_status e ≠ Active).
Proof.
  intros [Hall Hlast]. unfold last_status.
  destruct (decide (s = s')) as [->|Hne].
  - rewrite filter_same_step by done.
    destruct (last evs) as [e|]; [|by left].
    right. split; [done|]. by exists e.
  - left. by rewrite (filter_other_step s s').
Qed.

Lemma steps_of_block (s : step) (evs rest : list event) :
  Forall (λ e, ev_step e = s) evs → evs ≠ [] →
  steps_of (evs ++ rest) = s :: drop_head s (steps_of rest).
Proof.
  induction 1 as [|e evs He Hall IH]; [done|]. intros _.
  destruct evs as [|e2 evs].
  - cbn [app steps_of]. rewrite He.
    destruct (steps_of rest) as [|s' ss]; [done|]. cbn [drop_head].
    destruct (bool_decide_reflect (s = s')) as [->|]; done.
  - change ((e :: e2 :: evs) ++ rest) with (e :: ((e2 :: evs) ++ rest)).
    cbn [steps_of]. rewrite IH by done. rewrite He.
    by rewrite bool_decide_eq_true_2.
Qed.

Lemma researchGuest_events (guestName : string) (key : jsval) (isPro : bool) :
  events (trace (researchGuest w guestName key isPro)) = [].
Proof.
  destruct (truthy (js_or key (JStr (env_YOUTUBE_API_KEY w)))) eqn:Hkey.
  - destruct (researchGuest_run w guestName key isPro Hkey) as (reqs & -> & _).
    apply events_calls.
  - unfold researchGuest, createYoutubeClient. by rewrite Hkey.
Qed.

Lemma analyzeVideosWithGemini_events (videos : list video) (key : jsval)
    (isPro : bool) :
  Forall (λ e, ev_step e = step_gemini_video)
    (events (trace (analyzeVideosWithGemini w videos key isPro))).
Proof.
  destruct (truthy (js_or key (JStr (env_GEMINI_API_KEY w)))) eqn:Hkey.
  - by destruct (analyzeVideosWithGemini_trace w videos key isPro Hkey)
      as (_ & H & _).
  - destruct (analyzeVideosWithGemini_without_key w videos key isPro Hkey)
      as (_ & _ & H & _).
    eapply Forall_impl; [exact H|]. by intros e [He _].
Qed.

Lemma fetchTranscripts_events (videos : list video) :
  Forall (λ e, ev_step e = step_transcripts)
    (events (trace (fetchTranscripts w videos))).
Proof.
  destruct (fetchTranscripts_run w videos) as (_ & _ & -> & _).
  apply Forall_forall. intros e (j & v & -> & _)%elem_of_lookup_imap. done.
Qed.

(** The events of a run, stage by stage: each stage reports under its
    own step, and its last event is not an active one. *)
Lemma events_progress (s : step) (st : status) (m : message) :
  events [progress s st m]
  = [{| ev_step := s; ev_status := st; ev_message := m |}].
Proof. reflexivity. Qed.

Lemma deepResearch_event_blocks (subject context : string)
    (geminiKey youtubeKey : jsval) (isPro : bool) :
  ∃ r b,
    result (deepResearch_with w (youtube_js w) subject context geminiKey
              youtubeKey isPro) = Returned r
    ∧ events (trace (deepResearch_with w (youtube_js w) subject context
                       geminiKey youtubeKey isPro))
      = [ {| ev_step := step_start; ev_status := Active;
             ev_message := MsgStarting subject |} ]
        ++ name_events b ++ search_events b ++ transcript_events b
        ++ watch_events b ++ analysis_events b ++ web_events b
        ++ [ {| ev_step := step_compile; ev_status := Active;
                ev_message := MsgCompiling |};
             {| ev_step := step_compile; ev_status := Done;
                ev_message := MsgReady |} ]
        ++ [ {| ev_step := step_complete; ev_status := Done;
                ev_message := MsgComplete |} ]
    ∧ stage_events step_name_check (name_events b)
    ∧ stage_events step_youtube (search_events b)
    ∧ stage_events step_transcripts (transcript_events b)
    ∧ stage_events step_gemini_video (watch_events b)
    ∧ stage_events step_analyze_videos (analysis_events b)
    ∧ stage_events step_web_search (web_events b)
    ∧ name_events b ≠ [] ∧ search_events b ≠ [] ∧ web_events b ≠ []
    ∧ (transcript_events b = [] ↔ interviews (run_report r) = [])
    ∧ (watch_events b = [] ↔ run_failedVideos r = [])
    ∧ (analysis_events b = [] ↔ interviews (run_report r) = [])
    ∧ run_failedVideos r
      = List.filter (without_transcript w) (interviews (run_report r)).
Proof.
  destruct (deepResearch_real_stages w subject context geminiKey youtubeKey
              isPro)
    as (r & deep & Hr & Hyt & Htr & Hfv & Hga & Hname & Hvs & Hdeep & Ht).
  cbn zeta in *.
  set (searchName := corrected_name w subject) in *.
  set (search := researchGuest w searchName youtubeKey isPro) in *.
  set (ytResult := match result search with
                   | Returned ytResult => ytResult
                   | Thrown _ => no_result
                   end) in *.
  set (videos := sr_interviews ytResult) in *.
  set (transcripts := omap (transcript_of w) videos) in *.
  set (failed := List.filter (without_transcript w) videos) in *.
  set (watch := analyzeVideosWithGemini w failed geminiKey isPro) in *.
  set (geminiAnalyzed := match result watch with
                         | Returned g => g
                         | Thrown _ => []
                         end) in *.
  exists r,
    {| name_events := events (trace (name_check_stage w subject geminiKey));
       search_events :=
         events (trace (search_stage (youtube_js w) searchName youtubeKey isPro));
       transcript_events :=
         events (trace (transcript_stage (youtube_js w) ytResult));
       watch_events :=
         events (trace (model_watch_stage (youtube_js w) failed geminiKey isPro));
       analysis_events :=
         events (trace (deep_analysis_stage w searchName transcripts
                          geminiAnalyzed context geminiKey))
         ++ events (trace (metadata_fallback w searchName ytResult context
                             geminiKey deep));
       web_events := events (trace (web_stage w searchName geminiKey)) |}.
  cbn [name_events search_events transcript_events watch_events
       analysis_events web_events].
  split; [exact Hr|]. split.
  { rewrite Ht, !events_app. by rewrite <- !app_assoc. }
  rewrite Hvs, Hfv.
  (* the stages, one by one *)
  assert (stage_events step_name_check
            (events (trace (name_check_stage w subject geminiKey)))
          ∧ events (trace (name_check_stage w subject geminiKey)) ≠ [])
    as [Hn Hn'].
  { rewrite name_check_stage_run. split; [|done].
    split; [by repeat constructor | done]. }
  assert (stage_events step_youtube
            (events (trace (search_stage (youtube_js w) searchName youtubeKey
                              isPro)))
          ∧ events (trace (search_stage (youtube_js w) searchName youtubeKey
                             isPro)) ≠ [])
    as [Hs Hs'].
  { destruct (search_stage_run w searchName youtubeKey isPro) as [-> _].
    rewrite !events_app, researchGuest_events. fold search.
    destruct (result search); rewrite !events_progress; (split; [|done]);
      (split; [by repeat constructor | done]). }
  assert (stage_events step_transcripts
            (events (trace (transcript_stage (youtube_js w) ytResult)))
          ∧ (events (trace (transcript_stage (youtube_js w) ytResult)) = []
             ↔ videos = []))
    as [Htrs Htrs'].
  { rewrite transcript_stage_run. fold videos.
    destruct videos as [|v vs] eqn:Hv; [by split|].
    cbn [trace fst]. rewrite !events_app, !events_progress.
    split; [|done]. split.
    - constructor; [done|]. apply Forall_app. split; [|by repeat constructor].
      apply fetchTranscripts_events.
    - by rewrite app_assoc, last_snoc. }
  assert (stage_events step_gemini_video
            (events (trace (model_watch_stage (youtube_js w) failed geminiKey
                              isPro)))
          ∧ (events (trace (model_watch_stage (youtube_js w) failed geminiKey
                              isPro)) = [] ↔ failed = []))
    as [Hw Hw'].
  { rewrite model_watch_stage_run. fold watch.
    destruct failed as [|v vs] eqn:Hv; [by split|].
    cbn [trace fst]. rewrite !events_app.
    destruct (result watch); rewrite !events_progress;
      (split; [|done]); (split; [|by rewrite app_assoc, last_snoc]);
      (constructor; [done|]); (apply Forall_app; split;
        [apply analyzeVideosWithGemini_events | by repeat constructor]). }
  destruct (deep_analysis_stage_events w searchName transcripts geminiAnalyzed
              context geminiKey) as [[Hd1 Hd2] Hd'].
  destruct (metadata_fallback_events w searchName ytResult context geminiKey
              deep) as [[Hf1 Hf2] Hf'].
  cbn zeta in *. fold videos in Hf'.
  assert (stage_events step_web_search
            (events (trace (web_stage w searchName geminiKey)))
          ∧ events (trace (web_stage w searchName geminiKey)) ≠ [])
    as [Hweb Hweb'].
  { destruct (web_stage_run w searchName geminiKey) as (web & wiki & ->).
    split; [|done]. split; [by repeat constructor | done]. }
  repeat (split; [assumption|]).
  split.
  { split; [by apply Forall_app|]. rewrite last_app.
    destruct (last (events (trace (metadata_fallback _ _ _ _ _ _)))); done. }
  repeat (split; [assumption|]).
  (* the analysis step is reported exactly when there are videos *)
  destruct (deep_analysis_stage_run w searchName transcripts geminiAnalyzed
              context geminiKey) as [Hdo _].
  cbn zeta in Hdo. rewrite Hdo in Hdeep. injection Hdeep as Hdeep.
  split; [|done].
  rewrite app_nil. rewrite Hd', Hf'. rewrite <- Hdeep. split.
  - intros [Hcontent Hfb]. rewrite Hcontent in Hfb.
    unfold fallback_runs in Hfb. cbn in Hfb.
    destruct videos; [done | discriminate].
  - intros Hv.
    assert (transcripts ++ geminiAnalyzed = []) as Hcontent.
    { unfold transcripts, geminiAnalyzed, watch, failed. rewrite Hv.
      by destruct isPro. }
    split; [done|]. rewrite Hcontent, Hv. done.
Qed.

Lemma stage_settled (s s' : step) (evs : list event) :
  stage_events s' evs →
  last_status s evs = None
  ∨ ∃ st, last_status s evs = Some st ∧ st ≠ Active.
Proof.
  intros [H|(_ & e & _ & H & He)]%(last_status_stage s); [by left|].
  right. by exists (ev_status e).
Qed.


(** X5.  In every run of deepResearch, the last progress event of each step
    other than [start] is a [done] or an [error] event: no step is left
    active when the report is returned.  (The [start] step has its one
    active event only.) *)
Theorem every_step_ends_done_or_error (subject context : string)
    (userKeys : jsobject) :
  let evs :=
    events (trace (deepResearch w (youtube_js w) subject context userKeys)) in
  last_status step_start evs = Some Active
  ∧ Forall (λ s, last_status s evs ≠ Some Active)
      [ step_name_check; step_youtube; step_transcripts; step_gemini_video;
        step_analyze_videos; step_web_search; step_compile; step_complete ]
  ∧ last_status step_compile evs = Some Done
  ∧ last_status step_complete evs = Some Done.
Proof.
  intros evs. subst evs.
  destruct (deepResearch_returns w (youtube_js w) subject context userKeys)
    as (_ & _ & _ & ->).
  unfold deepResearch_run.
  destruct (deepResearch_event_blocks subject context
              (js_or (get userKeys "geminiApiKey") (JStr ""))
              (js_or (get userKeys "youtubeApiKey") (JStr ""))
              (isPro_of userKeys))
    as (r & b & _ & -> & Hn & Hs & Ht & Hw & Ha & Hweb & _).
  set (first := [{| ev_step := step_start; ev_status := Active;
                    ev_message := MsgStarting subject |}]).
  set (compiling := [{| ev_step := step_compile; ev_status := Active;
                        ev_message := MsgCompiling |};
                     {| ev_step := step_compile; ev_status := Done;
                        ev_message := MsgReady |}]).
  set (completing := [{| ev_step := step_complete; ev_status := Done;
                         ev_message := MsgComplete |}]).
  assert (Forall (λ e, ev_step e = step_start) first) as Hfirst
    by by repeat constructor.
  assert (stage_events step_compile compiling) as Hc
    by (split; [by repeat constructor | done]).
  assert (stage_events step_complete completing) as Hd
    by (split; [by repeat constructor | done]).
  assert (∀ s s' evs, s ≠ s' → stage_events s' evs → last_status s evs = None)
    as Hother.
  { intros s s' evs Hne [Hall _]. unfold last_status.
    by rewrite (filter_other_step s s'). }
  assert (∀ s, s ≠ step_start → last_status s first = None) as Hf0.
  { intros s Hne. unfold last_status.
    by rewrite (filter_other_step s step_start). }
  assert (∀ s, s ≠ step_name_check → last_status s (name_events b) = None)
    as Hn0 by (intros s Hne; by apply (Hother s step_name_check)).
  assert (∀ s, s ≠ step_youtube → last_status s (search_events b) = None)
    as Hs0 by (intros s Hne; by apply (Hother s step_youtube)).
  assert (∀ s, s ≠ step_transcripts →
               last_status s (transcript_events b) = None)
    as Ht0 by (intros s Hne; by apply (Hother s step_transcripts)).
  assert (∀ s, s ≠ step_gemini_video → last_status s (watch_events b) = None)
    as Hw0 by (intros s Hne; by apply (Hother s step_gemini_video)).
  assert (∀ s, s ≠ step_analyze_videos →
               last_status s (analysis_events b) = None)
    as Ha0 by (intros s Hne; by apply (Hother s step_analyze_videos)).
  assert (∀ s, s ≠ step_web_search → last_status s (web_events b) = None)
    as Hweb0 by (intros s Hne; by apply (Hother s step_web_search)).
  assert (∀ s, s ≠ step_compile → last_status s compiling = None)
    as Hc0 by (intros s Hne; by apply (Hother s step_compile)).
  assert (∀ s, s ≠ step_complete → last_status s completing = None)
    as Hd0 by (intros s Hne; by apply (Hother s step_complete)).
  assert (last_status step_compile compiling = Some Done) as Hc1 by done.
  assert (last_status step_complete completing = Some Done) as Hd1 by done.
  assert (last_status step_start first = Some Active) as Hf1 by done.
  split; [|split; [|split]].
  - rewrite !last_status_app.
    by rewrite Hd0, Hc0, Hweb0, Ha0, Hw0, Ht0, Hs0, Hn0, Hf1 by done.
  - repeat constructor; rewrite !last_status_app;
      rewrite ?Hd0, ?Hc0, ?Hweb0, ?Ha0, ?Hw0, ?Ht0, ?Hs0, ?Hn0, ?Hf0,
        ?Hc1, ?Hd1 by done; try done.
    + destruct (stage_settled step_name_check _ _ Hn) as [H|(st & H & Hst)];
        rewrite H; congruence.
    + destruct (stage_settled step_youtube _ _ Hs) as [H|(st & H & Hst)];
        rewrite H; congruence.
    + destruct (stage_settled step_transcripts _ _ Ht) as [H|(st & H & Hst)];
        rewrite H; congruence.
    + destruct (stage_settled step_gemini_video _ _ Hw) as [H|(st & H & Hst)];
        rewrite H; congruence.
    + destruct (stage_settled step_analyze_videos _ _ Ha)
        as [H|(st & H & Hst)]; rewrite H; congruence.
    + destruct (stage_settled step_web_search _ _ Hweb) as [H|(st & H & Hst)];
        rewrite H; congruence.
  - rewrite !last_status_app. by rewrite Hd0, Hc1 by done.
  - rewrite !last_status_app. by rewrite Hd1.
Qed.

(** X6.  The steps a run reports, in the order it reports them: always start,
    name check and search first, web search, compile and complete last;
    in between, when the search found videos, the transcripts, then the
    model-watch step if a video has no usable transcript, then the
    analysis.  No step comes back after another one was reported. *)
Theorem steps_follow_the_pipeline (subject context : string)
    (userKeys : jsobject) :
  ∃ r,
    result (deepResearch_run w (youtube_js w) subject context userKeys)
    = Returned r
    ∧ steps_of (events (trace (deepResearch w (youtube_js w) subject context
                                 userKeys)))
      = [step_start; step_name_check; step_youtube]
        ++ match interviews (run_report r) with
           | [] => []
           | _ :: _ =>
               [step_transcripts]
               ++ match run_failedVideos r with
                  | [] => []
                  | _ :: _ => [step_gemini_video]
                  end
               ++ [step_analyze_videos]
           end
        ++ [step_web_search; step_compile; step_complete].
Proof.
  destruct (deepResearch_returns w (youtube_js w) subject context userKeys)
    as (r' & Hr' & _ & ->).
  unfold deepResearch_run in *.
  destruct (deepResearch_event_blocks subject context
              (js_or (get userKeys "geminiApiKey") (JStr ""))
              (js_or (get userKeys "youtubeApiKey") (JStr ""))
              (isPro_of userKeys))
    as (r & b & Hr & -> & [Hn _] & [Hs _] & [Ht _] & [Hw _] & [Ha _]
        & [Hweb _] & Hn' & Hs' & Hweb' & Ht' & Hw' & Ha' & Hfv).
  exists r. split; [done|].
  assert (∀ s evs rest, Forall (λ e, ev_step e = s) evs →
            steps_of (evs ++ rest)
            = match evs with
              | [] => steps_of rest
              | _ :: _ => s :: drop_head s (steps_of rest)
              end) as Hblock.
  { intros s evs rest Hall. destruct evs as [|e evs]; [done|].
    by apply steps_of_block. }
  rewrite (Hblock step_start) by by repeat constructor.
  rewrite (Hblock step_name_check _ _ Hn), (Hblock step_youtube _ _ Hs),
    (Hblock step_transcripts _ _ Ht), (Hblock step_gemini_video _ _ Hw),
    (Hblock step_analyze_videos _ _ Ha), (Hblock step_web_search _ _ Hweb).
  rewrite Hfv in Hw' |- *.
  destruct (name_events b); [done|]. destruct (search_events b); [done|].
  destruct (web_events b); [done|].
  destruct (interviews (run_report r)) as [|v vs].
  - destruct (transcript_events b);
      [|by destruct Ht' as [_ Ht']; discriminate Ht'].
    destruct (analysis_events b);
      [|by destruct Ha' as [_ Ha']; discriminate Ha'].
    cbn [List.filter] in *.
    destruct (watch_events b); [done|].
    by destruct Hw' as [_ Hw']; discriminate Hw'.
  - destruct (transcript_events b);
      [by destruct Ht' as [Ht' _]; discriminate Ht'|].
    destruct (analysis_events b);
      [by destruct Ha' as [Ha' _]; discriminate Ha'|].
    destruct (List.filter (without_transcript w) (v :: vs)) as [|f fs].
    + destruct (watch_events b); [done|].
      by destruct Hw' as [_ Hw']; discriminate Hw'.
    + destruct (watch_events b);
        [by destruct Hw' as [Hw' _]; discriminate Hw'|].
      done.
Qed.

End Protocol.

(* ===================================================================== *)
(** * What a run asks of the outside world *)
(* ===================================================================== *)

Section Requests.

Variable w : World.

Lemma requests_progress (s : step) (st : status) (m : message) :
  requests [progress s st m] = [].
Proof. reflexivity. Qed.

Lemma search_stage_requests (searchName : string) (key : jsval) (isPro : bool) :
  requests (trace (search_stage (youtube_js w) searchName key isPro))
  = requests (trace (researchGuest w searchName key isPro)).
Proof.
  destruct (search_stage_run w searchName key isPro) as [-> _].
  rewrite !requests_app, requests_progress.
  destruct (result _); by rewrite requests_progress, app_nil_r.
Qed.

Lemma transcript_stage_requests (ytResult : search_result) :
  requests (trace (transcript_stage (youtube_js w) ytResult))
  = sr_interviews ytResult ≫= fetch_requests w.
Proof.
  rewrite transcript_stage_run.
  destruct (sr_interviews ytResult) as [|v vs] eqn:Hv; [done|].
  cbn [trace fst]. rewrite !requests_app, !requests_progress, app_nil_r.
  by destruct (fetchTranscripts_run w (v :: vs)) as (_ & -> & _).
Qed.

Lemma model_watch_stage_requests (failed : list video) (key : jsval)
    (isPro : bool) :
  requests (trace (model_watch_stage (youtube_js w) failed key isPro))
  = requests (trace (analyzeVideosWithGemini w failed key isPro)).
Proof.
  rewrite model_watch_stage_run.
  destruct failed as [|v vs]; [by destruct isPro|].
  cbn [trace fst]. rewrite !requests_app, requests_progress.
  destruct (result _); by rewrite requests_progress, app_nil_r.
Qed.

Lemma analyzeVideosWithGemini_requests (videos : list video) (key : jsval)
    (isPro : bool) :
  ∃ k, (isPro = false → k ≤ 15)
       ∧ requests (trace (analyzeVideosWithGemini w videos key isPro))
         = watch_request <$> take k videos.
Proof.
  destruct (truthy (js_or key (JStr (env_GEMINI_API_KEY w)))) eqn:Hkey.
  - by destruct (analyzeVideosWithGemini_trace w videos key isPro Hkey)
      as (_ & _ & H).
  - destruct (analyzeVideosWithGemini_without_key w videos key isPro Hkey)
      as (-> & _).
    exists 0. split; [lia | done].
Qed.

(** The requests of a run, stage by stage. *)
Lemma deepResearch_requests (subject context : string)
    (geminiKey youtubeKey : jsval) (isPro : bool) :
  let searchName := corrected_name w subject in
  ∃ r analyses,
    result (deepResearch_with w (youtube_js w) subject context geminiKey
              youtubeKey isPro) = Returned r
    ∧ guestName (run_report r) = searchName
    ∧ requests (trace (deepResearch_with w (youtube_js w) subject context
                         geminiKey youtubeKey isPro))
      = [GenerateContent (CorrectName subject)]
        ++ requests (trace (researchGuest w searchName youtubeKey isPro))
        ++ (interviews (run_report r) ≫= fetch_requests w)
        ++ requests (trace (analyzeVideosWithGemini w (run_failedVideos r)
                              geminiKey isPro))
        ++ analyses
        ++ [WebResearch searchName; FetchWikipedia searchName]
    ∧ length analyses ≤ 4
    ∧ Forall (λ q, is_deep_analysis q || is_metadata_analysis q = true)
        analyses
    ∧ (interviews (run_report r) = [] → analyses = []).
Proof.
  intros searchName.
  destruct (deepResearch_real_stages w subject context geminiKey youtubeKey
              isPro)
    as (r & deep & Hr & Hyt & Htr & Hfv & Hga & Hname & Hvs & Hdeep & Ht).
  cbn zeta in *. fold searchName in Hyt, Htr, Hfv, Hga, Hname, Hvs, Hdeep, Ht.
  rewrite <- Hyt in *. rewrite <- Htr in *. rewrite <- Hga in *.
  exists r.
  exists (requests (trace (deep_analysis_stage w searchName (run_transcripts r)
                             (run_geminiAnalyzed r) context geminiKey))
          ++ requests (trace (metadata_fallback w searchName (run_ytResult r)
                                context geminiKey deep))).
  split; [exact Hr|]. split; [exact Hname|].
  destruct (deep_analysis_stage_run w searchName (run_transcripts r)
              (run_geminiAnalyzed r) context geminiKey) as [Hdo Hdq].
  destruct (metadata_fallback_run w searchName (run_ytResult r) context
              geminiKey deep) as [Hmq _].
  cbn zeta in *.
  assert (∃ m, m ≤ 3
               ∧ requests (trace (deep_analysis_stage w searchName
                                    (run_transcripts r) (run_geminiAnalyzed r)
                                    context geminiKey))
                 = deep_request searchName
                     (run_transcripts r ++ run_geminiAnalyzed r) context
                   <$> seq 1 m
               ∧ (run_transcripts r ++ run_geminiAnalyzed r = [] → m = 0))
    as (m & Hm & Hdq' & Hm0).
  { destruct (run_transcripts r ++ run_geminiAnalyzed r) as [|c cs] eqn:Hc.
    - exists 0. split; [lia|]. split; [|done].
      unfold deep_analysis_stage. by rewrite Hc.
    - destruct Hdq as [-> _]; [done|]. eexists. split; [|split; [done|done]].
      unfold attempts_made. by repeat case_match; lia. }
  split; [|split; [|split]].
  - rewrite Ht, !requests_app, requests_progress, name_check_stage_run.
    cbn [trace fst].
    destruct (web_stage_run w searchName geminiKey) as (web & wiki & ->).
    rewrite search_stage_requests, transcript_stage_requests,
      model_watch_stage_requests, Hvs, Hfv.
    cbn [trace fst]. rewrite <- !app_assoc. reflexivity.
  - rewrite length_app, Hdq', Hmq, length_fmap, length_seq.
    destruct (fallback_runs _ _); simpl; lia.
  - apply Forall_app. split.
    + rewrite Hdq'. apply Forall_fmap, Forall_forall. by intros.
    + rewrite Hmq. destruct (fallback_runs _ _); by repeat constructor.
  - intros Hv. rewrite Hvs in Hv.
    assert (run_transcripts r ++ run_geminiAnalyzed r = []) as Hc.
    { rewrite Htr, Hga, Hv. by destruct isPro. }
    rewrite Hdq', (Hm0 Hc), Hmq, Hv. unfold fallback_runs.
    by destruct (nonempty deep).
Qed.

Lemma deepResearch_as_with (Y : YoutubeModule) (subject context : string)
    (userKeys : jsobject) :
  ∃ r,
    result (deepResearch_with w Y subject context
              (js_or (get userKeys "geminiApiKey") (JStr ""))
              (js_or (get userKeys "youtubeApiKey") (JStr ""))
              (isPro_of userKeys)) = Returned r
    ∧ result (deepResearch w Y subject context userKeys)
      = Returned (run_report r)
    ∧ trace (deepResearch w Y subject context userKeys)
      = trace (deepResearch_with w Y subject context
                 (js_or (get userKeys "geminiApiKey") (JStr ""))
                 (js_or (get userKeys "youtubeApiKey") (JStr ""))
                 (isPro_of userKeys)).
Proof.
  destruct (deepResearch_returns w Y subject context userKeys)
    as (r & Hr & Hrep & Ht).
  by exists r.
Qed.

(** The calls of a run, stage by stage: the name check; the searches (at
    most 8 in Free mode, 13 in Pro mode); the transcript requests (at most
    12 for each video found); the videos handed to the model (at most 15
    in Free mode, and never more than the videos found); at most 3 deep
    analyses and 1 metadata analysis; then the call of webResearch and the
    call of fetchWikipedia, both for the name of the report. *)
Lemma research_requests_staged (subject context : string)
    (userKeys : jsobject) :
  ∃ rep searches fetches watches analyses,
    result (deepResearch w (youtube_js w) subject context userKeys)
    = Returned rep
    ∧ requests (trace (deepResearch w (youtube_js w) subject context userKeys))
      = [GenerateContent (CorrectName subject)]
        ++ searches ++ fetches ++ watches ++ analyses
        ++ [WebResearch (guestName rep); FetchWikipedia (guestName rep)]
    ∧ Forall (λ q, is_search q = true) searches
    ∧ length searches ≤ (if isPro_of userKeys then 13 else 8)
    ∧ Forall (λ q, is_transcript_fetch q = true) fetches
    ∧ length fetches ≤ 12 * totalInterviewsFound rep
    ∧ Forall (λ q, is_watch q = true) watches
    ∧ length watches ≤ totalInterviewsFound rep
    ∧ (isPro_of userKeys = false → length watches ≤ 15)
    ∧ Forall (λ q, is_deep_analysis q || is_metadata_analysis q = true)
        analyses
    ∧ length analyses ≤ 4.
Proof.
  destruct (deepResearch_as_with (youtube_js w) subject context userKeys)
    as (r & Hr & -> & ->).
  destruct (deepResearch_requests subject context
              (js_or (get userKeys "geminiApiKey") (JStr ""))
              (js_or (get userKeys "youtubeApiKey") (JStr ""))
              (isPro_of userKeys))
    as (r' & analyses & Hr' & Hname & Hq & Hlen & Hall & _).
  cbn zeta in *. rewrite Hr in Hr'. injection Hr' as <-.
  set (searchName := corrected_name w subject) in *.
  set (youtubeKey := js_or (get userKeys "youtubeApiKey") (JStr "")) in *.
  set (geminiKey := js_or (get userKeys "geminiApiKey") (JStr "")) in *.
  destruct (researchGuest_requests w searchName youtubeKey (isPro_of userKeys))
    as [k Hsearch].
  destruct (analyzeVideosWithGemini_requests (run_failedVideos r) geminiKey
              (isPro_of userKeys)) as (k' & Hk' & Hwatch).
  destruct (deepResearch_event_blocks w subject context geminiKey youtubeKey
              (isPro_of userKeys)) as (r' & b & Hr' & _).
  rewrite Hr in Hr'. injection Hr' as <-.
  destruct (deepResearch_event_blocks w subject context geminiKey youtubeKey
              (isPro_of userKeys))
    as (r' & b' & Hr' & _ & _ & _ & _ & _ & _ & _ & _ & _ & _ & _ & _ & _ & Hfv).
  rewrite Hr in Hr'. injection Hr' as <-.
  assert (totalInterviewsFound (run_report r)
          = length (interviews (run_report r))) as Htotal.
  { destruct (deepResearch_with_stages w (youtube_js w) subject context
                geminiKey youtubeKey (isPro_of userKeys))
      as (sn & yt & tr & fv & ga & d & va & web & wiki
          & _ & Hyt & _ & _ & _ & _ & _ & Hr'' & _).
    rewrite Hr in Hr''. injection Hr'' as ->. cbn.
    by apply (search_stage_unique w) in Hyt as [_ ->]. }
  exists (run_report r), (requests (trace (researchGuest w searchName youtubeKey
                                             (isPro_of userKeys)))),
    (interviews (run_report r) ≫= fetch_requests w),
    (requests (trace (analyzeVideosWithGemini w (run_failedVideos r) geminiKey
                        (isPro_of userKeys)))),
    analyses.
  split; [done|]. split; [by rewrite Hq, Hname|].
  split; [|split; [|split; [|split; [|split; [|split; [|split; [|split]]]]]]].
  - rewrite Hsearch. apply Forall_forall.
    by intros q (i & x & -> & _)%elem_of_lookup_imap.
  - rewrite Hsearch, length_imap, length_take.
    destruct (isPro_of userKeys); simpl; lia.
  - apply Forall_forall. intros q (v & Hq' & _)%list_elem_of_bind.
    destruct (fetch_requests_shape w v) as (j & _ & Hj & _). rewrite Hj in Hq'.
    apply elem_of_cons in Hq' as [->|Hq']; [done|].
    by apply list_elem_of_fmap in Hq' as (l & -> & _).
  - rewrite Htotal. apply fetch_requests_count.
  - rewrite Hwatch. apply Forall_fmap, Forall_forall. by intros.
  - rewrite Hwatch, length_fmap, length_take, Htotal.
    assert (length (run_failedVideos r) ≤ length (interviews (run_report r)))
      as Hle.
    { rewrite Hfv. apply List.filter_length_le. }
    lia.
  - intros Hfree. rewrite Hwatch, length_fmap, length_take.
    specialize (Hk' Hfree). lia.
  - exact Hall.
  - exact Hlen.
Qed.

(** X8.  When the search throws (no key, refused quota), the run does without
    videos: it asks for no transcript, hands no video to the model and
    asks for no analysis; after the requests of the search it makes the
    web research and the Wikipedia request only, reports the error of the
    search under the [youtube] step, and returns a report with no video
    and an empty video analysis. *)
Theorem failed_search_skips_the_video_stages (subject context : string)
    (userKeys : jsobject) (e : js_error) :
  let search :=
    researchGuest w (corrected_name w subject)
      (js_or (get userKeys "youtubeApiKey") (JStr "")) (isPro_of userKeys) in
  let run := deepResearch w (youtube_js w) subject context userKeys in
  result search = Thrown e →
  ∃ rep,
    result run = Returned rep
    ∧ guestName rep = corrected_name w subject
    ∧ interviews rep = [] ∧ totalInterviewsFound rep = 0
    ∧ transcriptsAnalyzed rep = 0 ∧ videoAnalysis rep = ""
    ∧ requests (trace run)
      = [GenerateContent (CorrectName subject)]
        ++ requests (trace search)
        ++ [WebResearch (guestName rep); FetchWikipedia (guestName rep)]
    ∧ progress step_youtube Error (MsgSearchFailed (err_message e))
      ∈ trace run.
Proof.
  intros search run Hthrown. subst run.
  destruct (deepResearch_as_with (youtube_js w) subject context userKeys)
    as (r & Hr & -> & ->).
  set (youtubeKey := js_or (get userKeys "youtubeApiKey") (JStr "")) in *.
  set (geminiKey := js_or (get userKeys "geminiApiKey") (JStr "")) in *.
  destruct (deepResearch_real_stages w subject context geminiKey youtubeKey
              (isPro_of userKeys))
    as (r' & deep & Hr' & Hyt & Htr & Hfv & Hga & Hname & Hvs & Hdeep & Ht).
  cbn zeta in *. rewrite Hr in Hr'. injection Hr' as <-.
  fold search in Hyt, Htr, Hfv, Hga, Hvs, Hdeep, Ht.
  rewrite Hthrown in *. cbn [no_result sr_interviews omap List.filter] in *.
  destruct (deepResearch_requests subject context geminiKey youtubeKey
              (isPro_of userKeys))
    as (r' & analyses & Hr' & _ & Hq & _ & _ & Hnone).
  cbn zeta in *. rewrite Hr in Hr'. injection Hr' as <-.
  fold search in Hq. rewrite (Hnone Hvs) in Hq. rewrite Hvs, Hfv in Hq.
  assert (analyzeVideosWithGemini w [] geminiKey (isPro_of userKeys)
          = ([], Returned [])) as Hnowatch by by destruct (isPro_of userKeys).
  rewrite Hnowatch in Hq, Hga. cbn [result snd] in Hga.
  destruct (deepResearch_with_stages w (youtube_js w) subject context
              geminiKey youtubeKey (isPro_of userKeys))
    as (sn & yt & tr & fv & ga & d & va & web & wiki
        & Hsn & Hyt' & _ & _ & Hd & Hva & _ & Hr'' & _).
  rewrite Hr in Hr''.
  rewrite name_check_stage_run in Hsn. injection Hsn as <-.
  destruct (search_stage_run w (corrected_name w subject) youtubeKey
              (isPro_of userKeys)) as [Hst Hsr].
  cbn zeta in *. fold search in Hst, Hsr. rewrite Hthrown in Hst, Hsr.
  rewrite Hsr in Hyt'. injection Hyt' as <-.
  exists (run_report r). split; [done|]. split; [done|].
  injection Hr'' as Hr''.
  assert (tr = [] ∧ ga = []) as [-> ->].
  { rewrite Hr'' in Htr, Hga. cbn in Htr, Hga. by subst. }
  cbn in Hd. injection Hd as <-. cbn in Hva. injection Hva as <-.
  rewrite Hvs, Hname.
  assert (totalInterviewsFound (run_report r) = 0
          ∧ transcriptsAnalyzed (run_report r) = 0
          ∧ videoAnalysis (run_report r) = "") as (-> & -> & ->)
    by by rewrite Hr''.
  repeat split; try done.
  rewrite Ht, Hst. rewrite !elem_of_app.
  right. right. left. right. right. by apply list_elem_of_singleton.
Qed.

End Requests.

Lemma failed_search_skips_the_video_stages_witness :
  ∃ rep,
    result (deepResearch world_no_youtube_key (youtube_js world_no_youtube_key)
              "Jane Doe" "" ∅) = Returned rep
    ∧ interviews rep = []
    ∧ requests (trace (deepResearch world_no_youtube_key
                         (youtube_js world_no_youtube_key) "Jane Doe" "" ∅))
      = [ GenerateContent (CorrectName "Jane Doe");
          WebResearch "Jane Doe"; FetchWikipedia "Jane Doe" ].
Proof.
  assert (result (researchGuest world_no_youtube_key
                    (corrected_name world_no_youtube_key "Jane Doe")
                    (js_or (get ∅ "youtubeApiKey") (JStr "")) (isPro_of ∅))
          = Thrown {| err_message := MISSING_YOUTUBE_KEY |}) as Hthrown
    by (vm_compute; reflexivity).
  pose proof (failed_search_skips_the_video_stages world_no_youtube_key
                "Jane Doe" "" ∅ _ Hthrown) as H.
  cbn zeta in H.
  destruct H as (rep & Hrep & Hname & Hvs & _ & _ & _ & Hq & _).
  exists rep. split; [exact Hrep|]. split; [exact Hvs|].
  rewrite Hq, Hname. vm_compute. reflexivity.
Defined.

(* ===================================================================== *)
(** * Without a Gemini key *)
(* ===================================================================== *)

Section MissingGeminiKey.

Variable w : World.

(** X9.  With no Gemini key at all (none saved by the user, none in the
    environment), analyzeVideosWithGemini asks the model nothing: on an
    empty list it returns the empty list, on any other list it throws the
    missing-key error at the first video.  deepResearch catches it: the
    model-watch stage reports "Some videos could not be analyzed" and the
    run goes on with no model-watched video. *)
Theorem missing_gemini_key_stops_model_watch (videos : list video)
    (key : jsval) (isPro : bool) :
  truthy (js_or key (JStr (env_GEMINI_API_KEY w))) = false →
  requests (trace (analyzeVideosWithGemini w videos key isPro)) = []
  ∧ result (analyzeVideosWithGemini w videos key isPro)
    = match videos with
      | [] => Returned []
      | _ :: _ => Thrown {| err_message := MISSING_GEMINI_KEY |}
      end
  ∧ requests (trace (model_watch_stage (youtube_js w) videos key isPro)) = []
  ∧ result (model_watch_stage (youtube_js w) videos key isPro) = Returned []
  ∧ last (events (trace (model_watch_stage (youtube_js w) videos key isPro)))
    = match videos with
      | [] => None
      | _ :: _ => Some {| ev_step := step_gemini_video; ev_status := Error;
                          ev_message := MsgWatchFailed |}
      end.
Proof.
  intros Hkey.
  destruct (analyzeVideosWithGemini_without_key w videos key isPro Hkey)
    as (Hq & _ & _ & Hr).
  split; [done|]. split; [done|].
  rewrite model_watch_stage_requests, model_watch_stage_result, Hq, Hr.
  split; [done|]. split; [by destruct videos|].
  rewrite model_watch_stage_run. destruct videos as [|v vs]; [done|].
  cbn [trace fst]. rewrite Hr, !events_app, !events_progress.
  by rewrite app_assoc, last_snoc.
Qed.

End MissingGeminiKey.

Lemma missing_gemini_key_stops_model_watch_witness :
  result (analyzeVideosWithGemini world_no_gemini_key (first_videos 2)
            (JStr "") false)
  = Thrown {| err_message := MISSING_GEMINI_KEY |}
  ∧ result (model_watch_stage (youtube_js world_no_gemini_key)
              (first_videos 2) (JStr "") false) = Returned [].
Proof.
  destruct (missing_gemini_key_stops_model_watch world_no_gemini_key
              (first_videos 2) (JStr "") false eq_refl)
    as (_ & Hr & _ & Hs & _).
  split; [exact Hr | exact Hs].
Defined.

(* ===================================================================== *)
(** * The name check *)
(* ===================================================================== *)

Section NameCheck.

Variable w : World.

(** X10.  The name check makes one request.  The name the run goes on with,
    for the search, the analyses, the web research and the report, is the
    trimmed reply of the model when that is a single line of at most 60
    characters (an empty reply included), and the name as typed when the
    reply is longer, has a line feed inside, or the request fails.  The
    report keeps the name as typed in [originalQuery], and
    [correctedName] is null exactly when both names are the same
    string. *)
Theorem name_check_decides_the_search_name (Y : YoutubeModule)
    (subject context : string) (geminiKey youtubeKey : jsval) (isPro : bool) :
  ∃ r,
    result (deepResearch_with w Y subject context geminiKey youtubeKey isPro)
    = Returned r
    ∧ requests (trace (name_check_stage w subject geminiKey))
      = [GenerateContent (CorrectName subject)]
    ∧ guestName (run_report r) = corrected_name w subject
    ∧ originalQuery (run_report r) = subject
    ∧ correctedName (run_report r)
      = (if String.eqb (corrected_name w subject) subject then None
         else Some (corrected_name w subject))
    ∧ result (search_stage Y (corrected_name w subject) youtubeKey isPro)
      = Returned (run_ytResult r)
    ∧ WebResearch (corrected_name w subject)
      ∈ requests (trace (deepResearch_with w Y subject context geminiKey
                           youtubeKey isPro))
    ∧ corrected_name w subject
      = match generateContent w (CorrectName subject) with
        | GenText text =>
            if (String.length (trim text) <=? 60)
               && negb (includes (trim text) nl)
            then trim text
            else subject
        | GenError _ => subject
        end.
Proof.
  destruct (deepResearch_with_stages w Y subject context geminiKey youtubeKey
              isPro)
    as (sn & yt & tr & fv & ga & d & va & web & wiki
        & Hsn & Hyt & _ & _ & _ & _ & Hweb & Hr & Ht).
  rewrite name_check_stage_run in Hsn. injection Hsn as <-.
  eexists. split; [exact Hr|]. cbn [run_report run_ytResult].
  split; [by rewrite name_check_stage_run|].
  split; [done|]. split; [done|]. split; [done|]. split; [done|].
  split.
  - rewrite Ht, !requests_app.
    destruct (web_stage_run w (corrected_name w subject) geminiKey)
      as (web' & wiki' & ->).
    rewrite !elem_of_app. do 7 right. left.
    cbn. apply elem_of_cons. by left.
  - unfold corrected_name.
    destruct (generateContent w (CorrectName subject)) as [text|msg]; [|done].
    destruct (Nat.leb_spec (String.length (trim text)) 60);
      destruct (Nat.ltb_spec 60 (String.length (trim text))); try lia;
      cbn [orb andb]; by destruct (includes (trim text) nl).
Qed.

End NameCheck.

(* ===================================================================== *)
(** * POST /api/research-guest: the frames of the response *)
(* ===================================================================== *)

Section ResearchRoute.


End ResearchRoute.

(* ===================================================================== *)
(** * The event stream on the wire *)
(* ===================================================================== *)

Section EventStreamOnTheWire.

Lemma split_go_nonempty (sep : string) (k : nat) (s : string) :
  split_go sep k s ≠ [].
Proof.
  revert k. induction s as [|a s IH]; intros k; [done|].
  destruct k as [|k]; cbn [split_go]; [|apply IH].
  destruct (startsWith (String a s) sep); [done|].
  by destruct (split_go sep 0 s).
Qed.

Lemma split_go_cons (sep : string) (a : ascii) (s : string) :
  split_go sep 0 (String a s)
  = if startsWith (String a s) sep
    then "" :: split_go sep (String.length sep - 1) s
    else push_front a (split_go sep 0 s).
Proof. reflexivity. Qed.

Lemma startsWith_app (s p c : string) :
  startsWith s p = true → startsWith (s +:+ c) p = true.
Proof.
  rewrite !startsWith_spec. intros [post ->]. exists (post +:+ c).
  by rewrite append_assoc.
Qed.

Lemma startsWith_length (s p : string) :
  startsWith s p = true → String.length p ≤ String.length s.
Proof.
  revert s. induction p as [|a p IH]; intros s H; cbn [String.length]; [lia|].
  destruct s as [|b s]; [done|]. cbn [startsWith] in H.
  destruct (Ascii.eqb a b); [|done]. apply IH in H. cbn [String.length]. lia.
Qed.

(** A separator found only once more text has arrived is longer than the
    text read so far. *)
Lemma startsWith_straddle (s p c : string) :
  startsWith (s +:+ c) p = true → startsWith s p = false →
  String.length s < String.length p.
Proof.
  revert s. induction p as [|a p IH]; intros s H1 H2; [done|].
  destruct s as [|b s]; cbn [String.length]; [lia|].
  rewrite append_cons in H1. cbn [startsWith] in H1, H2.
  destruct (Ascii.eqb a b); [|done]. specialize (IH s H1 H2). lia.
Qed.

Lemma split_go_short (sep s : string) :
  String.length s < String.length sep → split_go sep 0 s = [s].
Proof.
  induction s as [|a s IH]; intros H; [done|].
  rewrite split_go_cons.
  destruct (startsWith (String a s) sep) eqn:Hs.
  - apply startsWith_length in Hs. lia.
  - rewrite IH; [done|]. cbn [String.length] in H. lia.
Qed.

Lemma split_go_single (sep s t : string) :
  split_go sep 0 s = [t] → t = s.
Proof.
  revert t. induction s as [|a s IH]; intros t H.
  - cbn in H. congruence.
  - rewrite split_go_cons in H.
    destruct (startsWith (String a s) sep).
    + pose proof (split_go_nonempty sep (String.length sep - 1) s) as Hne.
      destruct (split_go sep (String.length sep - 1) s); congruence.
    + pose proof (split_go_nonempty sep 0 s) as Hne.
      destruct (split_go sep 0 s) as [|t' [|t'' ts]]; [done| |done].
      cbn in H. rewrite (IH t' eq_refl) in H. congruence.
Qed.

(** Splitting a text to which more is appended: the complete pieces stay,
    and the last one is split again with what arrived. *)
Lemma split_go_app (sep c s : string) (k : nat) :
  k ≤ String.length s →
  split_go sep k (s +:+ c)
  = removelast (split_go sep k s)
    ++ split_go sep 0 (List.last (split_go sep k s) "" +:+ c).
Proof.
  revert k. induction s as [|a s IH]; intros k Hk.
  - cbn [String.length] in Hk. replace k with 0 by lia. reflexivity.
  - rewrite append_cons. destruct k as [|k].
    + rewrite !split_go_cons.
      destruct (startsWith (String a s) sep) eqn:Hs.
      * rewrite <- append_cons, (startsWith_app _ _ c Hs).
        pose proof (startsWith_length _ _ Hs) as Hlen.
        cbn [String.length] in Hlen.
        rewrite IH by lia.
        pose proof (split_go_nonempty sep (String.length sep - 1) s) as Hne.
        by destruct (split_go sep (String.length sep - 1) s).
      * destruct (startsWith (String a (s +:+ c)) sep) eqn:Hsc.
        -- rewrite <- append_cons in Hsc.
           pose proof (startsWith_straddle _ _ _ Hsc Hs) as Hlen.
           cbn [String.length] in Hlen.
           rewrite (split_go_short sep s) by lia.
           cbn [push_front removelast List.last app].
           rewrite append_cons in Hsc.
           by rewrite append_cons, split_go_cons, Hsc.
        -- pose proof (split_go_nonempty sep 0 s) as Hne.
           destruct (split_go sep 0 s) as [|t [|t' ts]] eqn:HL; [done| |].
           ++ apply split_go_single in HL as ->.
              cbn [push_front removelast List.last app].
              by rewrite append_cons, split_go_cons, Hsc.
           ++ rewrite IH, HL by lia. reflexivity.
    + cbn [split_go]. apply IH. cbn [String.length] in Hk. lia.
Qed.

Lemma includes_char_cons (c a : ascii) (s : string) :
  includes (String a s) (String c "") = false →
  Ascii.eqb c a = false ∧ includes s (String c "") = false.
Proof.
  cbn [includes]. intros H. apply orb_false_iff in H as [H1 H2].
  split; [|done]. cbn [startsWith] in H1. by destruct (Ascii.eqb c a).
Qed.

(** A text without the first code unit of the separator stays in one
    piece, whatever follows. *)
Lemma split_go_piece (c : ascii) (sep' p rest : string) :
  includes p (String c "") = false →
  split_go (String c sep') 0 (p +:+ rest)
  = (p +:+ hd "" (split_go (String c sep') 0 rest))
      :: tl (split_go (String c sep') 0 rest).
Proof.
  induction p as [|a p IH]; intros Hp.
  - rewrite append_nil.
    pose proof (split_go_nonempty (String c sep') 0 rest).
    by destruct (split_go _ 0 rest).
  - apply includes_char_cons in Hp as [Ha Hp].
    rewrite append_cons, split_go_cons. cbn [startsWith]. rewrite Ha.
    by rewrite (IH Hp).
Qed.

Lemma split_go_line (sep' p rest : string) :
  includes p nl = false →
  split_go (String (ascii_of_nat 10) sep') 0 (p +:+ rest)
  = (p +:+ hd "" (split_go (String (ascii_of_nat 10) sep') 0 rest))
      :: tl (split_go (String (ascii_of_nat 10) sep') 0 rest).
Proof. apply split_go_piece. Qed.

Lemma str_split_frame (json rest : string) :
  includes json nl = false →
  str_split (nl +:+ nl) (sse_frame json +:+ rest)
  = ("data: " +:+ json) :: str_split (nl +:+ nl) rest.
Proof.
  intros Hj. unfold str_split, sse_frame.
  rewrite !append_assoc.
  change (nl +:+ nl) with (String (ascii_of_nat 10) nl).
  rewrite !append_cons, append_nil.
  assert (H : includes (String "d" (String "a" (String "t" (String "a"
                (String ":" (String " " json)))))) nl = false).
  { cbn -[nl]. by rewrite Hj. }
  pose proof (split_go_line nl _ (nl +:+ nl +:+ rest) H) as Hs.
  rewrite !append_cons in Hs. rewrite Hs. clear Hs.
  change (nl +:+ nl +:+ rest)
    with (String (ascii_of_nat 10) (String (ascii_of_nat 10) rest)).
  rewrite split_go_cons.
  change (startsWith (String (ascii_of_nat 10) (String (ascii_of_nat 10) rest))
            (String (ascii_of_nat 10) nl)) with true.
  cbn [hd tl]. by rewrite append_empty_r.
Qed.

Lemma str_split_body (jsons : list string) :
  Forall (λ json, includes json nl = false) jsons →
  str_split (nl +:+ nl) (sse_body jsons)
  = (String.append "data: " <$> jsons) ++ [""].
Proof.
  induction 1 as [|json jsons Hj _ IH]; [reflexivity|].
  cbn [sse_body foldr]. rewrite str_split_frame by done.
  fold (sse_body jsons). by rewrite IH.
Qed.

Lemma data_lines_frame (json : string) :
  includes json nl = false → data_lines ("data: " +:+ json) = [json].
Proof.
  intros Hj. unfold data_lines, str_split.
  assert (H : includes ("data: " +:+ json) nl = false).
  { rewrite !append_cons, append_nil. cbn -[nl]. by rewrite Hj. }
  pose proof (split_go_line "" _ "" H) as Hs.
  cbn [split_go hd tl] in Hs. rewrite !append_empty_r in Hs.
  change nl with (String (ascii_of_nat 10) "").
  rewrite Hs. reflexivity.
Qed.

Lemma data_lines_body (jsons : list string) :
  Forall (λ json, includes json nl = false) jsons →
  (String.append "data: " <$> jsons) ≫= data_lines = jsons.
Proof.
  induction 1 as [|json jsons Hj _ IH]; [reflexivity|].
  rewrite fmap_cons, bind_cons, IH, data_lines_frame by done. reflexivity.
Qed.

Lemma last_app_nonempty {A} (l l' : list A) (d : A) :
  l' ≠ [] → List.last (l ++ l') d = List.last l' d.
Proof.
  intros Hne. induction l as [|x l IH]; [done|].
  cbn [app List.last]. rewrite IH. destruct (l ++ l') eqn:E; [|done].
  by apply app_eq_nil in E as [_ ->].
Qed.

(** The reader's loop in one step: its texts and its buffer are those of
    one split of everything that arrived. *)
Lemma read_stream_split (chunks : list string) (s : string) :
  let sep := nl +:+ nl in
  (removelast (str_split sep s) ≫= data_lines)
    ++ (read_stream chunks (List.last (str_split sep s) "")).1
  = removelast (str_split sep (s +:+ joined chunks)) ≫= data_lines
  ∧ (read_stream chunks (List.last (str_split sep s) "")).2
    = List.last (str_split sep (s +:+ joined chunks)) "".
Proof.
  cbn zeta. revert s. induction chunks as [|c chunks IH]; intros s.
  - cbn [read_stream joined foldr fst snd].
    by rewrite append_empty_r, app_nil_r.
  - cbn [read_stream joined foldr]. fold (joined chunks).
    unfold read_chunk. cbn zeta.
    destruct (IH (s +:+ c)) as [IH1 IH2].
    assert (Hs : str_split (nl +:+ nl) (s +:+ c)
                 = removelast (str_split (nl +:+ nl) s)
                   ++ str_split (nl +:+ nl)
                        (List.last (str_split (nl +:+ nl) s) "" +:+ c)).
    { unfold str_split. apply split_go_app. lia. }
    pose proof (split_go_nonempty (nl +:+ nl) 0
                  (List.last (str_split (nl +:+ nl) s) "" +:+ c)) as Hne.
    fold (str_split (nl +:+ nl)
            (List.last (str_split (nl +:+ nl) s) "" +:+ c)) in Hne.
    rewrite Hs in IH1, IH2. rewrite removelast_app in IH1 by done.
    rewrite last_app_nonempty in IH1, IH2 by done.
    destruct (read_stream chunks _) as [more final] eqn:Hr.
    cbn [fst snd] in *. rewrite <- append_assoc, <- IH1, <- IH2.
    by rewrite bind_app, !app_assoc.
Qed.

(** X12.  The event stream survives any chunking.  When the body of the
    response is made of frames ['data: ' + json + '\n\n'] whose JSON texts
    hold no line feed, then however the body is cut into the chunks the
    reader receives, the client hands exactly these JSON texts to
    [JSON.parse], in their order and once each, and its buffer is empty
    at the end. *)
Theorem event_stream_survives_any_chunking (jsons chunks : list string) :
  Forall (λ json, includes json nl = false) jsons →
  joined chunks = sse_body jsons →
  read_stream chunks "" = (jsons, "").
Proof.
  intros Hj Hc.
  destruct (read_stream_split chunks "") as [H1 H2].
  rewrite append_nil, Hc, str_split_body in H1, H2 by done.
  rewrite removelast_last in H1. rewrite last_last in H2.
  rewrite data_lines_body in H1 by done.
  change (str_split (nl +:+ nl) "") with [""] in H1, H2.
  cbn [removelast List.last mbind] in H1, H2.
  destruct (read_stream chunks "") as [texts final].
  cbn in H1, H2. congruence.
Qed.

End EventStreamOnTheWire.

Lemma event_stream_survives_any_chunking_witness :
  Forall (λ json, includes json nl = false) ["{}"; "[1]"]
  ∧ read_stream ["da"; "ta: {}" +:+ nl; nl +:+ "data: [1]" +:+ nl +:+ nl] ""
    = (["{}"; "[1]"], "").
Proof.
  assert (H : Forall (λ json, includes json nl = false) ["{}"; "[1]"])
    by (repeat constructor).
  split; [exact H|].
  apply (event_stream_survives_any_chunking _ _ H). reflexivity.
Defined.

(* ===================================================================== *)
(** * The accounts in the local file *)
(* ===================================================================== *)

Section Accounts.
Import FileMode.

Lemma lookup_user_assign (users : users_json) (k : string) (u : jsobject) :
  lookup_user (assign users k u) k = Some u.
Proof.
  unfold lookup_user. induction users as [|[k' u'] users IH]; cbn.
  - by rewrite String.eqb_refl.
  - destruct (String.eqb k' k) eqn:E; cbn; rewrite E; [done|exact IH].
Qed.

Lemma lookup_user_assign_ne (users : users_json) (k k' : string)
    (u : jsobject) :
  k' ≠ k → lookup_user (assign users k u) k' = lookup_user users k'.
Proof.
  intros Hne. unfold lookup_user.
  induction users as [|[k0 u0] users IH]; cbn.
  - by rewrite (proj2 (String.eqb_neq k k')).
  - destruct (String.eqb k0 k) eqn:E; cbn.
    + apply String.eqb_eq in E as ->.
      by rewrite (proj2 (String.eqb_neq k k')).
    + destruct (String.eqb k0 k'); [done|exact IH].
Qed.

Lemma lookup_user_saveUsers (users : users_json) (k : string) :
  lookup_user (saveUsers users) k = to_json <$> lookup_user users k.
Proof.
  unfold lookup_user, saveUsers.
  induction users as [|[k0 u0] users IH]; [done|]. cbn.
  destruct (String.eqb k0 k); [done|exact IH].
Qed.

Lemma get_to_json (o : jsobject) (k : string) : get (to_json o) k = get o k.
Proof.
  unfold get, to_json.
  destruct (o !! k) as [v|] eqn:E.
  - destruct (decide (v = JUndefined)) as [->|Hv].
    + by rewrite map_lookup_filter_None_2 by (right; intros ? ?; naive_solver).
    + by rewrite (map_lookup_filter_Some_2 _ _ _ _ E Hv).
  - by rewrite map_lookup_filter_None_2 by (by left).
Qed.

Lemma to_json_defined (o : jsobject) :
  (∀ k, o !! k ≠ Some JUndefined) → to_json o = o.
Proof.
  intros H. unfold to_json. apply map_filter_id.
  intros k v Hk Hv. cbn in Hv. subst v. by apply (H k).
Qed.

Lemma stored_saveUsers (users : users_json) (email k : string) :
  stored (saveUsers users) email k = stored users email k.
Proof.
  unfold stored. rewrite lookup_user_saveUsers.
  destruct (lookup_user users email); [apply get_to_json|done].
Qed.

Lemma new_user_profile (userId key : string) (name hash created : jsval) :
  userId ≠ "" →
  sanitizeUser {[ "id" := JStr userId; "email" := JStr key; "name" := name;
                  "passwordHash" := hash; "createdAt" := created ]}
  = Returned {[ "id" := JStr userId; "email" := JStr key; "name" := name;
                "createdAt" := created ]}.
Proof.
  intros Hid. unfold sanitizeUser.
  set (user := ({[ "id" := JStr userId; "email" := JStr key; "name" := name;
                   "passwordHash" := hash; "createdAt" := created ]}
                : jsobject)).
  assert (Hto : get user "toObject" = JUndefined) by reflexivity.
  assert (Hi : get user "id" = JStr userId) by reflexivity.
  rewrite Hto, Hi. cbn [truthy].
  replace (nonempty userId) with true
    by (symmetry; unfold nonempty; apply negb_true_iff;
        by apply String.eqb_neq).
  reflexivity.
Qed.

Lemma to_json_new_user (userId key : string) (name : jsval) (hash created : string) :
  to_json {[ "id" := JStr userId; "email" := JStr key;
             "name" := js_or name (JStr "");
             "passwordHash" := JStr hash; "createdAt" := JStr created ]}
  = {[ "id" := JStr userId; "email" := JStr key;
       "name" := js_or name (JStr "");
       "passwordHash" := JStr hash; "createdAt" := JStr created ]}.
Proof.
  apply to_json_defined. intros k Hk.
  assert (Hn : js_or name (JStr "") ≠ JUndefined).
  { unfold js_or. destruct name as [| |[]|z|s]; cbn; try done.
    - destruct (negb (z =? 0)%Z); done.
    - destruct (nonempty s); done. }
  repeat (apply lookup_insert_Some in Hk as [[_ Hk]|[_ Hk]];
          [congruence|]).
  apply lookup_singleton_Some in Hk as [_ Hk]. congruence.
Qed.

Lemma sanitizeUser_no_secret (user safe : jsobject) :
  sanitizeUser user = Returned safe → no_secret safe.
Proof.
  unfold sanitizeUser, no_secret. intros H.
  repeat case_match; simplify_eq; by simplify_map_eq.
Qed.

Lemma authMiddleware_refusal (h : Host) (authorization : option string)
    (r : reply) :
  authMiddleware h authorization = inl r → ∃ error, r = ErrorReply 401 error.
Proof.
  unfold authMiddleware. intros H.
  repeat case_match; simplify_eq; by eexists.
Qed.

(** X13.  Registration and login, round trip.  For an e-mail address with no
    account yet and a password of at least six characters, register
    creates the account and returns a token signed for the fresh
    identifier and the profile (identifier, normalised address, name,
    creation date: no hash).  From then on login with any spelling of the
    address that normalises to the same key is decided by bcrypt.compare
    on the stored hash alone: a token for the same identifier and the
    same profile when it accepts, 'Incorrect password' when it refuses.
    A second register for the address is refused and changes nothing, and
    the properties of the other accounts read as before. *)
Theorem registered_account_logs_in (h : Host) (users : users_json)
    (email password : string) (name : jsval) (hash : string) :
  let key := trim (toLowerCase email) in
  let userId := JStr (randomUUID h) in
  let profile : jsobject :=
    {[ "id" := userId; "email" := JStr key;
       "name" := js_or name (JStr ""); "createdAt" := JStr (now_iso h) ]} in
  includes key "@" = true →
  6 ≤ String.length password →
  lookup_user users key = None →
  bcrypt_hash h (JStr password) = Returned hash →
  randomUUID h ≠ "" →
  ∃ users',
    register h users (JStr email) (JStr password) name
    = (users', Returned (AuthOk (jwt_sign h userId) profile))
    ∧ (∀ h' email' password',
         trim (toLowerCase email') = key →
         login h' users' (JStr email') password'
         = match bcrypt_compare h' password' (JStr hash) with
           | Returned true => Returned (AuthOk (jwt_sign h' userId) profile)
           | Returned false => Returned (AuthError "Incorrect password")
           | Thrown e => Thrown e
           end)
    ∧ (∀ h' email' password' name' hash',
         trim (toLowerCase email') = key →
         6 ≤ String.length password' →
         bcrypt_hash h' (JStr password') = Returned hash' →
         register h' users' (JStr email') (JStr password') name'
         = (users',
            Returned (AuthError "An account with this email already exists")))
    ∧ (∀ other k, other ≠ key → stored users' other k = stored users other k).
Proof.
  intros key userId profile _ Hlen Hnew Hhash Hid.
  set (user := ({[ "id" := userId; "email" := JStr key;
                   "name" := js_or name (JStr "");
                   "passwordHash" := JStr hash;
                   "createdAt" := JStr (now_iso h) ]} : jsobject)).
  exists (saveUsers (assign users key user)).
  assert (Hshort : ∀ p, 6 ≤ String.length p → (String.length p <? 6) = false)
    by (intros p Hp; apply Nat.ltb_ge; lia).
  assert (Hfound : lookup_user (saveUsers (assign users key user)) key
                   = Some user).
  { rewrite lookup_user_saveUsers, lookup_user_assign. cbn [fmap option_fmap option_map].
    f_equal. apply to_json_new_user. }
  split; [|split; [|split]].
  - unfold register. cbn [lower_trim too_short]. fold key.
    rewrite (Hshort _ Hlen), Hhash, Hnew.
    rewrite bool_decide_eq_false_2 by (by intros [? ?]).
    cbn zeta. unfold generateToken. fold userId. fold user.
    unfold user, userId. by rewrite new_user_profile.
  - intros h' email' password' Hkey. unfold login. cbn [lower_trim].
    rewrite Hkey, Hfound.
    change (get user "passwordHash") with (JStr hash).
    destruct (bcrypt_compare h' password' (JStr hash)) as [[]|]; [|done|done].
    unfold generateToken. change (get user "id") with userId.
    unfold user, userId. by rewrite new_user_profile.
  - intros h' email' password' name' hash' Hkey Hlen' Hhash'.
    unfold register. cbn [lower_trim too_short].
    rewrite Hkey, (Hshort _ Hlen'), Hhash', Hfound.
    by rewrite bool_decide_eq_true_2 by (by eexists).
  - intros other k Hother. rewrite stored_saveUsers. unfold stored.
    by rewrite lookup_user_assign_ne.
Qed.

(** Two stores with the same keys in the same order whose user objects
    agree on every property outside [changed]. *)
Lemma assign_pointwise (changed : string → Prop) (users : users_json)
    (email : string) (u0 user : jsobject) :
  lookup_user users email = Some u0 →
  (∀ k, ¬ changed k → get user k = get u0 k) →
  Forall2 (λ a b, a.1 = b.1 ∧ ∀ k, ¬ changed k → get a.2 k = get b.2 k)
          (saveUsers (assign users email user)) users.
Proof.
  intros Hu0 Huser. unfold lookup_user in Hu0.
  induction users as [|[k0 v0] users IH]; [done|].
  cbn in Hu0 |- *. destruct (String.eqb k0 email) eqn:E; cbn.
  - injection Hu0 as ->. constructor.
    + split; [done|]. intros k Hk. cbn. by rewrite get_to_json, Huser.
    + clear. induction users as [|[k1 v1] users IH]; constructor; [|done].
      split; [done|]. intros k _. cbn. apply get_to_json.
  - constructor; [|by apply IH].
    split; [done|]. intros k _. cbn. apply get_to_json.
Qed.

Lemma pointwise_keys (changed : string → Prop) (users' users : users_json) :
  Forall2 (λ a b, a.1 = b.1 ∧ ∀ k, ¬ changed k → get a.2 k = get b.2 k)
          users' users →
  users'.*1 = users.*1.
Proof.
  induction 1 as [|[] [] ? ? [? _]]; [done|]. cbn in *. congruence.
Qed.

Lemma pointwise_stored (changed : string → Prop) (users' users : users_json)
    (email k : string) :
  Forall2 (λ a b, a.1 = b.1 ∧ ∀ k, ¬ changed k → get a.2 k = get b.2 k)
          users' users →
  ¬ changed k → stored users' email k = stored users email k.
Proof.
  intros H Hk. unfold stored, lookup_user.
  induction H as [|[k1 v1] [k2 v2] ? ? [Hkey Hv] _ IH]; [done|].
  cbn in *. subst k2. destruct (String.eqb k1 email); [|exact IH].
  cbn. by apply Hv.
Qed.

Lemma pointwise_find_user (changed : string → Prop)
    (users' users : users_json) (userId : jsval) :
  Forall2 (λ a b, a.1 = b.1 ∧ ∀ k, ¬ changed k → get a.2 k = get b.2 k)
          users' users →
  ¬ changed "id" →
  match find_user users' userId, find_user users userId with
  | Some a, Some b => ∀ k, ¬ changed k → get a k = get b k
  | None, None => True
  | _, _ => False
  end.
Proof.
  intros H Hid. unfold find_user.
  induction H as [|[k1 v1] [k2 v2] ? ? [Hkey Hv] _ IH]; [done|].
  cbn in *. rewrite (Hv "id" Hid).
  destruct (strict_eq (get v2 "id") userId); [exact Hv|exact IH].
Qed.

Lemma pointwise_getApiKeys (changed : string → Prop)
    (users' users : users_json) (userId : jsval) :
  Forall2 (λ a b, a.1 = b.1 ∧ ∀ k, ¬ changed k → get a.2 k = get b.2 k)
          users' users →
  ¬ changed "id" → ¬ changed "youtubeApiKey" → ¬ changed "geminiApiKey" →
  FileMode.getApiKeys users' userId = FileMode.getApiKeys users userId.
Proof.
  intros H Hid Hy Hg. pose proof (pointwise_find_user _ _ _ userId H Hid) as Hf.
  unfold FileMode.getApiKeys.
  destruct (find_user users' userId) as [a|], (find_user users userId) as [b|];
    try done.
  cbn. by rewrite (Hf _ Hy), (Hf _ Hg).
Qed.

Lemma find_email_lookup (users : users_json) (userId : jsval) (email : string) :
  find_email users userId = Some email → is_Some (lookup_user users email).
Proof.
  unfold find_email, lookup_user.
  induction users as [|[k v] users IH]; [done|]. cbn.
  destruct (strict_eq (get v "id") userId); cbn.
  - intros [= ->]. by rewrite String.eqb_refl.
  - intros H. destruct (String.eqb k email); [done|by apply IH].
Qed.

Lemma get_set_if_defined (key : string) (v : jsval) (user : jsobject)
    (k : string) :
  get (set_if_defined key v user) k
  = if bool_decide (k = key) && negb (strict_eq v JUndefined) then v
    else get user k.
Proof.
  unfold set_if_defined, get.
  destruct (strict_eq v JUndefined); [by rewrite andb_false_r|].
  rewrite andb_true_r. case_bool_decide as Hk.
  - subst. by rewrite lookup_insert_eq.
  - by rewrite lookup_insert_ne.
Qed.

Lemma get_updates (updates user : jsobject) (keys : list string) (k : string) :
  get (foldl (λ user key, set_if_defined key (get updates key) user) user keys)
      k
  = if bool_decide (k ∈ keys) && negb (strict_eq (get updates k) JUndefined)
    then get updates k else get user k.
Proof.
  revert user. induction keys as [|key keys IH]; intros user; [done|].
  cbn [foldl]. rewrite IH, get_set_if_defined.
  destruct (decide (k = key)) as [->|Hne].
  - rewrite (bool_decide_eq_true_2 (key ∈ key :: keys)) by set_solver.
    rewrite (bool_decide_eq_true_2 (key = key)) by done. cbn [andb].
    by destruct (bool_decide (key ∈ keys)), (negb _).
  - rewrite (bool_decide_eq_false_2 (k = key)) by done. cbn [andb].
    destruct (decide (k ∈ keys)) as [Hin|Hnin].
    + rewrite (bool_decide_eq_true_2 (k ∈ keys)) by done.
      by rewrite bool_decide_eq_true_2 by (apply elem_of_cons; by right).
    + rewrite (bool_decide_eq_false_2 (k ∈ keys)) by done.
      rewrite bool_decide_eq_false_2; [done|].
      intros [?|?]%elem_of_cons; done.
Qed.

(** X15.  updateProfile keeps the accounts and their order and changes nothing
    but the four allowed properties (name, channelDescription,
    interviewerStyle, profileComplete) of the account with the given
    identifier, and those only when the account is stored under a
    non-empty key: each of them is then set to the value of the update
    when that is not [undefined] and kept otherwise.  When no account has
    the identifier, or the account found is stored under the empty key,
    updateProfile returns [null] and writes nothing.  Every other property
    of every account (identifier, address, password hash, API keys) reads
    as before, and so do the keys getApiKeys returns. *)
Theorem updateProfile_sets_allowed_fields_only (users : users_json)
    (userId : jsval) (updates : jsobject) :
  let users' := (updateProfile users userId updates).1 in
  users'.*1 = users.*1
  ∧ (∀ email k, k ∉ allowed → stored users' email k = stored users email k)
  ∧ (∀ email k,
       find_email users userId ≠ Some email →
       stored users' email k = stored users email k)
  ∧ (∀ email k,
       find_email users userId = Some email → k ∈ allowed →
       stored users' email k
       = if nonempty email
         then if strict_eq (get updates k) JUndefined
              then stored users email k
              else get updates k
         else stored users email k)
  ∧ (find_email users userId = None ∨ find_email users userId = Some "" →
     updateProfile users userId updates = (users, Returned None))
  ∧ (∀ uid, FileMode.getApiKeys users' uid = FileMode.getApiKeys users uid).
Proof.
  cbn zeta. unfold updateProfile.
  destruct (find_email users userId) as [email|] eqn:Hfind; cbn [fst];
    [|by repeat split].
  destruct (nonempty email) eqn:Hemail; cbn [fst].
  2: { repeat split; try done. intros email' k [= <-]. by rewrite Hemail. }
  destruct (find_email_lookup _ _ _ Hfind) as [u0 Hu0]. rewrite Hu0.
  cbn [default from_option id].
  set (user := foldl (λ user key, set_if_defined key (get updates key) user)
                     u0 allowed).
  assert (Huser : ∀ k, get user k
            = if bool_decide (k ∈ allowed)
                 && negb (strict_eq (get updates k) JUndefined)
              then get updates k else get u0 k)
    by (intros k; apply get_updates).
  assert (Hpt := assign_pointwise (.∈ allowed) users email u0 user Hu0).
  assert (Hout : ∀ k, k ∉ allowed → get user k = get u0 k).
  { intros k Hk. by rewrite Huser, bool_decide_eq_false_2. }
  specialize (Hpt Hout).
  split; [by eapply pointwise_keys|].
  split; [by intros; eapply pointwise_stored|].
  split; [|split; [|split]].
  - intros email' k Hne. rewrite stored_saveUsers. unfold stored.
    rewrite lookup_user_assign_ne; [done|congruence].
  - intros email' k [= <-] Hk. rewrite Hemail, stored_saveUsers.
    unfold stored.
    rewrite lookup_user_assign, Hu0. cbn [default from_option id].
    rewrite Huser, bool_decide_eq_true_2 by done. cbn [andb].
    by destruct (strict_eq _ _).
  - intros [?|[= ->]]; done.
  - intros uid. eapply pointwise_getApiKeys; [exact Hpt|..];
      rewrite list_elem_of_In; cbn; intuition discriminate.
Qed.

Lemma find_email_in (users : users_json) (userId : jsval) (email : string) :
  find_email users userId = Some email → email ∈ users.*1.
Proof.
  unfold find_email. induction users as [|[k v] users IH]; [done|]. cbn.
  destruct (strict_eq (get v "id") userId); cbn.
  - intros [= ->]. apply elem_of_cons. by left.
  - intros H. apply elem_of_cons. right. by apply IH.
Qed.

(** In an object (no key twice), the key found for an identifier is the
    key of the user found for it. *)
Lemma find_email_user (users : users_json) (userId : jsval) (email : string) :
  NoDup users.*1 → find_email users userId = Some email →
  ∃ u0, lookup_user users email = Some u0
        ∧ find_user users userId = Some u0
        ∧ get u0 "id" = userId.
Proof.
  unfold find_email, lookup_user, find_user.
  induction users as [|[k v] users IH]; [done|]. cbn.
  intros [Hk Hnd]%NoDup_cons.
  destruct (strict_eq (get v "id") userId) eqn:E; cbn.
  - intros [= ->]. rewrite String.eqb_refl. exists v.
    repeat split. unfold strict_eq in E. by apply bool_decide_eq_true in E.
  - intros H. assert (Hin := find_email_in users userId email H).
    assert (k ≠ email) as Hne by (intros ->; done).
    rewrite (proj2 (String.eqb_neq k email) Hne). by apply IH.
Qed.

Lemma find_user_assign (users : users_json) (userId : jsval)
    (email : string) (user : jsobject) :
  NoDup users.*1 → find_email users userId = Some email →
  get user "id" = userId →
  find_user (saveUsers (assign users email user)) userId
  = Some (to_json user).
Proof.
  unfold find_email, find_user, saveUsers.
  induction users as [|[k v] users IH]; [done|]. cbn.
  intros [Hk Hnd]%NoDup_cons.
  destruct (strict_eq (get v "id") userId) eqn:E; cbn.
  - intros [= ->] Hid. rewrite String.eqb_refl. cbn.
    rewrite get_to_json, Hid. unfold strict_eq.
    by rewrite bool_decide_eq_true_2.
  - intros H Hid. assert (Hin := find_email_in users userId email H).
    assert (k ≠ email) as Hne by (intros ->; done).
    rewrite (proj2 (String.eqb_neq k email) Hne). cbn.
    rewrite get_to_json, E. by apply IH.
Qed.

(** X16.  updateApiKeys, then getApiKeys.  For the identifier of an account
    stored under a non-empty key, updateApiKeys succeeds, and getApiKeys
    then returns for each of the two keys the value just given, or the
    stored one when the update leaves it [undefined] (the empty string
    when that is falsy); no other property of any account changes.  For
    the account stored under the empty key, updateApiKeys returns [null]
    and writes nothing. *)
Theorem saved_api_keys_are_read_back (users : users_json) (userId : jsval)
    (keys : jsobject) (email : string) :
  let users' := (updateApiKeys users userId keys).1 in
  let kept k :=
    if strict_eq (get keys k) JUndefined then stored users email k
    else get keys k in
  NoDup users.*1 →
  find_email users userId = Some email →
  if nonempty email then
    (updateApiKeys users userId keys).2 = true
    ∧ FileMode.getApiKeys users' userId
      = Some {[ "youtubeApiKey" := js_or (kept "youtubeApiKey") (JStr "");
                "geminiApiKey" := js_or (kept "geminiApiKey") (JStr "") ]}
    ∧ (∀ email' k,
         email' ≠ email ∨ (k ≠ "youtubeApiKey" ∧ k ≠ "geminiApiKey") →
         stored users' email' k = stored users email' k)
  else updateApiKeys users userId keys = (users, false).
Proof.
  intros users' kept Hnd Hfind. subst users' kept. unfold updateApiKeys.
  rewrite Hfind. destruct (nonempty email) eqn:Hemail; [|done].
  cbn [fst snd].
  destruct (find_email_user _ _ _ Hnd Hfind) as (u0 & Hu0 & _ & Hid).
  rewrite Hu0. cbn [default from_option id].
  set (user := set_if_defined "geminiApiKey" (get keys "geminiApiKey")
                 (set_if_defined "youtubeApiKey" (get keys "youtubeApiKey")
                    u0)).
  assert (Huser : ∀ k, get user k
            = if bool_decide (k = "geminiApiKey")
                 && negb (strict_eq (get keys "geminiApiKey") JUndefined)
              then get keys "geminiApiKey"
              else if bool_decide (k = "youtubeApiKey")
                      && negb (strict_eq (get keys "youtubeApiKey") JUndefined)
                   then get keys "youtubeApiKey"
                   else get u0 k).
  { intros k. unfold user. by rewrite !get_set_if_defined. }
  split; [done|]. split.
  - unfold FileMode.getApiKeys.
    rewrite (find_user_assign _ _ _ user Hnd Hfind)
      by (by rewrite Huser). cbn [fmap option_fmap option_map].
    rewrite !get_to_json, !Huser. unfold stored. rewrite Hu0. cbn [default from_option id].
    cbn [bool_decide decide_rel andb negb]. f_equal.
    rewrite (bool_decide_eq_true_2 ("geminiApiKey" = "geminiApiKey")) by done.
    rewrite (bool_decide_eq_false_2 ("youtubeApiKey" = "geminiApiKey")) by done.
    rewrite (bool_decide_eq_true_2 ("youtubeApiKey" = "youtubeApiKey")) by done.
    cbn [andb].
    by destruct (strict_eq (get keys "youtubeApiKey") JUndefined),
                (strict_eq (get keys "geminiApiKey") JUndefined).
  - intros email' k Hk. rewrite stored_saveUsers. unfold stored.
    destruct (decide (email' = email)) as [->|Hne].
    + destruct Hk as [?|[Hy Hg]]; [done|].
      rewrite lookup_user_assign, Hu0. cbn [default from_option id]. rewrite Huser.
      by rewrite !bool_decide_eq_false_2 by done.
    + by rewrite lookup_user_assign_ne.
Qed.

(** X17.  PUT /api/settings/keys reads the properties [youtubeApiKey] and
    [geminiApiKey] of the body and nothing else.  A body that has neither
    (the settings page sends [{ apiKey }] when it saves or clears the key)
    leaves every property of every account, and the keys getApiKeys
    returns, as they were, while the route answers 'API keys saved' for an
    authenticated user whose account is stored under a non-empty key, and
    404 'User not found' when the user has no account or the account is
    stored under the empty key. *)
Theorem settings_save_without_key_names_stores_nothing (h : Host)
    (users : users_json) (authorization : option string) (body : jsobject) :
  let result := Routes.put_settings_keys h users authorization body in
  body !! "youtubeApiKey" = None →
  body !! "geminiApiKey" = None →
  result.1.*1 = users.*1
  ∧ (∀ email k, stored result.1 email k = stored users email k)
  ∧ (∀ uid, FileMode.getApiKeys result.1 uid = FileMode.getApiKeys users uid)
  ∧ (∀ userId,
       authMiddleware h authorization = inr userId →
       result.2
       = match find_email users userId with
         | Some email =>
             if nonempty email then SavedReply
             else ErrorReply 404 "User not found"
         | None => ErrorReply 404 "User not found"
         end).
Proof.
  intros result Hy Hg. subst result.
  unfold Routes.put_settings_keys, protected.
  destruct (authMiddleware h authorization) as [r|userId];
    [by repeat split|].
  unfold updateApiKeys.
  destruct (find_email users userId) as [email|] eqn:Hfind; cbn [fst snd].
  2: { repeat split; try done. intros ? [= <-]. by rewrite Hfind. }
  destruct (nonempty email) eqn:Hemail; cbn [fst snd].
  2: { repeat split; try done. intros ? [= <-]. by rewrite Hfind, Hemail. }
  destruct (find_email_lookup _ _ _ Hfind) as [u0 Hu0]. rewrite Hu0.
  cbn [default from_option id].
  assert (Hk1 : get ({[ "youtubeApiKey" := get body "youtubeApiKey";
                        "geminiApiKey" := get body "geminiApiKey" ]}
                     : jsobject) "youtubeApiKey" = JUndefined).
  { unfold get at 1. rewrite lookup_insert_eq. unfold get. by rewrite Hy. }
  assert (Hk2 : get ({[ "youtubeApiKey" := get body "youtubeApiKey";
                        "geminiApiKey" := get body "geminiApiKey" ]}
                     : jsobject) "geminiApiKey" = JUndefined).
  { unfold get at 1. rewrite lookup_insert_ne, lookup_singleton_eq by done.
    unfold get. by rewrite Hg. }
  rewrite Hk1, Hk2. unfold set_if_defined.
  change (strict_eq JUndefined JUndefined) with true. cbn iota.
  assert (Hpt := assign_pointwise (λ _, False) users email u0 u0 Hu0
                   (λ _ _, eq_refl)).
  split; [by eapply pointwise_keys|].
  split.
  { intros email' k. eapply pointwise_stored; [exact Hpt|tauto]. }
  split; [|by intros ? [= <-]; rewrite Hfind, Hemail].
  intros uid. eapply pointwise_getApiKeys; [exact Hpt|tauto..].
Qed.

(** X18.  Whatever keys are stored, the [keys] object that
    GET /api/settings/keys answers has no [hasApiKey] property (it has
    [hasYoutubeKey] and [hasGeminiKey]); so loadSettingsPage leaves the
    key field empty and shows the "No key" status. *)
Theorem settings_page_never_shows_a_key (h : Host) (users : users_json)
    (authorization : option string) (keys : jsobject) :
  Routes.get_settings_keys h users authorization = KeysReply keys →
  loadSettingsPage keys = {| api_input := JStr ""; key_saved := false |}.
Proof.
  unfold Routes.get_settings_keys, protected. intros H.
  destruct (authMiddleware h authorization) as [r|userId] eqn:Hauth; cbn in H.
  { apply authMiddleware_refusal in Hauth as [error ->]. done. }
  destruct (FileMode.getApiKeys users userId) as [stored_keys|]; [|done].
  destruct (Routes.masked _ (get stored_keys "youtubeApiKey")) as [y|];
    [|done].
  destruct (Routes.masked _ (get stored_keys "geminiApiKey")) as [g|];
    [|done].
  injection H as <-. reflexivity.
Qed.

Lemma str_split_bearer (token : string) :
  includes token " " = false →
  str_split " " ("Bearer " +:+ token) = ["Bearer"; token].
Proof.
  intros Htok. unfold str_split.
  change ("Bearer " +:+ token) with ("Bearer" +:+ String " " token).
  rewrite (split_go_piece " " "" "Bearer" (String " " token)) by reflexivity.
  rewrite split_go_cons. cbn [startsWith]. cbn -[split_go].
  pose proof (split_go_piece " " "" token "" Htok) as H.
  rewrite append_empty_r in H. cbn [split_go hd tl] in H.
  rewrite append_empty_r in H. by rewrite H.
Qed.

Lemma authMiddleware_bearer (h : Host) (token : string) (decoded : jsobject) :
  includes token " " = false →
  jwt_verify h token = Some decoded →
  authMiddleware h (Some ("Bearer " +:+ token)) = inr (get decoded "userId").
Proof.
  intros Htok Hver. unfold authMiddleware.
  change (nonempty ("Bearer " +:+ token)) with true.
  change (startsWith ("Bearer " +:+ token) "Bearer ") with true.
  cbn [negb orb]. rewrite (str_split_bearer _ Htok). cbn [lookup list_lookup].
  unfold verifyToken. by rewrite Hver.
Qed.

Lemma lookup_user_in (users : users_json) (k : string) (u : jsobject) :
  lookup_user users k = Some u → (k, u) ∈ users.
Proof.
  unfold lookup_user. induction users as [|[k0 v0] users IH]; [done|]. cbn.
  destruct (String.eqb k0 k) eqn:E; cbn.
  - apply String.eqb_eq in E as ->. intros [= ->]. apply elem_of_cons.
    by left.
  - intros H. apply elem_of_cons. right. by apply IH.
Qed.

(** When no two accounts share an identifier, the account of an e-mail
    address is the one found for its identifier. *)
Lemma find_user_unique (users : users_json) (k : string) (u : jsobject) :
  NoDup ((λ kv, get kv.2 "id") <$> users) →
  lookup_user users k = Some u →
  find_user users (get u "id") = Some u.
Proof.
  unfold find_user. induction users as [|[k0 v0] users IH]; [done|].
  intros [Hk Hnd]%NoDup_cons Hu. cbn in Hk |- *.
  unfold lookup_user in Hu. cbn in Hu.
  destruct (String.eqb k0 k) eqn:E; cbn in Hu.
  - injection Hu as ->. unfold strict_eq.
    by rewrite bool_decide_eq_true_2.
  - fold (lookup_user users k) in Hu.
    assert (Hin := lookup_user_in _ _ _ Hu).
    assert (get v0 "id" ≠ get u "id") as Hne.
    { intros Heq. apply Hk. rewrite Heq.
      apply list_elem_of_fmap. by exists (k, u). }
    unfold strict_eq at 1. rewrite bool_decide_eq_false_2 by done.
    by apply IH.
Qed.

(** X19.  The token of a successful login, sent back as ['Bearer ' + token],
    passes authMiddleware, and GET /api/profile answers with the very
    user object the login returned; provided that no two accounts share
    an identifier, that the token holds no space, and that jwt.verify
    gives back the [userId] the token was signed for. *)
Theorem login_token_opens_the_profile (h : Host) (users : users_json)
    (email password : jsval) (token : string) (user : jsobject) :
  NoDup ((λ kv, get kv.2 "id") <$> users) →
  login h users email password = Returned (AuthOk token user) →
  includes token " " = false →
  (∀ userId, token = jwt_sign h userId →
     ∃ decoded, jwt_verify h token = Some decoded
                ∧ get decoded "userId" = userId) →
  Routes.get_profile h users (Some ("Bearer " +:+ token)) = ProfileReply user.
Proof.
  intros Hnd Hlogin Htok Hjwt. unfold login in Hlogin.
  destruct (lower_trim "email" email) as [key|]; [|done].
  destruct (lookup_user users key) as [su|] eqn:Hsu; [|done].
  destruct (bcrypt_compare h password (get su "passwordHash")) as [[]|];
    try done.
  destruct (sanitizeUser su) as [safe|] eqn:Hsafe; [|done].
  injection Hlogin as <- <-. unfold generateToken in *.
  destruct (Hjwt _ eq_refl) as (decoded & Hver & Hid).
  unfold Routes.get_profile, protected.
  rewrite (authMiddleware_bearer _ _ _ Htok Hver), Hid. cbn [fst snd].
  unfold getProfile. by rewrite (find_user_unique _ _ _ Hnd Hsu), Hsafe.
Qed.

(** X20.  POST /api/auth/google checks no credential.  For an account that was
    registered with a password, a body that only names its e-mail address
    (in any spelling that normalises to the same key) is answered with
    status 200, a token signed for the identifier of that account and its
    profile; the stored password hash is not touched. *)
Theorem google_route_asks_for_no_credential (h0 : Host) (users users' : users_json)
    (email : string) (password name : jsval) (token : string)
    (profile : jsobject) :
  register h0 users (JStr email) password name
  = (users', Returned (AuthOk token profile)) →
  ∀ (h : Host) (body : jsobject) (email' : string),
    get body "email" = JStr email' →
    trim (toLowerCase email') = trim (toLowerCase email) →
    ∃ users'' profile',
      Routes.post_google h users' body
      = (users'', AuthReply 200 (jwt_sign h (get profile "id")) profile')
      ∧ get profile' "id" = get profile "id"
      ∧ get profile' "email" = get profile "email"
      ∧ stored users'' (trim (toLowerCase email)) "passwordHash"
        = stored users' (trim (toLowerCase email)) "passwordHash".
Proof.
  intros Hreg h body email' Hbody Hkey. unfold register in Hreg.
  cbn [lower_trim] in Hreg.
  destruct (too_short password) as [[]|]; try by injection Hreg.
  destruct (bcrypt_hash h0 password) as [hash|]; [|by injection Hreg].
  destruct (bool_decide _); [by injection Hreg|]. cbn zeta in Hreg.
  set (key := trim (toLowerCase email)) in *.
  set (user := ({[ "id" := JStr (randomUUID h0); "email" := JStr key;
                   "name" := js_or name (JStr "");
                   "passwordHash" := JStr hash;
                   "createdAt" := JStr (now_iso h0) ]} : jsobject)) in *.
  assert (Hid : randomUUID h0 ≠ "").
  { intros Heq. unfold sanitizeUser in Hreg.
    change (get user "toObject") with JUndefined in Hreg.
    change (get user "id") with (JStr (randomUUID h0)) in Hreg.
    change (get user "_id") with JUndefined in Hreg.
    rewrite Heq in Hreg. cbn in Hreg. by injection Hreg. }
  unfold user in Hreg. rewrite (new_user_profile _ _ _ _ _ Hid) in Hreg.
  injection Hreg as <- <- <-. fold user.
  assert (Hfound : lookup_user (saveUsers (assign users key user)) key
                   = Some user).
  { rewrite lookup_user_saveUsers, lookup_user_assign.
    cbn [fmap option_fmap option_map]. f_equal. apply to_json_new_user. }
  unfold Routes.post_google, googleLogin. rewrite Hbody. cbn [lower_trim].
  rewrite Hkey. fold key. rewrite Hfound.
  change (get user "picture") with JUndefined. cbn [truthy negb andb].
  assert (Htrue : nonempty (randomUUID h0) = true).
  { unfold nonempty. apply negb_true_iff. by apply String.eqb_neq. }
  destruct (truthy (get body "picture")) eqn:Hpic.
  - eexists _, _. unfold sanitizeUser.
    change (get (<["picture" := get body "picture"]> user) "toObject")
      with JUndefined.
    change (get (<["picture" := get body "picture"]> user) "id")
      with (JStr (randomUUID h0)).
    cbn [truthy]. rewrite Htrue. split; [reflexivity|].
    split; [reflexivity|]. split; [reflexivity|].
    rewrite stored_saveUsers. unfold stored.
    rewrite lookup_user_assign, Hfound. reflexivity.
  - eexists _, _. unfold sanitizeUser.
    change (get user "toObject") with JUndefined.
    change (get user "id") with (JStr (randomUUID h0)).
    cbn [truthy]. rewrite Htrue. split; [reflexivity|].
    split; [reflexivity|]. split; reflexivity.
Qed.

(** X14.  No reply of the register, login, Google sign-in and profile routes
    carries a user object with a [passwordHash], [youtubeApiKey] or
    [geminiApiKey] property. *)
Theorem replies_carry_no_secret (h : Host) (users : users_json)
    (authorization : option string) (body : jsobject) :
  Forall (λ r, ∀ user, reply_user r = Some user → no_secret user)
    [ (Routes.post_register h users body).2;
      Routes.post_login h users body;
      (Routes.post_google h users body).2;
      Routes.get_profile h users authorization;
      (Routes.put_profile h users authorization body).2 ].
Proof.
  repeat apply Forall_cons_2; [| | | | |apply Forall_nil_2]; intros user.
  - unfold Routes.post_register, register.
    repeat case_match; simplify_eq; cbn; intros; simplify_eq;
      eauto using sanitizeUser_no_secret.
  - unfold Routes.post_login, login.
    repeat case_match; simplify_eq; cbn; intros; simplify_eq;
      eauto using sanitizeUser_no_secret.
  - unfold Routes.post_google, googleLogin.
    repeat case_match; simplify_eq; cbn; intros; simplify_eq;
      eauto using sanitizeUser_no_secret.
  - unfold Routes.get_profile, protected, getProfile.
    destruct (authMiddleware h authorization) as [r|userId] eqn:Hauth.
    { apply authMiddleware_refusal in Hauth as [error ->]. done. }
    repeat case_match; simplify_eq; cbn; intros; simplify_eq;
      eauto using sanitizeUser_no_secret.
  - unfold Routes.put_profile, protected, updateProfile.
    destruct (authMiddleware h authorization) as [r|userId] eqn:Hauth.
    { apply authMiddleware_refusal in Hauth as [error ->]. done. }
    repeat case_match; simplify_eq; cbn; intros; simplify_eq;
      eauto using sanitizeUser_no_secret.
Qed.

End Accounts.

Lemma registered_account_logs_in_witness :
  ∃ users',
    FileMode.register host_example [] (JStr " Jane@Example.org") (JStr "s3cret!")
      (JStr "Jane")
    = (users',
       Returned (FileMode.AuthOk "jwt.3b241101-e2bb-4255-8caf-4136c566a962"
         {[ "id" := JStr "3b241101-e2bb-4255-8caf-4136c566a962";
            "email" := JStr "jane@example.org";
            "name" := JStr "Jane";
            "createdAt" := JStr "2025-01-01T00:00:00.000Z" ]}))
    ∧ FileMode.login host_example users' (JStr "JANE@example.org")
        (JStr "wrong")
      = Returned (FileMode.AuthError "Incorrect password").
Proof.
  destruct (registered_account_logs_in host_example [] " Jane@Example.org"
              "s3cret!" (JStr "Jane") "$2a$10$s3cret!"
              ltac:(reflexivity) ltac:(cbn; lia) ltac:(reflexivity)
              ltac:(reflexivity) ltac:(discriminate))
    as (users' & Hreg & Hlogin & _).
  exists users'. split; [exact Hreg|].
  exact (Hlogin host_example "JANE@example.org" (JStr "wrong") eq_refl).
Defined.

Lemma saved_api_keys_are_read_back_witness :
  FileMode.getApiKeys
    (FileMode.updateApiKeys users_example (JStr "u1")
       {[ "geminiApiKey" := JStr "g-key" ]}).1
    (JStr "u1")
  = Some {[ "youtubeApiKey" := JStr "AIzaSyA-1234567";
            "geminiApiKey" := JStr "g-key" ]}.
Proof.
  assert (Hnd : NoDup users_example.*1)
    by (apply NoDup_singleton).
  assert (Hfind : FileMode.find_email users_example (JStr "u1")
                  = Some "jane@example.org") by reflexivity.
  pose proof (saved_api_keys_are_read_back users_example (JStr "u1")
                {[ "geminiApiKey" := JStr "g-key" ]}
                "jane@example.org" Hnd Hfind) as H.
  change (nonempty "jane@example.org") with true in H.
  exact (proj1 (proj2 H)).
Defined.

Lemma settings_save_without_key_names_stores_nothing_witness :
  let result :=
    Routes.put_settings_keys host_example users_example (Some "Bearer jwt.u1")
      {[ "apiKey" := JStr "AIzaSyB-7654321" ]} in
  result.2 = FileMode.SavedReply
  ∧ FileMode.getApiKeys result.1 (JStr "u1")
    = Some {[ "youtubeApiKey" := JStr "AIzaSyA-1234567";
              "geminiApiKey" := JStr "" ]}.
Proof.
  cbn zeta.
  pose proof (settings_save_without_key_names_stores_nothing host_example
                users_example (Some "Bearer jwt.u1")
                {[ "apiKey" := JStr "AIzaSyB-7654321" ]} eq_refl eq_refl)
    as (_ & _ & Hkeys & Hreply).
  split.
  - apply (Hreply (JStr "u1")). reflexivity.
  - rewrite Hkeys. reflexivity.
Defined.

Lemma settings_page_never_shows_a_key_witness :
  Routes.get_settings_keys host_example users_example (Some "Bearer jwt.u1")
  = FileMode.KeysReply
      {[ "youtubeApiKey" := JStr (Routes.bullets 11 +:+ "4567");
         "geminiApiKey" := JStr "";
         "hasYoutubeKey" := JBool true;
         "hasGeminiKey" := JBool false ]}
  ∧ loadSettingsPage
      {[ "youtubeApiKey" := JStr (Routes.bullets 11 +:+ "4567");
         "geminiApiKey" := JStr "";
         "hasYoutubeKey" := JBool true;
         "hasGeminiKey" := JBool false ]}
    = {| api_input := JStr ""; key_saved := false |}.
Proof.
  assert (H : Routes.get_settings_keys host_example users_example
                (Some "Bearer jwt.u1")
              = FileMode.KeysReply
                  {[ "youtubeApiKey" := JStr (Routes.bullets 11 +:+ "4567");
                     "geminiApiKey" := JStr "";
                     "hasYoutubeKey" := JBool true;
                     "hasGeminiKey" := JBool false ]}) by reflexivity.
  split; [exact H|].
  exact (settings_page_never_shows_a_key _ _ _ _ H).
Defined.

Lemma login_token_opens_the_profile_witness :
  FileMode.login host_example users_example (JStr "Jane@example.org")
    (JStr "s3cret!")
  = Returned (FileMode.AuthOk "jwt.u1"
      {[ "id" := JStr "u1"; "email" := JStr "jane@example.org";
         "name" := JStr "Jane";
         "createdAt" := JStr "2025-01-01T00:00:00.000Z" ]})
  ∧ Routes.get_profile host_example users_example (Some "Bearer jwt.u1")
    = FileMode.ProfileReply
        {[ "id" := JStr "u1"; "email" := JStr "jane@example.org";
           "name" := JStr "Jane";
           "createdAt" := JStr "2025-01-01T00:00:00.000Z" ]}.
Proof.
  assert (Hlogin :
    FileMode.login host_example users_example (JStr "Jane@example.org")
      (JStr "s3cret!")
    = Returned (FileMode.AuthOk "jwt.u1"
        {[ "id" := JStr "u1"; "email" := JStr "jane@example.org";
           "name" := JStr "Jane";
           "createdAt" := JStr "2025-01-01T00:00:00.000Z" ]}))
    by reflexivity.
  split; [exact Hlogin|].
  apply (login_token_opens_the_profile host_example users_example _ _ _ _
           ltac:(apply NoDup_singleton) Hlogin eq_refl).
  intros userId Hsign. exists {[ "userId" := JStr "u1" ]}.
  split; [reflexivity|].
  destruct userId as [| | | |s]; cbn in Hsign; try discriminate.
  rewrite !append_cons, append_nil in Hsign. by injection Hsign as <-.
Defined.

Lemma google_route_asks_for_no_credential_witness :
  ∃ users'' profile',
    Routes.post_google host_example
      (FileMode.register host_example [] (JStr "jane@example.org")
         (JStr "s3cret!") (JStr "Jane")).1
      {[ "email" := JStr "jane@example.org" ]}
    = (users'',
       FileMode.AuthReply 200 "jwt.3b241101-e2bb-4255-8caf-4136c566a962"
         profile').
Proof.
  assert (Hreg :
    FileMode.register host_example [] (JStr "jane@example.org")
      (JStr "s3cret!") (JStr "Jane")
    = ((FileMode.register host_example [] (JStr "jane@example.org")
          (JStr "s3cret!") (JStr "Jane")).1,
       Returned (FileMode.AuthOk "jwt.3b241101-e2bb-4255-8caf-4136c566a962"
         {[ "id" := JStr "3b241101-e2bb-4255-8caf-4136c566a962";
            "email" := JStr "jane@example.org";
            "name" := JStr "Jane";
            "createdAt" := JStr "2025-01-01T00:00:00.000Z" ]})))
    by reflexivity.
  assert (Hbody : get ({[ "email" := JStr "jane@example.org" ]} : jsobject)
                    "email" = JStr "jane@example.org") by reflexivity.
  destruct (google_route_asks_for_no_credential _ _ _ _ _ _ _ _ Hreg
              host_example _ _ Hbody eq_refl)
    as (users'' & profile' & H & _).
  by exists users'', profile'.
Defined.

(** The account stored under the empty key is found but never written:
    updateApiKeys returns [null] and the route answers 404. *)
Example account_under_empty_key_is_not_updated :
  let users := [("", ({[ "id" := JStr "u0" ]} : jsobject))] in
  FileMode.find_email users (JStr "u0") = Some ""
  ∧ FileMode.updateApiKeys users (JStr "u0") {[ "geminiApiKey" := JStr "g-key" ]}
    = (users, false)
  ∧ FileMode.updateProfile users (JStr "u0") {[ "name" := JStr "Nobody" ]}
    = (users, Returned None)
  ∧ (Routes.put_settings_keys host_example users (Some "Bearer jwt.u0")
       {[ "geminiApiKey" := JStr "g-key" ]}).2
    = FileMode.ErrorReply 404 "User not found".
Proof. cbn zeta. repeat split; reflexivity. Qed.

(* ===================================================================== *)
(** * The text handed to JSON.parse by the question generator *)
(* ===================================================================== *)

Section Fences.

Lemma trimStart_blank (ws s : string) :
  blank ws = true → trimStart (ws +:+ s) = trimStart s.
Proof.
  induction ws as [|c ws IH]; [done|]. cbn [blank].
  intros [Hc Hws]%andb_true_iff. rewrite append_cons. cbn [trimStart].
  rewrite Hc. by apply IH.
Qed.

Lemma trimEnd_blank (ws : string) : blank ws = true → trimEnd ws = "".
Proof.
  induction ws as [|c ws IH]; [done|]. cbn [blank].
  intros [Hc Hws]%andb_true_iff. cbn [trimEnd]. by rewrite (IH Hws), Hc.
Qed.

Lemma trimEnd_app (s t : string) :
  trimEnd (s +:+ t)
  = match trimEnd t with
    | EmptyString => trimEnd s
    | r => s +:+ r
    end.
Proof.
  induction s as [|c s IH].
  - rewrite append_nil. by destruct (trimEnd t).
  - rewrite append_cons. cbn [trimEnd]. rewrite IH.
    destruct (trimEnd t) as [|a r]; [done|].
    rewrite append_cons.
    destruct s; [by rewrite append_nil|by rewrite !append_cons].
Qed.

Lemma trimEnd_last (s : string) (z : ascii) :
  is_space z = false → trimEnd (s +:+ String z "") = s +:+ String z "".
Proof.
  intros Hz. rewrite trimEnd_app. cbn [trimEnd]. by rewrite Hz.
Qed.

(** Trimming a text that begins and ends with a character that is not
    white space, with white space around it. *)
Lemma trim_padded (ws1 ws2 mid : string) (a z : ascii) :
  blank ws1 = true → blank ws2 = true →
  is_space a = false → is_space z = false →
  trim (ws1 +:+ String a (mid +:+ String z "") +:+ ws2)
  = String a (mid +:+ String z "").
Proof.
  intros H1 H2 Ha Hz. unfold trim. rewrite (trimStart_blank _ _ H1).
  rewrite append_cons. cbn [trimStart]. rewrite Ha.
  rewrite <- append_cons, trimEnd_app, (trimEnd_blank _ H2).
  rewrite <- append_cons. by apply trimEnd_last.
Qed.

Lemma length_append (a b : string) :
  String.length (a +:+ b) = String.length a + String.length b.
Proof.
  induction a as [|c a IH]; [done|]. rewrite append_cons. cbn. by rewrite IH.
Qed.

Lemma slice_from_app (a b : string) :
  slice_from (String.length a) (a +:+ b) = b.
Proof. induction a as [|c a IH]; [by destruct b|]. by rewrite append_cons. Qed.

Lemma substring0_app (a b : string) :
  substring0 (String.length a) (a +:+ b) = a.
Proof.
  unfold substring0. induction a as [|c a IH]; [by destruct b|].
  rewrite append_cons. cbn. by rewrite IH.
Qed.

Lemma endsWith_app (a suf : string) : endsWith (a +:+ suf) suf = true.
Proof.
  unfold endsWith. rewrite length_append.
  replace (String.length a + String.length suf - String.length suf)
    with (String.length a) by lia.
  rewrite slice_from_app, String.eqb_refl, andb_true_r.
  apply Nat.leb_le. lia.
Qed.

Lemma slice_from_drop (n : nat) (s : string) :
  n ≤ String.length s → ∃ pre, s = pre +:+ slice_from n s.
Proof.
  revert s. induction n as [|n IH]; intros s Hn.
  - exists "". by destruct s.
  - destruct s as [|c s]; cbn in Hn; [lia|].
    destruct (IH s ltac:(lia)) as [pre Hpre].
    exists (String c pre). cbn [slice_from]. by rewrite append_cons, <- Hpre.
Qed.

Lemma endsWith_spec (s suf : string) :
  endsWith s suf = true ↔ ∃ pre, s = pre +:+ suf.
Proof.
  split.
  - unfold endsWith. intros [Hlen Heq]%andb_true_iff.
    apply Nat.leb_le in Hlen. apply String.eqb_eq in Heq.
    destruct (slice_from_drop (String.length s - String.length suf) s
                ltac:(lia)) as [pre Hpre].
    exists pre. by rewrite <- Heq.
  - intros [pre ->]. apply endsWith_app.
Qed.

Lemma append_last_inj (a b : string) (x y : ascii) :
  a +:+ String x "" = b +:+ String y "" → x = y.
Proof.
  revert b. induction a as [|c a IH]; intros [|d b] H.
  - by injection H.
  - rewrite append_nil, append_cons in H. injection H as _ H.
    by destruct b.
  - rewrite append_nil, append_cons in H. injection H as _ H.
    by destruct a.
  - rewrite !append_cons in H. injection H as _ H. by apply IH in H.
Qed.

Lemma endsWith_other (s : string) (z : ascii) :
  z ≠ "`"%char → endsWith (s +:+ String z "") fence = false.
Proof.
  intros Hz. apply not_true_is_false. intros [pre H]%endsWith_spec.
  change fence with ("``" +:+ String "`" "") in H.
  rewrite <- append_assoc in H. by apply append_last_inj in H.
Qed.

(** What is left after the opening fence: the closing fence is cut and
    the object comes out trimmed. *)
Lemma closing_fence_cut (ws2 ws3 body : string) :
  blank ws2 = true → blank ws3 = true →
  let rest := ws2 +:+ ("{" +:+ body +:+ "}") +:+ ws3 +:+ fence in
  trim (if endsWith rest fence
        then substring0 (String.length rest - 3) rest else rest)
  = "{" +:+ body +:+ "}".
Proof.
  intros H2 H3 rest.
  assert (Hrest : rest = (ws2 +:+ ("{" +:+ body +:+ "}") +:+ ws3) +:+ fence).
  { unfold rest. by rewrite !append_assoc. }
  rewrite Hrest, endsWith_app, length_append.
  change (String.length fence) with 3.
  replace (String.length (ws2 +:+ ("{" +:+ body +:+ "}") +:+ ws3) + 3 - 3)
    with (String.length (ws2 +:+ ("{" +:+ body +:+ "}") +:+ ws3)) by lia.
  rewrite substring0_app.
  change ("{" +:+ body +:+ "}") with (String "{" (body +:+ String "}" "")).
  by apply trim_padded.
Qed.

Lemma blank_not_json (ws2 rest : string) :
  blank ws2 = true →
  startsWith (ws2 +:+ String "{" rest) "json" = false.
Proof.
  destruct ws2 as [|c ws2]; [done|]. cbn [blank].
  intros [Hc _]%andb_true_iff. rewrite append_cons. cbn [startsWith].
  destruct (Ascii.eqb_spec "j" c) as [<-|]; [done|done].
Qed.

(** X21.  What the question generator hands to [JSON.parse].  A reply that is
    a JSON object, either bare or wrapped in a Markdown fence with or
    without the [json] tag, with any white space around the fence and
    between the fence and the object, comes out as the text of the object
    alone: the three forms parse alike. *)
Theorem fenced_object_is_unwrapped (ws1 ws2 ws3 ws4 body : string) :
  let json := "{" +:+ body +:+ "}" in
  blank ws1 = true → blank ws2 = true →
  blank ws3 = true → blank ws4 = true →
  strip_fences (ws1 +:+ json +:+ ws4) = json
  ∧ strip_fences (ws1 +:+ (fence +:+ "json" +:+ ws2 +:+ json +:+ ws3 +:+ fence)
                  +:+ ws4) = json
  ∧ strip_fences (ws1 +:+ (fence +:+ ws2 +:+ json +:+ ws3 +:+ fence) +:+ ws4)
    = json.
Proof.
  intros json H1 H2 H3 H4. unfold strip_fences. cbn zeta.
  split; [|split].
  - unfold json.
    change ("{" +:+ body +:+ "}") with (String "{" (body +:+ String "}" "")).
    rewrite (trim_padded ws1 ws4 body "{" "}" H1 H4 eq_refl eq_refl).
    change (startsWith (String "{" (body +:+ String "}" "")) (fence +:+ "json"))
      with false.
    change (startsWith (String "{" (body +:+ String "}" "")) fence) with false.
    cbn iota.
    pose proof (endsWith_other (String "{" body) "}" ltac:(done)) as He.
    rewrite append_cons in He. rewrite He.
    pose proof (trim_padded "" "" body "{" "}" eq_refl eq_refl eq_refl eq_refl)
      as Ht.
    by rewrite append_nil, append_empty_r in Ht.
  - assert (Hx : fence +:+ "json" +:+ ws2 +:+ json +:+ ws3 +:+ fence
                 = String "`" (("``json" +:+ ws2 +:+ json +:+ ws3 +:+ "``")
                               +:+ String "`" "")).
    { unfold fence. rewrite !append_cons, !append_nil, !append_assoc.
      by rewrite !append_cons, !append_nil. }
    rewrite Hx, (trim_padded ws1 ws4 _ "`" "`" H1 H4 eq_refl eq_refl), <- Hx.
    set (rest := ws2 +:+ json +:+ ws3 +:+ fence).
    change (fence +:+ "json" +:+ rest) with ("```json" +:+ rest).
    change (startsWith ("```json" +:+ rest) (fence +:+ "json")) with true.
    cbn iota. change (slice_from 7 ("```json" +:+ rest)) with rest.
    by apply closing_fence_cut.
  - assert (Hx : fence +:+ ws2 +:+ json +:+ ws3 +:+ fence
                 = String "`" (("``" +:+ ws2 +:+ json +:+ ws3 +:+ "``")
                               +:+ String "`" "")).
    { unfold fence. rewrite !append_cons, !append_nil, !append_assoc.
      by rewrite !append_cons, !append_nil. }
    rewrite Hx, (trim_padded ws1 ws4 _ "`" "`" H1 H4 eq_refl eq_refl), <- Hx.
    set (rest := ws2 +:+ json +:+ ws3 +:+ fence).
    change (fence +:+ rest) with ("```" +:+ rest).
    assert (Hj : startsWith ("```" +:+ rest) (fence +:+ "json") = false).
    { change (startsWith ("```" +:+ rest) (fence +:+ "json"))
        with (startsWith rest "json").
      unfold rest, json. rewrite (append_cons "{"). by apply blank_not_json. }
    rewrite Hj. change (startsWith ("```" +:+ rest) fence) with true.
    cbn iota. change (slice_from 3 ("```" +:+ rest)) with rest.
    by apply closing_fence_cut.
Qed.

End Fences.

Lemma fenced_object_is_unwrapped_witness :
  strip_fences (nl +:+ (fence +:+ "json" +:+ nl +:+ ("{" +:+ "}") +:+ nl
                        +:+ fence) +:+ nl)
  = "{}".
Proof.
  exact (proj1 (proj2 (fenced_object_is_unwrapped nl nl nl nl ""
                         eq_refl eq_refl eq_refl eq_refl))).
Defined.

(* ===================================================================== *)
(** * POST /api/generate-questions *)
(* ===================================================================== *)

Section QuestionsRoute.

Context {JSON : Type}.
Variable JSON_parse : string → JSON + string.
Variable w : World.

(** The effects of the ladder: requests for questions only, at most two
    for each model, and waits of 20 s only, at most one after each
    request. *)
Lemma try_models_effects (input : questions_input) (models : list string)
    (lastError : option js_error) :
  let t := trace (try_models JSON_parse w models input lastError) in
  length (requests t) ≤ 2 * length models
  ∧ length (sleeps t) ≤ length (requests t)
  ∧ Forall (λ ms, ms = 20000%N) (sleeps t)
  ∧ events t = [].
Proof.
  cbn zeta. revert lastError.
  induction models as [|m rest IH]; intros lastError.
  - cbn. repeat split; [lia|lia|constructor].
  - rewrite try_models_unfold.
    destruct (try_outcome JSON_parse w input (m, 0)) as [p0|msg0].
    { cbn. repeat split; [lia|lia|constructor]. }
    destruct (try_outcome JSON_parse w input (m, 1)) as [p1|msg1].
    { unfold trace, failed_try. cbn [fst length].
      destruct (rate_limited msg0); cbn; repeat split; try lia;
        repeat constructor. }
    specialize (IH (Some {| err_message := msg1 |})).
    destruct (try_models JSON_parse w rest input _) as [t r].
    unfold trace in *. cbn [fst] in *. destruct IH as (Hr & Hs & Hms & He).
    unfold failed_try.
    rewrite !requests_app, !sleeps_app, !events_app, !length_app.
    cbn [length]. rewrite He.
    destruct (rate_limited msg0), (rate_limited msg1); cbn;
      repeat split; try lia; repeat constructor; done.
Qed.

(** With a string for the guest name, generateQuestions_of_body is
    generateQuestions on the input that carries this name. *)
Lemma generateQuestions_of_body_string (name : string)
    (input : questions_input) :
  generateQuestions_of_body JSON_parse w (JStr name) input
  = generateQuestions JSON_parse w
      {| interviewerName := interviewerName input;
         interviewerStyle := interviewerStyle input;
         channelDescription := channelDescription input;
         q_guestName := name;
         guestContext := guestContext input;
         pastInterviewsSummary := pastInterviewsSummary input;
         questionCount := questionCount input;
         geminiApiKey := geminiApiKey input |}.
Proof.
  unfold generateQuestions_of_body, generateQuestions. cbn [geminiApiKey].
  destruct (negb (truthy _)); [done|].
  cbn [toUpperCase_receiver]. unfold bind, ret.
  by destruct (try_models _ _ _ _ _) as [t r].
Qed.

(** X22.  POST /api/generate-questions answers with status 500 in two cases
    only, and makes no request then: when neither the stored key of the
    user nor the environment gives a Gemini key, with the message of the
    missing key; and, a key being there, when the [guestName] of the body
    is not a string, with the message of the TypeError of
    [guestName.toUpperCase()].  With a key and a string it answers with
    the result of generateQuestions on that name, also when all models
    failed ([success: false], status 200), after at most six requests,
    each followed by at most one wait of 20 s. *)
Theorem questions_route_fails_without_key_or_guest_name (db : Store)
    (userId : string) (guestName : jsval) (input : questions_input) :
  let key := js_or (get (getUserKeys db userId) "geminiApiKey")
                   (JStr (env_GEMINI_API_KEY w)) in
  let route := generate_questions_route JSON_parse db w userId guestName input in
  let effects := route.1 in
  let reply := route.2 in
  if truthy key
  then match guestName with
       | JStr name =>
           (∃ r, reply = QuestionsJson r
                 ∧ result (generateQuestions JSON_parse w
                     {| interviewerName := interviewerName input;
                        interviewerStyle := interviewerStyle input;
                        channelDescription := channelDescription input;
                        q_guestName := name;
                        guestContext := guestContext input;
                        pastInterviewsSummary := pastInterviewsSummary input;
                        questionCount := questionCount input;
                        geminiApiKey :=
                          get (getUserKeys db userId) "geminiApiKey" |})
                   = Returned r)
           ∧ length (requests effects) ≤ 6
           ∧ length (sleeps effects) ≤ length (requests effects)
           ∧ Forall (λ ms, ms = 20000%N) (sleeps effects)
       | JUndefined =>
           effects = []
           ∧ reply = QuestionsError
               "Cannot read properties of undefined (reading 'toUpperCase')"
       | JNull =>
           effects = []
           ∧ reply = QuestionsError
               "Cannot read properties of null (reading 'toUpperCase')"
       | JBool _ | JNum _ =>
           effects = []
           ∧ reply = QuestionsError "guestName.toUpperCase is not a function"
       end
  else effects = []
       ∧ reply = QuestionsError
                   "Gemini API Key is missing. Please configure it in Settings.".
Proof.
  cbn zeta. unfold generate_questions_route.
  destruct guestName as [| | | |name].
  1-4: unfold generateQuestions_of_body; cbn [geminiApiKey fst snd];
       by destruct (truthy (js_or _ _)).
  rewrite generateQuestions_of_body_string.
  unfold generateQuestions. cbn [geminiApiKey fst snd].
  destruct (truthy (js_or _ _)); cbn [negb]; [|done].
  set (input' := {| interviewerName := _ |}).
  destruct (try_models_returns JSON_parse w input' MODELS None) as [r Hr].
  destruct (try_models_effects input' MODELS None) as (H1 & H2 & H3 & _).
  rewrite Hr. split; [by exists r|]. by repeat split.
Qed.

End QuestionsRoute.

(** A body without [guestName]: the route answers 500 although a key is
    configured, and no model is asked. *)
Example missing_guest_name_answers_500 :
  generate_questions_route toy_parse store_with_keys world_second_model "u1"
    JUndefined some_input
  = ([], QuestionsError
           "Cannot read properties of undefined (reading 'toUpperCase')").
Proof. reflexivity. Qed.

(* ===================================================================== *)
(** * The pace of the model-watch requests *)
(* ===================================================================== *)

Section Pace.

Variable w : World.

Lemma timeline_app (t1 t2 : list effect) :
  timeline (t1 ++ t2) = timeline t1 ++ timeline t2.
Proof. unfold timeline. apply omap_app. Qed.

Lemma timeline_calls (rs : list request) :
  timeline (Call <$> rs) = inl <$> rs.
Proof. induction rs as [|r rs IH]; [done|]. cbn. by rewrite <- IH. Qed.

Lemma timeline_quiet (t : list effect) :
  requests t = [] → sleeps t = [] → timeline t = [].
Proof.
  induction t as [|[e|r|ms] t IH]; cbn; intros Hr Hs; try done.
  by apply IH.
Qed.

Lemma paced_burst (burst : nat) (delay : N) (rs : list request) (run : nat)
    (t : list (request + N)) :
  run + length rs ≤ burst →
  paced burst delay (run + length rs) t = true →
  paced burst delay run ((inl <$> rs) ++ t) = true.
Proof.
  revert run. induction rs as [|r rs IH]; intros run Hlen Ht.
  - by rewrite Nat.add_0_r in Ht.
  - cbn [fmap list_fmap app paced length] in *.
    apply andb_true_iff. split; [apply Nat.ltb_lt; lia|].
    apply IH; [lia|]. by replace (S run + length rs) with (run + S (length rs))
      by lia.
Qed.

Lemma free_loop_paced (mcf n skipped : nat) (key : jsval) :
  gemini_key_configured w key →
  ∀ (rest : list video) (i : nat) (results : list content) (cf : nat),
    n = i + length rest →
    paced 1 1500 0
      (timeline (trace (free_loop w mcf n skipped key i rest results cf)))
    = true.
Proof.
  intros Hkey. unfold gemini_key_configured in Hkey.
  induction rest as [|v rest IH]; intros i results cf Hn; cbn [free_loop];
    [done|].
  destruct (mcf <=? cf); [done|].
  run_simpl. rewrite analyzeVideoWithGemini_run, Hkey. run_simpl.
  cbn [length] in Hn.
  assert (Hgo : ∀ results' cf',
    paced 1 1500 0
      (timeline
         ([Call (watch_request v)]
          ++ trace (if i <? n - 1 then sleep 1500%N else ret tt)
          ++ trace (free_loop w mcf n skipped key (S i) rest results' cf')))
    = true).
  { intros results' cf'. destruct (i <? n - 1) eqn:Hi.
    - cbn. apply IH. lia.
    - apply Nat.ltb_ge in Hi. destruct rest; [done|]. cbn [length] in Hn.
      lia. }
  destruct (watched w v) as [c|]; run_simpl.
  - assert (result (if i <? n - 1 then sleep 1500%N else ret tt)
            = Returned tt) as -> by (by destruct (i <? n - 1)).
    apply Hgo.
  - assert (result (if i <? n - 1 then sleep 1500%N else ret tt)
            = Returned tt) as -> by (by destruct (i <? n - 1)).
    apply Hgo.
Qed.

Lemma pro_loop_paced (mcf n : nat) (key : jsval) (bound : nat) :
  gemini_key_configured w key →
  ∀ (i : nat) (rest : list video) (results : list content) (cf : nat),
    length rest ≤ bound →
    n = i + length rest →
    paced 3 1000 0
      (timeline (trace (pro_loop w mcf n key i rest results cf)))
    = true.
Proof.
  intros Hkey.
  induction bound as [|bound IH]; intros i rest results cf Hlen Hn.
  { by destruct rest; [|simpl in Hlen; lia]. }
  destruct rest as [|v1 tail]; cbn [pro_loop]; [done|].
  destruct (mcf <=? cf); [done|].
  run_simpl. rewrite (mapM_analyze_run w key _ Hkey). run_simpl. run_simpl.
  assert (result (if i + batchSize <? n then sleep 1000%N else ret tt)
          = Returned tt) as -> by (by destruct (i + batchSize <? n)).
  rewrite !timeline_app, timeline_calls. cbn [timeline omap app].
  change (list_omap _ _ _ []) with (@nil (request + N)). cbn [app].
  unfold batchSize in *. cbn [length] in Hn, Hlen.
  destruct tail as [|v2 [|v3 rest']]; cbn [length] in Hn, Hlen.
  - replace (i + 3 <? n) with false by (symmetry; apply Nat.ltb_ge; lia).
    done.
  - replace (i + 3 <? n) with false by (symmetry; apply Nat.ltb_ge; lia).
    done.
  - cbn [take fmap list_fmap].
    apply (paced_burst 3 1000 [_; _; _] 0); [cbn; lia|]. cbn [length Nat.add].
    destruct rest' as [|v4 rest']; cbn [length] in Hn, Hlen.
    + replace (i + 3 <? n) with false by (symmetry; apply Nat.ltb_ge; lia).
      done.
    +
      replace (i + 3 <? n) with true by (symmetry; apply Nat.ltb_lt; lia).
      cbn [trace sleep perform fst app]. cbn [timeline omap app].
      change (list_omap _ _ _ (Sleep 1000 :: ?t))
        with (inr 1000%N :: timeline t).
      cbn [paced]. apply IH; cbn [length]; lia.
Qed.

(** X23.  The model-watch stage keeps its pace.  In Free mode no two requests
    to the model follow one another without a wait of 1500 ms; in Pro
    mode no more than three do, the waits lasting 1000 ms.  Every wait
    comes right after a request: there is none before the first request
    and there are never two in a row. *)
Theorem model_watch_keeps_its_pace (videos : list video) (key : jsval)
    (isPro : bool) :
  paced (if isPro then 3 else 1) (if isPro then 1000%N else 1500%N) 0
    (timeline (trace (analyzeVideosWithGemini w videos key isPro)))
  = true.
Proof.
  destruct (truthy (js_or key (JStr (env_GEMINI_API_KEY w)))) eqn:Hkey.
  - unfold analyzeVideosWithGemini. destruct isPro.
    + by eapply pro_loop_paced.
    + by apply free_loop_paced.
  - destruct (analyzeVideosWithGemini_without_key w videos key isPro Hkey)
      as (Hr & Hs & _).
    by rewrite (timeline_quiet _ Hr Hs).
Qed.

End Pace.

(* ===================================================================== *)
(** * An edge of the relevance filter *)
(* ===================================================================== *)

Lemma short_name_keeps_everything_witness :
  nameParts "Jo Li" = [] ∧ relevant "Jo Li" video_pasta = true.
Proof.
  assert (H : nameParts "Jo Li" = []) by (vm_compute; reflexivity).
  split; [exact H|].
  exact (short_name_keeps_everything "Jo Li" video_pasta H).
Defined.

(* ===================================================================== *)
(** * The users file stays in good order *)
(* ===================================================================== *)

Section GoodOrder.
Import FileMode.

Lemma lookup_user_None (users : users_json) (k : string) :
  lookup_user users k = None → k ∉ users.*1.
Proof.
  unfold lookup_user. induction users as [|[k0 v0] users IH]; cbn.
  - intros _. apply not_elem_of_nil.
  - destruct (String.eqb k0 k) eqn:E; [done|]. intros H.
    apply String.eqb_neq in E. apply not_elem_of_cons. split; [done|].
    by apply IH.
Qed.

Lemma saveUsers_keys (users : users_json) : (saveUsers users).*1 = users.*1.
Proof. unfold saveUsers. induction users as [|[] ? IH]; cbn; congruence. Qed.

Lemma saveUsers_ids (users : users_json) :
  ids_of (saveUsers users) = ids_of users.
Proof.
  unfold saveUsers, ids_of. induction users as [|[] ? IH]; [done|]. cbn.
  by rewrite get_to_json, IH.
Qed.

Lemma saveUsers_ok (users : users_json) :
  Forall account_ok users → Forall account_ok (saveUsers users).
Proof.
  unfold saveUsers. induction 1 as [|[k u] users (He & Hi & Ht) _ IH];
    [constructor|].
  cbn. constructor; [|exact IH]. unfold account_ok. cbn in *.
  by rewrite !get_to_json.
Qed.

Lemma assign_new (users : users_json) (k : string) (u : jsobject) :
  lookup_user users k = None → assign users k u = users ++ [(k, u)].
Proof.
  unfold lookup_user. induction users as [|[k0 v0] users IH]; [done|]. cbn.
  destruct (String.eqb k0 k); [done|]. intros H. by rewrite IH.
Qed.

(** A new account goes last and leaves the file in good order. *)
Lemma new_account_well_formed (users : users_json) (k : string)
    (u : jsobject) :
  well_formed users →
  lookup_user users k = None →
  account_ok (k, u) → get u "id" ∉ ids_of users →
  well_formed (saveUsers (assign users k u)).
Proof.
  intros (Hk & Hi & Hok) Hnew Hu Hid.
  rewrite (assign_new _ _ _ Hnew). unfold well_formed.
  rewrite saveUsers_keys, saveUsers_ids. unfold ids_of.
  rewrite !fmap_app. cbn. repeat split.
  - apply NoDup_app. split; [done|]. split; [|apply NoDup_singleton].
    intros x Hx [->|[]%elem_of_nil]%elem_of_cons.
    by apply (lookup_user_None _ _ Hnew).
  - apply NoDup_app. split; [done|]. split; [|apply NoDup_singleton].
    by intros x Hx [->|[]%elem_of_nil]%elem_of_cons.
  - apply saveUsers_ok, Forall_app. split; [done|]. by constructor.
Qed.

(** Good order only looks at the keys and at three properties. *)
Lemma pointwise_well_formed (users' users : users_json) :
  Forall2 (λ a b, a.1 = b.1
                  ∧ ∀ x, ¬ (x ∉ ["email"; "id"; "toObject"]) →
                         get a.2 x = get b.2 x) users' users →
  well_formed users → well_formed users'.
Proof.
  assert (He' : ¬ ("email" ∉ ["email"; "id"; "toObject"])).
  { intros H. apply H, elem_of_cons. by left. }
  assert (Hi' : ¬ ("id" ∉ ["email"; "id"; "toObject"])).
  { intros H. apply H, elem_of_cons. right. apply elem_of_cons. by left. }
  assert (Ht' : ¬ ("toObject" ∉ ["email"; "id"; "toObject"])).
  { intros H. apply H. do 2 (apply elem_of_cons; right).
    apply elem_of_cons. by left. }
  unfold well_formed, ids_of.
  induction 1 as [|[k1 v1] [k2 v2] l1 l2 [Hkey Hv] Hrest IH]; [done|].
  cbn in Hkey, Hv. subst k2. cbn [fmap list_fmap fst snd].
  intros ([Hk1 Hk]%NoDup_cons & [Hi1 Hi]%NoDup_cons
          & [(Ha & Hb & Hc) Hok]%Forall_cons).
  destruct (IH (conj Hk (conj Hi Hok))) as (IHk & IHi & IHok).
  cbn in Ha, Hb, Hc.
  assert (Hkeys : l1.*1 = l2.*1).
  { clear -Hrest. induction Hrest as [|[] [] ? ? [? _] _ IH]; [done|].
    cbn in *. congruence. }
  assert (Hids : ((λ kv, get kv.2 "id") <$> l1)
                 = ((λ kv, get kv.2 "id") <$> l2)).
  { clear -Hrest Hi'. induction Hrest as [|[] [] ? ? [_ Hv] _ IH]; [done|].
    cbn in *. by rewrite IH, Hv. }
  repeat split.
  - apply NoDup_cons. by rewrite Hkeys.
  - apply NoDup_cons. by rewrite Hids, Hv.
  - constructor; [|done]. unfold account_ok. cbn. by rewrite !Hv.
Qed.

(** An account rewritten without a change to its [email], [id] and
    [toObject] leaves the file in good order. *)
Lemma same_account_well_formed (users : users_json) (k : string)
    (u0 u : jsobject) :
  well_formed users →
  lookup_user users k = Some u0 →
  get u "email" = get u0 "email" → get u "id" = get u0 "id" →
  get u "toObject" = get u0 "toObject" →
  well_formed (saveUsers (assign users k u)).
Proof.
  intros Hwf Hu0 He Hid Hto.
  apply (pointwise_well_formed _ users); [|done].
  apply (assign_pointwise _ users k u0 u Hu0).
  intros x Hx. apply dec_stable in Hx.
  repeat (apply elem_of_cons in Hx as [->|Hx]; [done|]).
  by apply elem_of_nil in Hx.
Qed.

Lemma lookup_user_ok (users : users_json) (k : string) (u : jsobject) :
  well_formed users → lookup_user users k = Some u → account_ok (k, u).
Proof.
  intros (_ & _ & Hok) Hu. apply lookup_user_in in Hu.
  by apply (proj1 (Forall_forall _ _) Hok).
Qed.

Lemma new_user_ok (h : Host) (key : string) (name hash : jsval) :
  randomUUID h ≠ "" →
  account_ok (key, {[ "id" := JStr (randomUUID h); "email" := JStr key;
                      "name" := name; "passwordHash" := hash;
                      "createdAt" := JStr (now_iso h) ]}).
Proof.
  intros Hid. unfold account_ok. cbn [fst snd]. repeat split.
  cbn [truthy]. unfold nonempty. apply negb_true_iff.
  by apply String.eqb_neq.
Qed.

Lemma new_google_user_ok (h : Host) (key : string)
    (name googleId picture : jsval) :
  randomUUID h ≠ "" →
  account_ok (key, {[ "id" := JStr (randomUUID h); "email" := JStr key;
                      "name" := name; "googleId" := googleId;
                      "picture" := picture; "passwordHash" := JStr "";
                      "createdAt" := JStr (now_iso h) ]}).
Proof.
  intros Hid. unfold account_ok. cbn [fst snd]. repeat split.
  cbn [truthy]. unfold nonempty. apply negb_true_iff.
  by apply String.eqb_neq.
Qed.

Lemma get_insert_ne (u : jsobject) (k k' : string) (v : jsval) :
  k ≠ k' → get (<[k := v]> u) k' = get u k'.
Proof. intros H. unfold get. by rewrite lookup_insert_ne. Qed.

(** X25.  The file stays in good order.  Whatever register, googleLogin,
    updateProfile and updateApiKeys are called with, a file without a
    repeated key or identifier, whose accounts have their key as [email],
    a truthy [id] and no [toObject], is again such a file after the
    call; provided the identifier drawn for a new account is not empty
    and not already in the file. *)
Theorem users_file_stays_well_formed (h : Host) (users : users_json)
    (c : write_call) :
  well_formed users →
  randomUUID h ≠ "" →
  JStr (randomUUID h) ∉ ids_of users →
  well_formed (file_after h users c).
Proof.
  intros Hwf Hid Hfresh. destruct c as [email password name|googleData
                                       |userId updates|userId keys];
    cbn [file_after].
  - unfold register.
    destruct (lower_trim "email" email) as [key|]; [|done].
    destruct (too_short password) as [[]|]; [done| |done].
    destruct (bcrypt_hash h password) as [hash|]; [|done].
    case_bool_decide as Hex; [done|]. cbn [fst].
    apply new_account_well_formed; [done| |by apply new_user_ok|done].
    destruct (lookup_user users key) eqn:E; [|done].
    exfalso. apply Hex. by eexists.
  - unfold googleLogin.
    destruct (lower_trim "googleData.email" (get googleData "email"))
      as [key|]; [|done].
    destruct (lookup_user users key) as [user|] eqn:Hu; cbn [fst].
    + destruct (negb (truthy (get user "picture"))
                && truthy (get googleData "picture")); [|done].
      apply (same_account_well_formed users key user); [done|done|..];
        by apply get_insert_ne.
    + apply new_account_well_formed; [done|done| |done].
      by apply new_google_user_ok.
  - unfold updateProfile.
    destruct (find_email users userId) as [email|] eqn:Hfind; [|done].
    destruct (nonempty email); [|done].
    destruct (find_email_lookup _ _ _ Hfind) as [u0 Hu0]. rewrite Hu0.
    cbn [fst default from_option id].
    apply (same_account_well_formed users email u0); [done|done|..];
      rewrite get_updates; by rewrite bool_decide_eq_false_2
        by (rewrite list_elem_of_In; cbn; intuition discriminate).
  - unfold updateApiKeys.
    destruct (find_email users userId) as [email|] eqn:Hfind; [|done].
    destruct (nonempty email); [|done].
    destruct (find_email_lookup _ _ _ Hfind) as [u0 Hu0]. rewrite Hu0.
    cbn [fst default from_option id].
    apply (same_account_well_formed users email u0); [done|done|..];
      by rewrite !get_set_if_defined, !bool_decide_eq_false_2 by done.
Qed.

Lemma sanitizeUser_ok (user : jsobject) :
  truthy (get user "id") = true → get user "toObject" = JUndefined →
  ∃ safe, sanitizeUser user = Returned safe.
Proof.
  intros Hid Hto. unfold sanitizeUser. rewrite Hto, Hid. cbn [truthy].
  by eexists.
Qed.

(** X26.  A request that fails leaves the file as it was.  On a file in good
    order, when the register, Google sign-in, profile or settings route
    answers with an error status (or does not answer), it has written
    nothing. *)
Theorem failed_requests_change_nothing (h : Host) (users : users_json)
    (authorization : option string) (body : jsobject) :
  well_formed users →
  randomUUID h ≠ "" →
  Forall (λ out, is_failure out.2 = true → out.1 = users)
    [ Routes.post_register h users body;
      Routes.post_google h users body;
      Routes.put_profile h users authorization body;
      Routes.put_settings_keys h users authorization body ].
Proof.
  intros Hwf Hid.
  repeat apply Forall_cons_2; [| | | |apply Forall_nil_2].
  - unfold Routes.post_register, register.
    destruct (lower_trim "email" (get body "email")) as [key|]; [|done].
    destruct (too_short (get body "password")) as [[]|]; [done| |done].
    destruct (bcrypt_hash h (get body "password")) as [hash|]; [|done].
    case_bool_decide as Hex; [done|]. cbn zeta.
    by rewrite (new_user_profile _ _ _ _ _ Hid).
  - unfold Routes.post_google, googleLogin.
    destruct (lower_trim "googleData.email" (get body "email")) as [key|];
      [|done].
    destruct (lookup_user users key) as [user|] eqn:Hu.
    + destruct (lookup_user_ok _ _ _ Hwf Hu) as (_ & Hi & Ht).
      cbn [fst snd] in Hi, Ht.
      destruct (negb (truthy (get user "picture"))
                && truthy (get body "picture")).
      * destruct (sanitizeUser_ok (<["picture" := get body "picture"]> user))
          as [safe ->]; [by rewrite get_insert_ne..|done].
      * by destruct (sanitizeUser_ok user Hi Ht) as [safe ->].
    + destruct (new_google_user_ok h key
                  (js_or (get body "name") (JStr "")) (get body "googleId")
                  (js_or (get body "picture") (JStr "")) Hid)
        as (_ & Hi & Ht).
      cbn [fst snd] in Hi, Ht.
      by destruct (sanitizeUser_ok _ Hi Ht) as [safe ->].
  - unfold Routes.put_profile, protected.
    destruct (authMiddleware h authorization) as [r|userId]; [done|].
    unfold updateProfile.
    destruct (find_email users userId) as [email|] eqn:Hfind; [|done].
    destruct (nonempty email); [|done].
    destruct (find_email_lookup _ _ _ Hfind) as [u0 Hu0]. rewrite Hu0.
    cbn [default from_option id].
    destruct (lookup_user_ok _ _ _ Hwf Hu0) as (_ & Hi & Ht).
    cbn [fst snd] in Hi, Ht.
    destruct (sanitizeUser_ok
                (foldl (λ user key, set_if_defined key (get body key) user)
                   u0 allowed)) as [safe ->]; [..|done];
      rewrite get_updates; by rewrite bool_decide_eq_false_2
        by (rewrite list_elem_of_In; cbn; intuition discriminate).
  - unfold Routes.put_settings_keys, protected.
    destruct (authMiddleware h authorization) as [r|userId]; [done|].
    unfold updateApiKeys.
    destruct (find_email users userId) as [email|]; [|done].
    by destruct (nonempty email).
Qed.

End GoodOrder.

Lemma users_file_stays_well_formed_witness :
  well_formed
    (file_after host_example users_example
       (Register (JStr "sam@example.org") (JStr "passw0rd") (JStr "Sam"))).
Proof.
  apply users_file_stays_well_formed.
  - repeat split; [apply NoDup_singleton..|by repeat constructor].
  - discriminate.
  - intros [[=]|[]%elem_of_nil]%elem_of_cons.
Defined.

Lemma failed_requests_change_nothing_witness :
  (Routes.post_register host_example users_example
     {[ "email" := JStr "Jane@Example.org"; "password" := JStr "another" ]}).1
  = users_example.
Proof.
  assert (Hwf : well_formed users_example).
  { repeat split; [apply NoDup_singleton..|by repeat constructor]. }
  assert (Hid : FileMode.randomUUID host_example ≠ "") by discriminate.
  pose proof (failed_requests_change_nothing host_example users_example None
                {[ "email" := JStr "Jane@Example.org";
                   "password" := JStr "another" ]} Hwf Hid) as H.
  apply Forall_cons in H as [H _]. by apply H.
Defined.

(* ===================================================================== *)
(** * Where a run waits *)
(* ===================================================================== *)

Section Waits.

Variable w : World.

Lemma sleeps_progress (s : step) (st : status) (m : message) :
  sleeps [progress s st m] = [].
Proof. reflexivity. Qed.

Lemma researchGuest_sleeps (guestName : string) (key : jsval) (isPro : bool) :
  sleeps (trace (researchGuest w guestName key isPro)) = [].
Proof.
  destruct (truthy (js_or key (JStr (env_YOUTUBE_API_KEY w)))) eqn:Hkey.
  - destruct (researchGuest_run w guestName key isPro Hkey) as (reqs & -> & _).
    apply sleeps_calls.
  - unfold researchGuest, createYoutubeClient. by rewrite Hkey.
Qed.

Lemma search_stage_sleeps (searchName : string) (key : jsval) (isPro : bool) :
  sleeps (trace (search_stage (youtube_js w) searchName key isPro)) = [].
Proof.
  destruct (search_stage_run w searchName key isPro) as [-> _].
  rewrite !sleeps_app, sleeps_progress, researchGuest_sleeps.
  by destruct (result _).
Qed.

Lemma transcript_stage_sleeps (ytResult : search_result) :
  sleeps (trace (transcript_stage (youtube_js w) ytResult))
  = replicate (length (sr_interviews ytResult) - 1) 100%N.
Proof.
  rewrite transcript_stage_run.
  destruct (sr_interviews ytResult) as [|v vs] eqn:Hv; [done|].
  cbn [trace fst]. rewrite !sleeps_app, !sleeps_progress, app_nil_r.
  by destruct (fetchTranscripts_run w (v :: vs)) as (_ & _ & _ & ->).
Qed.

Lemma model_watch_stage_sleeps (failed : list video) (key : jsval)
    (isPro : bool) :
  sleeps (trace (model_watch_stage (youtube_js w) failed key isPro))
  = sleeps (trace (analyzeVideosWithGemini w failed key isPro)).
Proof.
  rewrite model_watch_stage_run.
  destruct failed as [|v vs]; [by destruct isPro|].
  cbn [trace fst]. rewrite !sleeps_app, sleeps_progress.
  destruct (result _); by rewrite sleeps_progress, app_nil_r.
Qed.

(** In a paced timeline every wait lasts the delay, and there are no more
    waits than requests. *)
Lemma paced_sleeps (burst : nat) (delay : N) (t : list effect) (run : nat) :
  paced burst delay run (timeline t) = true →
  Forall (λ ms, ms = delay) (sleeps t)
  ∧ length (sleeps t) ≤ length (requests t) + (if run =? 0 then 0 else 1).
Proof.
  revert run. induction t as [|[e|r|ms] t IH]; intros run H.
  - split; [constructor|cbn; lia].
  - by apply IH.
  - change (timeline (Call r :: t)) with (inl r :: timeline t) in H.
    cbn [paced] in H.
    apply andb_true_iff in H as [_ H]. destruct (IH _ H) as [Hall Hlen].
    change (sleeps (Call r :: t)) with (sleeps t).
    change (requests (Call r :: t)) with (r :: requests t).
    split; [exact Hall|]. cbn [length Nat.eqb] in *.
    destruct (run =? 0); lia.
  - change (timeline (Sleep ms :: t)) with (inr ms :: timeline t) in H.
    cbn [paced] in H.
    apply andb_true_iff in H as [[Hrun Hms]%andb_true_iff H].
    destruct (IH _ H) as [Hall Hlen]. apply N.eqb_eq in Hms.
    apply Nat.ltb_lt in Hrun.
    change (sleeps (Sleep ms :: t)) with (ms :: sleeps t).
    change (requests (Sleep ms :: t)) with (requests t).
    split; [by constructor|]. cbn [length Nat.eqb] in *.
    destruct run; [lia|]. cbn [Nat.eqb]. lia.
Qed.

Lemma analyzeVideosWithGemini_sleeps (videos : list video) (key : jsval)
    (isPro : bool) :
  Forall (λ ms, ms = if isPro then 1000%N else 1500%N)
    (sleeps (trace (analyzeVideosWithGemini w videos key isPro)))
  ∧ length (sleeps (trace (analyzeVideosWithGemini w videos key isPro)))
    ≤ length (requests (trace (analyzeVideosWithGemini w videos key isPro))).
Proof.
  assert (paced (if isPro then 3 else 1) (if isPro then 1000%N else 1500%N) 0
            (timeline (trace (analyzeVideosWithGemini w videos key isPro)))
          = true) as H.
  { destruct (truthy (js_or key (JStr (env_GEMINI_API_KEY w)))) eqn:Hkey.
    - unfold analyzeVideosWithGemini. destruct isPro.
      + by eapply pro_loop_paced.
      + by apply free_loop_paced.
    - destruct (analyzeVideosWithGemini_without_key w videos key isPro Hkey)
        as (Hr & Hs & _).
      by rewrite (timeline_quiet _ Hr Hs). }
  destruct (paced_sleeps _ _ _ _ H) as [Hall Hlen].
  split; [exact Hall|]. cbn in Hlen. lia.
Qed.

Lemma backoff_delays_sublist (reply1 reply2 : gen_reply) :
  backoff_delays reply1 reply2 `sublist_of` [5000%N; 10000%N].
Proof.
  unfold backoff_delays. destruct reply1 as [|msg1]; [apply sublist_nil_l|].
  destruct (rate_limit_shaped msg1), reply2 as [|msg2]; cbn;
    try destruct (rate_limit_shaped msg2);
    repeat first [ apply sublist_nil_l | apply sublist_skip
                 | apply sublist_cons ].
Qed.

Lemma deep_analysis_stage_sleeps (searchName : string)
    (transcripts geminiAnalyzed : list content) (context : string)
    (key : jsval) :
  sleeps (trace (deep_analysis_stage w searchName transcripts geminiAnalyzed
                   context key))
  `sublist_of` [5000%N; 10000%N].
Proof.
  destruct (transcripts ++ geminiAnalyzed) as [|c cs] eqn:Hc.
  - unfold deep_analysis_stage. rewrite Hc. apply sublist_nil_l.
  - destruct (deep_analysis_stage_run w searchName transcripts geminiAnalyzed
                context key) as [_ H].
    cbn zeta in H. rewrite Hc in H. destruct H as [_ ->]; [done|].
    apply backoff_delays_sublist.
Qed.

Lemma metadata_fallback_sleeps (searchName : string) (ytResult : search_result)
    (context : string) (key : jsval) (deep : string) :
  sleeps (trace (metadata_fallback w searchName ytResult context key deep))
  = [].
Proof.
  unfold metadata_fallback, analyzeVideoMetadata, generate.
  destruct (negb (nonempty deep) && _); [|done].
  by destruct (generateContent w _).
Qed.

(** X27.  Where a run waits, and for how long.  The waits of a run of
    deepResearch are, in this order: 100 ms between two transcript
    fetches (one less than the videos found); the waits of the
    model-watch stage, of 1500 ms each in Free mode and 1000 ms in Pro
    mode, no more of them than videos found and at most 15 in Free mode;
    and the back-off of the deep analysis, 5 s and then 10 s at most.
    The run waits nowhere else. *)
Theorem research_wait_budget (subject context : string)
    (userKeys : jsobject) :
  ∃ rep watch_waits backoff,
    result (deepResearch w (youtube_js w) subject context userKeys)
    = Returned rep
    ∧ sleeps (trace (deepResearch w (youtube_js w) subject context userKeys))
      = replicate (totalInterviewsFound rep - 1) 100%N
        ++ watch_waits ++ backoff
    ∧ Forall (λ ms, ms = if isPro_of userKeys then 1000%N else 1500%N)
        watch_waits
    ∧ length watch_waits ≤ totalInterviewsFound rep
    ∧ (isPro_of userKeys = false → length watch_waits ≤ 15)
    ∧ backoff `sublist_of` [5000%N; 10000%N].
Proof.
  destruct (deepResearch_as_with w (youtube_js w) subject context userKeys)
    as (r & Hr & -> & ->).
  set (youtubeKey := js_or (get userKeys "youtubeApiKey") (JStr "")) in *.
  set (geminiKey := js_or (get userKeys "geminiApiKey") (JStr "")) in *.
  destruct (deepResearch_real_stages w subject context geminiKey youtubeKey
              (isPro_of userKeys))
    as (r' & deep & Hr' & Hyt & Htr & Hfv & Hga & Hname & Hvs & Hdeep & Ht).
  cbn zeta in *. rewrite Hr in Hr'. injection Hr' as <-.
  set (searchName := corrected_name w subject) in *.
  rewrite <- Hyt in *. rewrite <- Htr in *. rewrite <- Hga in *.
  assert (totalInterviewsFound (run_report r)
          = length (interviews (run_report r))) as Htotal.
  { destruct (deepResearch_with_stages w (youtube_js w) subject context
                geminiKey youtubeKey (isPro_of userKeys))
      as (sn & yt & tr & fv & ga & d & va & web & wiki
          & _ & Hyt' & _ & _ & _ & _ & _ & Hr'' & _).
    rewrite Hr in Hr''. injection Hr'' as ->. cbn.
    by apply (search_stage_unique w) in Hyt' as [_ ->]. }
  destruct (analyzeVideosWithGemini_sleeps (run_failedVideos r) geminiKey
              (isPro_of userKeys)) as [Hall Hlen].
  destruct (analyzeVideosWithGemini_requests w (run_failedVideos r) geminiKey
              (isPro_of userKeys)) as (k & Hk & Hwatch).
  rewrite Hwatch, length_fmap, length_take in Hlen.
  exists (run_report r),
    (sleeps (trace (analyzeVideosWithGemini w (run_failedVideos r) geminiKey
                      (isPro_of userKeys)))),
    (sleeps (trace (deep_analysis_stage w searchName (run_transcripts r)
                      (run_geminiAnalyzed r) context geminiKey))).
  split; [done|]. split; [|split; [|split; [|split]]].
  - rewrite Ht, !sleeps_app, sleeps_progress, name_check_stage_run.
    destruct (web_stage_run w searchName geminiKey) as (web & wiki & ->).
    rewrite search_stage_sleeps, transcript_stage_sleeps,
      model_watch_stage_sleeps, metadata_fallback_sleeps, Hfv.
    cbn [trace fst]. rewrite Htotal, Hvs. cbn [sleeps omap list_omap app].
    rewrite <- Hfv. by rewrite !app_nil_r.
  - exact Hall.
  - rewrite Htotal, Hvs.
    assert (length (run_failedVideos r) ≤ length (sr_interviews (run_ytResult r)))
      as Hle by (rewrite Hfv; apply List.filter_length_le).
    lia.
  - intros Hfree. specialize (Hk Hfree). lia.
  - apply deep_analysis_stage_sleeps.
Qed.

End Waits.

(* ===================================================================== *)
(** * Where the loops of the two modes stop *)
(* ===================================================================== *)

Section LoopStops.

Variable w : World.
Variable key : jsval.
Hypothesis Hkey : gemini_key_configured w key.

Lemma fail_run_app_r (pre vs : list video) (from count : nat) :
  fail_run w vs from count ↔ fail_run w (pre ++ vs) (length pre + from) count.
Proof.
  split; intros H j Hj.
  - destruct (H (j - length pre)) as (v & Hv & Hf); [lia|].
    exists v. split; [|done].
    rewrite lookup_app_r by lia. exact Hv.
  - destruct (H (length pre + j)) as (v & Hv & Hf); [lia|].
    exists v. split; [|done].
    rewrite lookup_app_r in Hv by lia.
    by replace (length pre + j - length pre) with j in Hv by lia.
Qed.

Lemma fail_run_prefix (pre vs : list video) (from count : nat) :
  Forall (watch_fails w) pre → from + count ≤ length pre →
  fail_run w (pre ++ vs) from count.
Proof.
  intros Hall Hle j Hj.
  destruct (lookup_lt_is_Some_2 pre j) as [v Hv]; [lia|].
  exists v. split; [by rewrite lookup_app_l by lia|].
  by eapply Forall_lookup_1 in Hall.
Qed.

(** A window that holds a video whose analysis succeeds is not a run of
    failures. *)
Lemma fail_run_not (vs : list video) (from count p : nat) (v : video) :
  vs !! p = Some v → ¬ watch_fails w v → from ≤ p < from + count →
  ¬ fail_run w vs from count.
Proof.
  intros Hv Hok Hp H. destruct (H p Hp) as (x & Hx & Hf).
  rewrite Hv in Hx. injection Hx as <-. done.
Qed.

(** One turn of the Free-mode loop below the threshold. *)
Lemma free_loop_turn (mcf n skipped i : nat) (v : video) (rest : list video)
    (results : list content) (cf : nat) :
  cf < mcf →
  let next :=
    free_loop w mcf n skipped key (S i) rest
      (match watched w v with Some c => results ++ [c] | None => results end)
      (match watched w v with Some _ => 0 | None => S cf end) in
  let this := free_loop w mcf n skipped key i (v :: rest) results cf in
  requests (trace this) = watch_request v :: requests (trace next)
  ∧ events (trace this)
    = {| ev_step := step_gemini_video; ev_status := Active;
         ev_message := MsgWatchingOne (i + 1) n skipped |}
      :: events (trace next)
  ∧ result this = result next.
Proof.
  intros Hcf. cbn zeta. cbn [free_loop].
  destruct (Nat.leb_spec mcf cf); [lia|].
  run_simpl. rewrite analyzeVideoWithGemini_run.
  unfold gemini_key_configured in Hkey. rewrite Hkey.
  cbn [trace result fst snd].
  destruct (watched w v) as [c|];
    destruct (i <? n - 1); run_simpl;
    rewrite ?requests_app, ?events_app; by repeat split.
Qed.

(** Where the Free-mode loop stops.  [pre] stands for the videos just
    before [rest] whose analyses failed in a row, as counted by the loop.
    The loop asks for the first [k] videos of [rest] and returns the
    analyses it got; it announces each of them, and closes with the error
    event when it stops short.  It stops short only once [mcf] analyses in
    a row have failed, and no such run ends before the last request. *)
Lemma free_loop_stop (mcf n skipped : nat) :
  ∀ (rest pre : list video) (i : nat) (results : list content) (cf : nat),
    Forall (watch_fails w) pre → cf = length pre → cf ≤ mcf →
    let run := free_loop w mcf n skipped key i rest results cf in
    ∃ k, k ≤ length rest
      ∧ requests (trace run) = watch_request <$> take k rest
      ∧ result run = Returned (results ++ omap (watched w) (take k rest))
      ∧ events (trace run)
        = imap (λ j _, {| ev_step := step_gemini_video; ev_status := Active;
                          ev_message := MsgWatchingOne (i + j + 1) n skipped |})
               (take k rest)
          ++ (if k <? length rest
              then [ {| ev_step := step_gemini_video; ev_status := Error;
                        ev_message :=
                          MsgQuotaFree
                            (length (results
                                     ++ omap (watched w) (take k rest))) n |} ]
              else [])
      ∧ (k < length rest →
         mcf ≤ cf + k ∧ fail_run w (pre ++ rest) (cf + k - mcf) mcf)
      ∧ (∀ j, j + mcf < cf + k → ¬ fail_run w (pre ++ rest) j mcf).
Proof.
  induction rest as [|v rest IH]; intros pre i results cf Hpre Hlen Hle;
    cbn zeta.
  { exists 0. cbn. rewrite app_nil_r. repeat split; try done; lia. }
  destruct (decide (mcf ≤ cf)) as [Hstop|Hgo].
  { exists 0. cbn [free_loop]. destruct (Nat.leb_spec mcf cf); [|lia].
    run_simpl. cbn [take omap imap app length Nat.ltb Nat.leb fmap list_fmap].
    rewrite app_nil_r. repeat split; try done; try lia.
    apply fail_run_prefix; [done|lia]. }
  destruct (free_loop_turn mcf n skipped i v rest results cf)
    as (Hq & He & Hr); [lia|].
  cbn zeta in Hq, He, Hr. rewrite Hq, He, Hr. clear Hq He Hr.
  destruct (watched w v) as [c|] eqn:Hv; cbv iota.
  - destruct (IH [] (S i) (results ++ [c]) 0) as (k & Hk & Hq & Hr & He & HA & HB);
      [constructor|done|lia|].
    cbn zeta in Hq, Hr, He. exists (S k). cbn [length take].
    split; [lia|]. split; [by rewrite Hq|]. split.
    { rewrite Hr. cbn [omap list_omap]. rewrite Hv. by rewrite <- app_assoc. }
    split.
    { rewrite He. cbn [imap omap list_omap]. rewrite Hv, <- app_assoc. cbn [app].
      replace (i + 0 + 1) with (i + 1) by lia. f_equal.
      change (S k <? S (length rest)) with (k <? length rest). f_equal.
      apply imap_ext. intros j x _. cbn. do 2 f_equal. lia. }
    assert (Hmid : (pre ++ v :: rest) !! length pre = Some v)
      by (by rewrite lookup_app_r, Nat.sub_diag by lia).
    assert (Hok : ¬ watch_fails w v) by (unfold watch_fails; congruence).
    split.
    + intros Hlt. destruct HA as [HA1 HA2]; [lia|]. split; [lia|].
      cbn [app] in HA2.
      apply (fail_run_app_r (pre ++ [v])) in HA2.
      rewrite <- app_assoc in HA2. cbn [app] in HA2.
      rewrite length_app in HA2. cbn [length] in HA2.
      by replace (length pre + 1 + (0 + k - mcf)) with (cf + S k - mcf)
        in HA2 by lia.
    + intros j Hj Hrun.
      destruct (decide (j ≤ length pre)) as [Hjl|Hjr].
      * eapply (fail_run_not _ j mcf (length pre)); [exact Hmid|done|lia|done].
      * apply (HB (j - (length pre + 1))); [lia|].
        cbn [app]. apply (fail_run_app_r (pre ++ [v])).
        rewrite <- app_assoc. cbn [app]. rewrite length_app. cbn [length].
        by replace (length pre + 1 + (j - (length pre + 1))) with j by lia.
  - destruct (IH (pre ++ [v]) (S i) results (S cf))
      as (k & Hk & Hq & Hr & He & HA & HB).
    { apply Forall_app. split; [done|]. by apply Forall_singleton. }
    { rewrite length_app. cbn [length]. lia. }
    { lia. }
    cbn zeta in Hq, Hr, He. exists (S k). cbn [length take].
    rewrite <- app_assoc in HA, HB. cbn [app] in HA, HB.
    split; [lia|]. split; [by rewrite Hq|]. split.
    { rewrite Hr. cbn [omap list_omap]. by rewrite Hv. }
    split.
    { rewrite He. cbn [imap omap list_omap]. rewrite Hv.
      replace (i + 0 + 1) with (i + 1) by lia. cbn [app]. f_equal.
      change (S k <? S (length rest)) with (k <? length rest). f_equal.
      apply imap_ext. intros j x _. cbn. do 2 f_equal. lia. }
    split.
    + intros Hlt. destruct HA as [HA1 HA2]; [lia|]. split; [lia|].
      by replace (cf + S k - mcf) with (S cf + k - mcf) by lia.
    + intros j Hj. apply HB. lia.
Qed.

(** One turn of the Pro-mode loop on a whole batch, below the threshold:
    the counter grows by 3 when the three analyses fail and is reset
    otherwise. *)
Lemma pro_loop_turn (mcf n i : nat) (v1 v2 v3 : video) (rest : list video)
    (results : list content) (cf : nat) :
  cf < mcf →
  ∃ cf',
    ((watch_fails w v1 ∧ watch_fails w v2 ∧ watch_fails w v3 ∧ cf' = cf + 3)
     ∨ ((∃ p x, [v1; v2; v3] !! p = Some x ∧ ¬ watch_fails w x) ∧ cf' = 0))
    ∧ requests (trace (pro_loop w mcf n key i (v1 :: v2 :: v3 :: rest)
                         results cf))
      = (watch_request <$> [v1; v2; v3])
        ++ requests (trace (pro_loop w mcf n key (i + batchSize) rest
                              (results ++ omap (watched w) [v1; v2; v3]) cf'))
    ∧ result (pro_loop w mcf n key i (v1 :: v2 :: v3 :: rest) results cf)
      = result (pro_loop w mcf n key (i + batchSize) rest
                  (results ++ omap (watched w) [v1; v2; v3]) cf').
Proof.
  intros Hcf. cbn [pro_loop].
  destruct (Nat.leb_spec mcf cf); [lia|].
  unfold batchSize. cbn [firstn take]. run_simpl.
  rewrite mapM_analyze_run by done.
  cbn [trace result fst snd fmap list_fmap omap list_omap].
  unfold watch_fails.
  destruct (watched w v1) as [c1|] eqn:H1, (watched w v2) as [c2|] eqn:H2,
           (watched w v3) as [c3|] eqn:H3;
    cbn [id List.filter negb bool_decide decide_rel length Nat.eqb];
    eexists; (split; [|split]);
    try (destruct (i + 3 <? n); run_simpl; rewrite ?requests_app;
         reflexivity).
  all: first
    [ left; repeat split; reflexivity
    | right; split; [|reflexivity];
      first [ exists 0, v1; split; [reflexivity|congruence]
            | exists 1, v2; split; [reflexivity|congruence]
            | exists 2, v3; split; [reflexivity|congruence] ] ].
Qed.

(** The last turn of the Pro-mode loop, on a batch of one or two videos. *)
Lemma pro_loop_last (mcf n i : nat) (rest : list video)
    (results : list content) (cf : nat) :
  cf < mcf → length rest < 3 →
  requests (trace (pro_loop w mcf n key i rest results cf))
  = watch_request <$> rest
  ∧ result (pro_loop w mcf n key i rest results cf)
    = Returned (results ++ omap (watched w) rest).
Proof.
  intros Hcf Hlen.
  destruct rest as [|v1 [|v2 [|v3 rest]]]; [| | |cbn in Hlen; lia].
  - cbn. by rewrite app_nil_r.
  - cbn [pro_loop]. destruct (Nat.leb_spec mcf cf); [lia|].
    unfold batchSize. cbn [firstn take]. run_simpl.
    rewrite mapM_analyze_run by done.
    cbn [trace result fst snd fmap list_fmap omap list_omap].
    destruct (watched w v1); destruct (i + 3 <? n); run_simpl;
      rewrite ?requests_app; by split.
  - cbn [pro_loop]. destruct (Nat.leb_spec mcf cf); [lia|].
    unfold batchSize. cbn [firstn take]. run_simpl.
    rewrite mapM_analyze_run by done.
    cbn [trace result fst snd fmap list_fmap omap list_omap].
    destruct (watched w v1), (watched w v2); destruct (i + 3 <? n);
      run_simpl; rewrite ?requests_app; by split.
Qed.

Lemma pro_loop_breaker_result (mcf n i : nat) (v : video) (rest : list video)
    (results : list content) (cf : nat) :
  mcf ≤ cf →
  requests (trace (pro_loop w mcf n key i (v :: rest) results cf)) = []
  ∧ result (pro_loop w mcf n key i (v :: rest) results cf) = Returned results.
Proof.
  intros Hcf. cbn [pro_loop]. destruct (Nat.leb_spec mcf cf); [|lia].
  by run_simpl.
Qed.

(** Where the Pro-mode loop stops.  [pre] stands for the batch just before
    [rest] when all its analyses failed (the counter is 3 then), and is
    empty otherwise.  The loop asks for the first [k] videos of [rest] and
    returns the analyses it got.  It stops short only once two batches in
    a row have failed entirely, and no such pair of batches ends before
    the last request. *)
Lemma pro_loop_stop (n : nat) :
  ∀ (bound : nat) (rest pre : list video) (i : nat) (results : list content)
    (cf : nat),
    length rest ≤ bound →
    Forall (watch_fails w) pre → cf = length pre → cf = 0 ∨ cf = 3 →
    let run := pro_loop w 5 n key i rest results cf in
    ∃ k, k ≤ length rest
      ∧ requests (trace run) = watch_request <$> take k rest
      ∧ result run = Returned (results ++ omap (watched w) (take k rest))
      ∧ (k < length rest →
         ∃ j, cf + k = 3 * j + 6 ∧ fail_run w (pre ++ rest) (3 * j) 6)
      ∧ (∀ j, 3 * j + 6 < cf + k → ¬ fail_run w (pre ++ rest) (3 * j) 6).
Proof.
  induction bound as [|bound IH];
    intros rest pre i results cf Hbound Hpre Hlen Hcf; cbn zeta.
  { destruct rest; [|cbn in Hbound; lia]. exists 0. cbn.
    rewrite app_nil_r. repeat split; try done; lia. }
  destruct rest as [|v1 [|v2 [|v3 rest]]].
  - exists 0. cbn. rewrite app_nil_r. repeat split; try done; lia.
  - destruct (pro_loop_last 5 n i [v1] results cf) as [Hq Hr];
      [lia|cbn; lia|].
    exists 1. rewrite Hq, Hr. cbn [length take].
    repeat split; try done; try lia.
  - destruct (pro_loop_last 5 n i [v1; v2] results cf) as [Hq Hr];
      [lia|cbn; lia|].
    exists 2. rewrite Hq, Hr. cbn [length take].
    repeat split; try done; try lia.
  - destruct (pro_loop_turn 5 n i v1 v2 v3 rest results cf)
      as (cf' & Hcase & Hq & Hr); [lia|].
    rewrite Hq, Hr. clear Hq Hr. cbn [length] in Hbound.
    assert (Hsplit : pre ++ v1 :: v2 :: v3 :: rest
                     = (pre ++ [v1; v2; v3]) ++ rest)
      by (by rewrite <- app_assoc).
    assert (Hlen3 : length (pre ++ [v1; v2; v3]) = cf + 3)
      by (rewrite length_app; cbn [length]; lia).
    destruct Hcase as [(H1 & H2 & H3 & ->)|[(p & x & Hp & Hx) ->]].
    + assert (Hall : Forall (watch_fails w) (pre ++ [v1; v2; v3])).
      { apply Forall_app. split; [done|]. by repeat constructor. }
      destruct Hcf as [->| ->].
      * destruct (IH rest (pre ++ [v1; v2; v3]) (i + batchSize)
                    (results ++ omap (watched w) [v1; v2; v3]) 3)
          as (k & Hk & Hq & Hr & HA & HB); [lia|done|lia|by right|].
        cbn zeta in Hq, Hr. rewrite <- Hsplit in HA, HB.
        exists (3 + k). cbn [length take Nat.add].
        split; [lia|]. split; [by rewrite Hq|]. split.
        { rewrite Hr, <- app_assoc.
          change (v1 :: v2 :: v3 :: take k rest)
            with ([v1; v2; v3] ++ take k rest).
          by rewrite omap_app. }
        split.
        { intros Hlt. destruct HA as (j & Hj & Hrun); [lia|].
          exists j. split; [lia|done]. }
        intros j Hj. apply HB. lia.
      * destruct rest as [|v4 rest].
        { exists 3. cbn. repeat split; try done; lia. }
        destruct (pro_loop_breaker_result 5 n (i + batchSize) v4 rest
                    (results ++ omap (watched w) [v1; v2; v3]) (3 + 3))
          as [Hq Hr]; [lia|].
        rewrite Hq, Hr. exists 3. cbn [length take].
        split; [lia|]. split; [by rewrite app_nil_r|]. split; [done|].
        split; [|intros j Hj; lia].
        intros _. exists 0. split; [lia|].
        rewrite Hsplit. apply fail_run_prefix; [done|lia].
    + destruct (IH rest [] (i + batchSize)
                  (results ++ omap (watched w) [v1; v2; v3]) 0)
        as (k & Hk & Hq & Hr & HA & HB); [lia|constructor|done|by left|].
      cbn zeta in Hq, Hr. cbn [app] in HA, HB.
      exists (3 + k). cbn [length take Nat.add].
      split; [lia|]. split; [by rewrite Hq|]. split.
      { rewrite Hr, <- app_assoc.
        change (v1 :: v2 :: v3 :: take k rest)
          with ([v1; v2; v3] ++ take k rest).
        by rewrite omap_app. }
      assert (Hmid : (pre ++ v1 :: v2 :: v3 :: rest) !! (cf + p) = Some x).
      { rewrite lookup_app_r by lia.
        replace (cf + p - length pre) with p by lia.
        apply lookup_lt_Some in Hp as Hp3. cbn [length] in Hp3.
        destruct p as [|[|[|p]]]; try lia; exact Hp. }
      assert (Hp3 : p < 3)
        by (by apply lookup_lt_Some in Hp).
      split.
      * intros Hlt. destruct HA as (j & Hj & Hrun); [lia|].
        exists (j + 1 + cf / 3).
        assert (3 * (j + 1 + cf / 3) = cf + 3 + 3 * j) as Hpos
          by (destruct Hcf as [->| ->]; cbn; lia).
        split; [lia|].
        rewrite Hsplit, Hpos, <- Hlen3. by apply fail_run_app_r.
      * intros j Hj Hrun.
        destruct (decide (3 * j ≤ cf + p)) as [Hjl|Hjr].
        -- destruct (decide (cf + p < 3 * j + 6)) as [Hin|Hout].
           ++ by eapply (fail_run_not _ (3 * j) 6 (cf + p)).
           ++ destruct Hcf as [->| ->]; lia.
        -- assert (∃ j', 3 * j = cf + 3 + 3 * j') as [j' Hj'].
           { destruct Hcf as [->| ->].
             - exists (j - 1). lia.
             - exists (j - 2). lia. }
           apply (HB j'); [lia|].
           rewrite Hsplit, Hj', <- Hlen3 in Hrun.
           by apply fail_run_app_r in Hrun.
Qed.

End LoopStops.

Section SearchStops.

Variable w : World.

Lemma add_items_ext (items : list yt_item) :
  ∀ a b : search_state,
    allVideos a = allVideos b → seenIds a = seenIds b →
    allVideos (add_items items a) = allVideos (add_items items b)
    ∧ seenIds (add_items items a) = seenIds (add_items items b).
Proof.
  induction items as [|x items IH]; intros a b Ha Hs; [done|].
  cbn [add_items]. rewrite Hs.
  destruct (decide (item_videoId x ∈ seenIds b)); apply IH; simpl;
    by rewrite ?Ha, ?Hs.
Qed.

(** One query, when the loop does not stop before it: its request is
    issued, the items of the reply go through the deduplicating loop, and
    the count of quota errors grows by one exactly when the request is
    refused with a quota error. *)
Lemma query_turn (maxResults ordinal : nat) (query : string)
    (st : search_state) :
  let req := YtSearchList ordinal query maxResults in
  ∃ st',
    try_catch
      (let* items := yt_search w ordinal query maxResults in
       match items with
       | Some items => ret (add_items items st)
       | None => ret st
       end)
      (λ err,
         if is_quota_message (err_message err)
         then ret {| allVideos := allVideos st; seenIds := seenIds st;
                     quotaErrors := S (quotaErrors st) |}
         else ret st)
    = ([Call req], Returned st')
    ∧ allVideos st' = allVideos (add_items (reply_items w req) st)
    ∧ seenIds st' = seenIds (add_items (reply_items w req) st)
    ∧ quotaErrors st'
      = quotaErrors st + length (List.filter (quota_refused w) [req]).
Proof.
  cbn zeta. unfold yt_search, reply_items. cbn [List.filter quota_refused].
  destruct (search_list w ordinal query maxResults) as [[items|]|msg].
  - eexists. split; [reflexivity|].
    rewrite add_items_quotaErrors. simpl. repeat split; lia.
  - eexists. split; [reflexivity|]. simpl. repeat split; lia.
  - cbn. destruct (is_quota_message msg);
      (eexists; split; [reflexivity|]); simpl; repeat split; lia.
Qed.

(** Where the query loop stops.  It issues the first [m] queries; it stops
    short only when, after them, the videos collected have reached the cap
    or the quota errors counted have reached the threshold; and after
    fewer queries neither is the case. *)
Lemma query_loop_stop (maxResults : nat) (maxVideoCap : option nat)
    (maxQuotaErrors : nat) (queries : list string) :
  ∀ (ordinal : nat) (st : search_state),
    let asked m :=
      imap (λ i q, YtSearchList (ordinal + i) q maxResults) (take m queries) in
    let collected reqs :=
      length (allVideos (add_items (found_items w reqs) st)) in
    let refused reqs :=
      quotaErrors st + length (List.filter (quota_refused w) reqs) in
    ∃ m, m ≤ length queries
      ∧ requests (trace (query_loop w maxResults maxVideoCap maxQuotaErrors
                           ordinal queries st)) = asked m
      ∧ (m < length queries →
         reached maxVideoCap (collected (asked m)) = true
         ∨ maxQuotaErrors ≤ refused (asked m))
      ∧ (∀ m', m' < m →
           reached maxVideoCap (collected (asked m')) = false
           ∧ refused (asked m') < maxQuotaErrors).
Proof.
  induction queries as [|query rest IH]; intros ordinal st; cbn zeta.
  { exists 0. cbn. repeat split; try done; lia. }
  cbn [query_loop].
  destruct (reached maxVideoCap (length (allVideos st))) eqn:Hcap.
  { exists 0. cbn. repeat split; try lia. by left. }
  destruct (Nat.leb_spec maxQuotaErrors (quotaErrors st)) as [Hq|Hq].
  { exists 0. cbn. repeat split; lia. }
  destruct (query_turn maxResults ordinal query st)
    as (st' & -> & Hav & Hseen & Hqe).
  destruct (IH (S ordinal) st') as (m & Hm & Hreq & Hstop & Hgo).
  cbn zeta in Hreq, Hstop, Hgo.
  set (req := YtSearchList ordinal query maxResults) in *.
  assert (Hasked : ∀ k,
    imap (λ i q, YtSearchList (ordinal + i) q maxResults)
         (take (S k) (query :: rest))
    = req :: imap (λ i q, YtSearchList (S ordinal + i) q maxResults)
               (take k rest)).
  { intros k. cbn [take imap]. rewrite Nat.add_0_r. f_equal.
    apply imap_ext. intros i q _. cbn. f_equal. lia. }
  assert (Hcollected : ∀ reqs,
    length (allVideos (add_items (found_items w (req :: reqs)) st))
    = length (allVideos (add_items (found_items w reqs) st'))).
  { intros reqs. unfold found_items. rewrite bind_cons, add_items_app.
    by destruct (add_items_ext (reqs ≫= reply_items w) _ _ Hav Hseen)
      as [-> _]. }
  assert (Hrefused : ∀ reqs,
    quotaErrors st + length (List.filter (quota_refused w) (req :: reqs))
    = quotaErrors st' + length (List.filter (quota_refused w) reqs)).
  { intros reqs. rewrite Hqe. cbn [List.filter].
    destruct (quota_refused w req); cbn [length]; lia. }
  exists (S m). cbn [length]. split; [lia|]. split.
  { run_simpl. rewrite requests_app, Hreq, Hasked. reflexivity. }
  split.
  - intros Hlt. rewrite Hasked, Hcollected, Hrefused. apply Hstop. lia.
  - intros [|m'] Hm'.
    + cbn. rewrite Hcap. split; [done|lia].
    + rewrite Hasked, Hcollected, Hrefused. apply Hgo. lia.
Qed.

End SearchStops.

(* ===================================================================== *)
(** * C6: the policy of the two modes *)
(* ===================================================================== *)

Section ModePolicy.

Variable w : World.

(** C6.  Whatever the keys, Free mode hands at most the first 15 videos
    to the model, in order, and its search gets at most 3 quota errors.

    With a Gemini key configured.  Free mode, model watch: the loop runs
    over the first 15 videos.  It asks for the first k of them, in order,
    and returns the analyses it got; before each request it announces the
    video with its rank, the number of videos considered and the number
    skipped (the videos beyond the fifteenth); when it stops short (k is
    less than the number considered) it closes with the error-status
    event, and it does so only once three analyses in a row have failed,
    no such run ending before the last request.  Pro mode, model watch:
    no video is left out of the loop, but the circuit breaker applies here
    too: the loop asks for the first k videos, and stops short exactly
    after two batches of three in a row whose analyses all failed, no such
    pair ending before the last request.  So Pro mode analyses every video
    only when no two consecutive batches fail entirely.

    With a YouTube key configured.  Free mode, search: the loop issues the
    first m of the 8 base queries; it stops short only when 3 quota errors
    are counted or 100 videos are collected, and after fewer queries
    neither is the case.  Pro mode, search: all 13 queries are issued,
    whatever number of them is refused with a quota error. *)
Theorem mode_policy (guestName : string) (videos : list video)
    (geminiKey youtubeKey : jsval) :
  let capped := take 15 videos in
  let free := analyzeVideosWithGemini w videos geminiKey false in
  let pro := analyzeVideosWithGemini w videos geminiKey true in
  let free_search :=
    requests (trace (researchGuest w guestName youtubeKey false)) in
  let pro_search :=
    requests (trace (researchGuest w guestName youtubeKey true)) in
  let searched m :=
    imap (λ i q, YtSearchList i q 20) (take m (baseQueries guestName)) in
  let refusals reqs := length (List.filter (quota_refused w) reqs) in
  length capped ≤ 15
  ∧ (∃ k, k ≤ length capped
          ∧ requests (trace free) = watch_request <$> take k capped)
  ∧ refusals free_search ≤ 3
  ∧ (gemini_key_configured w geminiKey →
     (∃ k, k ≤ length capped
        ∧ requests (trace free) = watch_request <$> take k capped
        ∧ result free = Returned (omap (watched w) (take k capped))
        ∧ events (trace free)
          = imap (λ j _, {| ev_step := step_gemini_video;
                            ev_status := Active;
                            ev_message :=
                              MsgWatchingOne (j + 1) (length capped)
                                (length videos - length capped) |})
                 (take k capped)
            ++ (if k <? length capped
                then [ {| ev_step := step_gemini_video; ev_status := Error;
                          ev_message :=
                            MsgQuotaFree
                              (length (omap (watched w) (take k capped)))
                              (length capped) |} ]
                else [])
        ∧ (k < length capped → 3 ≤ k ∧ fail_run w capped (k - 3) 3)
        ∧ (∀ j, j + 3 < k → ¬ fail_run w capped j 3))
     ∧ (∃ k, k ≤ length videos
        ∧ requests (trace pro) = watch_request <$> take k videos
        ∧ result pro = Returned (omap (watched w) (take k videos))
        ∧ (k < length videos →
           ∃ j, k = 3 * j + 6 ∧ fail_run w videos (3 * j) 6)
        ∧ (∀ j, 3 * j + 6 < k → ¬ fail_run w videos (3 * j) 6)))
  ∧ (truthy (js_or youtubeKey (JStr (env_YOUTUBE_API_KEY w))) = true →
     length (baseQueries guestName) = 8
     ∧ (∃ m, m ≤ 8
        ∧ free_search = searched m
        ∧ (m < 8 →
           refusals (searched m) = 3
           ∨ 100 ≤ length (raw_videos w (searched m)))
        ∧ (∀ m', m' < m →
             refusals (searched m') < 3
             ∧ length (raw_videos w (searched m')) < 100))
     ∧ pro_search
       = imap (λ i q, YtSearchList i q 50)
           (baseQueries guestName ++ proExtraQueries guestName)
     ∧ length pro_search = 13).
Proof.
  cbn zeta.
  split; [rewrite length_take; lia|].
  split.
  { unfold analyzeVideosWithGemini.
    destruct (free_loop_requests w 3 (length (take 15 videos))
                (length videos - length (take 15 videos)) geminiKey 0
                (take 15 videos) [] 0) as [k Hk].
    exists (Nat.min k (length (take 15 videos))). split; [lia|].
    rewrite Hk. f_equal.
    destruct (Nat.le_gt_cases k (length (take 15 videos))).
    - by rewrite Nat.min_l by done.
    - rewrite Nat.min_r by lia. by rewrite firstn_all, take_ge by lia. }
  split; [apply researchGuest_free_quota|].
  split.
  - intros Hgemini. split.
    + unfold analyzeVideosWithGemini.
      destruct (free_loop_stop w geminiKey Hgemini 3 (length (take 15 videos))
                  (length videos - length (take 15 videos))
                  (take 15 videos) [] 0 [] 0)
        as (k & Hk & Hq & Hr & He & HA & HB); [constructor|done|lia|].
      cbn zeta in Hq, Hr, He. cbn [app Nat.add] in Hr, He, HA, HB.
      exists k. repeat split; try done; by apply HA.
    + unfold analyzeVideosWithGemini. rewrite firstn_all.
      destruct (pro_loop_stop w geminiKey Hgemini (length videos)
                  (length videos) videos [] 0 [] 0)
        as (k & Hk & Hq & Hr & HA & HB); [lia|constructor|done|by left|].
      cbn zeta in Hq, Hr. cbn [app Nat.add] in Hr, HA, HB.
      by exists k.
  - intros Hyoutube. split; [reflexivity|]. split.
    + destruct (query_loop_stop w 20 (Some 100) 3 (baseQueries guestName)
                  0 no_videos) as (m & Hm & Hq & Hstop & Hgo).
      cbn zeta in Hq, Hstop, Hgo.
      cbn [Nat.add no_videos quotaErrors reached] in Hstop, Hgo.
      fold no_videos in Hstop, Hgo.
      assert (Hreq :
        requests (trace (researchGuest w guestName youtubeKey false))
        = imap (λ i q, YtSearchList i q 20)
            (take m (baseQueries guestName))).
      { unfold researchGuest, createYoutubeClient. rewrite Hyoutube.
        run_simpl. fold no_videos. rewrite !requests_app, Hq.
        destruct (result (query_loop _ _ _ _ _ _ _)) as [st|e];
          [destruct (_ && _)|]; run_simpl; by rewrite ?app_nil_r. }
      assert (Hbound := researchGuest_free_quota w guestName youtubeKey).
      rewrite Hreq in Hbound.
      exists m. split; [exact Hm|]. split; [exact Hreq|]. split.
      * intros Hlt. destruct (Hstop Hlt) as [Hcap|Hquota].
        -- right. by apply Nat.leb_le in Hcap.
        -- left. lia.
      * intros m' Hm'. destruct (Hgo m' Hm') as [Hcap Hquota].
        split; [exact Hquota|]. by apply Nat.leb_gt in Hcap.
    + rewrite (researchGuest_pro_all_queries w _ _ Hyoutube).
      split; [reflexivity|]. by rewrite length_imap.
Qed.

End ModePolicy.

Lemma mode_policy_witness :
  gemini_key_configured world_first_watched (JStr "")
  ∧ truthy (js_or (JStr "") (JStr (env_YOUTUBE_API_KEY world_first_watched)))
    = true
  ∧ (∃ k, k ≤ 2
          ∧ requests (trace (analyzeVideosWithGemini world_first_watched
                               (first_videos 2) (JStr "") true))
            = watch_request <$> take k (first_videos 2))
  ∧ length (requests (trace (researchGuest world_first_watched "Jane Doe"
                               (JStr "") true))) = 13.
Proof.
  assert (gemini_key_configured world_first_watched (JStr "")) as Hg
    by reflexivity.
  assert (truthy (js_or (JStr "")
                    (JStr (env_YOUTUBE_API_KEY world_first_watched))) = true)
    as Hy by reflexivity.
  split; [exact Hg|]. split; [exact Hy|].
  destruct (mode_policy world_first_watched "Jane Doe" (first_videos 2)
              (JStr "") (JStr "")) as (_ & _ & _ & Hwatch & Hsearch).
  split.
  - destruct (Hwatch Hg) as (_ & k & Hk & Hq & _). by exists k.
  - exact (proj2 (proj2 (proj2 (Hsearch Hy)))).
Defined.

(** Pro mode does not analyse all the videos: seven videos whose analyses
    all fail, with a key configured.  The first two batches fail
    entirely, the counter is 6, and the loop stops before the seventh
    video, which is never handed to the model. *)
Lemma pro_mode_leaves_a_video_out :
  let videos := nth_video <$> seq 1 7 in
  gemini_key_configured world_first_watched (JStr "")
  ∧ length videos = 7
  ∧ requests (trace (analyzeVideosWithGemini world_first_watched videos
                       (JStr "") true))
    = watch_request <$> take 6 videos
  ∧ watch_request (nth_video 7)
    ∉ requests (trace (analyzeVideosWithGemini world_first_watched videos
                         (JStr "") true)).
Proof.
  cbn zeta. split; [reflexivity|]. split; [reflexivity|].
  assert (Hq : requests (trace (analyzeVideosWithGemini world_first_watched
                                  (nth_video <$> seq 1 7) (JStr "") true))
               = watch_request <$> take 6 (nth_video <$> seq 1 7))
    by (vm_compute; reflexivity).
  split; [exact Hq|]. rewrite Hq.
  rewrite list_elem_of_In. cbn. intuition discriminate.
Qed.

Example free_mode_stops_at_fifteen :
  length (requests (trace (analyzeVideosWithGemini world_first_watched
                             (replicate 20 (nth_video 0)) (JStr "") false)))
  = 15
  ∧ length (requests (trace (researchGuest world_quota "Jane Doe" (JStr "") false)))
    = 3.
Proof. split; vm_compute; reflexivity. Qed.

(* ===================================================================== *)
(** * The requests of the web stage *)
(* ===================================================================== *)

Section WebStage.

Variable net : Web.Net.

(** webResearch asks the grounded model first and the fallback model only
    when that call fails; it resolves to [null] only when both fail. *)
Lemma webResearch_requests (guestName : string) (geminiKey : jsval) :
  (Web.webResearch net guestName geminiKey).1
  = Web.GroundedSearch guestName
    :: match Web.grounded net guestName geminiKey with
       | Web.GroundedText _ _ => []
       | Web.GroundedError _ => [Web.KnowledgeFallback guestName]
       end.
Proof.
  unfold Web.webResearch.
  by destruct (Web.grounded net guestName geminiKey).
Qed.

(** fetchWikipedia asks for the summary of the name; when the answer is a
    404, for the search and, if that finds a title, for the summary of the
    title; and, when the summary it ends with is usable, for the article.
    It resolves to a text only after the request for the article. *)
Lemma fetchWikipedia_requests (guestName : string) :
  ∃ retry article,
    (Web.fetchWikipedia net guestName).1
    = Web.HttpsGet <$> (Web.SummaryUrl guestName :: retry ++ article)
    ∧ (retry = [] ∨ retry = [Web.SearchUrl guestName]
       ∨ ∃ title, retry = [Web.SearchUrl guestName; Web.SummaryUrl title])
    ∧ (article = [] ∨ ∃ title, article = [Web.FullUrl title])
    ∧ (retry ≠ [] ↔
       ∃ data, Web.https_get net (Web.SummaryUrl guestName)
               = Web.HttpResponse 404 data)
    ∧ ((Web.fetchWikipedia net guestName).2 ≠ None → article ≠ []).
Proof.
  unfold Web.fetchWikipedia, Web.httpsGet, Web.parsed, Web.pure, Web.stop.
  destruct (Web.https_get net (Web.SummaryUrl guestName))
    as [status data|msg] eqn:Hfirst; cbn [Web.and_then fst snd].
  2: { exists [], []. cbn. repeat split; try tauto; try done.
       intros [? [=]]. }
  destruct (Nat.eqb_spec status 404) as [->|Hstatus].
  - (* the summary is not found: search *)
    destruct (Web.https_get net (Web.SearchUrl guestName))
      as [sstatus sdata|smsg]; cbn [Web.and_then fst snd app].
    2: { exists [Web.SearchUrl guestName], []. cbn.
         repeat split; try tauto; try done; eauto. }
    destruct (Web.search_title net sdata) as [[title|]|];
      cbn [Web.and_then fst snd app].
    3: { exists [Web.SearchUrl guestName], []. cbn.
         repeat split; try tauto; try done; eauto. }
    2: { (* no title: the 404 stands *)
         exists [Web.SearchUrl guestName], []. cbn.
         repeat split; try tauto; try done; eauto. }
    destruct (Web.https_get net (Web.SummaryUrl title))
      as [status2 data2|msg2]; cbn [Web.and_then fst snd app].
    2: { exists [Web.SearchUrl guestName; Web.SummaryUrl title], []. cbn.
         repeat split; try done; eauto. }
    destruct (Nat.eqb status2 200); cbn [negb Web.and_then fst snd app].
    2: { exists [Web.SearchUrl guestName; Web.SummaryUrl title], []. cbn.
         repeat split; try done; eauto. }
    destruct (Web.summary_of net data2) as [summary|];
      cbn [Web.and_then fst snd app].
    2: { exists [Web.SearchUrl guestName; Web.SummaryUrl title], []. cbn.
         repeat split; try done; eauto. }
    destruct (negb (nonempty (Web.summary_extract summary))
              || String.eqb (Web.summary_type summary) "disambiguation");
      cbn [Web.and_then fst snd app].
    { exists [Web.SearchUrl guestName; Web.SummaryUrl title], []. cbn.
      repeat split; try done; eauto. }
    exists [Web.SearchUrl guestName; Web.SummaryUrl title],
           [Web.FullUrl (Web.summary_title summary)].
    destruct (Web.https_get net (Web.FullUrl (Web.summary_title summary)))
      as [status3 data3|msg3]; cbn [Web.and_then fst snd app].
    2: { cbn. repeat split; try done; eauto. }
    destruct (Web.page_extract net data3) as [pageContent|]; cbn;
      repeat split; try done; eauto.
  - (* the first answer is kept *)
    cbn [Web.and_then fst snd app].
    assert (Hno : ¬ ∃ data', Web.HttpResponse status data
                             = Web.HttpResponse 404 data')
      by (intros [? [= ? ?]]; done).
    destruct (Nat.eqb status 200); cbn [negb Web.and_then fst snd app].
    2: { exists [], []. cbn. repeat split; try tauto; try done. }
    destruct (Web.summary_of net data) as [summary|];
      cbn [Web.and_then fst snd app].
    2: { exists [], []. cbn. repeat split; try tauto; try done. }
    destruct (negb (nonempty (Web.summary_extract summary))
              || String.eqb (Web.summary_type summary) "disambiguation");
      cbn [Web.and_then fst snd app].
    { exists [], []. cbn. repeat split; try tauto; try done. }
    exists [], [Web.FullUrl (Web.summary_title summary)].
    destruct (Web.https_get net (Web.FullUrl (Web.summary_title summary)))
      as [status3 data3|msg3]; cbn [Web.and_then fst snd app].
    2: { cbn. repeat split; try tauto; try done; eauto. }
    destruct (Web.page_extract net data3) as [pageContent|]; cbn;
      repeat split; try tauto; try done; eauto.
Qed.

Lemma fetchWikipedia_requests_count (guestName : string) :
  1 ≤ length (Web.fetchWikipedia net guestName).1 ≤ 4
  ∧ Forall (λ q, Web.is_https_request q = true)
      (Web.fetchWikipedia net guestName).1.
Proof.
  destruct (fetchWikipedia_requests guestName)
    as (retry & article & -> & Hretry & Harticle & _).
  rewrite length_fmap. cbn [length]. rewrite length_app. split.
  - destruct Hretry as [->|[->|[t ->]]], Harticle as [->|[t' ->]];
      cbn [length]; lia.
  - apply Forall_fmap, Forall_forall. by intros.
Qed.

(** X7.  What one research costs, in requests to the outside.  In a world
    whose web stage runs webResearch and fetchWikipedia on the services of
    [net], the calls of a run are, in this order: the name check; the
    searches (at most 8 in Free mode, 13 in Pro mode); the transcript
    requests (at most 12 for each video found); the videos handed to the
    model (at most 15 in Free mode, and never more than the videos found);
    at most 3 deep analyses and 1 metadata analysis; then one call of
    webResearch and one call of fetchWikipedia, both for the name of the
    report.  The call of webResearch issues one request to the grounded
    model and, only when that fails, a second one to the fallback model;
    the call of fetchWikipedia issues between one and four HTTPS requests,
    the first for the summary of the name. *)
Theorem research_request_budget (w0 : World) (subject context : string)
    (userKeys : jsobject) :
  let w := with_web net w0 in
  let geminiKey := js_or (get userKeys "geminiApiKey") (JStr "") in
  ∃ rep searches fetches watches analyses,
    result (deepResearch w (youtube_js w) subject context userKeys)
    = Returned rep
    ∧ requests (trace (deepResearch w (youtube_js w) subject context userKeys))
      = [GenerateContent (CorrectName subject)]
        ++ searches ++ fetches ++ watches ++ analyses
        ++ [WebResearch (guestName rep); FetchWikipedia (guestName rep)]
    ∧ Forall (λ q, is_search q = true) searches
    ∧ length searches ≤ (if isPro_of userKeys then 13 else 8)
    ∧ Forall (λ q, is_transcript_fetch q = true) fetches
    ∧ length fetches ≤ 12 * totalInterviewsFound rep
    ∧ Forall (λ q, is_watch q = true) watches
    ∧ length watches ≤ totalInterviewsFound rep
    ∧ (isPro_of userKeys = false → length watches ≤ 15)
    ∧ Forall (λ q, is_deep_analysis q || is_metadata_analysis q = true)
        analyses
    ∧ length analyses ≤ 4
    ∧ webResearch w (guestName rep) geminiKey
      = Fulfilled (Web.webResearch net (guestName rep) geminiKey).2
    ∧ fetchWikipedia w (guestName rep)
      = Fulfilled (Web.fetchWikipedia net (guestName rep)).2
    ∧ (Web.webResearch net (guestName rep) geminiKey).1
      = Web.GroundedSearch (guestName rep)
        :: match Web.grounded net (guestName rep) geminiKey with
           | Web.GroundedText _ _ => []
           | Web.GroundedError _ => [Web.KnowledgeFallback (guestName rep)]
           end
    ∧ Forall (λ q, Web.is_model_request q = true)
        (Web.webResearch net (guestName rep) geminiKey).1
    ∧ 1 ≤ length (Web.webResearch net (guestName rep) geminiKey).1 ≤ 2
    ∧ Forall (λ q, Web.is_https_request q = true)
        (Web.fetchWikipedia net (guestName rep)).1
    ∧ 1 ≤ length (Web.fetchWikipedia net (guestName rep)).1 ≤ 4
    ∧ head (Web.fetchWikipedia net (guestName rep)).1
      = Some (Web.HttpsGet (Web.SummaryUrl (guestName rep))).
Proof.
  cbn zeta.
  destruct (research_requests_staged (with_web net w0) subject context
              userKeys)
    as (rep & searches & fetches & watches & analyses & Hr & Hq & H1 & H2
        & H3 & H4 & H5 & H6 & H7 & H8 & H9).
  exists rep, searches, fetches, watches, analyses.
  do 11 (split; [assumption|]).
  split; [reflexivity|]. split; [reflexivity|].
  split; [apply webResearch_requests|]. split.
  { rewrite webResearch_requests.
    destruct (Web.grounded net _ _); by repeat constructor. }
  split.
  { rewrite webResearch_requests.
    destruct (Web.grounded net _ _); cbn [length]; lia. }
  destruct (fetchWikipedia_requests_count (guestName rep)) as [Hlen Hall].
  split; [exact Hall|]. split; [exact Hlen|].
  by destruct (fetchWikipedia_requests (guestName rep))
    as (retry & article & -> & _).
Qed.

End WebStage.

(** The web stage on the services of the example: two model requests, the
    second answering, and four HTTPS requests. *)
Example web_stage_requests_example :
  Web.webResearch net_example "Jane Doe" (JStr "")
  = ([Web.GroundedSearch "Jane Doe"; Web.KnowledgeFallback "Jane Doe"],
     Some {| profile := "BACKGROUND: Jane Doe";
             web_source := "gemini-knowledge"; sources := [] |})
  ∧ (Web.fetchWikipedia net_example "Jane Doe").1
    = [Web.HttpsGet (Web.SummaryUrl "Jane Doe");
       Web.HttpsGet (Web.SearchUrl "Jane Doe");
       Web.HttpsGet (Web.SummaryUrl "Jane Doe (author)");
       Web.HttpsGet (Web.FullUrl "Jane Doe (author)")]
  ∧ (Web.fetchWikipedia net_example "Jane Doe").2
    = Some ("WIKIPEDIA: Jane Doe (author)" +:+ nl +:+ "Author" +:+ nl +:+ nl
            +:+ "SUMMARY: Jane Doe is an author." +:+ nl +:+ nl).
Proof. repeat split; reflexivity. Qed.
